(* ===== verification/_CoqProject ===== *)
-Q . S2P
Prelude.v
KString.v
KernelBase.v
PhysMem.v
Kalloc.v
Vm.v
VmFacts.v
VmMaps.v
VmUser.v
VmCopy.v
VmFork.v
VmFree.v
VmTheorems.v
Proc.v
VmServices.v
KernelLoops.v
ProcFacts.v
Sched.v
MlfqSystem.v
Syscall.v
Trap.v
TrapFacts.v
FsBase.v
FsLogic.v
Bio.v
BioFacts.v
BioCache.v
BioSpecs.v
Log.v
LogFacts.v
LogTheorems.v
LogTx.v
Pipe.v
PipeFacts.v
Fs.v
File.v
Exec.v
SysFile.v
FsTx.v
FsAlloc.v
FsFile.v
FsPath.v
FsInode.v
FsDir.v
FsWrite.v
FsContents.v
FsUpdate.v
FsAtomic.v
KernelDemo.v
MemDemo.v
LogDemo.v
FsDemo.v
ShellBase.v
Lexer.v
Parser.v
Command.v
Jobs.v
JobFacts.v
JobBuiltins.v
JobTheorems.v
Redirect.v
Pipes.v
PipesFacts.v
Demo.v
Prompt.v
Executor.v
ShellSafety.v
Peek.v
Locate.v
Double.v
Hop.v
HopFacts.v
Reveal.v
Spy.v
Snoop.v
Irish.v
ShellDemo.v
BuiltinDemo.v
