(* ===== verification/Prelude.v ===== *)
(** * A verification of the irish shell and of its xv6 schedulers

    The repository has two programs of its own: a job-control shell for Unix
    ([c-shell/]) and a version of the xv6 kernel ([xv6/kernel/]) with three
    schedulers, process accounting and a [waitx] system call.  This library
    translates their core into Rocq and proves what makes it correct.

    ** The kernel

    A kernel function is a state transformer on [kst], the data the process,
    scheduler and trap code shares: the process table, the tick and sequence
    counters, the trap frames, the registers of the hart and the spin locks.
    Its result is a value, a panic, a spin on a lock that another hart holds,
    undefined behaviour, or a [Switch]: the state in which the code called
    [swtch], and how it continues from the state in which it is resumed.  The
    code of a hart is thus a sequence of uninterrupted stretches, and a theorem
    about a stretch holds for whatever the other threads did between two.
    Machine integers are [Z] with the wrap-around written out ([u32], [u64],
    [i32]); pointers into the table are indices.

    - [KString.v]: [string.c], on byte buffers with bounds.
    - [KernelBase.v]: [proc.h], [spinlock.c], the monad and its program logic
      ([wp] for code that returns, [wps] for code that switches).
    - [PhysMem.v]: physical memory, byte by byte; [Kalloc.v]: [kalloc.c];
      [Vm.v]: [vm.c].  [VmFacts.v] to [VmTheorems.v]: page tables as finite maps,
      and what mapping, growing, copying and freeing an address space do.
    - [Proc.v]: [proc.c] without the schedulers.  The allocator, the page
      tables and the file system are the operations of the class [services];
      [VmServices.v] implements its memory part with [Kalloc.v] and [Vm.v].
    - [KernelLoops.v]: rules for the loops over the process table.
    - [ProcFacts.v]: allocation, killing, sleeping and waking, [kwaitx].
    - [Sched.v]: the MLFQ, FIFO and round-robin schedulers of [proc.c], with
      the timer handler and the boost.
    - [MlfqSystem.v]: the MLFQ as a transition system, and its invariant.
    - [Syscall.v]: [syscall.c] and [sysproc.c]; the calls of [sysfile.c] are
      the operations of the class [file_calls].
    - [Trap.v], [TrapFacts.v]: [trap.c], and the clock interrupt.
    - [FsBase.v]: data of the file system layers; [FsLogic.v]: a program logic
      for code that sleeps, with the disk states a crash may leave.
    - [Bio.v]: [sleeplock.c] and [bio.c]; [BioFacts.v], [BioCache.v],
      [BioSpecs.v]: the buffer cache refines a store of blocks.
    - [Log.v]: [log.c]; [LogFacts.v], [LogTheorems.v], [LogTx.v]: commit,
      recovery and transactions.
    - [Fs.v]: [fs.c], every function, with the disk format of [fs.h].
    - [FsTx.v]: code in the middle of a transaction; [FsAlloc.v]: the block
      bitmap; [FsFile.v]: the contents of a file and reading it; [FsWrite.v],
      [FsContents.v], [FsUpdate.v]: writing it; [FsInode.v]: the inode table as a
      map of reference counts; [FsPath.v], [FsDir.v]: paths and directories;
      [FsAtomic.v]: whole operations.
    - [KernelDemo.v], [MemDemo.v], [LogDemo.v], [FsDemo.v]: concrete states on
      which the theorems are applied.

    The MLFQ theorems say which process a turn runs (the head of the highest
    queue that is not empty), what a timer tick does to the running process,
    what a boost does to the table and that a boost comes after at most 48
    ticks; in every reachable state each process is in a valid queue with a
    part of its slice left and a number of its own.  The FIFO and round-robin
    theorems say which process they run next.  The process theorems are the sleep
    protocol (no wakeup between [sleep_prepare] and [sleep] is lost) and what
    [kwaitx] reports and frees.

    The memory theorems: no page is handed out twice or lost; an address space
    that grows or is copied gets pages of its own or is left as it was; what
    [copyout] writes [copyin] reads; a process that is freed returns all pages.
    They speak of one hart at a time in the memory code.

    The log theorems: what [bread] returns is the logical contents of the block;
    a transaction reaches the disk whole or, after a crash at any point and
    recovery, not at all; recovery itself may be interrupted.  They hold for one
    thread in the file system at a time, whatever the other threads do while it
    waits for the disk, and for every driver that transfers the block it is
    asked to ([driver_ok]).

    The file system theorems stand on the log: inside a transaction the blocks
    are a function from numbers to bytes, and an operation is described by what
    it makes of that function.  [balloc] takes the lowest free block, zeroed;
    [readi] returns the contents of a file and [writei] changes them, and no
    other file; [namex] finds the inode a path names and counts its references
    right; an operation between [begin_op] and [end_op] is atomic under crashes.

    ** The shell

    A shell function is a program ([prog]) of system calls.  [step] says what
    each call may answer and what it does to the state [sysst]: the shell's
    globals, its open descriptors, the files' contents, its unreaped children,
    the signal mask, the timer and the terminal.  [sat m s Q E] says that every
    run of [m] from [s], with any answers the system may give, is free of
    undefined behaviour and ends with [Q] (returned) or [E] (process ended);
    [run_prog] runs a program against a given system.  [fork] returns both in
    the parent and in the child, so the theorems cover both processes.

    - [ShellBase.v]: data of the headers, system calls, programs, [sat].
    - [Lexer.v]: [dynstring.c] and [lexer.c], and the grammar of words.
    - [Parser.v]: [parser.c], and the grammar of command lines.
    - [Command.v]: [sequence.c], [bg_exec.c], [executor_run] and the filling of
      the command arrays in [executor_execute_group].
    - [Jobs.v]: [term_control.c] and [activities.c]; [JobBuiltins.v]: [ping.c]
      and [resume.c]; [JobFacts.v], [JobTheorems.v]: the invariant of the job
      table and what the operations do.
    - [Redirect.v]: [redirect.c].
    - [Pipes.v]: [pipes.c] and path resolution of [executor.c];
      [PipesFacts.v]: what a pipeline leaves behind.
    - [Executor.v]: builtins in the shell process, [executor_execute_group] and
      [main.c]; [ShellSafety.v]: the shell as a whole.
    - [Prompt.v], [Peek.v], [Locate.v], [Reveal.v], [Spy.v], [Snoop.v]: the C
      files of these names; [Hop.v], [HopFacts.v]: [hop.c]; [Double.v]: the
      double-precision arithmetic of [hop.c] and [snoop.c].
    - [Irish.v]: the shell with all of its builtins.  The executor is proved
      against the class [builtins] and its contract [builtins_safe], of which
      these are the instance.
    - [Demo.v], [ShellDemo.v], [BuiltinDemo.v]: concrete systems and runs.

    The lexer and the parser are proved equivalent to their grammars, the
    splitting loops to list functions.  The job table has an invariant that all
    operations and the SIGCHLD handler keep.  The redirection and pipeline
    theorems are about descriptors and children: nothing is leaked on any path.
    [ShellSafety.v] and [Irish.v] put them together: no input and no behaviour
    of the system brings the shell to undefined behaviour, as long as the
    directory it is in is not removed.  The theorems about the builtins say what
    they print or keep: the reverse readers of [peek] print what its forward
    reader prints, backwards; [reveal] shows exactly the reachable tree;
    [locate] every executable; [hop] counts visits, finds the best directory
    and reads back the database it wrote; [spy] lists each mapped file once;
    [snoop] counts every call.

    ** Bounds and fuel

    Loops over a table are bounded by its size.  A loop whose length depends on
    the system takes a fuel: the theorems about [resume] and the helper
    processes state a fuel that is enough (the number of unreaped children, the
    length of the input); the lexer's fuel is the length of the line and it is
    proved never to run out; [executor_run] nests at most twice; the readers of
    [peek] need one round per byte at most, those of [hop], [reveal] and [spy]
    one per line or entry, [reveal -t] the depth of the tree, [snoop] one per
    stop of the process.  Safety theorems hold for every fuel, so for every prefix of a run.

    ** Not modelled

    Of the shell: failing allocations; the buffering of stdio; a SIGCHLD
    handler that runs in the middle of another operation (it is one of the
    operations that interleave).  Of xv6: the file table, pipes, [exec], devices,
    boot and user programs; several threads in the file system at once.

    The next parts to model are pipes, the file table and the calls of
    [sysfile.c]. *)

From stdpp Require Import base list gmap strings.
From Stdlib Require Import ZArith Lia.

Open Scope Z_scope.

(** ** Machine integers

    A [uint], [int] or [uint64] is a [Z]; every arithmetic operation of the
    source that can leave the width is followed by one of these. *)

Definition u32 (z : Z) : Z := z mod 2 ^ 32.

Definition u64 (z : Z) : Z := z mod 2 ^ 64.

(** Conversion to a signed 32-bit [int]: two's complement. *)
Definition i32 (z : Z) : Z := (z + 2 ^ 31) mod 2 ^ 32 - 2 ^ 31.

Lemma u32_small z : 0 <= z < 2 ^ 32 -> u32 z = z.
Proof. apply Z.mod_small. Qed.

Lemma u32_range z : 0 <= u32 z < 2 ^ 32.
Proof. apply Z.mod_pos_bound. lia. Qed.

Lemma u64_small z : 0 <= z < 2 ^ 64 -> u64 z = z.
Proof. apply Z.mod_small. Qed.

Lemma u64_range z : 0 <= u64 z < 2 ^ 64.
Proof. apply Z.mod_pos_bound. lia. Qed.

Lemma i32_small z : - 2 ^ 31 <= z < 2 ^ 31 -> i32 z = z.
Proof. intros H. unfold i32. rewrite Z.mod_small; lia. Qed.

Lemma i32_range z : - 2 ^ 31 <= i32 z < 2 ^ 31.
Proof.
  unfold i32. pose proof (Z.mod_pos_bound (z + 2 ^ 31) (2 ^ 32) ltac:(lia)). lia.
Qed.

(** ** Tactics *)

(** Split the innermost conditional or match of the goal or of a hypothesis. *)
Ltac split_if :=
  match goal with
  | |- context [if ?b then _ else _] => destruct b eqn:?
  | H : context [if ?b then _ else _] |- _ => destruct b eqn:?
  end.

(** Turn boolean comparisons on [Z] and [nat] into propositions. *)
Ltac bool_to_prop :=
  repeat match goal with
  | H : (_ && _)%bool = true |- _ => apply andb_true_iff in H as [? ?]
  | H : (_ || _)%bool = false |- _ => apply orb_false_iff in H as [? ?]
  | H : negb _ = true |- _ => apply negb_true_iff in H
  | H : negb _ = false |- _ => apply negb_false_iff in H
  | H : (_ =? _)%Z = true |- _ => apply Z.eqb_eq in H
  | H : (_ =? _)%Z = false |- _ => apply Z.eqb_neq in H
  | H : (_ <? _)%Z = true |- _ => apply Z.ltb_lt in H
  | H : (_ <? _)%Z = false |- _ => apply Z.ltb_ge in H
  | H : (_ <=? _)%Z = true |- _ => apply Z.leb_le in H
  | H : (_ <=? _)%Z = false |- _ => apply Z.leb_gt in H
  | H : (_ =? _)%nat = true |- _ => apply Nat.eqb_eq in H
  | H : (_ =? _)%nat = false |- _ => apply Nat.eqb_neq in H
  | H : (_ <? _)%nat = true |- _ => apply Nat.ltb_lt in H
  | H : (_ <? _)%nat = false |- _ => apply Nat.ltb_ge in H
  | H : (_ <=? _)%nat = true |- _ => apply Nat.leb_le in H
  | H : (_ <=? _)%nat = false |- _ => apply Nat.leb_gt in H
  end.

(** ** Tables with a key

    A list searched for the first element with a given key, whose elements are
    changed in place or added at the end. *)

Section Keyed.

Context {A K : Type} `{EqDecision K} (key : A -> K).

Definition find_key (k : K) (l : list A) : option (nat * A) := list_find (fun x => key x = k) l.

Lemma find_key_alter f i k l : (forall x, key (f x) = key x) ->
  find_key k (alter f i l) =
  match find_key k l with Some (j, x) => Some (j, if decide (i = j) then f x else x) | None => None end.
Proof.
  intros Hf. unfold find_key. revert i. induction l as [|x l IH]; intros i; [done|]. destruct i as [|i]; simpl.
  - rewrite Hf. destruct (decide (key x = k)); [done|]. by destruct (list_find _ l) as [[j y]|].
  - destruct (decide (key x = k)); [done|]. change (list_alter f i l) with (alter f i l). rewrite IH.
    destruct (list_find _ l) as [[j y]|]; [|done]. simpl. destruct (decide (i = j)), (decide (S i = S j)); congruence.
Qed.

Lemma find_key_snoc k l x :
  find_key k (l ++ [x]) =
  match find_key k l with
  | Some r => Some r
  | None => if decide (key x = k) then Some (length l, x) else None
  end.
Proof.
  unfold find_key. destruct (list_find (fun x => key x = k) l) as [[j y]|] eqn:E.
  - by erewrite list_find_app_l by exact E.
  - rewrite list_find_app_r by done. simpl. destruct (decide (key x = k)); [|done]. simpl. do 2 f_equal; lia.
Qed.

Lemma find_key_Some k l i x : find_key k l = Some (i, x) -> l !! i = Some x /\ key x = k.
Proof. unfold find_key. rewrite list_find_Some. tauto. Qed.

Lemma find_key_None k l : find_key k l = None <-> k ∉ map key l.
Proof.
  unfold find_key. rewrite list_find_None, Forall_forall. split.
  - intros H Hk. apply list_elem_of_fmap in Hk as (x & -> & Hx). by apply (H x).
  - intros H x Hx <-. apply H. apply list_elem_of_fmap. eauto.
Qed.

Lemma alter_keys f i l : (forall x, key (f x) = key x) -> map key (alter f i l) = map key l.
Proof.
  intros Hf. revert i. induction l as [|x l IH]; intros [|i]; [done..| |]; simpl; [by rewrite Hf|]. f_equal. apply IH.
Qed.

Lemma nodup_keys_snoc l x : NoDup (map key l) -> find_key (key x) l = None -> NoDup (map key (l ++ [x])).
Proof.
  intros Hd Hn. apply find_key_None in Hn. rewrite map_app. apply NoDup_app. split_and!; [done| |apply NoDup_singleton].
  intros k Hk Hk'%list_elem_of_singleton. by subst.
Qed.

End Keyed.

(** ** Hint databases *)

(** Facts on widths, closed by [auto with width]. *)
Create HintDb width.
#[export] Hint Resolve u32_range u64_range i32_range : width.
