(* ===== verification/KString.v ===== *)
(** * [kernel/string.c]: the kernel's memory and string routines

    Memory is a list of bytes and a pointer an index into it; a load or store
    outside the list is undefined behaviour, [None].  [memmove] takes both of
    its regions from the same memory, so that they may overlap. *)

From stdpp Require Import base list option sets.
From Stdlib Require Import ZArith Lia.
From S2P Require Import Prelude.

Open Scope Z_scope.

(** [(char)c] as a byte. *)
Definition byte (c : Z) : Z := c mod 256.

Definition load (m : list Z) (i : nat) : option Z := m !! i.

Definition store (m : list Z) (i : nat) (v : Z) : option (list Z) :=
  if (i <? length m)%nat then Some (<[i := v]> m) else None.

Fixpoint memset_loop (m : list Z) (dst : nat) (c : Z) (i n : nat) : option (list Z) :=
  match n with
  | O => Some m
  | S n' => m' ← store m (dst + i)%nat (byte c); memset_loop m' dst c (S i) n'
  end.

Definition memset (m : list Z) (dst : nat) (c : Z) (n : nat) : option (list Z) :=
  memset_loop m dst c 0 n.

Fixpoint memcmp (m : list Z) (s1 s2 n : nat) : option Z :=
  match n with
  | O => Some 0
  | S n' =>
      a ← load m s1; b ← load m s2;
      if negb (a =? b) then Some (a - b) else memcmp m (S s1) (S s2) n'
  end.

(** [while (n-- > 0) *--d = *--s;] with [s] and [d] past the end. *)
Fixpoint move_down (m : list Z) (d s n : nat) : option (list Z) :=
  match n with
  | O => Some m
  | S n' => v ← load m (s - 1)%nat; m' ← store m (d - 1)%nat v;
            move_down m' (d - 1)%nat (s - 1)%nat n'
  end.

(** [while (n-- > 0) *d++ = *s++;] *)
Fixpoint move_up (m : list Z) (d s n : nat) : option (list Z) :=
  match n with
  | O => Some m
  | S n' => v ← load m s; m' ← store m d v; move_up m' (S d) (S s) n'
  end.

Definition memmove (m : list Z) (dst src n : nat) : option (list Z) :=
  if (n =? 0)%nat then Some m
  else if ((src <? dst)%nat && (dst <? src + n)%nat)%bool
  then move_down m (dst + n)%nat (src + n)%nat n
  else move_up m dst src n.

Definition memcpy (m : list Z) (dst src n : nat) : option (list Z) := memmove m dst src n.

Fixpoint strncmp (m : list Z) (p q n : nat) : option Z :=
  match n with
  | O => Some 0
  | S n' =>
      a ← load m p; b ← load m q;
      if (negb (a =? 0) && (a =? b))%bool then strncmp m (S p) (S q) n' else Some (a - b)
  end.

(** The copies work on a destination and a source buffer of their own; [i] is
    how far both pointers have moved. *)
Fixpoint pad_loop (s : list Z) (i n : nat) : option (list Z) :=
  match n with
  | O => Some s
  | S n' => s' ← store s i 0; pad_loop s' (S i) n'
  end.

Fixpoint strncpy_loop (s t : list Z) (i n : nat) : option (list Z) :=
  match n with
  | O => Some s
  | S n' =>
      v ← load t i; s' ← store s i v;
      if negb (v =? 0) then strncpy_loop s' t (S i) n' else pad_loop s' (S i) n'
  end.

Definition strncpy (s t : list Z) (n : Z) : option (list Z) := strncpy_loop s t 0 (Z.to_nat n).

Fixpoint safestrcpy_loop (s t : list Z) (i n : nat) : option (list Z) :=
  match n with
  | O => store s i 0
  | S n' =>
      v ← load t i; s' ← store s i v;
      if negb (v =? 0) then safestrcpy_loop s' t (S i) n' else store s' (S i) 0
  end.

Definition safestrcpy (s t : list Z) (n : Z) : option (list Z) :=
  if n <=? 0 then Some s else safestrcpy_loop s t 0 (Z.to_nat n - 1).

(** [fuel] bounds the scan; the length of the memory is enough. *)
Fixpoint strlen_from (fuel : nat) (m : list Z) (s : nat) (n : nat) : option nat :=
  match fuel with
  | O => None
  | S f => v ← load m (s + n)%nat;
           if v =? 0 then Some n else strlen_from f m s (S n)
  end.

Definition strlen (m : list Z) (s : nat) : option nat := strlen_from (S (length m)) m s 0.

(** ** Correctness *)

(** [m] with the bytes [l] written at [d]. *)
Definition splice (m : list Z) (d : nat) (l : list Z) : list Z :=
  take d m ++ l ++ drop (d + length l) m.

Lemma splice_nil m d : splice m d [] = m.
Proof. unfold splice. rewrite Nat.add_0_r. simpl. apply take_drop. Qed.

Lemma length_splice m d l : (d + length l <= length m)%nat -> length (splice m d l) = length m.
Proof. intros H. unfold splice. rewrite !length_app, length_take, length_drop. lia. Qed.

Lemma lookup_splice m d l i : (d + length l <= length m)%nat ->
  splice m d l !! i =
  (if decide (d <= i < d + length l)%nat then l !! (i - d)%nat else m !! i).
Proof.
  intros H. unfold splice. case_decide as Hi.
  - rewrite lookup_app_r by (rewrite length_take; lia).
    rewrite length_take, lookup_app_l by lia. f_equal. lia.
  - destruct (decide (i < d)%nat).
    + rewrite lookup_app_l by (rewrite length_take; lia). by rewrite lookup_take_lt by lia.
    + rewrite lookup_app_r by (rewrite length_take; lia).
      rewrite length_take, lookup_app_r by lia. rewrite lookup_drop. f_equal. lia.
Qed.

(** A memory is a [splice] when it reads as one. *)
Lemma splice_intro m m' d l :
  (d + length l <= length m)%nat ->
  (forall i, m' !! i = (if decide (d <= i < d + length l)%nat then l !! (i - d)%nat else m !! i)) ->
  m' = splice m d l.
Proof. intros Hl H. apply list_eq. intros i. by rewrite H, lookup_splice. Qed.

Lemma store_ok m i v : (i < length m)%nat -> store m i v = Some (<[i := v]> m).
Proof. intros H. unfold store. by rewrite (proj2 (Nat.ltb_lt _ _)). Qed.

Lemma memset_loop_spec n m dst c i :
  (dst + i + n <= length m)%nat ->
  memset_loop m dst c i n = Some (splice m (dst + i) (replicate n (byte c))).
Proof.
  revert m i. induction n as [|n IH]; intros m i H; simpl.
  - by rewrite splice_nil.
  - rewrite store_ok by lia. simpl. rewrite IH by (rewrite length_insert; lia).
    f_equal. apply splice_intro.
    + simpl. rewrite length_replicate. lia.
    + intros j. rewrite lookup_splice by (rewrite length_insert, length_replicate; lia).
      simpl. rewrite length_replicate. repeat case_decide; try lia.
      * replace (j - (dst + i))%nat with (S (j - (dst + S i))) by lia. done.
      * assert (j = (dst + i)%nat) as -> by lia.
        rewrite list_lookup_insert_eq, Nat.sub_diag by lia. done.
      * rewrite list_lookup_insert_ne by lia. done.
Qed.

Lemma move_up_lookup n m d s :
  (d + n <= length m)%nat -> (s + n <= length m)%nat -> (d <= s \/ s + n <= d)%nat ->
  exists m', move_up m d s n = Some m' /\ length m' = length m /\
    forall i, m' !! i = (if decide (d <= i < d + n)%nat then m !! (s + (i - d))%nat else m !! i).
Proof.
  revert m d s. induction n as [|n IH]; intros m d s Hd Hs Hds; simpl.
  - exists m. split_and!; [done|done|]. intros i. case_decide; [lia|done].
  - destruct (lookup_lt_is_Some_2 m s) as [v Hv]; [lia|]. unfold load. rewrite Hv. simpl.
    rewrite store_ok by lia. simpl.
    destruct (IH (<[d := v]> m) (S d) (S s)) as (m' & -> & Hlen & Hm');
      [rewrite length_insert; lia .. | lia |].
    exists m'. rewrite length_insert in Hlen. split_and!; [done|done|].
    intros i. rewrite Hm'. repeat case_decide; try lia.
    + rewrite list_lookup_insert_ne by lia. f_equal. lia.
    + assert (i = d) as -> by lia. rewrite list_lookup_insert_eq by lia.
      by replace (s + (d - d))%nat with s by lia.
    + rewrite list_lookup_insert_ne by lia. done.
Qed.

Lemma move_down_lookup n m d s :
  (d + n <= length m)%nat -> (s < d)%nat ->
  exists m', move_down m (d + n) (s + n) n = Some m' /\ length m' = length m /\
    forall i, m' !! i = (if decide (d <= i < d + n)%nat then m !! (s + (i - d))%nat else m !! i).
Proof.
  revert m. induction n as [|n IH]; intros m Hd Hsd; simpl.
  - exists m. split_and!; [done|done|]. intros i. case_decide; [lia|done].
  - replace (s + S n - 1)%nat with (s + n)%nat by lia.
    replace (d + S n - 1)%nat with (d + n)%nat by lia.
    destruct (lookup_lt_is_Some_2 m (s + n)) as [v Hv]; [lia|]. unfold load. rewrite Hv. simpl.
    rewrite store_ok by lia. simpl.
    destruct (IH (<[(d + n)%nat := v]> m)) as (m' & -> & Hlen & Hm');
      [rewrite length_insert; lia | lia |].
    exists m'. rewrite length_insert in Hlen. split_and!; [done|done|].
    intros i. rewrite Hm'. repeat case_decide; try lia.
    + rewrite list_lookup_insert_ne by lia. done.
    + assert (i = (d + n)%nat) as -> by lia. rewrite list_lookup_insert_eq by lia.
      by replace (s + (d + n - d))%nat with (s + n)%nat by lia.
    + rewrite list_lookup_insert_ne by lia. done.
Qed.

Lemma memmove_lookup (m : list Z) (dst src n : nat) :
  (dst + n <= length m)%nat -> (src + n <= length m)%nat ->
  exists m', memmove m dst src n = Some m' /\ length m' = length m /\
    forall i, m' !! i = (if decide (dst <= i < dst + n)%nat
                         then m !! (src + (i - dst))%nat else m !! i).
Proof.
  intros Hd Hs. unfold memmove. destruct (n =? 0)%nat eqn:E0; bool_to_prop.
  { subst. exists m. split_and!; [done|done|]. intros i. case_decide; [lia|done]. }
  destruct (src <? dst)%nat eqn:E1; [destruct (dst <? src + n)%nat eqn:E2|];
    bool_to_prop; simpl; [apply move_down_lookup | apply move_up_lookup ..]; lia.
Qed.

Lemma lookup_region (m : list Z) s n j : (j < n)%nat -> take n (drop s m) !! j = m !! (s + j)%nat.
Proof. intros H. rewrite lookup_take_lt by done. by rewrite lookup_drop. Qed.

(** [memmove] replaces the destination region by what the source region
    held before the call, also when the two overlap, and touches no byte
    outside the destination. *)
Theorem memmove_spec (m : list Z) (dst src n : nat) :
  (dst + n <= length m)%nat -> (src + n <= length m)%nat ->
  memmove m dst src n = Some (splice m dst (take n (drop src m))).
Proof.
  intros Hd Hs.
  assert (Hlen : length (take n (drop src m)) = n) by (rewrite length_take, length_drop; lia).
  destruct (memmove_lookup m dst src n Hd Hs) as (m' & -> & _ & Hm').
  f_equal. apply splice_intro.
  - rewrite Hlen. lia.
  - intros i. rewrite Hm', Hlen. case_decide; [|done]. rewrite lookup_region by lia. done.
Qed.

Example memmove_overlap_witness :
  memmove [1;2;3;4;5;6] 2 0 4 = Some (splice [1;2;3;4;5;6] 2 (take 4 (drop 0 [1;2;3;4;5;6]))) /\
  splice [1;2;3;4;5;6] 2 (take 4 (drop 0 [1;2;3;4;5;6])) = [1;2;1;2;3;4].
Proof. split; [apply memmove_spec; simpl; lia | reflexivity]. Defined.

(** The C string a buffer holds: the bytes before the first NUL. *)
Fixpoint cstr (l : list Z) : list Z :=
  match l with
  | [] => []
  | c :: l' => if c =? 0 then [] else c :: cstr l'
  end.

Lemma store_app pre c s v : store (pre ++ c :: s) (length pre) v = Some (pre ++ v :: s).
Proof.
  rewrite store_ok by (rewrite length_app; simpl; lia).
  rewrite insert_app_r_alt by lia. by rewrite Nat.sub_diag.
Qed.

Lemma load_app pre c t : load (pre ++ c :: t) (length pre) = Some c.
Proof. unfold load. by rewrite list_lookup_middle. Qed.

(** The copy loop of [safestrcpy] after both pointers have moved over [pre]. *)
Lemma safestrcpy_loop_spec n s t pre :
  (n < length s)%nat -> 0 ∈ t ->
  exists r, safestrcpy_loop (pre ++ s) (pre ++ t) (length pre) n = Some (pre ++ r) /\
    length r = length s /\ cstr r = take n (cstr t) /\ 0 ∈ take (S n) r.
Proof.
  revert s t pre. induction n as [|n IH]; intros s t pre Hs Ht;
    destruct s as [|x s]; simpl in Hs; try lia.
  - simpl. rewrite store_app. eexists. split_and!; [done|done|done|simpl; set_solver].
  - destruct t as [|v t]; [set_solver|]. simpl. rewrite load_app. simpl.
    rewrite store_app. simpl. destruct (v =? 0) eqn:E; simpl.
    + bool_to_prop. subst v. destruct s as [|y s]; simpl in Hs; [lia|].
      replace (pre ++ 0 :: y :: s) with ((pre ++ [0]) ++ y :: s) by by rewrite <- app_assoc.
      replace (S (length pre)) with (length (pre ++ [0])) by (rewrite length_app; simpl; lia).
      rewrite store_app, <- app_assoc. simpl.
      exists (0 :: 0 :: s). split_and!; [done|done|done|simpl; set_solver].
    + replace (pre ++ v :: s) with ((pre ++ [v]) ++ s) by by rewrite <- app_assoc.
      replace (pre ++ v :: t) with ((pre ++ [v]) ++ t) by by rewrite <- app_assoc.
      replace (S (length pre)) with (length (pre ++ [v])) by (rewrite length_app; simpl; lia).
      destruct (IH s t (pre ++ [v])) as (r & -> & Hlen & Hc & H0); [lia| bool_to_prop; set_solver |].
      rewrite <- app_assoc. exists (v :: r). simpl. rewrite E, Hlen, Hc.
      split_and!; [done|done|done|]. apply elem_of_cons. by right.
Qed.

(** C40.  [safestrcpy] into a buffer of at least [n] bytes gives the first [n
    - 1] bytes of the source string, always terminated within the [n] bytes,
    and never accesses memory outside its two buffers. *)
Theorem safestrcpy_spec (s t : list Z) (n : Z) :
  0 < n <= Z.of_nat (length s) -> 0 ∈ t ->
  exists r, safestrcpy s t n = Some r /\ length r = length s /\
    cstr r = take (Z.to_nat n - 1) (cstr t) /\ 0 ∈ take (Z.to_nat n) r.
Proof.
  intros Hn Ht. unfold safestrcpy. destruct (n <=? 0) eqn:E; [bool_to_prop; lia|].
  destruct (safestrcpy_loop_spec (Z.to_nat n - 1) s t []) as (r & Hr & Hl & Hc & H0); [lia|done|].
  exists r. replace (Z.to_nat n) with (S (Z.to_nat n - 1)) at 3 by lia. done.
Qed.

Example safestrcpy_witness :
  exists r, safestrcpy (replicate 4 9) [104;101;108;108;111;0] 4 = Some r /\ length r = 4%nat /\
    cstr r = take 3 (cstr [104;101;108;108;111;0]) /\ 0 ∈ take 4 r.
Proof. apply (safestrcpy_spec (replicate 4 9) [104;101;108;108;111;0] 4); [simpl; lia|set_solver]. Defined.
