(* ===== verification/KernelBase.v ===== *)
(** * The xv6 kernel's process data and its spin locks

    Data of [kernel/proc.h] and [kernel/spinlock.h], the operations of
    [kernel/spinlock.c], and the monad in which the kernel code of the other
    files is written.

    A kernel function runs on one hart.  Its result is [Done] with the new
    state, a [panic], an endless spin on a lock another hart holds, an access
    outside an array ([Undefined]), or [Switch s k]: the code called [swtch]
    in state [s], and continues as [k] in the state it is resumed in.  [wp] is
    total correctness for code that returns without a [swtch]. *)

From stdpp Require Import base list gmap strings.
From Stdlib Require Import ZArith Lia.
From S2P Require Import Prelude.

Open Scope Z_scope.

(** ** Constants: [kernel/param.h] and [kernel/memlayout.h] *)

Definition NPROC : nat := 64.

Definition NOFILE : nat := 16.

Definition ROOTDEV : Z := 1.

Definition PGSIZE : Z := 4096.

Definition MAXVA : Z := Z.shiftl 1 (9 + 9 + 9 + 12 - 1).

Definition TRAMPOLINE : Z := MAXVA - PGSIZE.

Definition TRAPFRAME : Z := TRAMPOLINE - PGSIZE.

Definition KSTACK (p : Z) : Z := TRAMPOLINE - (p + 1) * 2 * PGSIZE.

(** PTE permission bits of [kernel/riscv.h]. *)
Definition PTE_R : Z := Z.shiftl 1 1.

Definition PTE_W : Z := Z.shiftl 1 2.

Definition PTE_X : Z := Z.shiftl 1 3.

Definition SATP_SV39 : Z := Z.shiftl 8 60.

Definition MAKE_SATP (pagetable : Z) : Z := Z.lor SATP_SV39 (Z.shiftr pagetable 12).

(** ** Data of [kernel/proc.h] *)

(** The scheduler chosen by the [SCHEDULER] variable of the Makefile, which
    becomes one of the macros [SCHEDULER_MLFQ] and [SCHEDULER_FIFO] or none. *)
Inductive scheduler_kind := SCHEDULER_MLFQ | SCHEDULER_FIFO | SCHEDULER_RR.

#[export] Instance scheduler_kind_eq : EqDecision scheduler_kind.
Proof. solve_decision. Defined.

(** The build configuration, an implicit argument of the code with [#ifdef]s. *)
Class config := { SCHEDULER : scheduler_kind }.

Inductive procstate := UNUSED | USED | SLEEPING | RUNNABLE | RUNNING | ZOMBIE.

#[export] Instance procstate_eq : EqDecision procstate.
Proof. solve_decision. Defined.

(** A sleep channel is an address; the ones the code names are [&ticks], the
    [struct proc]s, [&log], the sleep locks of buffers and inodes, and the address
    of a field of an allocated object. *)
Inductive chan_t :=
| ChNull | ChTicks | ChProc (p : nat) | ChLog | ChBuf (b : nat) | ChInode (i : nat) | ChAddr (a : Z).

#[export] Instance chan_eq : EqDecision chan_t.
Proof. solve_decision. Defined.

Record context := mkcontext {
  ctx_ra : Z;
  ctx_sp : Z;
  ctx_s0 : Z;
  ctx_s1 : Z;
  ctx_s2 : Z;
  ctx_s3 : Z;
  ctx_s4 : Z;
  ctx_s5 : Z;
  ctx_s6 : Z;
  ctx_s7 : Z;
  ctx_s8 : Z;
  ctx_s9 : Z;
  ctx_s10 : Z;
  ctx_s11 : Z
}.

Record trapframe := mktrapframe {
  kernel_satp : Z;
  kernel_sp : Z;
  kernel_trap : Z;
  epc : Z;
  kernel_hartid : Z;
  tf_ra : Z;
  tf_sp : Z;
  tf_gp : Z;
  tf_tp : Z;
  tf_t0 : Z;
  tf_t1 : Z;
  tf_t2 : Z;
  tf_s0 : Z;
  tf_s1 : Z;
  tf_a0 : Z;
  tf_a1 : Z;
  tf_a2 : Z;
  tf_a3 : Z;
  tf_a4 : Z;
  tf_a5 : Z;
  tf_a6 : Z;
  tf_a7 : Z;
  tf_s2 : Z;
  tf_s3 : Z;
  tf_s4 : Z;
  tf_s5 : Z;
  tf_s6 : Z;
  tf_s7 : Z;
  tf_s8 : Z;
  tf_s9 : Z;
  tf_s10 : Z;
  tf_s11 : Z;
  tf_t3 : Z;
  tf_t4 : Z;
  tf_t5 : Z;
  tf_t6 : Z
}.

Definition set_kernel_satp (v : Z) (r : trapframe) : trapframe :=
  mktrapframe v (kernel_sp r) (kernel_trap r) (epc r) (kernel_hartid r) (tf_ra r) (tf_sp r) (tf_gp r) (tf_tp r) (tf_t0 r) (tf_t1 r) (tf_t2 r) (tf_s0 r) (tf_s1 r) (tf_a0 r) (tf_a1 r) (tf_a2 r) (tf_a3 r) (tf_a4 r) (tf_a5 r) (tf_a6 r) (tf_a7 r) (tf_s2 r) (tf_s3 r) (tf_s4 r) (tf_s5 r) (tf_s6 r) (tf_s7 r) (tf_s8 r) (tf_s9 r) (tf_s10 r) (tf_s11 r) (tf_t3 r) (tf_t4 r) (tf_t5 r) (tf_t6 r).

Definition set_kernel_sp (v : Z) (r : trapframe) : trapframe :=
  mktrapframe (kernel_satp r) v (kernel_trap r) (epc r) (kernel_hartid r) (tf_ra r) (tf_sp r) (tf_gp r) (tf_tp r) (tf_t0 r) (tf_t1 r) (tf_t2 r) (tf_s0 r) (tf_s1 r) (tf_a0 r) (tf_a1 r) (tf_a2 r) (tf_a3 r) (tf_a4 r) (tf_a5 r) (tf_a6 r) (tf_a7 r) (tf_s2 r) (tf_s3 r) (tf_s4 r) (tf_s5 r) (tf_s6 r) (tf_s7 r) (tf_s8 r) (tf_s9 r) (tf_s10 r) (tf_s11 r) (tf_t3 r) (tf_t4 r) (tf_t5 r) (tf_t6 r).

Definition set_kernel_trap (v : Z) (r : trapframe) : trapframe :=
  mktrapframe (kernel_satp r) (kernel_sp r) v (epc r) (kernel_hartid r) (tf_ra r) (tf_sp r) (tf_gp r) (tf_tp r) (tf_t0 r) (tf_t1 r) (tf_t2 r) (tf_s0 r) (tf_s1 r) (tf_a0 r) (tf_a1 r) (tf_a2 r) (tf_a3 r) (tf_a4 r) (tf_a5 r) (tf_a6 r) (tf_a7 r) (tf_s2 r) (tf_s3 r) (tf_s4 r) (tf_s5 r) (tf_s6 r) (tf_s7 r) (tf_s8 r) (tf_s9 r) (tf_s10 r) (tf_s11 r) (tf_t3 r) (tf_t4 r) (tf_t5 r) (tf_t6 r).

Definition set_epc (v : Z) (r : trapframe) : trapframe :=
  mktrapframe (kernel_satp r) (kernel_sp r) (kernel_trap r) v (kernel_hartid r) (tf_ra r) (tf_sp r) (tf_gp r) (tf_tp r) (tf_t0 r) (tf_t1 r) (tf_t2 r) (tf_s0 r) (tf_s1 r) (tf_a0 r) (tf_a1 r) (tf_a2 r) (tf_a3 r) (tf_a4 r) (tf_a5 r) (tf_a6 r) (tf_a7 r) (tf_s2 r) (tf_s3 r) (tf_s4 r) (tf_s5 r) (tf_s6 r) (tf_s7 r) (tf_s8 r) (tf_s9 r) (tf_s10 r) (tf_s11 r) (tf_t3 r) (tf_t4 r) (tf_t5 r) (tf_t6 r).

Definition set_kernel_hartid (v : Z) (r : trapframe) : trapframe :=
  mktrapframe (kernel_satp r) (kernel_sp r) (kernel_trap r) (epc r) v (tf_ra r) (tf_sp r) (tf_gp r) (tf_tp r) (tf_t0 r) (tf_t1 r) (tf_t2 r) (tf_s0 r) (tf_s1 r) (tf_a0 r) (tf_a1 r) (tf_a2 r) (tf_a3 r) (tf_a4 r) (tf_a5 r) (tf_a6 r) (tf_a7 r) (tf_s2 r) (tf_s3 r) (tf_s4 r) (tf_s5 r) (tf_s6 r) (tf_s7 r) (tf_s8 r) (tf_s9 r) (tf_s10 r) (tf_s11 r) (tf_t3 r) (tf_t4 r) (tf_t5 r) (tf_t6 r).

Definition set_tf_a0 (v : Z) (r : trapframe) : trapframe :=
  mktrapframe (kernel_satp r) (kernel_sp r) (kernel_trap r) (epc r) (kernel_hartid r) (tf_ra r) (tf_sp r) (tf_gp r) (tf_tp r) (tf_t0 r) (tf_t1 r) (tf_t2 r) (tf_s0 r) (tf_s1 r) v (tf_a1 r) (tf_a2 r) (tf_a3 r) (tf_a4 r) (tf_a5 r) (tf_a6 r) (tf_a7 r) (tf_s2 r) (tf_s3 r) (tf_s4 r) (tf_s5 r) (tf_s6 r) (tf_s7 r) (tf_s8 r) (tf_s9 r) (tf_s10 r) (tf_s11 r) (tf_t3 r) (tf_t4 r) (tf_t5 r) (tf_t6 r).

Definition set_tf_a1 (v : Z) (r : trapframe) : trapframe :=
  mktrapframe (kernel_satp r) (kernel_sp r) (kernel_trap r) (epc r) (kernel_hartid r) (tf_ra r) (tf_sp r) (tf_gp r) (tf_tp r) (tf_t0 r) (tf_t1 r) (tf_t2 r) (tf_s0 r) (tf_s1 r) (tf_a0 r) v (tf_a2 r) (tf_a3 r) (tf_a4 r) (tf_a5 r) (tf_a6 r) (tf_a7 r) (tf_s2 r) (tf_s3 r) (tf_s4 r) (tf_s5 r) (tf_s6 r) (tf_s7 r) (tf_s8 r) (tf_s9 r) (tf_s10 r) (tf_s11 r) (tf_t3 r) (tf_t4 r) (tf_t5 r) (tf_t6 r).

Definition set_tf_sp (v : Z) (r : trapframe) : trapframe :=
  mktrapframe (kernel_satp r) (kernel_sp r) (kernel_trap r) (epc r) (kernel_hartid r) (tf_ra r) v (tf_gp r) (tf_tp r) (tf_t0 r) (tf_t1 r) (tf_t2 r) (tf_s0 r) (tf_s1 r) (tf_a0 r) (tf_a1 r) (tf_a2 r) (tf_a3 r) (tf_a4 r) (tf_a5 r) (tf_a6 r) (tf_a7 r) (tf_s2 r) (tf_s3 r) (tf_s4 r) (tf_s5 r) (tf_s6 r) (tf_s7 r) (tf_s8 r) (tf_s9 r) (tf_s10 r) (tf_s11 r) (tf_t3 r) (tf_t4 r) (tf_t5 r) (tf_t6 r).

(** [struct proc]; the lock is kept in [hw_locks].  A [struct proc *] is an
    index into [proc], a null pointer is [None], 0 or [ChNull] by its type. *)
Record proc := mkproc {
  p_state : procstate;
  p_chan : chan_t;
  p_killed : Z;
  p_xstate : Z;
  p_pid : Z;
  p_parent : option nat;
  p_kstack : Z;
  p_sz : Z;
  p_pagetable : Z;
  p_trapframe : Z;
  p_context : context;
  p_ofile : list Z;
  p_cwd : Z;
  p_name : list Z;
  p_ctime : Z;
  p_stime : Z;
  p_etime : Z;
  p_rtime : Z;
  mlfq_queue : Z;
  mlfq_ticks_used : Z;
  mlfq_total_ticks : Z;
  mlfq_enter_seq : Z
}.

Definition set_p_state (v : procstate) (r : proc) : proc :=
  mkproc v (p_chan r) (p_killed r) (p_xstate r) (p_pid r) (p_parent r) (p_kstack r) (p_sz r) (p_pagetable r) (p_trapframe r) (p_context r) (p_ofile r) (p_cwd r) (p_name r) (p_ctime r) (p_stime r) (p_etime r) (p_rtime r) (mlfq_queue r) (mlfq_ticks_used r) (mlfq_total_ticks r) (mlfq_enter_seq r).

Definition set_p_chan (v : chan_t) (r : proc) : proc :=
  mkproc (p_state r) v (p_killed r) (p_xstate r) (p_pid r) (p_parent r) (p_kstack r) (p_sz r) (p_pagetable r) (p_trapframe r) (p_context r) (p_ofile r) (p_cwd r) (p_name r) (p_ctime r) (p_stime r) (p_etime r) (p_rtime r) (mlfq_queue r) (mlfq_ticks_used r) (mlfq_total_ticks r) (mlfq_enter_seq r).

Definition set_p_killed (v : Z) (r : proc) : proc :=
  mkproc (p_state r) (p_chan r) v (p_xstate r) (p_pid r) (p_parent r) (p_kstack r) (p_sz r) (p_pagetable r) (p_trapframe r) (p_context r) (p_ofile r) (p_cwd r) (p_name r) (p_ctime r) (p_stime r) (p_etime r) (p_rtime r) (mlfq_queue r) (mlfq_ticks_used r) (mlfq_total_ticks r) (mlfq_enter_seq r).

Definition set_p_xstate (v : Z) (r : proc) : proc :=
  mkproc (p_state r) (p_chan r) (p_killed r) v (p_pid r) (p_parent r) (p_kstack r) (p_sz r) (p_pagetable r) (p_trapframe r) (p_context r) (p_ofile r) (p_cwd r) (p_name r) (p_ctime r) (p_stime r) (p_etime r) (p_rtime r) (mlfq_queue r) (mlfq_ticks_used r) (mlfq_total_ticks r) (mlfq_enter_seq r).

Definition set_p_pid (v : Z) (r : proc) : proc :=
  mkproc (p_state r) (p_chan r) (p_killed r) (p_xstate r) v (p_parent r) (p_kstack r) (p_sz r) (p_pagetable r) (p_trapframe r) (p_context r) (p_ofile r) (p_cwd r) (p_name r) (p_ctime r) (p_stime r) (p_etime r) (p_rtime r) (mlfq_queue r) (mlfq_ticks_used r) (mlfq_total_ticks r) (mlfq_enter_seq r).

Definition set_p_parent (v : option nat) (r : proc) : proc :=
  mkproc (p_state r) (p_chan r) (p_killed r) (p_xstate r) (p_pid r) v (p_kstack r) (p_sz r) (p_pagetable r) (p_trapframe r) (p_context r) (p_ofile r) (p_cwd r) (p_name r) (p_ctime r) (p_stime r) (p_etime r) (p_rtime r) (mlfq_queue r) (mlfq_ticks_used r) (mlfq_total_ticks r) (mlfq_enter_seq r).

Definition set_p_kstack (v : Z) (r : proc) : proc :=
  mkproc (p_state r) (p_chan r) (p_killed r) (p_xstate r) (p_pid r) (p_parent r) v (p_sz r) (p_pagetable r) (p_trapframe r) (p_context r) (p_ofile r) (p_cwd r) (p_name r) (p_ctime r) (p_stime r) (p_etime r) (p_rtime r) (mlfq_queue r) (mlfq_ticks_used r) (mlfq_total_ticks r) (mlfq_enter_seq r).

Definition set_p_sz (v : Z) (r : proc) : proc :=
  mkproc (p_state r) (p_chan r) (p_killed r) (p_xstate r) (p_pid r) (p_parent r) (p_kstack r) v (p_pagetable r) (p_trapframe r) (p_context r) (p_ofile r) (p_cwd r) (p_name r) (p_ctime r) (p_stime r) (p_etime r) (p_rtime r) (mlfq_queue r) (mlfq_ticks_used r) (mlfq_total_ticks r) (mlfq_enter_seq r).

Definition set_p_pagetable (v : Z) (r : proc) : proc :=
  mkproc (p_state r) (p_chan r) (p_killed r) (p_xstate r) (p_pid r) (p_parent r) (p_kstack r) (p_sz r) v (p_trapframe r) (p_context r) (p_ofile r) (p_cwd r) (p_name r) (p_ctime r) (p_stime r) (p_etime r) (p_rtime r) (mlfq_queue r) (mlfq_ticks_used r) (mlfq_total_ticks r) (mlfq_enter_seq r).

Definition set_p_trapframe (v : Z) (r : proc) : proc :=
  mkproc (p_state r) (p_chan r) (p_killed r) (p_xstate r) (p_pid r) (p_parent r) (p_kstack r) (p_sz r) (p_pagetable r) v (p_context r) (p_ofile r) (p_cwd r) (p_name r) (p_ctime r) (p_stime r) (p_etime r) (p_rtime r) (mlfq_queue r) (mlfq_ticks_used r) (mlfq_total_ticks r) (mlfq_enter_seq r).

Definition set_p_context (v : context) (r : proc) : proc :=
  mkproc (p_state r) (p_chan r) (p_killed r) (p_xstate r) (p_pid r) (p_parent r) (p_kstack r) (p_sz r) (p_pagetable r) (p_trapframe r) v (p_ofile r) (p_cwd r) (p_name r) (p_ctime r) (p_stime r) (p_etime r) (p_rtime r) (mlfq_queue r) (mlfq_ticks_used r) (mlfq_total_ticks r) (mlfq_enter_seq r).

Definition set_p_ofile (v : list Z) (r : proc) : proc :=
  mkproc (p_state r) (p_chan r) (p_killed r) (p_xstate r) (p_pid r) (p_parent r) (p_kstack r) (p_sz r) (p_pagetable r) (p_trapframe r) (p_context r) v (p_cwd r) (p_name r) (p_ctime r) (p_stime r) (p_etime r) (p_rtime r) (mlfq_queue r) (mlfq_ticks_used r) (mlfq_total_ticks r) (mlfq_enter_seq r).

Definition set_p_cwd (v : Z) (r : proc) : proc :=
  mkproc (p_state r) (p_chan r) (p_killed r) (p_xstate r) (p_pid r) (p_parent r) (p_kstack r) (p_sz r) (p_pagetable r) (p_trapframe r) (p_context r) (p_ofile r) v (p_name r) (p_ctime r) (p_stime r) (p_etime r) (p_rtime r) (mlfq_queue r) (mlfq_ticks_used r) (mlfq_total_ticks r) (mlfq_enter_seq r).

Definition set_p_name (v : list Z) (r : proc) : proc :=
  mkproc (p_state r) (p_chan r) (p_killed r) (p_xstate r) (p_pid r) (p_parent r) (p_kstack r) (p_sz r) (p_pagetable r) (p_trapframe r) (p_context r) (p_ofile r) (p_cwd r) v (p_ctime r) (p_stime r) (p_etime r) (p_rtime r) (mlfq_queue r) (mlfq_ticks_used r) (mlfq_total_ticks r) (mlfq_enter_seq r).

Definition set_p_ctime (v : Z) (r : proc) : proc :=
  mkproc (p_state r) (p_chan r) (p_killed r) (p_xstate r) (p_pid r) (p_parent r) (p_kstack r) (p_sz r) (p_pagetable r) (p_trapframe r) (p_context r) (p_ofile r) (p_cwd r) (p_name r) v (p_stime r) (p_etime r) (p_rtime r) (mlfq_queue r) (mlfq_ticks_used r) (mlfq_total_ticks r) (mlfq_enter_seq r).

Definition set_p_stime (v : Z) (r : proc) : proc :=
  mkproc (p_state r) (p_chan r) (p_killed r) (p_xstate r) (p_pid r) (p_parent r) (p_kstack r) (p_sz r) (p_pagetable r) (p_trapframe r) (p_context r) (p_ofile r) (p_cwd r) (p_name r) (p_ctime r) v (p_etime r) (p_rtime r) (mlfq_queue r) (mlfq_ticks_used r) (mlfq_total_ticks r) (mlfq_enter_seq r).

Definition set_p_etime (v : Z) (r : proc) : proc :=
  mkproc (p_state r) (p_chan r) (p_killed r) (p_xstate r) (p_pid r) (p_parent r) (p_kstack r) (p_sz r) (p_pagetable r) (p_trapframe r) (p_context r) (p_ofile r) (p_cwd r) (p_name r) (p_ctime r) (p_stime r) v (p_rtime r) (mlfq_queue r) (mlfq_ticks_used r) (mlfq_total_ticks r) (mlfq_enter_seq r).

Definition set_p_rtime (v : Z) (r : proc) : proc :=
  mkproc (p_state r) (p_chan r) (p_killed r) (p_xstate r) (p_pid r) (p_parent r) (p_kstack r) (p_sz r) (p_pagetable r) (p_trapframe r) (p_context r) (p_ofile r) (p_cwd r) (p_name r) (p_ctime r) (p_stime r) (p_etime r) v (mlfq_queue r) (mlfq_ticks_used r) (mlfq_total_ticks r) (mlfq_enter_seq r).

Definition set_mlfq_queue (v : Z) (r : proc) : proc :=
  mkproc (p_state r) (p_chan r) (p_killed r) (p_xstate r) (p_pid r) (p_parent r) (p_kstack r) (p_sz r) (p_pagetable r) (p_trapframe r) (p_context r) (p_ofile r) (p_cwd r) (p_name r) (p_ctime r) (p_stime r) (p_etime r) (p_rtime r) v (mlfq_ticks_used r) (mlfq_total_ticks r) (mlfq_enter_seq r).

Definition set_mlfq_ticks_used (v : Z) (r : proc) : proc :=
  mkproc (p_state r) (p_chan r) (p_killed r) (p_xstate r) (p_pid r) (p_parent r) (p_kstack r) (p_sz r) (p_pagetable r) (p_trapframe r) (p_context r) (p_ofile r) (p_cwd r) (p_name r) (p_ctime r) (p_stime r) (p_etime r) (p_rtime r) (mlfq_queue r) v (mlfq_total_ticks r) (mlfq_enter_seq r).

Definition set_mlfq_total_ticks (v : Z) (r : proc) : proc :=
  mkproc (p_state r) (p_chan r) (p_killed r) (p_xstate r) (p_pid r) (p_parent r) (p_kstack r) (p_sz r) (p_pagetable r) (p_trapframe r) (p_context r) (p_ofile r) (p_cwd r) (p_name r) (p_ctime r) (p_stime r) (p_etime r) (p_rtime r) (mlfq_queue r) (mlfq_ticks_used r) v (mlfq_enter_seq r).

Definition set_mlfq_enter_seq (v : Z) (r : proc) : proc :=
  mkproc (p_state r) (p_chan r) (p_killed r) (p_xstate r) (p_pid r) (p_parent r) (p_kstack r) (p_sz r) (p_pagetable r) (p_trapframe r) (p_context r) (p_ofile r) (p_cwd r) (p_name r) (p_ctime r) (p_stime r) (p_etime r) (p_rtime r) (mlfq_queue r) (mlfq_ticks_used r) (mlfq_total_ticks r) v.

(** [struct cpu] of the hart that executes; its [context] is the continuation
    the hart's scheduler runs under. *)
Record cpu := mkcpu {
  c_proc : option nat;
  c_noff : Z;
  c_intena : bool
}.

Definition set_c_proc (v : option nat) (r : cpu) : cpu :=
  mkcpu v (c_noff r) (c_intena r).

Definition set_c_noff (v : Z) (r : cpu) : cpu :=
  mkcpu (c_proc r) v (c_intena r).

Definition set_c_intena (v : bool) (r : cpu) : cpu :=
  mkcpu (c_proc r) (c_noff r) v.

(** The spin locks of [proc.c] and [trap.c], [kmem.lock] of [kalloc.c],
    [bcache.lock], [log.lock], [ftable.lock], [itable.lock], the spin lock inside
    the sleep lock of a buffer or an inode, and [LAddr a], the lock inside the
    object at address [a]. *)
Inductive lockid :=
| LProc (p : nat) | LPid | LWait | LTicks | LSeq | LKmem
| LBcache | LLog | LFtable | LItable | LBuf (b : nat) | LInode (i : nat) | LAddr (a : Z).

#[export] Instance lockid_eq : EqDecision lockid.
Proof. solve_decision. Defined.

#[export] Instance lockid_countable : Countable lockid.
Proof.
  refine (inj_countable'
    (fun l => match l with
              | LProc p => inl (inl (inl p)) | LBuf b => inl (inr b) | LInode i => inl (inl (inr i)) | LAddr a => inr (inl a)
              | LPid => inr (inr 0%nat) | LWait => inr (inr 1%nat)
              | LTicks => inr (inr 2%nat) | LSeq => inr (inr 3%nat) | LKmem => inr (inr 4%nat)
              | LBcache => inr (inr 5%nat) | LLog => inr (inr 6%nat) | LFtable => inr (inr 7%nat) | LItable => inr (inr 8%nat)
              end)
    (fun x => match x with
              | inl (inl (inl p)) => LProc p | inl (inr b) => LBuf b | inl (inl (inr i)) => LInode i | inr (inl a) => LAddr a
              | inr (inr 0%nat) => LPid | inr (inr 1%nat) => LWait
              | inr (inr 2%nat) => LTicks | inr (inr 3%nat) => LSeq | inr (inr 4%nat) => LKmem
              | inr (inr 5%nat) => LBcache | inr (inr 6%nat) => LLog | inr (inr 7%nat) => LFtable | inr (inr _) => LItable
              end) _).
  by intros [].
Defined.

(** [struct spinlock]; [name] is for debugging only. *)
Record spinlock := mkspinlock { lk_locked : Z; lk_cpu : option nat }.

Definition unlocked : spinlock := mkspinlock 0 None.

(** What [acquire] and [release] touch: the locks, the hart's [struct cpu], and
    the hart's [SSTATUS_SIE] bit; [hw_hart] is the hart's id, its [tp]. *)
Record hw := mkhw {
  hw_locks : gmap lockid spinlock;
  hw_cpu : cpu;
  hw_sie : bool;
  hw_hart : nat
}.

(** The other supervisor registers of the hart, and the bits of [sstatus] the
    trap code reads or writes. *)
Record csr := mkcsr {
  c_spp : bool;
  c_spie : bool;
  c_sepc : Z;
  c_scause : Z;
  c_stval : Z;
  c_stvec : Z;
  c_satp : Z;
  c_time : Z;
  c_stimecmp : Z
}.

Definition set_c_spp (v : bool) (r : csr) : csr :=
  mkcsr v (c_spie r) (c_sepc r) (c_scause r) (c_stval r) (c_stvec r) (c_satp r) (c_time r) (c_stimecmp r).

Definition set_c_spie (v : bool) (r : csr) : csr :=
  mkcsr (c_spp r) v (c_sepc r) (c_scause r) (c_stval r) (c_stvec r) (c_satp r) (c_time r) (c_stimecmp r).

Definition set_c_sepc (v : Z) (r : csr) : csr :=
  mkcsr (c_spp r) (c_spie r) v (c_scause r) (c_stval r) (c_stvec r) (c_satp r) (c_time r) (c_stimecmp r).

Definition set_c_scause (v : Z) (r : csr) : csr :=
  mkcsr (c_spp r) (c_spie r) (c_sepc r) v (c_stval r) (c_stvec r) (c_satp r) (c_time r) (c_stimecmp r).

Definition set_c_stval (v : Z) (r : csr) : csr :=
  mkcsr (c_spp r) (c_spie r) (c_sepc r) (c_scause r) v (c_stvec r) (c_satp r) (c_time r) (c_stimecmp r).

Definition set_c_stvec (v : Z) (r : csr) : csr :=
  mkcsr (c_spp r) (c_spie r) (c_sepc r) (c_scause r) (c_stval r) v (c_satp r) (c_time r) (c_stimecmp r).

Definition set_c_satp (v : Z) (r : csr) : csr :=
  mkcsr (c_spp r) (c_spie r) (c_sepc r) (c_scause r) (c_stval r) (c_stvec r) v (c_time r) (c_stimecmp r).

Definition set_c_time (v : Z) (r : csr) : csr :=
  mkcsr (c_spp r) (c_spie r) (c_sepc r) (c_scause r) (c_stval r) (c_stvec r) (c_satp r) v (c_stimecmp r).

Definition set_c_stimecmp (v : Z) (r : csr) : csr :=
  mkcsr (c_spp r) (c_spie r) (c_sepc r) (c_scause r) (c_stval r) (c_stvec r) (c_satp r) (c_time r) v.

(** A call of [printk]. *)
Inductive parg := PInt (z : Z) | PStr (s : list Z) | PLit (s : string).

Inductive kmsg := Printk (fmt : string) (args : list parg).

Section State.

(** [mem] is the state of the memory and file services the process code calls. *)
Context {mem : Type}.

(** The kernel state the process, scheduler and trap code works on. *)
Record kst := mkkst {
  k_procs : list proc;
  k_initproc : option nat;
  k_nextpid : Z;
  mlfq_global_seq : Z;
  k_ticks : Z;
  k_tfs : gmap Z trapframe;
  k_first : bool;
  k_csr : csr;
  k_out : list kmsg;
  k_mem : mem;
  k_hw : hw
}.

Definition set_k_procs (v : list proc) (r : kst) : kst :=
  mkkst v (k_initproc r) (k_nextpid r) (mlfq_global_seq r) (k_ticks r) (k_tfs r) (k_first r) (k_csr r) (k_out r) (k_mem r) (k_hw r).

Definition set_k_initproc (v : option nat) (r : kst) : kst :=
  mkkst (k_procs r) v (k_nextpid r) (mlfq_global_seq r) (k_ticks r) (k_tfs r) (k_first r) (k_csr r) (k_out r) (k_mem r) (k_hw r).

Definition set_k_nextpid (v : Z) (r : kst) : kst :=
  mkkst (k_procs r) (k_initproc r) v (mlfq_global_seq r) (k_ticks r) (k_tfs r) (k_first r) (k_csr r) (k_out r) (k_mem r) (k_hw r).

Definition set_mlfq_global_seq (v : Z) (r : kst) : kst :=
  mkkst (k_procs r) (k_initproc r) (k_nextpid r) v (k_ticks r) (k_tfs r) (k_first r) (k_csr r) (k_out r) (k_mem r) (k_hw r).

Definition set_k_ticks (v : Z) (r : kst) : kst :=
  mkkst (k_procs r) (k_initproc r) (k_nextpid r) (mlfq_global_seq r) v (k_tfs r) (k_first r) (k_csr r) (k_out r) (k_mem r) (k_hw r).

Definition set_k_tfs (v : gmap Z trapframe) (r : kst) : kst :=
  mkkst (k_procs r) (k_initproc r) (k_nextpid r) (mlfq_global_seq r) (k_ticks r) v (k_first r) (k_csr r) (k_out r) (k_mem r) (k_hw r).

Definition set_k_first (v : bool) (r : kst) : kst :=
  mkkst (k_procs r) (k_initproc r) (k_nextpid r) (mlfq_global_seq r) (k_ticks r) (k_tfs r) v (k_csr r) (k_out r) (k_mem r) (k_hw r).

Definition set_k_csr (v : csr) (r : kst) : kst :=
  mkkst (k_procs r) (k_initproc r) (k_nextpid r) (mlfq_global_seq r) (k_ticks r) (k_tfs r) (k_first r) v (k_out r) (k_mem r) (k_hw r).

Definition set_k_out (v : list kmsg) (r : kst) : kst :=
  mkkst (k_procs r) (k_initproc r) (k_nextpid r) (mlfq_global_seq r) (k_ticks r) (k_tfs r) (k_first r) (k_csr r) v (k_mem r) (k_hw r).

Definition set_k_mem (v : mem) (r : kst) : kst :=
  mkkst (k_procs r) (k_initproc r) (k_nextpid r) (mlfq_global_seq r) (k_ticks r) (k_tfs r) (k_first r) (k_csr r) (k_out r) v (k_hw r).

Definition set_k_hw (v : hw) (r : kst) : kst :=
  mkkst (k_procs r) (k_initproc r) (k_nextpid r) (mlfq_global_seq r) (k_ticks r) (k_tfs r) (k_first r) (k_csr r) (k_out r) (k_mem r) v.
(** ** The monad *)

Inductive run (A : Type) : Type :=
| Done (a : A) (s : kst)
| Panicked (msg : string)
| Spinning (l : lockid)
| Undefined
| OutOfFuel
| Switch (s : kst) (k : kst -> run A).

Arguments Done {A} a s.
Arguments Panicked {A} msg.
Arguments Spinning {A} l.
Arguments Undefined {A}.
Arguments OutOfFuel {A}.
Arguments Switch {A} s k.

Definition M (A : Type) : Type := kst -> run A.

Definition ret {A} (a : A) : M A := fun s => Done a s.

Fixpoint run_bind {A B} (r : run A) (f : A -> M B) : run B :=
  match r with
  | Done a s => f a s
  | Panicked msg => Panicked msg
  | Spinning l => Spinning l
  | Undefined => Undefined
  | OutOfFuel => OutOfFuel
  | Switch s k => Switch s (fun s' => run_bind (k s') f)
  end.

Definition bind {A B} (m : M A) (f : A -> M B) : M B := fun s => run_bind (m s) f.

Definition gets {A} (f : kst -> A) : M A := fun s => Done (f s) s.

Definition modify (f : kst -> kst) : M unit := fun s => Done tt (f s).

Definition panic {A} (msg : string) : M A := fun _ => Panicked msg.

Definition undefined {A} : M A := fun _ => Undefined.

(** Leave the hart to another thread; [s'] is the state of the return. *)
Definition swtch : M unit := fun s => Switch s (fun s' => Done tt s').

End State.

Arguments kst : clear implicits.
Arguments run : clear implicits.
Arguments M : clear implicits.
Arguments Done {mem A} a s.
Arguments Panicked {mem A} msg.
Arguments Spinning {mem A} l.
Arguments Undefined {mem A}.
Arguments OutOfFuel {mem A}.
Arguments Switch {mem A} s k.

Declare Scope kernel_scope.
Delimit Scope kernel_scope with kernel.
Open Scope kernel_scope.

Notation "'let*' x := c 'in' k" := (bind c (fun x => k))
  (at level 10, x name, c at level 100, k at level 200) : kernel_scope.

Notation "c ;; k" := (bind c (fun _ => k))
  (at level 100, k at level 200, right associativity) : kernel_scope.

(** [if (b) m] without an else. *)
Definition when {mem} (b : bool) (m : M mem unit) : M mem unit := if b then m else ret tt.

Section Ops.

Context {mem : Type}.
Implicit Types s : kst mem.

(** A read or write of [proc[i]]; [Undefined] outside the table. *)
Definition getp (i : nat) : M mem proc := fun s =>
  match k_procs s !! i with Some p => Done p s | None => Undefined end.

Definition setp (i : nat) (f : proc -> proc) : M mem unit := fun s =>
  match k_procs s !! i with
  | Some p => Done tt (set_k_procs (<[i := f p]> (k_procs s)) s)
  | None => Undefined
  end.

(** [for (p = proc; p < &proc[NPROC]; p++) body], where [Some r] from the body
    is a [return r] or [goto] out of the loop. *)
Fixpoint for_range {R} (n i : nat) (body : nat -> M mem (option R)) : M mem (option R) :=
  match n with
  | O => ret None
  | S n' => let* r := body i in
            match r with Some x => ret (Some x) | None => for_range n' (S i) body end
  end.

Definition for_procs {R} (body : nat -> M mem (option R)) : M mem (option R) :=
  for_range NPROC 0 body.

(** The same loop with local variables [x]: [inl r] leaves the function with
    [r], [inr x] goes on. *)
Fixpoint for_acc {R X} (n i : nat) (x : X) (body : nat -> X -> M mem (R + X)) : M mem (R + X) :=
  match n with
  | O => ret (inr x)
  | S n' => let* r := body i x in
            match r with inl y => ret (inl y) | inr x' => for_acc n' (S i) x' body end
  end.

Definition printk (fmt : string) (args : list parg) : M mem unit :=
  modify (fun s => set_k_out (k_out s ++ [Printk fmt args]) s).

(** ** [kernel/spinlock.c] *)

Definition set_hw_locks (v : gmap lockid spinlock) (h : hw) : hw :=
  mkhw v (hw_cpu h) (hw_sie h) (hw_hart h).

Definition set_hw_cpu (v : cpu) (h : hw) : hw :=
  mkhw (hw_locks h) v (hw_sie h) (hw_hart h).

Definition set_hw_sie (v : bool) (h : hw) : hw :=
  mkhw (hw_locks h) (hw_cpu h) v (hw_hart h).

Definition gethw {A} (f : hw -> A) : M mem A := gets (fun s => f (k_hw s)).

Definition modhw (f : hw -> hw) : M mem unit := modify (fun s => set_k_hw (f (k_hw s)) s).

(** A lock that was never initialised reads as zero memory: unlocked. *)
Definition get_lock (h : hw) (l : lockid) : spinlock := default unlocked (hw_locks h !! l).

Definition initlock (l : lockid) : M mem unit :=
  modhw (fun h => set_hw_locks (<[l := unlocked]> (hw_locks h)) h).

Definition intr_on : M mem unit := modhw (set_hw_sie true).

Definition intr_off : M mem unit := modhw (set_hw_sie false).

Definition intr_get : M mem bool := gethw hw_sie.

Definition cpuid : M mem nat := gethw hw_hart.

Definition mycpu : M mem cpu := gethw hw_cpu.

Definition modcpu (f : cpu -> cpu) : M mem unit :=
  modhw (fun h => set_hw_cpu (f (hw_cpu h)) h).

Definition holding (l : lockid) : M mem bool :=
  gethw (fun h => (negb (lk_locked (get_lock h l) =? 0)
                   && bool_decide (lk_cpu (get_lock h l) = Some (hw_hart h)))%bool).

Definition push_off : M mem unit :=
  let* old := intr_get in
  intr_off ;;
  let* c := mycpu in
  when (c_noff c =? 0) (modcpu (set_c_intena old)) ;;
  modcpu (fun c => set_c_noff (c_noff c + 1) c).

Definition pop_off : M mem unit :=
  let* on := intr_get in
  if on then panic "pop_off - interruptible" else
  let* c := mycpu in
  if c_noff c <? 1 then panic "pop_off" else
  modcpu (fun c => set_c_noff (c_noff c - 1) c) ;;
  let* c := mycpu in
  when ((c_noff c =? 0) && c_intena c)%bool intr_on.

Definition acquire (l : lockid) : M mem unit :=
  push_off ;;
  let* h := holding l in
  if h then panic "acquire" else
  let* old := gethw (fun h => lk_locked (get_lock h l)) in
  if negb (old =? 0) then (fun _ => Spinning l) else
  let* me := cpuid in
  modhw (fun h => set_hw_locks (<[l := mkspinlock 1 (Some me)]> (hw_locks h)) h).

Definition release (l : lockid) : M mem unit :=
  let* h := holding l in
  if negb h then panic "release" else
  modhw (fun h => set_hw_locks (<[l := unlocked]> (hw_locks h)) h) ;;
  pop_off.

(** [myproc] of [kernel/proc.c]. *)
Definition myproc : M mem (option nat) :=
  push_off ;;
  let* c := mycpu in
  pop_off ;;
  ret (c_proc c).

End Ops.

(** ** Total correctness *)

Definition wp {mem A} (m : M mem A) (s : kst mem) (Q : A -> kst mem -> Prop) : Prop :=
  match m s with Done a s' => Q a s' | _ => False end.

Section Wp.

Context {mem : Type}.
Implicit Types s : kst mem.

Lemma wp_Done {A} (m : M mem A) s Q :
  wp m s Q <-> exists a s', m s = Done a s' /\ Q a s'.
Proof.
  unfold wp. split.
  - destruct (m s); [eauto|done..].
  - intros (a & s' & -> & HQ). done.
Qed.

Lemma wp_eq {A} (m : M mem A) s a s' : wp m s (fun a' t => a' = a /\ t = s') -> m s = Done a s'.
Proof. intros (a1 & s1 & -> & -> & ->)%wp_Done. done. Qed.

Lemma wp_mono {A} (m : M mem A) s (Q Q' : A -> kst mem -> Prop) :
  wp m s Q -> (forall a s', Q a s' -> Q' a s') -> wp m s Q'.
Proof. unfold wp. destruct (m s); auto. Qed.

Lemma wp_ret {A} (a : A) s (Q : A -> kst mem -> Prop) : Q a s -> wp (ret a) s Q.
Proof. done. Qed.

Lemma wp_bind {A B} (m : M mem A) (f : A -> M mem B) s Q :
  wp m s (fun a s' => wp (f a) s' Q) -> wp (bind m f) s Q.
Proof. unfold wp, bind. by destruct (m s). Qed.

Lemma wp_gets {A} (f : kst mem -> A) s Q : Q (f s) s -> wp (gets f) s Q.
Proof. done. Qed.

Lemma wp_modify f s (Q : unit -> kst mem -> Prop) : Q tt (f s) -> wp (modify f) s Q.
Proof. done. Qed.

Lemma wp_getp i p s Q : k_procs s !! i = Some p -> Q p s -> wp (getp i) s Q.
Proof. intros H. unfold wp, getp. by rewrite H. Qed.

Lemma wp_setp i f p s (Q : unit -> kst mem -> Prop) :
  k_procs s !! i = Some p ->
  Q tt (set_k_procs (<[i := f p]> (k_procs s)) s) -> wp (setp i f) s Q.
Proof. intros H. unfold wp, setp. by rewrite H. Qed.

Lemma wp_printk fmt args s (Q : unit -> kst mem -> Prop) :
  Q tt (set_k_out (k_out s ++ [Printk fmt args]) s) -> wp (printk fmt args) s Q.
Proof. done. Qed.

Lemma wp_when b m s (Q : unit -> kst mem -> Prop) :
  (b = true -> wp m s Q) -> (b = false -> Q tt s) -> wp (when b m) s Q.
Proof. destruct b; intros H1 H2; [by apply H1 | apply wp_ret; by apply H2]. Qed.

(** The loop rule: [I k s] holds when [k] iterations are done, [E] when the
    body has left the loop. *)
Lemma wp_for_range {R} (I : nat -> kst mem -> Prop) (E : R -> kst mem -> Prop) n i body s :
  I i s ->
  (forall j s, (i <= j < i + n)%nat -> I j s ->
     wp (body j) s (fun r s' => match r with Some x => E x s' | None => I (S j) s' end)) ->
  wp (for_range n i body) s
     (fun r s' => match r with Some x => E x s' | None => I (i + n)%nat s' end).
Proof.
  revert i s. induction n as [|n IH]; intros i s HI Hbody; simpl.
  - apply wp_ret. by rewrite Nat.add_0_r.
  - apply wp_bind. eapply wp_mono; [apply Hbody; [lia|done]|].
    intros [x|] s' H; [by apply wp_ret|].
    eapply wp_mono; [apply IH; [exact H|]|].
    + intros j t Hj. apply Hbody. lia.
    + intros [x|] t; [done|]. by rewrite Nat.add_succ_comm.
Qed.

Lemma wp_for_acc {R X} (I : nat -> X -> kst mem -> Prop) (E : R -> kst mem -> Prop) n i x body s :
  I i x s ->
  (forall j x s, (i <= j < i + n)%nat -> I j x s ->
     wp (body j x) s (fun r s' => match r with inl y => E y s' | inr x' => I (S j) x' s' end)) ->
  wp (for_acc n i x body) s
     (fun r s' => match r with inl y => E y s' | inr x' => I (i + n)%nat x' s' end).
Proof.
  revert i x s. induction n as [|n IH]; intros i x s HI Hbody; simpl.
  - apply wp_ret. by rewrite Nat.add_0_r.
  - apply wp_bind. eapply wp_mono; [apply Hbody; [lia|done]|].
    intros [y|x'] s' H; [by apply wp_ret|].
    eapply wp_mono; [apply IH; [exact H|]|].
    + intros j x1 t Hj. apply Hbody. lia.
    + intros [y|x1] t; [done|]. by rewrite Nat.add_succ_comm.
Qed.

(** *** Locks

    [hw_acq l h] is [h] with [l] held and interrupts off; [hw_cyc h] is [h]
    after an [acquire] and the [release] of the same lock: the outermost
    [push_off] has recorded the interrupt bit in [intena]. *)

Definition hw_acq (l : lockid) (h : hw) : hw :=
  mkhw (<[l := mkspinlock 1 (Some (hw_hart h))]> (hw_locks h))
       (mkcpu (c_proc (hw_cpu h)) (c_noff (hw_cpu h) + 1)
              (if c_noff (hw_cpu h) =? 0 then hw_sie h else c_intena (hw_cpu h)))
       false (hw_hart h).

Definition hw_cyc (h : hw) : hw :=
  mkhw (hw_locks h)
       (mkcpu (c_proc (hw_cpu h)) (c_noff (hw_cpu h))
              (if c_noff (hw_cpu h) =? 0 then hw_sie h else c_intena (hw_cpu h)))
       (hw_sie h) (hw_hart h).

(** Interrupts are off whenever the hart holds a lock. *)
Definition hw_ok (h : hw) : Prop :=
  0 <= c_noff (hw_cpu h) /\ (0 < c_noff (hw_cpu h) -> hw_sie h = false).

Definition free (h : hw) (l : lockid) : Prop := hw_locks h !! l = Some unlocked.

Lemma hw_ok_acq l h : hw_ok h -> hw_ok (hw_acq l h).
Proof. intros [? ?]. split; simpl; [lia|done]. Qed.

Lemma hw_ok_cyc h : hw_ok h -> hw_ok (hw_cyc h).
Proof. done. Qed.

Lemma free_acq l l' h : l <> l' -> free h l' -> free (hw_acq l h) l'.
Proof. intros Hne H. unfold free. simpl. by rewrite lookup_insert_ne. Qed.

Lemma free_cyc l h : free h l -> free (hw_cyc h) l.
Proof. done. Qed.

Lemma hw_cyc_cyc h : hw_cyc (hw_cyc h) = hw_cyc h.
Proof. unfold hw_cyc. simpl. by destruct (c_noff (hw_cpu h) =? 0). Qed.

Lemma hw_cyc_acq l h : hw_ok h -> hw_cyc (hw_acq l h) = hw_acq l h.
Proof.
  intros [? ?]. unfold hw_cyc, hw_acq. simpl.
  destruct (c_noff (hw_cpu h) + 1 =? 0) eqn:E; [bool_to_prop; lia | done].
Qed.

Lemma hw_acq_cyc l h : hw_acq l (hw_cyc h) = hw_acq l h.
Proof. unfold hw_acq, hw_cyc. simpl. by destruct (c_noff (hw_cpu h) =? 0). Qed.

(** Under another lock a cycle changes nothing. *)
Lemma hw_cyc_held h : 0 < c_noff (hw_cpu h) -> hw_cyc h = h.
Proof.
  destruct h as [? [? n ?] ? ?]. unfold hw_cyc. simpl. intros Hn.
  destruct (n =? 0) eqn:E; [bool_to_prop; lia|done].
Qed.

Lemma hw_acq_noff l h : hw_ok h -> 0 < c_noff (hw_cpu (hw_acq l h)).
Proof. intros [? _]. simpl. lia. Qed.

Lemma set_hw_id s : set_k_hw (k_hw s) s = s.
Proof. by destruct s. Qed.

Lemma wp_push_off s (Q : unit -> kst mem -> Prop) :
  Q tt (set_k_hw (mkhw (hw_locks (k_hw s)) (hw_cpu (hw_acq LPid (k_hw s))) false
                       (hw_hart (k_hw s))) s) ->
  wp push_off s Q.
Proof.
  unfold wp, push_off, when, mycpu, modcpu, intr_off, intr_get, modhw, gethw, gets, modify, bind, ret.
  simpl. destruct (c_noff (hw_cpu (k_hw s)) =? 0); simpl; done.
Qed.

Lemma pop_off_acq l h (s : kst mem) : hw_ok h ->
  k_hw s = set_hw_locks (hw_locks h) (hw_acq l h) ->
  pop_off s = Done tt (set_k_hw (hw_cyc h) s).
Proof.
  destruct s, h as [locks [cp n ie] sie hart]. intros [Hn Hsie] Hs. simpl in *. subst.
  cbv [pop_off when mycpu modcpu intr_on intr_get modhw gethw gets modify bind ret run_bind
       set_hw_locks hw_acq k_hw hw_sie hw_cpu c_noff c_intena set_k_hw set_hw_cpu set_c_noff
       set_hw_sie hw_cyc hw_locks hw_hart c_proc k_procs k_initproc k_nextpid mlfq_global_seq
       k_ticks k_tfs k_first k_csr k_out k_mem].
  destruct (n + 1 <? 1) eqn:E; [bool_to_prop; lia|].
  replace (n + 1 - 1) with n by lia.
  destruct (n =? 0) eqn:E2; [by destruct sie|].
  rewrite Hsie; [done | bool_to_prop; lia].
Qed.

Lemma wp_acquire l s (Q : unit -> kst mem -> Prop) :
  free (k_hw s) l -> Q tt (set_k_hw (hw_acq l (k_hw s)) s) -> wp (acquire l) s Q.
Proof.
  intros Hf HQ. unfold acquire. apply wp_bind, wp_push_off.
  unfold wp, holding, cpuid, modhw, gethw, gets, modify, bind, get_lock. simpl.
  rewrite Hf. simpl. rewrite Hf. simpl. done.
Qed.

Lemma wp_release l h s (Q : unit -> kst mem -> Prop) :
  k_hw s = hw_acq l h -> hw_ok h -> free h l ->
  Q tt (set_k_hw (hw_cyc h) s) -> wp (release l) s Q.
Proof.
  intros Hs Hok Hf HQ.
  unfold wp, release, holding, gethw, gets, modhw, modify, bind, get_lock. simpl.
  rewrite Hs. simpl. rewrite !lookup_insert_eq. simpl.
  rewrite bool_decide_true by done. simpl.
  rewrite (pop_off_acq l h); [done | done |]. simpl.
  rewrite Hs. unfold set_hw_locks, hw_acq. simpl.
  rewrite insert_insert_eq, insert_id by exact Hf. done.
Qed.

Lemma wp_myproc s (Q : option nat -> kst mem -> Prop) :
  hw_ok (k_hw s) -> Q (c_proc (hw_cpu (k_hw s))) (set_k_hw (hw_cyc (k_hw s)) s) -> wp myproc s Q.
Proof.
  intros Hok HQ. unfold myproc. apply wp_bind, wp_push_off.
  unfold wp, mycpu, gethw, gets, bind, ret. simpl.
  rewrite (pop_off_acq LPid (k_hw s)); done.
Qed.

End Wp.

(** ** Code that switches

    [wps m s QD QS]: [m] returns with [QD], or switches with [QS] of the state
    it leaves behind and of how it goes on. *)

Definition wps {mem A} (m : M mem A) (s : kst mem) (QD : A -> kst mem -> Prop)
    (QS : kst mem -> (kst mem -> run mem A) -> Prop) : Prop :=
  match m s with Done a s' => QD a s' | Switch s' k => QS s' k | _ => False end.

Section Wps.

Context {mem : Type}.
Implicit Types s : kst mem.

Lemma wps_wp {A} (m : M mem A) s QD QS : wp m s QD -> wps m s QD QS.
Proof. unfold wp, wps. by destruct (m s). Qed.

Lemma wps_bind {A B} (m : M mem A) (f : A -> M mem B) s QD QS :
  wps m s (fun a s' => wps (f a) s' QD QS)
          (fun s' k => QS s' (fun t => run_bind (k t) f)) ->
  wps (bind m f) s QD QS.
Proof. unfold wps, bind. by destruct (m s). Qed.

Lemma wps_swtch s QD QS : QS s (fun t : kst mem => Done tt t) -> wps swtch s QD QS.
Proof. done. Qed.

Lemma wps_mono {A} (m : M mem A) s (QD QD' : A -> kst mem -> Prop) (QS QS' : kst mem -> (kst mem -> run mem A) -> Prop) :
  wps m s QD QS -> (forall a s', QD a s' -> QD' a s') -> (forall s' k, QS s' k -> QS' s' k) ->
  wps m s QD' QS'.
Proof. unfold wps. destruct (m s); auto. Qed.

Lemma wps_switch {A} (m : M mem A) s (QS : kst mem -> (kst mem -> run mem A) -> Prop) :
  wps m s (fun _ _ => False) QS -> exists s' k, m s = Switch s' k /\ QS s' k.
Proof. unfold wps. destruct (m s); try done. eauto. Qed.

End Wps.

(** Evaluate the projections of an updated state. *)
Ltac kred :=
  cbn [k_procs k_initproc k_nextpid mlfq_global_seq k_ticks k_tfs k_first k_csr k_out k_mem k_hw
       set_k_procs set_k_initproc set_k_nextpid set_mlfq_global_seq set_k_ticks set_k_tfs
       set_k_first set_k_csr set_k_out set_k_mem set_k_hw].

(** Side conditions of the lock rules. *)
Create HintDb locks.
#[export] Hint Resolve hw_ok_acq hw_ok_cyc free_acq free_cyc hw_acq_noff : locks.
#[export] Hint Extern 1 (LProc _ <> LProc _) => injection; lia : locks.
#[export] Hint Extern 1 (LAddr _ <> LAddr _) => congruence : locks.
#[export] Hint Extern 1 (LBuf _ <> LBuf _) => congruence : locks.
#[export] Hint Extern 1 (LInode _ <> LInode _) => congruence : locks.
#[export] Hint Extern 1 (_ <> _ :> lockid) => discriminate : locks.
