(* ===== verification/PhysMem.v ===== *)
(** * Physical memory

    The RAM of the machine as the kernel uses it through its direct map, and
    the monad in which [kernel/kalloc.c] and [kernel/vm.c] are written.  RAM is
    a function from addresses to bytes; a load or store that is not wholly
    inside [KERNBASE .. PHYSTOP] is a [MFault], a [panic] is [MPanic].  [mwp]
    is total correctness: the code returns, without a panic or a fault. *)

From stdpp Require Import base list gmap strings.
From Stdlib Require Import ZArith Lia.
From S2P Require Import Prelude KernelBase KString.

Open Scope Z_scope.

(** ** [kernel/memlayout.h] and the page macros of [kernel/riscv.h] *)

Definition KERNBASE : Z := 2147483648.

Definition PHYSTOP : Z := KERNBASE + 128 * 1024 * 1024.

Definition PGROUNDUP (sz : Z) : Z := Z.land (u64 (sz + PGSIZE - 1)) (Z.lnot (PGSIZE - 1)).

Definition PGROUNDDOWN (a : Z) : Z := Z.land a (Z.lnot (PGSIZE - 1)).

(** Addresses [kernel.ld] chooses: the first address after the kernel, and the
    end of its code.  The kernel is loaded at [KERNBASE] into RAM. *)
Class layout := {
  end_ : Z;
  etext : Z;
  end_in_ram : KERNBASE <= end_ <= PHYSTOP
}.

(** ** Bytes in memory *)

Definition bytes := Z -> Z.

(** [r] with [f 0], [f 1], ... stored in the [n] bytes from [a] on. *)
Definition put (r : bytes) (a n : Z) (f : Z -> Z) : bytes :=
  fun x => if ((a <=? x) && (x <? a + n))%bool then f (x - a) else r x.

(** The little-endian value of the [n] bytes from [a] on. *)
Fixpoint ldn (n : nat) (r : bytes) (a : Z) : Z :=
  match n with
  | O => 0
  | S n' => r a + 256 * ldn n' r (a + 1)
  end.

(** Byte [i] of [v]. *)
Definition byte_of (v i : Z) : Z := (v / 256 ^ i) mod 256.

Definition ld64 (r : bytes) (a : Z) : Z := ldn 8 r a.

Definition st64 (r : bytes) (a v : Z) : bytes := put r a 8 (byte_of v).

(** The [n] bytes from [a] on. *)
Fixpoint rd (n : nat) (r : bytes) (a : Z) : list Z :=
  match n with
  | O => []
  | S n' => r a :: rd n' r (a + 1)
  end.

Definition wr (r : bytes) (a : Z) (l : list Z) : bytes :=
  put r a (Z.of_nat (length l)) (fun i => default 0 (l !! Z.to_nat i)).

Lemma put_out r a n f x : ~ (a <= x < a + n) -> put r a n f x = r x.
Proof. intros H. unfold put. destruct (a <=? x) eqn:?, (x <? a + n) eqn:?; bool_to_prop; simpl; (lia || done). Qed.

Lemma put_in r a n f x : a <= x < a + n -> put r a n f x = f (x - a).
Proof. intros H. unfold put. destruct (a <=? x) eqn:?, (x <? a + n) eqn:?; bool_to_prop; simpl; (lia || done). Qed.

Lemma ldn_ext n r r' a :
  (forall x, a <= x < a + Z.of_nat n -> r x = r' x) -> ldn n r a = ldn n r' a.
Proof.
  revert a. induction n as [|n IH]; intros a H; [done|]. cbn [ldn].
  rewrite (H a), (IH (a + 1)); [done | intros x Hx; apply H; lia | lia].
Qed.

Lemma ldn_bytes n v r a :
  (forall x, a <= x < a + Z.of_nat n -> r x = byte_of v (x - a)) ->
  ldn n r a = v mod 256 ^ Z.of_nat n.
Proof.
  revert v a. induction n as [|n IH]; intros v a H; [by rewrite Z.mod_1_r|].
  cbn [ldn]. rewrite (H a) by lia. rewrite (IH (v / 256)).
  - rewrite Nat2Z.inj_succ, Z.pow_succ_r by lia.
    rewrite Z.rem_mul_r by lia. unfold byte_of. by rewrite Z.sub_diag, Z.div_1_r.
  - intros x Hx. rewrite H by lia. unfold byte_of.
    replace (x - a) with (Z.succ (x - (a + 1))) by lia.
    by rewrite Z.pow_succ_r, Z.div_div by lia.
Qed.

Lemma ldn_zero n r a : (forall x, a <= x < a + Z.of_nat n -> r x = 0) -> ldn n r a = 0.
Proof.
  intros H. rewrite (ldn_bytes n 0); [apply Z.mod_0_l; lia|].
  intros x Hx. rewrite H by done. unfold byte_of. by rewrite Z.div_0_l, Z.mod_0_l by lia.
Qed.

Lemma ld64_st64 r a v : 0 <= v < 2 ^ 64 -> ld64 (st64 r a v) a = v.
Proof.
  intros Hv. unfold ld64. rewrite (ldn_bytes 8 v); [by apply Z.mod_small|].
  intros x Hx. unfold st64. by rewrite put_in by lia.
Qed.

Lemma ld64_st64_ne r a b v : b + 8 <= a \/ a + 8 <= b -> ld64 (st64 r a v) b = ld64 r b.
Proof. intros H. apply ldn_ext. intros x Hx. unfold st64. apply put_out. lia. Qed.

Lemma length_rd n r a : length (rd n r a) = n.
Proof. revert a. induction n; intros a; simpl; auto. Qed.

Lemma lookup_rd n r a i : (i < n)%nat -> rd n r a !! i = Some (r (a + Z.of_nat i)).
Proof.
  revert a i. induction n as [|n IH]; intros a i Hi; [lia|].
  destruct i as [|i]; simpl; [by rewrite Z.add_0_r|].
  rewrite IH by lia. do 2 f_equal. lia.
Qed.

Lemma rd_ext n r r' a :
  (forall x, a <= x < a + Z.of_nat n -> r x = r' x) -> rd n r a = rd n r' a.
Proof.
  revert a. induction n as [|n IH]; intros a H; [done|]. cbn [rd].
  f_equal; [apply H; lia | apply IH; intros x Hx; apply H; lia].
Qed.

Lemma rd_app n k r a : rd (n + k) r a = rd n r a ++ rd k r (a + Z.of_nat n).
Proof.
  revert a. induction n as [|n IH]; intros a; cbn [rd Nat.add app].
  - by rewrite Z.add_0_r.
  - rewrite IH. do 3 f_equal. lia.
Qed.

Lemma wr_out r a l x : ~ (a <= x < a + Z.of_nat (length l)) -> wr r a l x = r x.
Proof. apply put_out. Qed.

Lemma wr_in r a l x : a <= x < a + Z.of_nat (length l) ->
  l !! Z.to_nat (x - a) = Some (wr r a l x).
Proof.
  intros H. unfold wr. rewrite put_in by done.
  destruct (lookup_lt_is_Some_2 l (Z.to_nat (x - a))) as [b Hb]; [lia|]. by rewrite Hb.
Qed.

Lemma rd_wr r a l : rd (length l) (wr r a l) a = l.
Proof.
  apply list_eq. intros i. destruct (decide (i < length l)%nat) as [Hi|Hi].
  - rewrite lookup_rd by done. rewrite <- (wr_in r a l) by lia. f_equal. lia.
  - rewrite !lookup_ge_None_2; [done | lia | rewrite length_rd; lia].
Qed.

Lemma wr_nil r a x : wr r a [] x = r x.
Proof. apply wr_out. simpl. lia. Qed.

Lemma wr_app r a l1 l2 x :
  wr (wr r a l1) (a + Z.of_nat (length l1)) l2 x = wr r a (l1 ++ l2) x.
Proof.
  destruct (decide (a <= x < a + Z.of_nat (length (l1 ++ l2)))) as [H|H]; rewrite length_app in H.
  - apply (inj Some). rewrite <- (wr_in r a (l1 ++ l2)) by (rewrite length_app; lia).
    destruct (decide (x < a + Z.of_nat (length l1))).
    + rewrite (wr_out (wr r a l1)) by lia. rewrite <- (wr_in r a l1) by lia.
      by rewrite lookup_app_l by lia.
    + rewrite <- (wr_in (wr r a l1)) by lia. rewrite lookup_app_r by lia. f_equal. lia.
  - rewrite (wr_out (wr r a l1)), (wr_out r a l1), wr_out; rewrite ?length_app; done || lia.
Qed.

Lemma wr_ext r r' a l x : r x = r' x -> wr r a l x = wr r' a l x.
Proof. intros H. unfold wr, put. by destruct (_ && _)%bool. Qed.

(** ** Pages *)

Lemma PGSIZE_val : PGSIZE = 4096.
Proof. done. Qed.

Lemma PGROUNDDOWN_eq a : PGROUNDDOWN a = a / PGSIZE * PGSIZE.
Proof.
  unfold PGROUNDDOWN. change (PGSIZE - 1) with (Z.ones 12).
  rewrite <- Z.ldiff_land, Z.ldiff_ones_r by lia.
  by rewrite Z.shiftl_mul_pow2, Z.shiftr_div_pow2 by lia.
Qed.

Lemma PGROUNDDOWN_range a : PGROUNDDOWN a <= a < PGROUNDDOWN a + PGSIZE.
Proof. rewrite PGROUNDDOWN_eq, PGSIZE_val. pose proof (Z.div_mod a 4096). pose proof (Z.mod_pos_bound a 4096). lia. Qed.

Lemma PGROUNDDOWN_aligned a : PGROUNDDOWN a mod PGSIZE = 0.
Proof. rewrite PGROUNDDOWN_eq. by apply Z.mod_mul. Qed.

(** The page of an address between an aligned [p] and the next page is [p]. *)
Lemma PGROUNDDOWN_unique p a : p mod PGSIZE = 0 -> p <= a < p + PGSIZE -> PGROUNDDOWN a = p.
Proof.
  rewrite PGROUNDDOWN_eq, PGSIZE_val. intros Hp Ha.
  pose proof (Z.div_mod p 4096). replace (a / 4096) with (p / 4096); [lia|].
  apply Z.div_unique with (r := a - p); lia.
Qed.

Lemma PGROUNDUP_eq sz : 0 <= sz <= 2 ^ 64 - PGSIZE -> PGROUNDUP sz = (sz + PGSIZE - 1) / PGSIZE * PGSIZE.
Proof.
  intros H. unfold PGROUNDUP. rewrite u64_small by (rewrite PGSIZE_val in *; lia).
  apply PGROUNDDOWN_eq.
Qed.

Lemma PGROUNDUP_range sz : 0 <= sz <= 2 ^ 64 - PGSIZE -> sz <= PGROUNDUP sz < sz + PGSIZE.
Proof.
  intros H. rewrite PGROUNDUP_eq by done. rewrite PGSIZE_val.
  pose proof (Z.div_mod (sz + 4096 - 1) 4096). pose proof (Z.mod_pos_bound (sz + 4096 - 1) 4096). lia.
Qed.

Lemma PGROUNDUP_aligned sz : PGROUNDUP sz mod PGSIZE = 0.
Proof. apply PGROUNDDOWN_aligned. Qed.

(** Two aligned addresses are equal or a page apart. *)
Lemma aligned_apart p q : p mod PGSIZE = 0 -> q mod PGSIZE = 0 -> p <> q ->
  p + PGSIZE <= q \/ q + PGSIZE <= p.
Proof.
  rewrite PGSIZE_val. intros Hp Hq Hne.
  pose proof (Z.div_mod p 4096). pose proof (Z.div_mod q 4096). lia.
Qed.

(** ** The memory and its monad *)

(** RAM, the head of the list of free pages, and the kernel's page table. *)
Record pmem := mkpmem { ram : bytes; freelist : Z; kernel_pagetable : Z }.

Definition set_ram (v : bytes) (m : pmem) : pmem := mkpmem v (freelist m) (kernel_pagetable m).

Definition set_freelist (v : Z) (m : pmem) : pmem := mkpmem (ram m) v (kernel_pagetable m).

Definition set_kernel_pagetable (v : Z) (m : pmem) : pmem := mkpmem (ram m) (freelist m) v.

Inductive mres (A : Type) : Type :=
| MOk (a : A) (m : pmem)
| MPanic (msg : string)
| MFault
| MOutOfFuel.

Arguments MOk {A} a m.
Arguments MPanic {A} msg.
Arguments MFault {A}.
Arguments MOutOfFuel {A}.

Definition MM (A : Type) : Type := pmem -> mres A.

Definition mm_ret {A} (a : A) : MM A := fun m => MOk a m.

Definition mm_bind {A B} (c : MM A) (f : A -> MM B) : MM B := fun m =>
  match c m with
  | MOk a m' => f a m'
  | MPanic msg => MPanic msg
  | MFault => MFault
  | MOutOfFuel => MOutOfFuel
  end.

Definition mpanic {A} (msg : string) : MM A := fun _ => MPanic msg.

Definition mgets {A} (f : pmem -> A) : MM A := fun m => MOk (f m) m.

Definition mmodify (f : pmem -> pmem) : MM unit := fun m => MOk tt (f m).

Declare Scope mem_scope.
Delimit Scope mem_scope with mem.

Notation "'let!' x := c 'in' k" := (mm_bind c (fun x => k))
  (at level 10, x name, c at level 100, k at level 200) : mem_scope.

Notation "c ;! k" := (mm_bind c (fun _ => k))
  (at level 100, k at level 200, right associativity) : mem_scope.

Open Scope mem_scope.

Definition mwhen (b : bool) (c : MM unit) : MM unit := if b then c else mm_ret tt.

(** The [n] bytes from [a] on are RAM. *)
Definition in_ram (a n : Z) : bool := ((KERNBASE <=? a) && (a + n <=? PHYSTOP))%bool.

Definition load64 (a : Z) : MM Z := fun m =>
  if in_ram a 8 then MOk (ld64 (ram m) a) m else MFault.

Definition store64 (a v : Z) : MM unit := fun m =>
  if in_ram a 8 then MOk tt (set_ram (st64 (ram m) a v) m) else MFault.

Definition load8 (a : Z) : MM Z := fun m =>
  if in_ram a 1 then MOk (ram m a) m else MFault.

(** [v] is a [char]. *)
Definition store8 (a v : Z) : MM unit := fun m =>
  if in_ram a 1 then MOk tt (set_ram (put (ram m) a 1 (fun _ => v)) m) else MFault.

(** A [uint] or [int]; the value read is between 0 and [2 ^ 32]. *)
Definition load32 (a : Z) : MM Z := fun m =>
  if in_ram a 4 then MOk (ldn 4 (ram m) a) m else MFault.

Definition store32 (a v : Z) : MM unit := fun m =>
  if in_ram a 4 then MOk tt (set_ram (put (ram m) a 4 (byte_of v)) m) else MFault.

(** [memset(a, c, n)] and [memmove(d, s, n)] on RAM, and [memmove] between RAM
    and a buffer of the kernel. *)
Definition mem_set (a c n : Z) : MM unit := fun m =>
  if in_ram a n then MOk tt (set_ram (put (ram m) a n (fun _ => c)) m) else MFault.

Definition mem_move (d s n : Z) : MM unit := fun m =>
  if (in_ram d n && in_ram s n)%bool
  then MOk tt (set_ram (put (ram m) d n (fun i => ram m (s + i))) m) else MFault.

Definition mem_read (a n : Z) : MM (list Z) := fun m =>
  if in_ram a n then MOk (rd (Z.to_nat n) (ram m) a) m else MFault.

Definition mem_write (a : Z) (l : list Z) : MM unit := fun m =>
  if in_ram a (Z.of_nat (length l)) then MOk tt (set_ram (wr (ram m) a l) m) else MFault.

(** [put] is what the routines of [string.c] do: on the bytes of a region of
    RAM, [memset] and [memmove] give the bytes of the updated RAM. *)
Lemma mem_set_is_memset r lo N d c n : (d + n <= N)%nat ->
  memset (rd N r lo) d c n
  = Some (rd N (put r (lo + Z.of_nat d) (Z.of_nat n) (fun _ => byte c)) lo).
Proof.
  intros H. unfold memset. rewrite memset_loop_spec by (rewrite length_rd; lia). f_equal.
  symmetry. rewrite Nat.add_0_r. apply splice_intro; rewrite length_replicate; [rewrite length_rd; lia|].
  intros i. destruct (decide (i < N)%nat) as [Hi|Hi].
  - rewrite !lookup_rd by done. case_decide.
    + rewrite put_in by lia. symmetry. apply lookup_replicate_2. lia.
    + by rewrite put_out by lia.
  - case_decide; [lia|]. by rewrite !lookup_ge_None_2 by (rewrite length_rd; lia).
Qed.

Lemma mem_move_is_memmove r lo N d s n : (d + n <= N)%nat -> (s + n <= N)%nat ->
  memmove (rd N r lo) d s n
  = Some (rd N (put r (lo + Z.of_nat d) (Z.of_nat n) (fun i => r (lo + Z.of_nat s + i))) lo).
Proof.
  intros Hd Hs. destruct (memmove_lookup (rd N r lo) d s n) as (m' & -> & Hl & Hm');
    [rewrite length_rd; lia .. |]. rewrite length_rd in Hl. f_equal.
  apply list_eq. intros i. rewrite Hm'. destruct (decide (i < N)%nat) as [Hi|Hi].
  - rewrite (lookup_rd _ (put _ _ _ _)) by done. case_decide.
    + rewrite put_in, lookup_rd by lia. do 2 f_equal. lia.
    + by rewrite put_out, lookup_rd by lia.
  - case_decide; [lia|]. by rewrite !lookup_ge_None_2 by (rewrite length_rd; lia).
Qed.

(** ** Total correctness *)

Definition mwp {A} (c : MM A) (m : pmem) (Q : A -> pmem -> Prop) : Prop :=
  match c m with MOk a m' => Q a m' | _ => False end.

Lemma mwp_Ok {A} (c : MM A) m Q : mwp c m Q <-> exists a m', c m = MOk a m' /\ Q a m'.
Proof.
  unfold mwp. split; [destruct (c m); [eauto|done..] | by intros (a & m' & -> & HQ)].
Qed.

Lemma mwp_mono {A} (c : MM A) m (Q Q' : A -> pmem -> Prop) :
  mwp c m Q -> (forall a m', Q a m' -> Q' a m') -> mwp c m Q'.
Proof. unfold mwp. destruct (c m); auto. Qed.

Lemma mwp_ret {A} (a : A) m (Q : A -> pmem -> Prop) : Q a m -> mwp (mm_ret a) m Q.
Proof. done. Qed.

Lemma mwp_bind {A B} (c : MM A) (f : A -> MM B) m Q :
  mwp c m (fun a m' => mwp (f a) m' Q) -> mwp (mm_bind c f) m Q.
Proof. unfold mwp, mm_bind. by destruct (c m). Qed.

Lemma mwp_gets {A} (f : pmem -> A) m (Q : A -> pmem -> Prop) : Q (f m) m -> mwp (mgets f) m Q.
Proof. done. Qed.

Lemma mwp_modify f m (Q : unit -> pmem -> Prop) : Q tt (f m) -> mwp (mmodify f) m Q.
Proof. done. Qed.

Lemma mwp_load64 a m (Q : Z -> pmem -> Prop) :
  in_ram a 8 = true -> Q (ld64 (ram m) a) m -> mwp (load64 a) m Q.
Proof. intros H HQ. unfold mwp, load64. by rewrite H. Qed.

Lemma mwp_store64 a v m (Q : unit -> pmem -> Prop) :
  in_ram a 8 = true -> Q tt (set_ram (st64 (ram m) a v) m) -> mwp (store64 a v) m Q.
Proof. intros H HQ. unfold mwp, store64. by rewrite H. Qed.

Lemma mwp_load8 a m (Q : Z -> pmem -> Prop) :
  in_ram a 1 = true -> Q (ram m a) m -> mwp (load8 a) m Q.
Proof. intros H HQ. unfold mwp, load8. by rewrite H. Qed.

Lemma mwp_store8 a v m (Q : unit -> pmem -> Prop) :
  in_ram a 1 = true -> Q tt (set_ram (put (ram m) a 1 (fun _ => v)) m) -> mwp (store8 a v) m Q.
Proof. intros H HQ. unfold mwp, store8. by rewrite H. Qed.

Lemma mwp_load32 a m (Q : Z -> pmem -> Prop) :
  in_ram a 4 = true -> Q (ldn 4 (ram m) a) m -> mwp (load32 a) m Q.
Proof. intros H HQ. unfold mwp, load32. by rewrite H. Qed.

Lemma mwp_store32 a v m (Q : unit -> pmem -> Prop) :
  in_ram a 4 = true -> Q tt (set_ram (put (ram m) a 4 (byte_of v)) m) -> mwp (store32 a v) m Q.
Proof. intros H HQ. unfold mwp, store32. by rewrite H. Qed.

Lemma mwp_mem_set a c n m (Q : unit -> pmem -> Prop) :
  in_ram a n = true -> Q tt (set_ram (put (ram m) a n (fun _ => c)) m) -> mwp (mem_set a c n) m Q.
Proof. intros H HQ. unfold mwp, mem_set. by rewrite H. Qed.

Lemma mwp_mem_move d s n m (Q : unit -> pmem -> Prop) :
  in_ram d n = true -> in_ram s n = true ->
  Q tt (set_ram (put (ram m) d n (fun i => ram m (s + i))) m) -> mwp (mem_move d s n) m Q.
Proof. intros H1 H2 HQ. unfold mwp, mem_move. by rewrite H1, H2. Qed.

Lemma mwp_mem_read a n m (Q : list Z -> pmem -> Prop) :
  in_ram a n = true -> Q (rd (Z.to_nat n) (ram m) a) m -> mwp (mem_read a n) m Q.
Proof. intros H HQ. unfold mwp, mem_read. by rewrite H. Qed.

Lemma mwp_mem_write a l m (Q : unit -> pmem -> Prop) :
  in_ram a (Z.of_nat (length l)) = true -> Q tt (set_ram (wr (ram m) a l) m) -> mwp (mem_write a l) m Q.
Proof. intros H HQ. unfold mwp, mem_write. by rewrite H. Qed.

(** ** Allocatable pages *)

Section Pages.

Context {lay : layout}.

Definition page_ok (p : Z) : Prop := p mod PGSIZE = 0 /\ end_ <= p < PHYSTOP.

Lemma page_ok_range p : page_ok p -> KERNBASE <= p /\ p + PGSIZE <= PHYSTOP.
Proof.
  intros (Hp & Hlo & Hhi). pose proof end_in_ram. split; [lia|].
  destruct (aligned_apart p PHYSTOP Hp eq_refl); [lia..|]. lia.
Qed.

Lemma page_ok_bound p : page_ok p -> 0 < p < 2 ^ 32.
Proof.
  intros (_ & ? & ?). pose proof end_in_ram. unfold PHYSTOP, KERNBASE in *. lia.
Qed.

Lemma page_ok_nonzero p : page_ok p -> p <> 0.
Proof. intros H%page_ok_range. unfold KERNBASE in *. lia. Qed.

Lemma page_eqb0 p : page_ok p -> (p =? 0) = false.
Proof. intros H. by apply Z.eqb_neq, page_ok_nonzero. Qed.

Lemma page_in_ram p a n : page_ok p -> p <= a -> a + n <= p + PGSIZE -> in_ram a n = true.
Proof. intros H%page_ok_range Ha Hn. unfold in_ram. apply andb_true_iff. split; apply Z.leb_le; lia. Qed.

(** [r'] differs from [r] only in pages that satisfy [P]. *)
Definition touches (P : Z -> Prop) (r r' : bytes) : Prop :=
  forall a, ~ P (PGROUNDDOWN a) -> r' a = r a.

Lemma touches_refl P r : touches P r r.
Proof. done. Qed.

Lemma touches_trans (P1 P2 P : Z -> Prop) r1 r2 r3 :
  touches P1 r1 r2 -> touches P2 r2 r3 ->
  (forall p, P1 p -> P p) -> (forall p, P2 p -> P p) -> touches P r1 r3.
Proof. intros H1 H2 HP1 HP2 a Ha. rewrite H2, H1; auto. Qed.

Lemma touches_mono (P P' : Z -> Prop) r r' :
  touches P r r' -> (forall p, P p -> P' p) -> touches P' r r'.
Proof. intros H HP a Ha. apply H. auto. Qed.

Lemma touches_put r p a n f :
  p mod PGSIZE = 0 -> p <= a -> a + n <= p + PGSIZE -> touches (eq p) r (put r a n f).
Proof.
  intros Hp Ha Hn x Hx. apply put_out. intros Hr. apply Hx. symmetry.
  apply PGROUNDDOWN_unique; [done|lia].
Qed.

Lemma touches_page P r r' p a : touches P r r' -> p mod PGSIZE = 0 -> ~ P p ->
  p <= a < p + PGSIZE -> r' a = r a.
Proof. intros H Hp HP Ha. apply H. by rewrite (PGROUNDDOWN_unique p). Qed.

Lemma touches_ld64 P r r' p a : touches P r r' -> p mod PGSIZE = 0 -> ~ P p ->
  p <= a -> a + 8 <= p + PGSIZE -> ld64 r' a = ld64 r a.
Proof. intros H Hp HP Ha Ha'. apply ldn_ext. intros x Hx. eapply touches_page; [done..|lia]. Qed.

End Pages.

#[export] Hint Resolve touches_refl : core.
