(* ===== verification/Kalloc.v ===== *)
(** * [kernel/kalloc.c]: the allocator of physical pages

    The free pages are a list linked through their first words.  [kalloc],
    [kfree], [freerange] and [kinit] are the functions with their lock;
    [kalloc_mem] and [kfree_mem] are what they do to the memory, which is how
    [vm.c] uses them.  The abstract allocator is the list of free pages. *)

From stdpp Require Import base list gmap strings.
From Stdlib Require Import ZArith Lia.
From S2P Require Import Prelude KernelBase PhysMem.

Open Scope Z_scope.
Open Scope mem_scope.

(** Where the memory is in the state of the kernel's services. *)
Class has_pmem (mem : Type) := {
  pm_of : mem -> pmem;
  with_pm : pmem -> mem -> mem;
  pm_of_with : forall p m, pm_of (with_pm p m) = p;
  with_pm_of : forall m, with_pm (pm_of m) m = m;
  with_with_pm : forall p q m, with_pm p (with_pm q m) = with_pm p m
}.

Section Kalloc.

Context {lay : layout}.

(** ** The operations *)

(** [r->next = kmem.freelist; kmem.freelist = r;] *)
Definition push_run (r : Z) : MM unit :=
  let! next := mgets freelist in
  store64 r next ;!
  mmodify (set_freelist r).

(** [r = kmem.freelist; if (r) kmem.freelist = r->next;] *)
Definition pop_run : MM Z :=
  let! r := mgets freelist in
  mwhen (negb (r =? 0)) (let! next := load64 r in mmodify (set_freelist next)) ;!
  mm_ret r.

Definition kfree_bad (pa : Z) : bool :=
  (negb (pa mod PGSIZE =? 0) || (pa <? end_) || (PHYSTOP <=? pa))%bool.

Definition kfree_mem (pa : Z) : MM unit :=
  if kfree_bad pa then mpanic "kfree" else
  mem_set pa 1 PGSIZE ;!
  push_run pa.

Definition kalloc_mem : MM Z :=
  let! r := pop_run in
  mwhen (negb (r =? 0)) (mem_set r 5 PGSIZE) ;!
  mm_ret r.

Section Locked.

Context {mem : Type} {hpm : has_pmem mem}.

(** Memory code as part of the kernel. *)
Definition run_mm {A} (c : MM A) : M mem A := fun s =>
  match c (pm_of (k_mem s)) with
  | MOk a m => Done a (set_k_mem (with_pm m (k_mem s)) s)
  | MPanic msg => Panicked msg
  | MFault => Undefined
  | MOutOfFuel => OutOfFuel
  end.

Definition kfree (pa : Z) : M mem unit :=
  if kfree_bad pa then panic "kfree" else
  run_mm (mem_set pa 1 PGSIZE) ;;
  acquire LKmem ;;
  run_mm (push_run pa) ;;
  release LKmem.

Definition kalloc : M mem Z :=
  acquire LKmem ;;
  let* r := run_mm pop_run in
  release LKmem ;;
  when (negb (r =? 0)) (run_mm (mem_set r 5 PGSIZE)) ;;
  ret r.

(** [for (; p + PGSIZE <= pa_end; p += PGSIZE) kfree(p);]: at most [fuel] pages. *)
Fixpoint freerange_loop (fuel : nat) (p pa_end : Z) : M mem unit :=
  if p + PGSIZE <=? pa_end then
    match fuel with
    | O => fun _ => OutOfFuel
    | S f => kfree p ;; freerange_loop f (p + PGSIZE) pa_end
    end
  else ret tt.

Definition freerange (pa_start pa_end : Z) : M mem unit :=
  let p := PGROUNDUP pa_start in
  freerange_loop (Z.to_nat ((pa_end - p) / PGSIZE)) p pa_end.

Definition kinit : M mem unit :=
  initlock LKmem ;;
  freerange end_ PHYSTOP.

End Locked.

(** ** The list of free pages *)

Fixpoint linked (r : bytes) (h : Z) (l : list Z) : Prop :=
  match l with
  | [] => h = 0
  | p :: l' => h = p /\ page_ok p /\ linked r (ld64 r p) l'
  end.

(** [l] is the free list of [m]: no page is on it twice. *)
Definition free_pages (m : pmem) (l : list Z) : Prop := linked (ram m) (freelist m) l /\ NoDup l.

Lemma linked_page_ok r h l p : linked r h l -> p ∈ l -> page_ok p.
Proof.
  revert h. induction l as [|q l IH]; intros h; [set_solver|].
  intros (-> & Hq & Hl) [-> | Hp]%elem_of_cons; eauto.
Qed.

Lemma linked_touches P r r' h l :
  touches P r r' -> (forall p, p ∈ l -> ~ P p) -> linked r h l -> linked r' h l.
Proof.
  intros Ht. revert h. induction l as [|q l IH]; intros h Hl; [done|].
  intros (-> & Hq & Hlk). simpl. split_and!; [done|done|].
  rewrite (touches_ld64 P r r' q); [| done | apply Hq | apply Hl; set_solver | lia | rewrite PGSIZE_val; lia].
  apply IH; [set_solver|done].
Qed.

Lemma free_pages_ok m l p : free_pages m l -> p ∈ l -> page_ok p.
Proof. intros [H _]. by apply linked_page_ok with (ram m) (freelist m). Qed.

Lemma free_pages_touches P m r' l :
  free_pages m l -> touches P (ram m) r' -> (forall p, p ∈ l -> ~ P p) -> free_pages (set_ram r' m) l.
Proof. intros [Hl Hn] Ht HP. split; [|done]. by eapply linked_touches. Qed.

(** ** What the operations do *)

(** The page is filled with [c]s. *)
Definition filled (r : bytes) (p c : Z) : Prop := forall a, p <= a < p + PGSIZE -> r a = c.

Lemma kalloc_empty m (Q : Z -> pmem -> Prop) : free_pages m [] -> Q 0 m -> mwp kalloc_mem m Q.
Proof.
  intros [H _] HQ. simpl in H. unfold mwp, kalloc_mem, pop_run, mm_bind, mgets. by rewrite H.
Qed.

Lemma kalloc_pops m p l (Q : Z -> pmem -> Prop) :
  free_pages m (p :: l) ->
  (forall m', free_pages m' l -> touches (eq p) (ram m) (ram m') -> filled (ram m') p 5 ->
     kernel_pagetable m' = kernel_pagetable m -> Q p m') ->
  mwp kalloc_mem m Q.
Proof.
  intros [(Hh & Hp & Hl) Hn] HQ.
  unfold kalloc_mem, pop_run. apply mwp_bind, mwp_bind, mwp_gets. rewrite Hh.
  pose proof (page_eqb0 p Hp) as E. rewrite E. cbn [negb mwhen]. apply mwp_bind, mwp_bind, mwp_load64;
    [apply (page_in_ram p); [done|lia|rewrite PGSIZE_val; lia]|].
  apply mwp_modify, mwp_ret. rewrite E. cbn [negb mwhen].
  apply mwp_bind, mwp_mem_set; [apply (page_in_ram p); [done|lia|lia]|]. apply mwp_ret.
  assert (Ht : touches (eq p) (ram m) (put (ram m) p PGSIZE (fun _ => 5)))
    by (apply touches_put; [apply Hp|lia|lia]).
  apply NoDup_cons in Hn as [Hpl Hn]. apply HQ; [|done| |done].
  - split; [|done]. simpl. eapply linked_touches; [exact Ht| |done]. intros q Hq <-. done.
  - intros a Ha. simpl. by rewrite put_in.
Qed.

Lemma kfree_pushes m p l (Q : unit -> pmem -> Prop) :
  free_pages m l -> page_ok p -> p ∉ l ->
  (forall m', free_pages m' (p :: l) -> touches (eq p) (ram m) (ram m') ->
     kernel_pagetable m' = kernel_pagetable m -> Q tt m') ->
  mwp (kfree_mem p) m Q.
Proof.
  intros [Hl Hn] Hp Hpl HQ.
  assert (E : kfree_bad p = false).
  { destruct Hp as (Ha & ? & ?). unfold kfree_bad. rewrite Ha. simpl.
    apply orb_false_iff. split; [apply Z.ltb_ge|apply Z.leb_gt]; lia. }
  unfold kfree_mem, push_run. rewrite E.
  apply mwp_bind, mwp_mem_set; [apply (page_in_ram p); [done|lia|lia]|].
  apply mwp_bind, mwp_gets. simpl.
  apply mwp_bind, mwp_store64; [apply (page_in_ram p); [done|lia|rewrite PGSIZE_val; lia]|].
  apply mwp_modify. simpl.
  set (r' := st64 _ p (freelist m)).
  assert (Ht : touches (eq p) (ram m) r').
  { apply (touches_trans (eq p) (eq p) _ _ (put (ram m) p PGSIZE (fun _ => 1)));
      [..|done|done]; apply touches_put; rewrite ?PGSIZE_val; (apply Hp || lia). }
  apply HQ; [split; [|by apply NoDup_cons] | done | done].
  simpl. split_and!; [done|done|].
  assert (Hh : 0 <= freelist m < 2 ^ 64).
  { destruct l as [|q l]; simpl in Hl; [lia|]. destruct Hl as (-> & Hq & _).
    apply page_ok_bound in Hq. lia. }
  unfold r'. rewrite ld64_st64 by done. eapply linked_touches; [exact Ht| |done].
  by intros q Hq <-.
Qed.

(** A bad address is a panic, and nothing is freed. *)
Lemma kfree_panics m p : ~ page_ok p -> kfree_mem p m = MPanic "kfree".
Proof.
  intros H. unfold kfree_mem. destruct (kfree_bad p) eqn:E; [done|].
  exfalso. apply H. unfold kfree_bad in E. bool_to_prop. split; [done|lia].
Qed.

(** ** The locked functions *)

Section LockedFacts.

Context {mem : Type} {hpm : has_pmem mem}.
Implicit Types s : kst mem.

(** The outcome of memory code in the kernel, with [hw] after it. *)
Definition outcome {A} (h : hw) s (x : mres A) : run mem A :=
  match x with
  | MOk a m => Done a (set_k_hw h (set_k_mem (with_pm m (k_mem s)) s))
  | MPanic msg => Panicked msg
  | MFault => Undefined
  | MOutOfFuel => OutOfFuel
  end.

Lemma acquire_eq l s : free (k_hw s) l -> acquire l s = Done tt (set_k_hw (hw_acq l (k_hw s)) s).
Proof. intros H. apply wp_eq. by apply wp_acquire. Qed.

Lemma release_eq l h s : k_hw s = hw_acq l h -> hw_ok h -> free h l ->
  release l s = Done tt (set_k_hw (hw_cyc h) s).
Proof. intros H1 H2 H3. apply wp_eq. by apply (wp_release l h). Qed.

(** With [kmem.lock] free, each function is its effect on the memory; the lock
    is free again, and the interrupt state is that of a lock cycle. *)
Lemma kalloc_atomic s : free (k_hw s) LKmem -> hw_ok (k_hw s) ->
  kalloc s = outcome (hw_cyc (k_hw s)) s (kalloc_mem (pm_of (k_mem s))).
Proof.
  intros Hf Hok. unfold kalloc, kalloc_mem, bind. rewrite acquire_eq by done. cbn [run_bind].
  unfold run_mm at 1, mm_bind. kred. destruct (pop_run (pm_of (k_mem s))) as [r m| | |]; [|done..].
  cbn [run_bind]. rewrite (release_eq LKmem (k_hw s)) by done. cbn [run_bind].
  destruct (r =? 0); cbn [negb when mwhen]; [done|].
  unfold run_mm. kred. rewrite pm_of_with.
  destruct (mem_set r 5 PGSIZE m) as [[] m'| | |]; [|done..].
  cbn [run_bind ret mm_ret outcome]. kred. by rewrite with_with_pm.
Qed.

Lemma kfree_atomic pa s : free (k_hw s) LKmem -> hw_ok (k_hw s) ->
  kfree pa s = outcome (hw_cyc (k_hw s)) s (kfree_mem pa (pm_of (k_mem s))).
Proof.
  intros Hf Hok. unfold kfree, kfree_mem. destruct (kfree_bad pa); [done|].
  unfold bind at 1, mm_bind, run_mm. kred.
  destruct (mem_set pa 1 PGSIZE (pm_of (k_mem s))) as [[] m| | |]; [|done..].
  cbn [run_bind]. unfold bind at 1. rewrite acquire_eq by done. cbn [run_bind]. kred.
  unfold bind at 1. kred. rewrite pm_of_with.
  destruct (push_run pa m) as [[] m'| | |]; [|done..]. cbn [run_bind]. kred.
  rewrite with_with_pm. by rewrite (release_eq LKmem (k_hw s)).
Qed.

End LockedFacts.

(** ** The pages of the machine *)

(** [n] pages from [a] on. *)
Fixpoint range_pages (a : Z) (n : nat) : list Z :=
  match n with O => [] | S n' => a :: range_pages (a + PGSIZE) n' end.

(** Every page the allocator manages. *)
Definition all_pages : list Z :=
  range_pages (PGROUNDUP end_) (Z.to_nat ((PHYSTOP - PGROUNDUP end_) / PGSIZE)).

Lemma elem_of_range_pages p a n :
  p ∈ range_pages a n <-> exists i, (i < n)%nat /\ p = a + Z.of_nat i * PGSIZE.
Proof.
  revert a. induction n as [|n IH]; intros a; simpl.
  - rewrite elem_of_nil. split; [done|]. intros (i & ? & _). lia.
  - rewrite elem_of_cons, IH. split.
    + intros [-> | (i & Hi & ->)]; [exists 0%nat | exists (S i)]; lia.
    + intros ([|i] & Hi & ->); [left; lia | right; exists i; lia].
Qed.

Lemma range_pages_NoDup a n : NoDup (range_pages a n).
Proof.
  revert a. induction n as [|n IH]; intros a; simpl; constructor; [|done].
  rewrite elem_of_range_pages. intros (i & _ & ?). rewrite PGSIZE_val in *. lia.
Qed.

Lemma elem_of_all_pages p : p ∈ all_pages <-> page_ok p.
Proof.
  unfold all_pages. rewrite elem_of_range_pages. pose proof end_in_ram.
  assert (Hb : 0 <= end_ <= 2 ^ 64 - PGSIZE) by (rewrite PGSIZE_val; unfold PHYSTOP, KERNBASE in *; lia).
  pose proof (PGROUNDUP_range end_ Hb) as Hr. pose proof (PGROUNDUP_aligned end_) as Ha.
  set (a := PGROUNDUP end_) in *. unfold page_ok. rewrite PGSIZE_val in *.
  pose proof (Z.div_mod a 4096 ltac:(lia)).
  assert (HP : PHYSTOP = 4096 * (PHYSTOP / 4096)) by done.
  assert (Hd : (PHYSTOP - a) / 4096 = PHYSTOP / 4096 - a / 4096).
  { symmetry. apply Z.div_unique with 0; lia. }
  rewrite Hd. split.
  - intros (i & Hi & ->). rewrite Z.mod_add by lia. split; lia.
  - intros (Hp & Hlo & Hhi). pose proof (Z.div_mod p 4096 ltac:(lia)).
    exists (Z.to_nat (p / 4096 - a / 4096)). lia.
Qed.

Section Kinit.

Context {mem : Type} {hpm : has_pmem mem}.
Implicit Types s : kst mem.

(** [s'] is [s] but for the memory and the bookkeeping of a free [kmem.lock]. *)
Definition mem_only s s' : Prop :=
  exists m h, s' = set_k_hw h (set_k_mem (with_pm m (k_mem s)) s) /\ hw_ok h /\ free h LKmem.

Lemma wp_kfree p l s (Q : unit -> kst mem -> Prop) :
  free (k_hw s) LKmem -> hw_ok (k_hw s) ->
  free_pages (pm_of (k_mem s)) l -> page_ok p -> p ∉ l ->
  (forall s', mem_only s s' -> free_pages (pm_of (k_mem s')) (p :: l) -> Q tt s') ->
  wp (kfree p) s Q.
Proof.
  intros Hf Hok Hl Hp Hpl HQ. unfold wp. rewrite kfree_atomic by done.
  destruct (proj1 (mwp_Ok (kfree_mem p) (pm_of (k_mem s))
    (fun _ m' => free_pages m' (p :: l)))) as ([] & m' & -> & Hm'); [by eapply kfree_pushes|].
  simpl. apply HQ; [|kred; by rewrite pm_of_with]. exists m', (hw_cyc (k_hw s)). done.
Qed.

Lemma freerange_loop_spec n p pa_end l s :
  free (k_hw s) LKmem -> hw_ok (k_hw s) -> free_pages (pm_of (k_mem s)) l ->
  p + Z.of_nat n * PGSIZE <= pa_end < p + (Z.of_nat n + 1) * PGSIZE ->
  (forall q, q ∈ range_pages p n -> page_ok q /\ q ∉ l) ->
  wp (freerange_loop n p pa_end) s
     (fun _ s' => mem_only s s' /\ free_pages (pm_of (k_mem s')) (reverse (range_pages p n) ++ l)).
Proof.
  revert p l s. induction n as [|n IH]; intros p l s Hf Hok Hl Hn Hq; simpl.
  - destruct (p + PGSIZE <=? pa_end) eqn:E; [bool_to_prop; lia|]. apply wp_ret.
    split; [|done]. exists (pm_of (k_mem s)), (k_hw s). rewrite with_pm_of. by destruct s.
  - destruct (p + PGSIZE <=? pa_end) eqn:E; [|bool_to_prop; rewrite PGSIZE_val in *; lia].
    destruct (Hq p) as [Hp Hpl]; [set_solver|].
    apply wp_bind, (wp_kfree p l); [done..|]. intros s1 (m & h & -> & Hok1 & Hf1) Hl1.
    eapply wp_mono; [apply (IH (p + PGSIZE) (p :: l)); [done|done|done|lia|]|].
    + intros q Hin. destruct (Hq q) as [Hqk Hql]; [set_solver|]. split; [done|].
      apply not_elem_of_cons. split; [|done]. intros ->.
      apply elem_of_range_pages in Hin as (i & _ & Hi). rewrite PGSIZE_val in Hi. lia.
    + intros [] s2 [(m2 & h2 & -> & Hok2 & Hf2) Hl2]. kred. split.
      * exists m2, h2. kred. by rewrite with_with_pm.
      * rewrite reverse_cons, <- app_assoc. done.
Qed.

(** [kinit] makes every page between [end] and [PHYSTOP] available: it
    returns, the free list is then exactly the aligned pages of that range,
    each once, and nothing but the memory and the lock bookkeeping has
    changed. *)
Theorem kinit_frees_all s :
  hw_ok (k_hw s) -> freelist (pm_of (k_mem s)) = 0 ->
  wp kinit s (fun _ s' =>
    exists l, free_pages (pm_of (k_mem s')) l /\ (forall p, p ∈ l <-> page_ok p) /\
      k_procs s' = k_procs s /\ free (k_hw s') LKmem /\ hw_ok (k_hw s')).
Proof.
  intros Hok H0. unfold kinit, freerange. apply wp_bind, wp_modify.
  set (s1 := set_k_hw _ s). set (a := PGROUNDUP end_).
  assert (Hb : a <= PHYSTOP).
  { unfold a. pose proof end_in_ram. destruct (Z.le_gt_cases (PGROUNDUP end_) PHYSTOP) as [|Hgt]; [done|].
    assert (0 <= end_ <= 2 ^ 64 - PGSIZE) by (rewrite PGSIZE_val; unfold PHYSTOP, KERNBASE in *; lia).
    pose proof (PGROUNDUP_range end_ ltac:(done)).
    destruct (aligned_apart (PGROUNDUP end_) PHYSTOP (PGROUNDUP_aligned _) eq_refl); lia. }
  eapply wp_mono; [apply (freerange_loop_spec _ a PHYSTOP [] s1)|].
  - unfold free. simpl. by rewrite lookup_insert_eq.
  - done.
  - split; [done|constructor].
  - rewrite PGSIZE_val. pose proof (Z.div_mod (PHYSTOP - a) 4096). pose proof (Z.mod_pos_bound (PHYSTOP - a) 4096).
    rewrite Z2Nat.id by (apply Z.div_pos; lia). lia.
  - intros q Hq. split; [by apply elem_of_all_pages | set_solver].
  - intros [] s' [(m & h & -> & Hok' & Hf') Hl]. rewrite app_nil_r in Hl.
    exists (reverse all_pages). split_and!; [done| |done|done|done].
    intros p. by rewrite elem_of_reverse, elem_of_all_pages.
Qed.

End Kinit.

(** ** Clients of the allocator

    A state is the memory with the set of pages that are handed out.  A client
    allocates, frees a page it holds, or writes to pages that are handed out. *)

Inductive astep : pmem * gset Z -> pmem * gset Z -> Prop :=
| astep_alloc m A p m' : kalloc_mem m = MOk p m' -> p <> 0 -> astep (m, A) (m', {[p]} ∪ A)
| astep_full m A m' : kalloc_mem m = MOk 0 m' -> astep (m, A) (m', A)
| astep_free m A p m' : p ∈ A -> kfree_mem p m = MOk tt m' -> astep (m, A) (m', A ∖ {[p]})
| astep_write m A r : touches (.∈ A) (ram m) r -> astep (m, A) (set_ram r m, A).

(** Every page is free or handed out, and none is both. *)
Definition partition (x : pmem * gset Z) : Prop :=
  exists l, free_pages x.1 l /\ (forall p, page_ok p <-> p ∈ l \/ p ∈ x.2) /\
    (forall p, p ∈ l -> p ∉ x.2).

Lemma partition_alloc m A : partition (m, A) ->
  (exists p m', kalloc_mem m = MOk p m' /\ p ∉ A /\ page_ok p /\ partition (m', {[p]} ∪ A)) \/
  ((forall p, page_ok p -> p ∈ A) /\ kalloc_mem m = MOk 0 m).
Proof.
  intros (l & Hl & Hall & Hd). simpl in *. destruct l as [|p l].
  - right. split; [set_solver|].
    destruct (proj1 (mwp_Ok kalloc_mem m (fun r m' => r = 0 /\ m' = m))) as (r & m' & -> & -> & ->); [|done].
    by apply kalloc_empty.
  - left. destruct (proj1 (mwp_Ok kalloc_mem m (fun r m' => r = p /\ free_pages m' l))) as (r & m' & Hr & -> & Hl').
    { eapply kalloc_pops; eauto. }
    exists p, m'. split_and!; [done|set_solver|apply Hall; set_solver|].
    destruct Hl as [_ [Hpl Hn]%NoDup_cons]. exists l. simpl. split_and!; [done| |].
    + intros q. rewrite Hall. set_solver.
    + intros q Hq. assert (q ∉ A) by (apply Hd; set_solver). set_solver.
Qed.

Lemma partition_free m A p : partition (m, A) -> p ∈ A ->
  exists m', kfree_mem p m = MOk tt m' /\ partition (m', A ∖ {[p]}).
Proof.
  intros (l & Hl & Hall & Hd) Hp. simpl in *.
  destruct (proj1 (mwp_Ok (kfree_mem p) m (fun _ m' => free_pages m' (p :: l)))) as ([] & m' & Hm' & Hl').
  { eapply kfree_pushes; [done|apply Hall; by right|set_solver|eauto]. }
  exists m'. split; [done|]. exists (p :: l). simpl. split_and!; [done| |set_solver].
  intros q. rewrite Hall, elem_of_cons. destruct (decide (q = p)); set_solver.
Qed.

Lemma astep_partition x y : astep x y -> partition x -> partition y.
Proof.
  destruct 1 as [m A p m' Hk H0|m A m' Hk|m A p m' Hp Hk|m A r Ht]; intros Hx.
  - destruct (partition_alloc m A Hx) as [(q & m1 & Hq & _ & _ & Hm1)|[_ Hk0]];
      [rewrite Hk in Hq | rewrite Hk in Hk0]; by simplify_eq.
  - destruct (partition_alloc m A Hx) as [(q & m1 & Hq & _ & Hok & _)|[_ Hk0]];
      [rewrite Hk in Hq | rewrite Hk in Hk0]; simplify_eq; [|done].
    by apply page_ok_nonzero in Hok.
  - destruct (partition_free m A p Hx Hp) as (m1 & Hk1 & Hm1). rewrite Hk in Hk1. by simplify_eq.
  - destruct Hx as (l & Hl & Hall & Hd). exists l. split_and!; [|done|done].
    eapply free_pages_touches; [done|done|]. intros p Hp. by apply Hd.
Qed.

(** C16.  The allocator is safe under any use by clients that write only to
    pages they hold and free only pages they hold. However long they run,
    every page is either free or handed out, never both; the next [kalloc]
    hands out a page nobody holds, and gives 0 exactly when all pages are
    handed out; and the [kfree] of a page that is held succeeds. *)
Theorem allocator_safe m0 m A :
  (exists l, free_pages m0 l /\ forall p, p ∈ l <-> page_ok p) ->
  rtc astep (m0, ∅) (m, A) ->
  partition (m, A) /\
  ((exists p m', kalloc_mem m = MOk p m' /\ p ∉ A /\ page_ok p) \/
   ((forall p, page_ok p -> p ∈ A) /\ kalloc_mem m = MOk 0 m)) /\
  (forall p, p ∈ A -> exists m', kfree_mem p m = MOk tt m').
Proof.
  intros (l & Hl & Hall) Hr.
  assert (Hp : partition (m, A)).
  { refine (rtc_ind_r partition (m0, ∅) _ _ _ Hr); [|eauto using astep_partition]. exists l. split_and!; [done | |]; intros p; simpl.
    - rewrite Hall, elem_of_empty. tauto.
    - intros _. apply not_elem_of_empty. }
  split_and!; [done| |].
  - destruct (partition_alloc m A Hp) as [(p & m' & ? & ? & ? & _)|?]; [left; eauto | by right].
  - intros p HpA. destruct (partition_free m A p Hp HpA) as (m' & ? & _). eauto.
Qed.

End Kalloc.
