(* ===== verification/Vm.v ===== *)
(** * [kernel/vm.c]: page tables and user memory

    The functions of [vm.c] (and [proc_mapstacks] of [proc.c]) on physical
    memory.  A [pagetable_t] is the physical address of the root page, a
    [pte_t *] the address of the entry; a null pointer is 0, and following it a
    [MFault].  A loop gets as fuel the number of pages its bounds allow. *)

From stdpp Require Import base list gmap strings.
From Stdlib Require Import ZArith Lia.
From S2P Require Import Prelude KernelBase PhysMem Kalloc.

Open Scope Z_scope.
Open Scope mem_scope.

(** ** The entries of a page table: [kernel/riscv.h] *)

Definition PTE_V : Z := Z.shiftl 1 0.

Definition PTE_U : Z := Z.shiftl 1 4.

Definition PA2PTE (pa : Z) : Z := Z.shiftl (Z.shiftr pa 12) 10.

Definition PTE2PA (pte : Z) : Z := u64 (Z.shiftl (Z.shiftr pte 10) 12).

Definition PTE_FLAGS (pte : Z) : Z := Z.land pte 1023.

Definition PX (level va : Z) : Z := Z.land (Z.shiftr va (12 + 9 * level)) 511.

(** [(pte & flag) != 0] *)
Definition has (pte flag : Z) : bool := negb (Z.land pte flag =? 0).

(** Devices of [kernel/memlayout.h]. *)
Definition UART0 : Z := 268435456.

Definition VIRTIO0 : Z := 268439552.

Definition PLIC : Z := 201326592.

Section Vm.

Context {lay : layout}.

(** ** Walking a page table *)

(** The loop of [walk] from [level] on, then [return &pagetable[PX(0, va)]]. *)
Fixpoint walk_loop (level : nat) (pagetable va : Z) (alloc : bool) : MM Z :=
  match level with
  | O => mm_ret (pagetable + 8 * PX 0 va)
  | S level' =>
      let pte := pagetable + 8 * PX (Z.of_nat level) va in
      let! e := load64 pte in
      if has e PTE_V then walk_loop level' (PTE2PA e) va alloc
      else if negb alloc then mm_ret 0 else
      let! pagetable := kalloc_mem in
      if pagetable =? 0 then mm_ret 0 else
      mem_set pagetable 0 PGSIZE ;!
      store64 pte (Z.lor (PA2PTE pagetable) PTE_V) ;!
      walk_loop level' pagetable va alloc
  end.

Definition walk (pagetable va : Z) (alloc : bool) : MM Z :=
  if MAXVA <=? va then mpanic "walk" else walk_loop 2 pagetable va alloc.

Definition walkaddr (pagetable va : Z) : MM Z :=
  if MAXVA <=? va then mm_ret 0 else
  let! pte := walk pagetable va false in
  if pte =? 0 then mm_ret 0 else
  let! e := load64 pte in
  if negb (has e PTE_V) then mm_ret 0 else
  if negb (has e PTE_U) then mm_ret 0 else
  mm_ret (PTE2PA e).

Definition ismapped (pagetable va : Z) : MM Z :=
  let! pte := walk pagetable va false in
  if pte =? 0 then mm_ret 0 else
  let! e := load64 pte in
  if has e PTE_V then mm_ret 1 else mm_ret 0.

(** ** Mapping *)

Fixpoint mappages_loop (fuel : nat) (pagetable a last pa perm : Z) : MM Z :=
  match fuel with
  | O => fun _ => MOutOfFuel
  | S f =>
      let! pte := walk pagetable a true in
      if pte =? 0 then mm_ret (-1) else
      let! e := load64 pte in
      if has e PTE_V then mpanic "mappages: remap" else
      store64 pte (Z.lor (Z.lor (PA2PTE pa) perm) PTE_V) ;!
      if a =? last then mm_ret 0 else
      mappages_loop f pagetable (u64 (a + PGSIZE)) last (u64 (pa + PGSIZE)) perm
  end.

Definition mappages (pagetable va size pa perm : Z) : MM Z :=
  if negb (va mod PGSIZE =? 0) then mpanic "mappages: va not aligned" else
  if negb (size mod PGSIZE =? 0) then mpanic "mappages: size not aligned" else
  if size =? 0 then mpanic "mappages: size" else
  mappages_loop (Z.to_nat (size / PGSIZE)) pagetable va (u64 (va + size - PGSIZE)) pa perm.

Definition uvmcreate : MM Z :=
  let! pagetable := kalloc_mem in
  if pagetable =? 0 then mm_ret 0 else
  mem_set pagetable 0 PGSIZE ;!
  mm_ret pagetable.

(** One round of the loop of [uvmunmap]; a [continue] is a return. *)
Definition unmap_page (pagetable a : Z) (do_free : bool) : MM unit :=
  let! pte := walk pagetable a false in
  if pte =? 0 then mm_ret tt else
  let! e := load64 pte in
  if negb (has e PTE_V) then mm_ret tt else
  mwhen do_free (kfree_mem (PTE2PA e)) ;!
  store64 pte 0.

Fixpoint uvmunmap_loop (fuel : nat) (pagetable a stop : Z) (do_free : bool) : MM unit :=
  if a <? stop then
    match fuel with
    | O => fun _ => MOutOfFuel
    | S f => unmap_page pagetable a do_free ;! uvmunmap_loop f pagetable (u64 (a + PGSIZE)) stop do_free
    end
  else mm_ret tt.

Definition uvmunmap (pagetable va npages : Z) (do_free : bool) : MM unit :=
  if negb (va mod PGSIZE =? 0) then mpanic "uvmunmap: not aligned" else
  let stop := u64 (va + u64 (npages * PGSIZE)) in
  uvmunmap_loop (Z.to_nat ((stop - va) / PGSIZE)) pagetable va stop do_free.

(** ** Growing and shrinking *)

Definition uvmdealloc (pagetable oldsz newsz : Z) : MM Z :=
  if oldsz <=? newsz then mm_ret oldsz else
  mwhen (PGROUNDUP newsz <? PGROUNDUP oldsz) (
    let npages := i32 ((PGROUNDUP oldsz - PGROUNDUP newsz) / PGSIZE) in
    uvmunmap pagetable (PGROUNDUP newsz) (u64 npages) true) ;!
  mm_ret newsz.

Fixpoint uvmalloc_loop (fuel : nat) (pagetable a oldsz newsz xperm : Z) : MM Z :=
  if a <? newsz then
    match fuel with
    | O => fun _ => MOutOfFuel
    | S f =>
        let! mem := kalloc_mem in
        if mem =? 0 then uvmdealloc pagetable a oldsz ;! mm_ret 0 else
        mem_set mem 0 PGSIZE ;!
        let! r := mappages pagetable a PGSIZE mem (Z.lor (Z.lor PTE_R PTE_U) xperm) in
        if negb (r =? 0) then kfree_mem mem ;! uvmdealloc pagetable a oldsz ;! mm_ret 0 else
        uvmalloc_loop f pagetable (u64 (a + PGSIZE)) oldsz newsz xperm
    end
  else mm_ret newsz.

Definition uvmalloc (pagetable oldsz newsz xperm : Z) : MM Z :=
  if newsz <? oldsz then mm_ret oldsz else
  let oldsz := PGROUNDUP oldsz in
  uvmalloc_loop (Z.to_nat ((newsz - oldsz + PGSIZE - 1) / PGSIZE)) pagetable oldsz oldsz newsz xperm.

(** ** Freeing *)

(** [for (i = ...; i < 512; i++)] of [freewalk], [n] entries; [rec] is the
    recursive call. *)
Fixpoint freewalk_entries (rec : Z -> MM unit) (n : nat) (pagetable i : Z) : MM unit :=
  match n with
  | O => mm_ret tt
  | S n' =>
      let! pte := load64 (pagetable + 8 * i) in
      (if (has pte PTE_V && (Z.land pte (Z.lor (Z.lor PTE_R PTE_W) PTE_X) =? 0))%bool then
         rec (PTE2PA pte) ;! store64 (pagetable + 8 * i) 0
       else if has pte PTE_V then mpanic "freewalk: leaf" else mm_ret tt) ;!
      freewalk_entries rec n' pagetable (i + 1)
  end.

(** [fuel] bounds the depth of the recursion: a page table has three levels. *)
Fixpoint freewalk (fuel : nat) (pagetable : Z) : MM unit :=
  match fuel with
  | O => fun _ => MOutOfFuel
  | S f => freewalk_entries (freewalk f) 512 pagetable 0 ;! kfree_mem pagetable
  end.

Definition uvmfree (pagetable sz : Z) : MM unit :=
  mwhen (0 <? sz) (uvmunmap pagetable 0 (PGROUNDUP sz / PGSIZE) true) ;!
  freewalk 3 pagetable.

(** ** Copying an address space *)

Fixpoint uvmcopy_loop (fuel : nat) (old new i sz : Z) : MM Z :=
  if i <? sz then
    match fuel with
    | O => fun _ => MOutOfFuel
    | S f =>
        let err := uvmunmap new 0 (i / PGSIZE) true ;! mm_ret (-1) in
        let next := uvmcopy_loop f old new (u64 (i + PGSIZE)) sz in
        let! pte := walk old i false in
        if pte =? 0 then next else
        let! e := load64 pte in
        if negb (has e PTE_V) then next else
        let pa := PTE2PA e in
        let flags := PTE_FLAGS e in
        let! mem := kalloc_mem in
        if mem =? 0 then err else
        mem_move mem pa PGSIZE ;!
        let! r := mappages new i PGSIZE mem flags in
        if negb (r =? 0) then kfree_mem mem ;! err else next
    end
  else mm_ret 0.

Definition uvmcopy (old new sz : Z) : MM Z :=
  uvmcopy_loop (Z.to_nat ((sz + PGSIZE - 1) / PGSIZE)) old new 0 sz.

Definition uvmclear (pagetable va : Z) : MM unit :=
  let! pte := walk pagetable va false in
  if pte =? 0 then mpanic "uvmclear" else
  let! e := load64 pte in
  store64 pte (Z.land e (Z.lnot PTE_U)).

(** ** Lazily allocated memory *)

Definition vmfault (pagetable psz va read : Z) : MM Z :=
  if psz <=? va then mm_ret 0 else
  let va := PGROUNDDOWN va in
  let! b := ismapped pagetable va in
  if negb (b =? 0) then mm_ret 0 else
  let! mem := kalloc_mem in
  if mem =? 0 then mm_ret 0 else
  mem_set mem 0 PGSIZE ;!
  let! r := mappages pagetable va PGSIZE mem (Z.lor (Z.lor PTE_W PTE_U) PTE_R) in
  if negb (r =? 0) then kfree_mem mem ;! mm_ret 0 else
  mm_ret mem.

(** [pa0 = walkaddr(...); if (pa0 == 0) pa0 = vmfault(...)] *)
Definition user_page (pagetable psz va0 read : Z) : MM Z :=
  let! pa0 := walkaddr pagetable va0 in
  if pa0 =? 0 then vmfault pagetable psz va0 read else mm_ret pa0.

(** ** Copying between kernel and user *)

(** [src] is what is left to copy. *)
Fixpoint copyout_loop (fuel : nat) (pagetable psz dstva : Z) (src : list Z) : MM Z :=
  if 0 <? Z.of_nat (length src) then
    match fuel with
    | O => fun _ => MOutOfFuel
    | S f =>
        let va0 := PGROUNDDOWN dstva in
        if MAXVA <=? va0 then mm_ret (-1) else
        let! pa0 := user_page pagetable psz va0 0 in
        if pa0 =? 0 then mm_ret (-1) else
        let! pte := walk pagetable va0 false in
        let! e := load64 pte in
        if negb (has e PTE_W) then mm_ret (-1) else
        let n := Z.min (PGSIZE - (dstva - va0)) (Z.of_nat (length src)) in
        mem_write (pa0 + (dstva - va0)) (take (Z.to_nat n) src) ;!
        copyout_loop f pagetable psz (u64 (va0 + PGSIZE)) (drop (Z.to_nat n) src)
    end
  else mm_ret 0.

Definition copyout (pagetable psz dstva : Z) (src : list Z) : MM Z :=
  copyout_loop (length src) pagetable psz dstva src.

(** The bytes copied, or [None] for -1. *)
(** The result is the C return value and the bytes stored at [dst]. *)
Fixpoint copyin_loop (fuel : nat) (pagetable psz srcva len : Z) (dst : list Z) : MM (Z * list Z) :=
  if 0 <? len then
    match fuel with
    | O => fun _ => MOutOfFuel
    | S f =>
        let va0 := PGROUNDDOWN srcva in
        let! pa0 := user_page pagetable psz va0 1 in
        if pa0 =? 0 then mm_ret (-1, dst) else
        let n := Z.min (PGSIZE - (srcva - va0)) len in
        let! l := mem_read (pa0 + (srcva - va0)) n in
        copyin_loop f pagetable psz (u64 (va0 + PGSIZE)) (len - n) (dst ++ l)
    end
  else mm_ret (0, dst).

Definition copyin (pagetable psz srcva len : Z) : MM (Z * list Z) :=
  copyin_loop (Z.to_nat len) pagetable psz srcva len [].

(** The loop over the [n] bytes at [p] of one page: the bytes before a NUL,
    and whether there was one. *)
Fixpoint copyinstr_page (n : nat) (p : Z) (dst : list Z) : MM (list Z * bool) :=
  match n with
  | O => mm_ret (dst, false)
  | S n' =>
      let! c := load8 p in
      if c =? 0 then mm_ret (dst ++ [0], true) else copyinstr_page n' (p + 1) (dst ++ [c])
  end.

Fixpoint copyinstr_loop (fuel : nat) (pagetable psz srcva max : Z) (dst : list Z) : MM (option (list Z)) :=
  if 0 <? max then
    match fuel with
    | O => fun _ => MOutOfFuel
    | S f =>
        let va0 := PGROUNDDOWN srcva in
        let! pa0 := user_page pagetable psz va0 1 in
        if pa0 =? 0 then mm_ret None else
        let n := Z.min (PGSIZE - (srcva - va0)) max in
        let! r := copyinstr_page (Z.to_nat n) (pa0 + (srcva - va0)) dst in
        if r.2 then mm_ret (Some r.1) else
        copyinstr_loop f pagetable psz (u64 (va0 + PGSIZE)) (max - n) r.1
    end
  else mm_ret None.

Definition copyinstr (pagetable psz srcva max : Z) : MM (option (list Z)) :=
  copyinstr_loop (Z.to_nat max) pagetable psz srcva max [].

(** ** The kernel's own page table *)

Definition kvmmap (kpgtbl va pa sz perm : Z) : MM unit :=
  let! r := mappages kpgtbl va sz pa perm in
  if negb (r =? 0) then mpanic "kvmmap" else mm_ret tt.

(** [for (p = proc; p < &proc[NPROC]; p++)]: [n] entries from [p] on. *)
Fixpoint proc_mapstacks_loop (n : nat) (p kpgtbl : Z) : MM unit :=
  match n with
  | O => mm_ret tt
  | S n' =>
      let! pa := kalloc_mem in
      if pa =? 0 then mpanic "kalloc" else
      kvmmap kpgtbl (KSTACK p) pa PGSIZE (Z.lor PTE_R PTE_W) ;!
      proc_mapstacks_loop n' (p + 1) kpgtbl
  end.

Definition proc_mapstacks (kpgtbl : Z) : MM unit := proc_mapstacks_loop NPROC 0 kpgtbl.

Definition kvmmake (trampoline : Z) : MM Z :=
  let! kpgtbl := kalloc_mem in
  mem_set kpgtbl 0 PGSIZE ;!
  kvmmap kpgtbl UART0 UART0 PGSIZE (Z.lor PTE_R PTE_W) ;!
  kvmmap kpgtbl VIRTIO0 VIRTIO0 PGSIZE (Z.lor PTE_R PTE_W) ;!
  kvmmap kpgtbl PLIC PLIC 67108864 (Z.lor PTE_R PTE_W) ;!
  kvmmap kpgtbl KERNBASE KERNBASE (etext - KERNBASE) (Z.lor PTE_R PTE_X) ;!
  kvmmap kpgtbl etext etext (PHYSTOP - etext) (Z.lor PTE_R PTE_W) ;!
  kvmmap kpgtbl TRAMPOLINE trampoline PGSIZE (Z.lor PTE_R PTE_X) ;!
  proc_mapstacks kpgtbl ;!
  mm_ret kpgtbl.

Definition kvminit (trampoline : Z) : MM unit :=
  let! kpgtbl := kvmmake trampoline in
  mmodify (set_kernel_pagetable kpgtbl).

End Vm.
