(* ===== verification/VmFacts.v ===== *)
(** * Page tables as maps: the invariant and [walk]

    The tables of an address space are a finite map [T] from a level and an
    index to a page: the table of [va] at level [l] has the index
    [va / 2^(12 + 9 (l + 1))], so the root is [(2, 0)].  [leaf] is the last
    level as a function from virtual page numbers to entries: this is the
    abstract page table the theorems of [VmTheorems.v] speak about. *)

From stdpp Require Import base list gmap strings.
From Stdlib Require Import ZArith Lia.
From S2P Require Import Prelude KernelBase PhysMem Kalloc Vm.

Open Scope Z_scope.

(** ** Arithmetic of entries *)

Lemma PA2PTE_eq pa : PA2PTE pa = pa / 4096 * 1024.
Proof. unfold PA2PTE. by rewrite Z.shiftl_mul_pow2, Z.shiftr_div_pow2 by lia. Qed.

Lemma land_shiftl_small k n f : 0 <= n -> 0 <= f < 2 ^ n -> Z.land (Z.shiftl k n) f = 0.
Proof.
  intros Hn Hf. replace f with (Z.land f (Z.ones n)) by (rewrite Z.land_ones, Z.mod_small; lia).
  rewrite (Z.land_comm f), Z.land_assoc, Z.land_ones, Z.shiftl_mul_pow2, Z.mod_mul by lia.
  apply Z.land_0_l.
Qed.

Lemma lor_shiftl_small k n f : 0 <= n -> 0 <= f < 2 ^ n -> Z.lor (Z.shiftl k n) f = k * 2 ^ n + f.
Proof.
  intros Hn Hf. rewrite <- Z.shiftl_mul_pow2 by done.
  rewrite <- Z.lxor_lor by by apply land_shiftl_small.
  symmetry. apply Z.add_nocarry_lxor. by apply land_shiftl_small.
Qed.

(** An entry made of a page and flags gives them back. *)
Lemma PTE2PA_PA2PTE pa f : pa mod PGSIZE = 0 -> 0 <= pa < 2 ^ 64 -> 0 <= f < 1024 ->
  PTE2PA (Z.lor (PA2PTE pa) f) = pa.
Proof.
  rewrite PGSIZE_val. intros Ha Hpa Hf. unfold PTE2PA, PA2PTE.
  rewrite lor_shiftl_small by lia. rewrite (Z.shiftr_div_pow2 _ 10), Z.div_add_l by lia.
  rewrite (Z.div_small f) by lia. rewrite Z.add_0_r, Z.shiftr_div_pow2, Z.shiftl_mul_pow2 by lia.
  change (2 ^ 12) with 4096. replace (pa / 4096 * 4096) with pa by (pose proof (Z.div_mod pa 4096); lia).
  by apply u64_small.
Qed.

Lemma PTE_FLAGS_PA2PTE pa f : 0 <= f < 1024 -> PTE_FLAGS (Z.lor (PA2PTE pa) f) = f.
Proof.
  intros Hf. unfold PTE_FLAGS, PA2PTE. change 1023 with (Z.ones 10).
  rewrite lor_shiftl_small, Z.land_ones by lia. rewrite Z.add_comm, Z.mod_add by lia.
  by apply Z.mod_small.
Qed.

Lemma has_PA2PTE pa f g : 0 <= g < 1024 -> has (Z.lor (PA2PTE pa) f) g = has f g.
Proof.
  intros Hg. unfold has. rewrite Z.land_lor_distr_l. unfold PA2PTE.
  by rewrite land_shiftl_small by lia.
Qed.

Lemma PTE_range pa f : 0 <= pa < 2 ^ 64 -> 0 <= f < 1024 -> 0 <= Z.lor (PA2PTE pa) f < 2 ^ 64.
Proof.
  intros Hpa Hf. unfold PA2PTE. rewrite lor_shiftl_small, Z.shiftr_div_pow2 by lia.
  change (2 ^ 12) with 4096. pose proof (Z.div_mod pa 4096). pose proof (Z.mod_pos_bound pa 4096). lia.
Qed.

Lemma has_lor_V e : has (Z.lor e PTE_V) PTE_V = true.
Proof.
  unfold has. apply negb_true_iff, Z.eqb_neq. intros H.
  assert (H' : Z.testbit (Z.land (Z.lor e PTE_V) PTE_V) 0 = false) by by rewrite H.
  rewrite Z.land_spec, Z.lor_spec in H'. by rewrite orb_true_r in H'.
Qed.

Lemma has_0 f : has 0 f = false.
Proof. done. Qed.

(** ** Indices *)

(** The index of the table of [va] at [level]. *)
Definition tidx (level : nat) (va : Z) : Z := va / 2 ^ (21 + 9 * Z.of_nat level).

Lemma PX_eq level va : 0 <= level -> PX level va = va / 2 ^ (12 + 9 * level) mod 512.
Proof.
  intros H. unfold PX. change 511 with (Z.ones 9).
  by rewrite Z.land_ones, Z.shiftr_div_pow2 by lia.
Qed.

Lemma PX_range level va : 0 <= level -> 0 <= PX level va < 512.
Proof. intros H. rewrite PX_eq by done. apply Z.mod_pos_bound. lia. Qed.

Lemma tidx_S level va : tidx (S level) va = tidx level va / 512.
Proof.
  unfold tidx. rewrite Z.div_div by lia. f_equal.
  change 512 with (2 ^ 9). rewrite <- Z.pow_add_r by lia. f_equal. lia.
Qed.

Lemma tidx_child level va : tidx level va = tidx (S level) va * 512 + PX (Z.of_nat (S level)) va.
Proof.
  rewrite tidx_S, PX_eq by lia.
  replace (12 + 9 * Z.of_nat (S level)) with (21 + 9 * Z.of_nat level) by lia.
  fold (tidx level va). pose proof (Z.div_mod (tidx level va) 512). lia.
Qed.

Lemma tidx_root va : 0 <= va < MAXVA -> tidx 2 va = 0.
Proof. intros H. apply Z.div_small. change MAXVA with (2 ^ 38) in H. simpl. lia. Qed.

(** The page number of [va]. *)
Definition vpn (va : Z) : Z := va / PGSIZE.

Lemma vpn_tidx va : vpn va / 512 = tidx 0 va.
Proof. unfold vpn, tidx. rewrite Z.div_div by (rewrite ?PGSIZE_val; lia). done. Qed.

Lemma vpn_PX va : vpn va mod 512 = PX 0 va.
Proof. by rewrite PX_eq by lia. Qed.

(** ** The invariant *)

Section Tables.

Context {lay : layout}.
Implicit Types (T : gmap (nat * Z) Z) (l : list Z) (m : pmem).

Record pt_ok (r : bytes) (root : Z) T : Prop := mkpt_ok {
  pt_root : T !! (2%nat, 0) = Some root;
  pt_page : forall k p, T !! k = Some p -> page_ok p;
  pt_inj : forall k1 k2 p, T !! k1 = Some p -> T !! k2 = Some p -> k1 = k2;
  pt_parent : forall lev i p, T !! (lev, i) = Some p ->
    (lev, i) = (2%nat, 0) \/ ((lev < 2)%nat /\ is_Some (T !! (S lev, i / 512)));
  pt_entry : forall lev k p i, T !! (S lev, k) = Some p -> 0 <= i < 512 ->
    ld64 r (p + 8 * i) =
    match T !! (lev, k * 512 + i) with Some q => Z.lor (PA2PTE q) PTE_V | None => 0 end
}.

(** [p] is one of the tables. *)
Definition tab T (p : Z) : Prop := exists k, T !! k = Some p.

(** The entry for a virtual page number. *)
Definition leaf (r : bytes) T (n : Z) : Z :=
  match T !! (0%nat, n / 512) with
  | Some p => ld64 r (p + 8 * (n mod 512))
  | None => 0
  end.

(** An address space in memory with the list of free pages. *)
Record own m (root : Z) T l : Prop := mkown {
  own_pt : pt_ok (ram m) root T;
  own_free : free_pages m l;
  own_apart : forall p, tab T p -> p ∉ l
}.

Lemma slot_apart p q i j : p mod PGSIZE = 0 -> q mod PGSIZE = 0 ->
  0 <= i < 512 -> 0 <= j < 512 -> (p, i) <> (q, j) ->
  q + 8 * j + 8 <= p + 8 * i \/ p + 8 * i + 8 <= q + 8 * j.
Proof.
  intros Hp Hq Hi Hj Hne. destruct (decide (p = q)) as [->|Hpq].
  - assert (i <> j) by congruence. lia.
  - destruct (aligned_apart p q Hp Hq Hpq); rewrite PGSIZE_val in *; lia.
Qed.

Lemma slot_in_ram p i : page_ok p -> 0 <= i < 512 -> in_ram (p + 8 * i) 8 = true.
Proof. intros Hp Hi. apply (page_in_ram p); [done|lia|rewrite PGSIZE_val; lia]. Qed.

Lemma touches_slot P r r' p i : touches P r r' -> page_ok p -> ~ P p -> 0 <= i < 512 ->
  ld64 r' (p + 8 * i) = ld64 r (p + 8 * i).
Proof. intros Ht [Hp _] HP Hi. eapply touches_ld64; [done|done|done|lia|rewrite PGSIZE_val; lia]. Qed.

Lemma touches_st64 r p i v : page_ok p -> 0 <= i < 512 -> touches (eq p) r (st64 r (p + 8 * i) v).
Proof. intros [Hp _] Hi. apply touches_put; [done|lia|rewrite PGSIZE_val; lia]. Qed.

(** What the tables say does not depend on other pages. *)
Lemma pt_ok_touches P r r' root T :
  pt_ok r root T -> touches P r r' -> (forall p, tab T p -> ~ P p) -> pt_ok r' root T.
Proof.
  intros [H1 H2 H3 H4 H5] Ht HP. split; [done..|].
  intros lev k p i Hp Hi. rewrite (touches_slot P r r'); eauto. apply HP. by eexists.
Qed.

Lemma leaf_touches P r r' root T n :
  pt_ok r root T -> touches P r r' -> (forall p, tab T p -> ~ P p) -> leaf r' T n = leaf r T n.
Proof.
  intros Hpt Ht HP. unfold leaf. destruct (T !! _) as [p|] eqn:E; [|done].
  apply (touches_slot P); [done | by eapply pt_page | apply HP; by eexists | apply Z.mod_pos_bound; lia].
Qed.

(** ** [walk] without allocation *)

(** Where the entry of [va] is, 0 when there is no table for it. *)
Definition slot T (va : Z) : Z :=
  match T !! (0%nat, tidx 0 va) with Some q => q + 8 * PX 0 va | None => 0 end.

Lemma pt_up r root T va lev : pt_ok r root T -> is_Some (T !! (0%nat, tidx 0 va)) -> (lev <= 2)%nat ->
  is_Some (T !! (lev, tidx lev va)).
Proof.
  intros Hpt H0. induction lev as [|lev IH]; intros Hl; [done|].
  destruct (IH ltac:(lia)) as [p Hp].
  destruct (pt_parent _ _ _ Hpt _ _ _ Hp) as [[=]|[_ Hs]]; [lia|]. by rewrite tidx_S.
Qed.

(** The entry in the table of [va] at a level above 0. *)
Lemma pt_step r root T lev p va : pt_ok r root T -> T !! (S lev, tidx (S lev) va) = Some p ->
  ld64 r (p + 8 * PX (Z.of_nat (S lev)) va) =
  match T !! (lev, tidx lev va) with Some q => Z.lor (PA2PTE q) PTE_V | None => 0 end.
Proof.
  intros Hpt Hp. rewrite (tidx_child lev). apply (pt_entry _ _ _ Hpt); [done|].
  apply PX_range. lia.
Qed.

Lemma PTE2PA_tab q : page_ok q -> PTE2PA (Z.lor (PA2PTE q) PTE_V) = q.
Proof.
  intros Hq. pose proof (page_ok_bound q Hq). destruct Hq as [Ha _].
  apply PTE2PA_PA2PTE; [done|lia|]. change PTE_V with 1. lia.
Qed.

Lemma walk_loop_find m root T lev p va : (lev <= 2)%nat ->
  pt_ok (ram m) root T -> T !! (lev, tidx lev va) = Some p ->
  mwp (walk_loop lev p va false) m (fun r m' => m' = m /\ r = slot T va).
Proof.
  intros Hlev Hpt. revert p. induction lev as [|lev IH]; intros p Hp; unfold walk_loop; fold walk_loop.
  - apply mwp_ret. unfold slot. by rewrite Hp.
  - apply mwp_bind, mwp_load64.
    { apply slot_in_ram; [by eapply pt_page | apply PX_range; lia]. }
    rewrite (pt_step _ _ _ _ _ _ Hpt Hp). destruct (T !! (lev, tidx lev va)) as [q|] eqn:E.
    + rewrite has_lor_V, PTE2PA_tab by by eapply pt_page. apply IH; [lia|done].
    + rewrite has_0. cbn [negb]. apply mwp_ret. split; [done|]. unfold slot.
      destruct (T !! (0%nat, tidx 0 va)) eqn:E0; [|done].
      destruct (pt_up (ram m) root T va lev Hpt) as [x Hx]; [by rewrite E0|lia|]. by rewrite E in Hx.
Qed.

Lemma walk_find m root T va : pt_ok (ram m) root T -> 0 <= va < MAXVA ->
  mwp (walk root va false) m (fun r m' => m' = m /\ r = slot T va).
Proof.
  intros Hpt Hva. unfold walk. rewrite (proj2 (Z.leb_gt MAXVA va)) by lia.
  apply (walk_loop_find m root); [lia|done|]. rewrite tidx_root by done. by eapply pt_root.
Qed.

(** Reading the entry [walk] has found. *)
Lemma slot_leaf r T va : slot T va <> 0 -> ld64 r (slot T va) = leaf r T (vpn va).
Proof.
  unfold slot, leaf. rewrite vpn_tidx, vpn_PX. by destruct (T !! _).
Qed.

Lemma slot_none r T va : slot T va = 0 -> (forall k p, T !! k = Some p -> page_ok p) ->
  leaf r T (vpn va) = 0.
Proof.
  unfold slot, leaf. rewrite vpn_tidx. intros H Hp. destruct (T !! _) as [q|] eqn:E; [|done].
  apply Hp, page_ok_bound in E. pose proof (PX_range 0 va ltac:(lia)). lia.
Qed.

Lemma slot_ok r root T va : pt_ok r root T -> slot T va <> 0 ->
  exists q, T !! (0%nat, tidx 0 va) = Some q /\ page_ok q /\ slot T va = q + 8 * PX 0 va.
Proof.
  intros Hpt. unfold slot. destruct (T !! _) as [q|] eqn:E; [|done]. intros _.
  exists q. split_and!; [done|by eapply pt_page|done].
Qed.

(** ** Writing an entry of the last level *)

Lemma touches_not_tab T P r r' root p i :
  pt_ok r root T -> touches P r r' -> tab T p -> ~ P p -> 0 <= i < 512 ->
  ld64 r' (p + 8 * i) = ld64 r (p + 8 * i).
Proof. intros Hpt Ht [k Hk] HP Hi. eapply touches_slot; [done|by eapply pt_page|done|done]. Qed.

Lemma leaf_write r root T va v n :
  pt_ok r root T -> slot T va <> 0 -> 0 <= v < 2 ^ 64 ->
  leaf (st64 r (slot T va) v) T n = if decide (n = vpn va) then v else leaf r T n.
Proof.
  intros Hpt Hs Hv. destruct (slot_ok _ _ _ _ Hpt Hs) as (q & Hq & Hqok & ->).
  pose proof (PX_range 0 va ltac:(lia)) as HPX. case_decide as Hn.
  - subst n. unfold leaf. rewrite vpn_tidx, vpn_PX, Hq. by apply ld64_st64.
  - unfold leaf. destruct (T !! (0%nat, n / 512)) as [p|] eqn:E; [|done].
    apply ld64_st64_ne. apply slot_apart; [apply Hqok | by eapply pt_page | done | apply Z.mod_pos_bound; lia|].
    intros [= -> Hi]. apply Hn. pose proof (pt_inj _ _ _ Hpt _ _ _ Hq E) as [= Ht].
    rewrite <- vpn_tidx in Ht. rewrite <- vpn_PX in Hi.
    pose proof (Z.div_mod n 512). pose proof (Z.div_mod (vpn va) 512). lia.
Qed.

Lemma pt_ok_write r root T va v : pt_ok r root T -> slot T va <> 0 ->
  pt_ok (st64 r (slot T va) v) root T.
Proof.
  intros Hpt Hs. destruct (slot_ok _ _ _ _ Hpt Hs) as (q & Hq & Hqok & ->).
  destruct Hpt as [H1 H2 H3 H4 H5]. split; [done..|].
  intros lev k p i Hp Hi. rewrite (touches_slot (eq q) r); [by apply H5 | | by eapply H2 | | done].
  - apply touches_st64; [done|]. apply PX_range. lia.
  - intros ->. pose proof (H3 _ _ _ Hp Hq) as [=].
Qed.

Lemma touches_slot_write r root T va v : pt_ok r root T -> slot T va <> 0 ->
  touches (tab T) r (st64 r (slot T va) v).
Proof.
  intros Hpt Hs. destruct (slot_ok _ _ _ _ Hpt Hs) as (q & Hq & Hqok & ->).
  eapply touches_mono; [apply touches_st64; [done|apply PX_range; lia]|].
  intros p <-. by eexists.
Qed.

Lemma own_write m root T l va v : own m root T l -> slot T va <> 0 ->
  own (set_ram (st64 (ram m) (slot T va) v) m) root T l.
Proof.
  intros [Hpt Hfree Hd] Hs. split; [by apply pt_ok_write | | done].
  eapply free_pages_touches; [done | by eapply touches_slot_write |].
  intros p Hp Ht. by apply (Hd p Ht).
Qed.

(** ** A new table *)

(** The memory after [walk] has put the new page [g] into slot [i] of [p]. *)
Definition hang (r : bytes) (g p i : Z) : bytes :=
  st64 (put r g PGSIZE (fun _ => 0)) (p + 8 * i) (Z.lor (PA2PTE g) PTE_V).

Lemma hang_touches r g p i : page_ok g -> page_ok p -> 0 <= i < 512 ->
  touches (fun q => q = g \/ q = p) r (hang r g p i).
Proof.
  intros Hg Hp Hi. apply (touches_trans (eq g) (eq p) _ _ (put r g PGSIZE (fun _ => 0))).
  - apply touches_put; [apply Hg|lia|lia].
  - by apply touches_st64.
  - by left.
  - by right.
Qed.

Lemma hang_old r g p i q j : page_ok g -> page_ok p -> page_ok q -> q <> g ->
  0 <= i < 512 -> 0 <= j < 512 -> (p, i) <> (q, j) -> ld64 (hang r g p i) (q + 8 * j) = ld64 r (q + 8 * j).
Proof.
  intros Hg Hp Hq Hqg Hi Hj Hne. unfold hang.
  rewrite ld64_st64_ne by (apply slot_apart; [apply Hp | apply Hq | done..]).
  apply (touches_slot (eq g)); [apply touches_put; [apply Hg|lia|lia] | done | congruence | done].
Qed.

Lemma hang_new r g p i j : page_ok g -> page_ok p -> p <> g -> 0 <= i < 512 -> 0 <= j < 512 ->
  ld64 (hang r g p i) (g + 8 * j) = 0.
Proof.
  intros Hg Hp Hpg Hi Hj. unfold hang.
  rewrite ld64_st64_ne by (apply slot_apart; [apply Hp | apply Hg | done | done | congruence]).
  apply ldn_zero. intros x Hx. apply put_in. rewrite PGSIZE_val. lia.
Qed.

Lemma hang_slot r g p i : page_ok g -> ld64 (hang r g p i) (p + 8 * i) = Z.lor (PA2PTE g) PTE_V.
Proof.
  intros Hg%page_ok_bound. unfold hang. apply ld64_st64. apply PTE_range; [lia|].
  change PTE_V with 1. lia.
Qed.

Section Hang.

Variables (r : bytes) (root : Z) (T : gmap (nat * Z) Z) (lev : nat) (k i p g : Z).
Hypotheses (Hpt : pt_ok r root T) (Hp : T !! (S lev, k) = Some p) (Hi : 0 <= i < 512)
  (Hnone : T !! (lev, k * 512 + i) = None) (Hg : page_ok g) (Hfresh : ~ tab T g).

Let T' := <[(lev, k * 512 + i) := g]> T.

Let Hpok : page_ok p.
Proof. by eapply pt_page. Qed.

Let Hpg : p <> g.
Proof. intros ->. apply Hfresh. by eexists. Qed.

(** No table hangs below one that is not there. *)
Lemma hang_below j : 0 <= j < 512 -> forall n', lev = S n' -> T !! (n', (k * 512 + i) * 512 + j) = None.
Proof.
  intros Hj n' ->. destruct (T !! (n', (k * 512 + i) * 512 + j)) eqn:E; [|done].
  destruct (pt_parent _ _ _ Hpt _ _ _ E) as [[= -> H]|[_ [q Hq]]].
  - destruct (pt_parent _ _ _ Hpt _ _ _ Hp) as [?|[? _]]; [done|lia].
  - rewrite Z.div_add_l, Z.div_small, Z.add_0_r in Hq by lia. by rewrite Hnone in Hq.
Qed.

Lemma hang_entry lev' k' q j : T' !! (S lev', k') = Some q -> 0 <= j < 512 ->
  ld64 (hang r g p i) (q + 8 * j) =
  match T' !! (lev', k' * 512 + j) with Some x => Z.lor (PA2PTE x) PTE_V | None => 0 end.
Proof.
  intros Hq Hj. unfold T' in *. destruct (decide ((lev, k * 512 + i) = (S lev', k'))) as [Hk|Hk].
  - rewrite <- Hk, lookup_insert_eq in Hq. injection Hq as Hq. injection Hk as El Ek.
    rewrite <- Hq, hang_new by done. rewrite lookup_insert_ne by (intros [=]; lia).
    by rewrite <- Ek, (hang_below j Hj lev' El).
  - rewrite lookup_insert_ne in Hq by done.
    assert (q <> g) by (intros ->; apply Hfresh; by eexists).
    destruct (decide ((p, i) = (q, j))) as [[= <- <-]|Hne].
    + pose proof (pt_inj _ _ _ Hpt _ _ _ Hp Hq) as [= <- <-].
      rewrite lookup_insert_eq. by apply hang_slot.
    + rewrite hang_old by (try done; by eapply pt_page). rewrite (pt_entry _ _ _ Hpt _ _ _ _ Hq Hj).
      rewrite lookup_insert_ne; [done|]. intros [= -> Hkk].
      assert (k = k' /\ i = j) as [-> ->] by lia. by simplify_eq.
Qed.

Lemma hang_pt_ok : pt_ok (hang r g p i) root T'.
Proof.
  split; [| | | |exact hang_entry]; unfold T'.
  - rewrite lookup_insert_ne; [by eapply pt_root|]. intros [= -> ?].
    destruct (pt_parent _ _ _ Hpt _ _ _ Hp) as [?|[? _]]; [done|lia].
  - intros x q [[_ <-]|[_ Hq]]%lookup_insert_Some; [done|by eapply pt_page].
  - intros x y q [[<- <-]|[_ Hx]]%lookup_insert_Some [[<- Hy]|[_ Hy]]%lookup_insert_Some;
      [done | | | by eapply pt_inj].
    + exfalso. apply Hfresh. by eexists.
    + subst. exfalso. apply Hfresh. by eexists.
  - intros lev' x q [[[= <- <-] _]|[_ Hq]]%lookup_insert_Some.
    + right. split.
      * destruct (pt_parent _ _ _ Hpt _ _ _ Hp) as [[= -> _]|[? _]]; lia.
      * rewrite Z.div_add_l, Z.div_small, Z.add_0_r by lia.
        rewrite lookup_insert_ne by (intros [=]; lia). by eexists.
    + destruct (pt_parent _ _ _ Hpt _ _ _ Hq) as [?|[? ?]]; [by left|right].
      split; [done|]. apply lookup_insert_is_Some. destruct (decide ((lev, k * 512 + i) = (S lev', x / 512))); auto.
Qed.

Lemma hang_leaf n : leaf (hang r g p i) T' n = leaf r T n.
Proof.
  unfold leaf, T'. pose proof (Z.mod_pos_bound n 512 ltac:(lia)) as Hn.
  destruct (decide ((lev, k * 512 + i) = (0%nat, n / 512))) as [E|E].
  - injection E as -> E. rewrite <- E, lookup_insert_eq, hang_new, Hnone by done. done.
  - rewrite lookup_insert_ne by done. destruct (T !! (0%nat, n / 512)) as [q|] eqn:Eq; [|done].
    apply hang_old; [done|done|by eapply pt_page| |done|done|].
    + intros ->. apply Hfresh. by eexists.
    + intros [= -> _]. pose proof (pt_inj _ _ _ Hpt _ _ _ Hp Eq) as [=].
Qed.

End Hang.

(** ** Growing *)

(** From [T] to [T'] some free pages have become tables, and only free pages
    and tables were written. *)
Record ext m T l m' T' l' : Prop := mkext {
  ext_sub : T ⊆ T';
  ext_new : exists new, l = new ++ l' /\ forall p, tab T' p <-> tab T p \/ p ∈ new;
  ext_touch : touches (fun p => p ∈ l \/ tab T p) (ram m) (ram m');
  ext_kpt : kernel_pagetable m' = kernel_pagetable m
}.

(** The same, and no mapping has changed. *)
Definition grows m T l m' T' l' : Prop :=
  ext m T l m' T' l' /\ forall n, leaf (ram m') T' n = leaf (ram m) T n.

Lemma ext_refl m T l : ext m T l m T l.
Proof. split; [done | exists [] | done..]. split; [done|]. set_solver. Qed.

Lemma grows_refl m T l : grows m T l m T l.
Proof. split; [apply ext_refl|done]. Qed.

Lemma ext_trans m1 T1 l1 m2 T2 l2 m3 T3 l3 :
  ext m1 T1 l1 m2 T2 l2 -> ext m2 T2 l2 m3 T3 l3 -> ext m1 T1 l1 m3 T3 l3.
Proof.
  intros [Hs (n1 & -> & Hn1) Ht Hk] [Hs' (n2 & -> & Hn2) Ht' Hk']. split.
  - by etrans.
  - exists (n1 ++ n2). rewrite app_assoc. split; [done|]. intros p. rewrite Hn2, Hn1, elem_of_app. tauto.
  - eapply touches_trans; [exact Ht | exact Ht' | done |]. intros p. simpl. rewrite Hn1, !elem_of_app. tauto.
  - congruence.
Qed.

Lemma grows_trans m1 T1 l1 m2 T2 l2 m3 T3 l3 :
  grows m1 T1 l1 m2 T2 l2 -> grows m2 T2 l2 m3 T3 l3 -> grows m1 T1 l1 m3 T3 l3.
Proof. intros [He Hl] [He' Hl']. split; [by eapply ext_trans|]. intros n. by rewrite Hl'. Qed.

Lemma ext_slot m T l m' T' l' va : ext m T l m' T' l' -> slot T va <> 0 -> slot T' va = slot T va.
Proof.
  intros He. unfold slot. destruct (T !! _) as [q|] eqn:E; [|done]. intros _.
  by rewrite (lookup_weaken _ _ _ _ E (ext_sub _ _ _ _ _ _ He)).
Qed.

(** Putting the page [kalloc] has given into a free slot. *)
Lemma own_hang m m1 root T g l lev k i p :
  own m root T (g :: l) -> free_pages m1 l -> touches (eq g) (ram m) (ram m1) ->
  kernel_pagetable m1 = kernel_pagetable m ->
  T !! (S lev, k) = Some p -> 0 <= i < 512 -> T !! (lev, k * 512 + i) = None ->
  let m' := set_ram (hang (ram m1) g p i) m1 in
  let T' := <[(lev, k * 512 + i) := g]> T in
  own m' root T' l /\ grows m T (g :: l) m' T' l.
Proof.
  intros [Hpt Hfree Hd] Hfree1 Ht1 Hk Hp Hi Hnone m' T'.
  assert (Hg : page_ok g) by (apply (free_pages_ok m (g :: l)); [done|set_solver]).
  assert (Hfresh : ~ tab T g) by (intros Hx; apply (Hd g Hx); set_solver).
  assert (Htab : forall q, tab T q -> g <> q) by (intros q Hq ->; done).
  assert (Hpok : page_ok p) by by eapply pt_page.
  assert (Hpt1 : pt_ok (ram m1) root T) by (eapply pt_ok_touches; [exact Hpt|exact Ht1|exact Htab]).
  pose proof (hang_touches (ram m1) g p i Hg Hpok Hi) as Ht2.
  assert (HT' : forall q, tab T' q <-> tab T q \/ q ∈ [g]).
  { intros q. rewrite list_elem_of_singleton. split.
    - intros [x [[_ <-]|[_ Hx]]%lookup_insert_Some]; [by right|left; by eexists].
    - intros [[x Hx]| ->]; [|eexists; apply lookup_insert_eq].
      exists x. unfold T'. rewrite lookup_insert_ne; [done|]. intros <-. by rewrite Hnone in Hx. }
  split; [split|split; [split|]].
  - by apply hang_pt_ok.
  - eapply free_pages_touches; [done|exact Ht2|]. destruct Hfree as [_ [Hgl _]%NoDup_cons].
    intros q Hq [->| ->]; [done|]. apply (Hd p); [by eexists|set_solver].
  - destruct Hfree as [_ [Hgl _]%NoDup_cons].
    intros q [Hq| ->%list_elem_of_singleton]%HT'; [|done]. specialize (Hd q Hq). set_solver.
  - by apply insert_subseteq.
  - by exists [g].
  - eapply touches_trans; [exact Ht1|exact Ht2| |]; simpl.
    + intros q <-. left. set_solver.
    + intros q [->| ->]; [left; set_solver | right; by eexists].
  - done.
  - intros n. unfold T', m'. simpl. rewrite (hang_leaf (ram m1) root) by done.
    eapply leaf_touches; [exact Hpt|exact Ht1|exact Htab].
Qed.

(** ** [walk] with allocation *)

Lemma walk_loop_alloc m root T l lev p va : (lev <= 2)%nat ->
  own m root T l -> T !! (lev, tidx lev va) = Some p ->
  mwp (walk_loop lev p va true) m (fun r m' => exists T' l',
    own m' root T' l' /\ grows m T l m' T' l' /\
    ((r = 0 /\ l' = [] /\ (length l < lev)%nat) \/
     (r = slot T' va /\ r <> 0 /\ (length l <= length l' + lev)%nat))).
Proof.
  intros Hlev. revert m T l p. induction lev as [|lev IH]; intros m T l p Hown Hp;
    unfold walk_loop; fold walk_loop; destruct (own_pt _ _ _ _ Hown) as [_ Hpage _ _ _].
  - apply mwp_ret. exists T, l. split_and!; [done|apply grows_refl|right]. unfold slot.
    rewrite Hp. split_and!; [done| |lia]. apply Hpage, page_ok_bound in Hp.
    pose proof (PX_range 0 va ltac:(lia)). lia.
  - pose proof (PX_range (Z.of_nat (S lev)) va ltac:(lia)) as HPX.
    apply mwp_bind, mwp_load64; [by apply slot_in_ram; eauto|].
    rewrite (pt_step _ _ _ _ _ _ (own_pt _ _ _ _ Hown) Hp).
    destruct (T !! (lev, tidx lev va)) as [q|] eqn:E.
    + rewrite has_lor_V, PTE2PA_tab by eauto.
      eapply mwp_mono; [apply (IH ltac:(lia) _ _ l q Hown E)|].
      intros x m' (T' & l' & Ho' & Hgr' & Hx). exists T', l'. split_and!; [done|done|].
      destruct Hx as [(? & ? & ?)|(? & ? & ?)]; [left|right]; split_and!; (done || lia).
    + rewrite has_0. cbn [negb]. apply mwp_bind. destruct l as [|g l].
      * apply kalloc_empty; [apply Hown|]. rewrite Z.eqb_refl. apply mwp_ret.
        exists T, []. split_and!; [done|apply grows_refl|left]. split_and!; [done|done|simpl; lia].
      * eapply kalloc_pops; [apply Hown|]. intros m1 Hf1 Ht1 _ Hk1.
        assert (Hg : page_ok g) by (apply (free_pages_ok m (g :: l)); [apply Hown|set_solver]).
        rewrite (page_eqb0 g Hg).
        apply mwp_bind, mwp_mem_set; [apply (page_in_ram g); [done|lia|lia]|].
        apply mwp_bind, mwp_store64; [by apply slot_in_ram; eauto|].
        rewrite (tidx_child lev) in E.
        destruct (own_hang m m1 root T g l lev _ _ p Hown Hf1 Ht1 Hk1 Hp HPX E) as [Ho Hgr].
        eapply mwp_mono; [apply (IH ltac:(lia) _ _ l g Ho)|].
        { rewrite <- (tidx_child lev). apply lookup_insert_eq. }
        intros x m' (T' & l' & Ho' & Hgr' & Hx). exists T', l'.
        split_and!; [done | by eapply grows_trans |].
        destruct Hx as [(? & ? & ?)|(? & ? & ?)]; [left|right]; split_and!; (done || simpl; lia).
Qed.

Lemma walk_alloc m root T l va : own m root T l -> 0 <= va < MAXVA ->
  mwp (walk root va true) m (fun r m' => exists T' l',
    own m' root T' l' /\ grows m T l m' T' l' /\
    ((r = 0 /\ l' = [] /\ (length l < 2)%nat) \/
     (r = slot T' va /\ r <> 0 /\ (length l <= length l' + 2)%nat))).
Proof.
  intros Hown Hva. unfold walk. rewrite (proj2 (Z.leb_gt MAXVA va)) by lia.
  apply walk_loop_alloc; [lia|done|]. rewrite tidx_root by done. eapply pt_root, Hown.
Qed.

End Tables.
