(* ===== verification/VmMaps.v ===== *)
(** * Page tables as maps: what the operations of [vm.c] do

    [mappages], [uvmunmap], [uvmalloc], [uvmdealloc], [uvmcopy], [uvmfree] and
    the user copies as operations on the abstract page table [leaf], on the
    pages a process owns and on the list of free pages. *)

From stdpp Require Import base list gmap strings.
From Stdlib Require Import ZArith Lia.
From S2P Require Import Prelude KernelBase PhysMem Kalloc Vm VmFacts.

Open Scope Z_scope.

Section Maps.

Context {lay : layout}.
Implicit Types (T : gmap (nat * Z) Z) (l : list Z) (m : pmem).

(** ** [mappages] *)

(** The entry [mappages] makes. *)
Definition mkpte (pa perm : Z) : Z := Z.lor (Z.lor (PA2PTE pa) perm) PTE_V.

Lemma mkpte_eq pa perm : mkpte pa perm = Z.lor (PA2PTE pa) (Z.lor perm PTE_V).
Proof. unfold mkpte. by rewrite Z.lor_assoc. Qed.

Lemma lor_flags f g : 0 <= f < 1024 -> 0 <= g < 1024 -> 0 <= Z.lor f g < 1024.
Proof.
  intros Hf Hg. assert (0 <= Z.lor f g) by (apply Z.lor_nonneg; lia). split; [done|].
  destruct (decide (Z.lor f g = 0)) as [->|]; [lia|]. change 1024 with (2 ^ 10).
  apply Z.log2_lt_pow2; [lia|]. rewrite Z.log2_lor by lia.
  assert (Hlog : forall x, 0 <= x < 1024 -> Z.log2 x < 10).
  { intros x Hx. destruct (decide (x = 0)) as [->|]; [done|]. apply Z.log2_lt_pow2; simpl; lia. }
  apply Z.max_lub_lt; auto.
Qed.

Lemma mkpte_range pa perm : 0 <= pa < 2 ^ 64 -> 0 <= perm < 1024 -> 0 <= mkpte pa perm < 2 ^ 64.
Proof.
  intros Hpa Hperm. rewrite mkpte_eq. apply PTE_range; [done|].
  apply lor_flags; [done|]. change PTE_V with 1. lia.
Qed.

(** The table with the [n] pages from [v] on mapped to the ones from [pa] on. *)
Definition mapped (f : Z -> Z) (v n pa perm : Z) (x : Z) : Z :=
  if decide (v <= x < v + n) then mkpte (pa + (x - v) * PGSIZE) perm else f x.

Lemma vpn_step va : vpn (va + PGSIZE) = vpn va + 1.
Proof. unfold vpn. rewrite PGSIZE_val. rewrite <- (Z.mul_1_l 4096) at 1. by rewrite Z.div_add by lia. Qed.

(** Storing an entry of the last level. *)
Lemma write_leaf m root T l va v : own m root T l -> slot T va <> 0 -> 0 <= v < 2 ^ 64 ->
  let m' := set_ram (st64 (ram m) (slot T va) v) m in
  own m' root T l /\ ext m T l m' T l /\
  forall x, leaf (ram m') T x = if decide (x = vpn va) then v else leaf (ram m) T x.
Proof.
  intros Hown Hs Hv m'. split_and!; [by apply own_write | | intros x; eapply leaf_write; [apply Hown|done|done]].
  split; [done | exists [] | | done]; [split; [done|set_solver]|].
  eapply touches_mono; [eapply touches_slot_write; [apply Hown|done]|]. by right.
Qed.

(** The entry [walk] has found is in RAM. *)
Lemma mwp_load_pt m root T va (Q : Z -> pmem -> Prop) : pt_ok (ram m) root T -> slot T va <> 0 ->
  Q (leaf (ram m) T (vpn va)) m -> mwp (load64 (slot T va)) m Q.
Proof.
  intros Hpt Hs HQ. apply mwp_load64; [|by rewrite slot_leaf].
  destruct (slot_ok _ _ _ _ Hpt Hs) as (q & _ & Hq & ->).
  apply slot_in_ram; [done|]. apply PX_range. lia.
Qed.

Lemma mwp_load_slot m root T l va (Q : Z -> pmem -> Prop) : own m root T l -> slot T va <> 0 ->
  Q (leaf (ram m) T (vpn va)) m -> mwp (load64 (slot T va)) m Q.
Proof. intros Hown. apply (mwp_load_pt m root T va), Hown. Qed.

Lemma mwp_store_slot m root T l va v (Q : unit -> pmem -> Prop) : own m root T l -> slot T va <> 0 ->
  Q tt (set_ram (st64 (ram m) (slot T va) v) m) -> mwp (store64 (slot T va) v) m Q.
Proof.
  intros Hown Hs HQ. apply mwp_store64; [|done].
  destruct (slot_ok _ _ _ _ (own_pt _ _ _ _ Hown) Hs) as (q & _ & Hq & ->).
  apply slot_in_ram; [done|]. apply PX_range. lia.
Qed.

Lemma mappages_loop_spec n root m T l va last pa perm :
  own m root T l -> 0 <= perm < 1024 -> 0 <= va -> 0 <= pa ->
  (0 < n)%nat -> last = va + (Z.of_nat n - 1) * PGSIZE -> last < MAXVA ->
  pa + Z.of_nat n * PGSIZE <= 2 ^ 64 ->
  (forall i, 0 <= i < Z.of_nat n -> has (leaf (ram m) T (vpn va + i)) PTE_V = false) ->
  mwp (mappages_loop n root va last pa perm) m (fun r m' => exists T' l' k,
    own m' root T' l' /\ ext m T l m' T' l' /\
    (forall x, leaf (ram m') T' x = mapped (leaf (ram m) T) (vpn va) k pa perm x) /\
    ((r = 0 /\ k = Z.of_nat n /\ (length l <= length l' + 2 * n)%nat) \/
     (r = -1 /\ l' = [] /\ 0 <= k < Z.of_nat n /\ (length l < 2 * n)%nat))).
Proof.
  intros Hown Hperm. revert m T l va pa Hown.
  induction n as [|n IH]; intros m T l va pa Hown Hva Hpa Hn Hlast Hmax Hpaw Hfree; [lia|].
  cbn [mappages_loop]. rewrite PGSIZE_val in *.
  apply mwp_bind. eapply mwp_mono; [apply (walk_alloc m root T l va Hown); lia|].
  intros r m1 (T1 & l1 & Ho1 & [He1 Hl1] & [(-> & -> & Hlen)|(-> & Hr & Hlen)]).
  { rewrite Z.eqb_refl. apply mwp_ret. exists T1, [], 0.
    split_and!; [done|done| |right; split_and!; (done || lia)].
    intros x. rewrite Hl1. unfold mapped. by rewrite decide_False by lia. }
  rewrite (proj2 (Z.eqb_neq _ _) Hr). apply mwp_bind, (mwp_load_slot m1 root _ l1); [done|done|].
  pose proof (Hfree 0 ltac:(lia)) as H0. rewrite Z.add_0_r in H0. rewrite Hl1, H0.
  apply mwp_bind, (mwp_store_slot m1 root _ l1); [done|done|].
  fold (mkpte pa perm). pose proof (mkpte_range pa perm ltac:(lia) Hperm) as Hpte.
  destruct (write_leaf m1 root T1 l1 va (mkpte pa perm) Ho1 Hr Hpte) as (Ho2 & He2 & Hl2).
  set (m2 := set_ram _ m1) in *.
  assert (Hl : forall x, leaf (ram m2) T1 x = mapped (leaf (ram m) T) (vpn va) 1 pa perm x).
  { intros x. rewrite Hl2, Hl1. unfold mapped. repeat case_decide; try lia. f_equal. lia. }
  pose proof (ext_trans _ _ _ _ _ _ _ _ _ He1 He2) as He. clear Hl2 He1 He2.
  destruct (va =? last) eqn:El; bool_to_prop.
  - apply mwp_ret. exists T1, l1, 1. assert (n = 0%nat) as -> by lia. split_and!; [done..|left; split_and!; (done || lia)].
  - assert (HM : MAXVA = 2 ^ 38) by done. rewrite !u64_small by lia. change 4096 with PGSIZE in *.
    eapply mwp_mono; [apply (IH m2 T1 l1 (va + PGSIZE) (pa + PGSIZE) Ho2); rewrite ?PGSIZE_val in *; try lia|].
    + intros i Hi. change 4096 with PGSIZE. rewrite vpn_step, Hl. unfold mapped. rewrite decide_False by lia.
      replace (vpn va + 1 + i) with (vpn va + (i + 1)) by lia. apply Hfree. lia.
    + intros r m' (T' & l' & k & Ho' & He' & Hl' & Hr'). exists T', l', (k + 1).
      split_and!; [done|by eapply ext_trans| |
        destruct Hr' as [(? & ? & ?)|(? & ? & ? & ?)]; [left|right]; split_and!; (done || lia)].
      intros x. rewrite Hl', vpn_step. unfold mapped. rewrite Hl. unfold mapped.
      assert (0 <= k) by (destruct Hr'; lia). repeat case_decide; try lia; f_equal; rewrite PGSIZE_val; lia.
Qed.

Lemma mappages_spec m root T l va size pa perm :
  own m root T l -> va mod PGSIZE = 0 -> size mod PGSIZE = 0 -> 0 < size ->
  0 <= va -> va + size <= MAXVA -> 0 <= pa -> pa + size <= 2 ^ 64 -> 0 <= perm < 1024 ->
  (forall a, va <= a < va + size -> has (leaf (ram m) T (vpn a)) PTE_V = false) ->
  mwp (mappages root va size pa perm) m (fun r m' => exists T' l' k,
    own m' root T' l' /\ ext m T l m' T' l' /\
    (forall x, leaf (ram m') T' x = mapped (leaf (ram m) T) (vpn va) k pa perm x) /\
    ((r = 0 /\ k = size / PGSIZE /\ Z.of_nat (length l) <= Z.of_nat (length l') + 2 * (size / PGSIZE)) \/
     (r = -1 /\ l' = [] /\ 0 <= k < size / PGSIZE /\ Z.of_nat (length l) < 2 * (size / PGSIZE)))).
Proof.
  intros Hown Hva Hsz Hpos H0 Hmax Hpa Hpaw Hperm Hfree. unfold mappages.
  rewrite Hva, Hsz, (proj2 (Z.eqb_neq size 0)) by lia. cbn [negb Z.eqb].
  assert (Hd : size = PGSIZE * (size / PGSIZE)) by by apply Z.div_exact.
  assert (HM : MAXVA = 2 ^ 38) by done. rewrite u64_small by (rewrite PGSIZE_val in *; lia).
  assert (1 <= size / PGSIZE) by (rewrite PGSIZE_val in *; lia).
  eapply mwp_mono; [apply (mappages_loop_spec (Z.to_nat (size / PGSIZE)) root m T l); [done|done|done|done|lia|..]|].
  - rewrite Z2Nat.id by lia. lia.
  - rewrite PGSIZE_val in *. lia.
  - rewrite Z2Nat.id by lia. lia.
  - intros i Hi. replace (vpn va + i) with (vpn (va + i * PGSIZE)) by (unfold vpn; by rewrite Z.div_add).
    apply Hfree. rewrite PGSIZE_val in *. lia.
  - intros r m' (T' & l' & k & Ho & He & Hl & Hr). rewrite Z2Nat.id in Hr by lia. exists T', l', k.
    split_and!; [done..|]. destruct Hr as [(? & ? & ?)|(? & ? & ? & ?)]; [left|right]; split_and!; (done || lia).
Qed.

(** ** Address spaces

    [D] gives the pages a process owns: those behind the valid entries below
    the trap frame.  The entries from there on are not for user code. *)

Implicit Types D : gmap Z Z.

Definition data D (p : Z) : Prop := exists n, D !! n = Some p.

Record asp (r : bytes) (root : Z) T D : Prop := mkasp {
  asp_pt : pt_ok r root T;
  asp_zero : forall n, has (leaf r T n) PTE_V = false -> leaf r T n = 0;
  asp_leaf : forall n p, D !! n = Some p ->
    has (leaf r T n) PTE_V = true /\ PTE2PA (leaf r T n) = p /\ page_ok p;
  asp_inj : forall n1 n2 p, D !! n1 = Some p -> D !! n2 = Some p -> n1 = n2;
  asp_apart : forall p, data D p -> ~ tab T p;
  asp_dom : forall n p, D !! n = Some p -> 0 <= n < vpn TRAPFRAME;
  asp_low : forall n, n < vpn TRAPFRAME -> has (leaf r T n) PTE_V = true -> is_Some (D !! n);
  asp_high : forall n, vpn TRAPFRAME <= n -> has (leaf r T n) PTE_V = true -> has (leaf r T n) PTE_U = false
}.

Record aspace m (root : Z) T D l : Prop := mkaspace {
  as_asp : asp (ram m) root T D;
  as_free : free_pages m l;
  as_apart : forall p, tab T p \/ data D p -> p ∉ l
}.

Lemma as_own m root T D l : aspace m root T D l -> own m root T l.
Proof. intros [[] ? H]. split; [done|done|]. auto. Qed.

(** Writes outside the tables keep an address space. *)
Lemma asp_touches P r r' root T D :
  asp r root T D -> touches P r r' -> (forall p, tab T p -> ~ P p) -> asp r' root T D.
Proof.
  intros [H1 H2 H3 H4 H5 H6 H7 H8] Ht HP.
  assert (Hl : forall n, leaf r' T n = leaf r T n) by (intros n; by eapply leaf_touches).
  split; [by eapply pt_ok_touches | | | done | done | done | |]; intros n; rewrite Hl; auto.
Qed.

(** ** [uvmunmap] *)

(** Clearing an entry: its page, if the process owns it, leaves [D]. *)
Lemma asp_clear r root T D va :
  asp r root T D -> slot T va <> 0 -> asp (st64 r (slot T va) 0) root T (delete (vpn va) D).
Proof.
  intros [H1 H2 H3 H4 H5 H6 H7 H8] Hs.
  assert (Hl : forall n, leaf (st64 r (slot T va) 0) T n = if decide (n = vpn va) then 0 else leaf r T n)
    by (intros n; by eapply leaf_write).
  split; [by apply pt_ok_write | | | | | | |].
  - intros n. rewrite Hl. case_decide; [done|auto].
  - intros n p [Hne Hn]%lookup_delete_Some. rewrite Hl, decide_False by done. auto.
  - intros n1 n2 p [_ Hn1]%lookup_delete_Some [_ Hn2]%lookup_delete_Some. eauto.
  - intros p [n [_ Hn]%lookup_delete_Some]. apply H5. by exists n.
  - intros n p [_ Hn]%lookup_delete_Some. eauto.
  - intros n Hn. rewrite Hl. case_decide; [done|]. rewrite lookup_delete_ne by done. auto.
  - intros n Hn. rewrite Hl. case_decide; [done|auto].
Qed.

(** The pages [D] owns in the [n] virtual pages from [v] on, and [D] without them. *)
Definition owned D (v n : Z) (p : Z) : Prop := exists k, v <= k < v + n /\ D !! k = Some p.

Definition cut D (v n : Z) : gmap Z Z := filter (fun kp => ~ (v <= kp.1 < v + n)) D.

Lemma lookup_cut D v n k : cut D v n !! k = if decide (v <= k < v + n) then None else D !! k.
Proof.
  unfold cut. rewrite map_lookup_filter. destruct (D !! k) as [p|]; simpl; case_decide; try done.
  - by rewrite option_guard_False by tauto.
  - by rewrite option_guard_True.
Qed.

(** What unmapping [n] pages from [v] on with their memory does. *)
Record unmaps (v n : Z) m T D l m' D' l' : Prop := mkunmaps {
  um_D : D' = cut D v n;
  um_free : forall p, p ∈ l' <-> p ∈ l \/ owned D v n p;
  um_leaf : forall x, leaf (ram m') T x = if decide (v <= x < v + n) then 0 else leaf (ram m) T x;
  um_touch : touches (fun p => tab T p \/ owned D v n p) (ram m) (ram m');
  um_kpt : kernel_pagetable m' = kernel_pagetable m
}.

Lemma unmaps_refl v m T D l : unmaps v 0 m T D l m D l.
Proof.
  split; [| | |done|done].
  - apply map_eq. intros k. rewrite lookup_cut. by rewrite decide_False by lia.
  - intros p. split; [by left|]. intros [?|(k & ? & _)]; [done|lia].
  - intros x. by rewrite decide_False by lia.
Qed.

Lemma owned_split D v a b p : 0 <= a -> 0 <= b ->
  owned D v (a + b) p <-> owned D v a p \/ owned (cut D v a) (v + a) b p.
Proof.
  intros Ha Hb. split.
  - intros (k & Hk & HD). destruct (decide (k < v + a)).
    + left. exists k. split; [lia|done].
    + right. exists k. split; [lia|]. rewrite lookup_cut, decide_False by lia. done.
  - intros [(k & Hk & HD)|(k & Hk & HD)]; exists k; (split; [lia|]); [done|].
    rewrite lookup_cut in HD. by case_decide.
Qed.

Lemma unmaps_trans v a b m1 T D1 l1 m2 D2 l2 m3 D3 l3 : 0 <= a -> 0 <= b ->
  unmaps v a m1 T D1 l1 m2 D2 l2 -> unmaps (v + a) b m2 T D2 l2 m3 D3 l3 ->
  unmaps v (a + b) m1 T D1 l1 m3 D3 l3.
Proof.
  intros Ha Hb [-> Hf1 Hl1 Ht1 Hk1] [-> Hf2 Hl2 Ht2 Hk2]. split.
  - apply map_eq. intros k. rewrite !lookup_cut. repeat case_decide; try done; lia.
  - intros p. rewrite Hf2, Hf1, owned_split by done. tauto.
  - intros x. rewrite Hl2, Hl1. repeat case_decide; try done; lia.
  - eapply touches_trans; [exact Ht1|exact Ht2| |]; simpl; intros p; rewrite owned_split by done; tauto.
  - congruence.
Qed.

(** Every valid entry of the range is of a page the process owns. *)
Definition all_owned (f : Z -> Z) D (v n : Z) : Prop :=
  forall k, v <= k < v + n -> has (f k) PTE_V = true -> is_Some (D !! k).

(** An entry that is not valid, or of a page that is freed and then cleared. *)
Lemma unmaps_invalid m root T D l va : asp (ram m) root T D ->
  has (leaf (ram m) T (vpn va)) PTE_V = false -> unmaps (vpn va) 1 m T D l m D l.
Proof.
  intros Hasp Hinv. assert (HD : D !! vpn va = None).
  { destruct (D !! vpn va) as [p|] eqn:E; [|done]. apply (asp_leaf _ _ _ _ Hasp) in E as [E _]. congruence. }
  split; [| | |done|done].
  - apply map_eq. intros k. rewrite lookup_cut. case_decide; [|done]. by replace k with (vpn va) by lia.
  - intros p. split; [by left|]. intros [?|(k & ? & Hk)]; [done|]. replace k with (vpn va) in Hk by lia. congruence.
  - intros x. case_decide; [|done]. replace x with (vpn va) by lia. by apply (asp_zero _ _ _ _ Hasp).
Qed.

Lemma unmaps_valid m m2 root T D l va p :
  aspace m root T D l -> slot T va <> 0 -> D !! vpn va = Some p ->
  free_pages m2 (p :: l) -> touches (eq p) (ram m) (ram m2) -> kernel_pagetable m2 = kernel_pagetable m ->
  let m' := set_ram (st64 (ram m2) (slot T va) 0) m2 in
  own m2 root T (p :: l) /\ aspace m' root T (delete (vpn va) D) (p :: l) /\
  unmaps (vpn va) 1 m T D l m' (delete (vpn va) D) (p :: l).
Proof.
  intros [Hasp Hfree Hap] Hs Hp Hf2 Ht2 Hk2 m'. assert (Hdp : data D p) by by eexists.
  assert (Htab : forall q, tab T q -> p <> q) by (intros q Hq ->; by apply (asp_apart _ _ _ _ Hasp q)).
  assert (Hasp2 : asp (ram m2) root T D) by by eapply asp_touches.
  assert (Hown2 : own m2 root T (p :: l)).
  { split; [apply Hasp2|done|]. intros q Hq. apply not_elem_of_cons. split; [intros ->; by apply (Htab p)|auto]. }
  destruct (write_leaf m2 root T (p :: l) va 0 Hown2 Hs ltac:(lia)) as (Hown3 & _ & Hl3).
  assert (Ho : forall q, owned D (vpn va) 1 q <-> q = p).
  { intros q. split; [|intros ->; exists (vpn va); split; [lia|done]].
    intros (k & Hk & Hq). replace k with (vpn va) in Hq by lia. congruence. }
  split_and!; [done|split; [by apply asp_clear|apply Hown3|]|split].
  - intros q [Hq|(n & [Hne Hn]%lookup_delete_Some)]; [by apply Hown3|].
    apply not_elem_of_cons. split; [|apply Hap; right; by eexists].
    intros ->. by apply Hne, (asp_inj _ _ _ _ Hasp _ _ p).
  - apply map_eq. intros k. rewrite lookup_cut. case_decide.
    + replace k with (vpn va) by lia. apply lookup_delete_eq.
    + apply lookup_delete_ne. lia.
  - intros q. rewrite Ho, elem_of_cons. tauto.
  - intros x. unfold m'. rewrite Hl3, (leaf_touches (eq p) (ram m) (ram m2) root) by (apply Hasp || done).
    repeat case_decide; try done; lia.
  - eapply touches_trans; [exact Ht2|eapply touches_slot_write; [apply Hown2|done]| |by left].
    intros q <-. right. by apply Ho.
  - done.
Qed.

Lemma unmap_page_spec m root T D l va :
  aspace m root T D l -> 0 <= va < MAXVA -> all_owned (leaf (ram m) T) D (vpn va) 1 ->
  mwp (unmap_page root va true) m (fun _ m' => exists D' l',
    aspace m' root T D' l' /\ unmaps (vpn va) 1 m T D l m' D' l').
Proof.
  intros Has Hva Hall. pose proof (as_own _ _ _ _ _ Has) as Hown. pose proof (as_asp _ _ _ _ _ Has) as Hasp.
  unfold unmap_page. apply mwp_bind. eapply mwp_mono; [by apply walk_find; [apply Hown|]|].
  intros r m1 [-> ->]. destruct (slot T va =? 0) eqn:Es; bool_to_prop.
  { apply mwp_ret. exists D, l. split; [done|]. apply (unmaps_invalid m root); [done|].
    rewrite slot_none; [done|done|apply Hown]. }
  apply mwp_bind, (mwp_load_slot m root _ l); [done|done|].
  destruct (has (leaf (ram m) T (vpn va)) PTE_V) eqn:Ev; cbn [negb].
  2: { apply mwp_ret. exists D, l. split; [done|]. by apply (unmaps_invalid m root). }
  destruct (Hall (vpn va) ltac:(lia) Ev) as [p Hp].
  destruct (asp_leaf _ _ _ _ Hasp _ _ Hp) as (_ & -> & Hpok). cbn [mwhen].
  apply mwp_bind, (kfree_pushes m p l); [apply Has|done|apply Has; right; by eexists|]. intros m2 Hf2 Ht2 Hk2.
  destruct (unmaps_valid m m2 root T D l va p) as (Hown2 & Has3 & Hum); [done..|].
  apply (mwp_store_slot m2 root _ (p :: l)); [done|done|]. eauto.
Qed.

Lemma uvmunmap_loop_spec n m root T D l va stop :
  aspace m root T D l -> 0 <= va -> stop <= MAXVA -> stop = va + Z.of_nat n * PGSIZE ->
  all_owned (leaf (ram m) T) D (vpn va) (Z.of_nat n) ->
  mwp (uvmunmap_loop n root va stop true) m (fun _ m' => exists D' l',
    aspace m' root T D' l' /\ unmaps (vpn va) (Z.of_nat n) m T D l m' D' l').
Proof.
  revert m D l va. induction n as [|n IH]; intros m D l va Has Hva Hmax Hstop Hall; cbn [uvmunmap_loop].
  - destruct (va <? stop) eqn:E; bool_to_prop; [lia|]. apply mwp_ret. exists D, l. split; [done|]. apply unmaps_refl.
  - assert (HM : MAXVA = 2 ^ 38) by done.
    destruct (va <? stop) eqn:E; bool_to_prop; [|rewrite PGSIZE_val in *; lia].
    apply mwp_bind. eapply mwp_mono; [apply (unmap_page_spec m root T D l va Has); [lia|]|].
    { intros k Hk. apply Hall. lia. }
    intros [] m1 (D1 & l1 & Has1 & Hu1). rewrite u64_small by (rewrite PGSIZE_val in *; lia).
    eapply mwp_mono; [apply (IH m1 D1 l1 (va + PGSIZE) Has1)|].
    + rewrite PGSIZE_val. lia.
    + done.
    + lia.
    + rewrite vpn_step. intros k Hk. rewrite (um_leaf _ _ _ _ _ _ _ _ _ Hu1), decide_False by lia.
      intros Hv. rewrite (um_D _ _ _ _ _ _ _ _ _ Hu1), lookup_cut, decide_False by lia. apply Hall; [lia|done].
    + intros [] m' (D' & l' & Has' & Hu'). exists D', l'. split; [done|]. rewrite vpn_step in Hu'.
      replace (Z.of_nat (S n)) with (1 + Z.of_nat n) by lia. eapply unmaps_trans; [lia|lia|done|done].
Qed.

Lemma uvmunmap_spec m root T D l va n :
  aspace m root T D l -> va mod PGSIZE = 0 -> 0 <= va -> 0 <= n -> va + n * PGSIZE <= MAXVA ->
  all_owned (leaf (ram m) T) D (vpn va) n ->
  mwp (uvmunmap root va n true) m (fun _ m' => exists D' l',
    aspace m' root T D' l' /\ unmaps (vpn va) n m T D l m' D' l').
Proof.
  intros Has Hal Hva Hn Hmax Hall. unfold uvmunmap. rewrite Hal. cbn [negb Z.eqb].
  assert (HM : MAXVA = 2 ^ 38) by done. rewrite (u64_small (n * PGSIZE)) by (rewrite PGSIZE_val in *; lia).
  rewrite u64_small by (rewrite PGSIZE_val in *; lia).
  replace (va + n * PGSIZE - va) with (n * PGSIZE) by lia. rewrite Z.div_mul by done.
  rewrite <- (Z2Nat.id n) in Hall |- * by done. rewrite (Z2Nat.id n) at 1 by done.
  apply uvmunmap_loop_spec; [done|done|by rewrite Z2Nat.id|done|done].
Qed.

End Maps.
