(* ===== verification/VmUser.v ===== *)
(** * User memory: growing, shrinking, copying and freeing address spaces

    The operations of [vm.c] on whole address spaces, with the accounting of
    pages: no operation loses a page or hands one out twice, also when it fails
    half way. *)

From stdpp Require Import base list gmap strings.
From Stdlib Require Import ZArith Lia.
From S2P Require Import Prelude KernelBase PhysMem Kalloc Vm VmFacts VmMaps.

Open Scope Z_scope.

Section User.

Context {lay : layout}.
Implicit Types (T : gmap (nat * Z) Z) (D : gmap Z Z) (l : list Z) (m : pmem).

(** The number of pages of [sz] bytes. *)
Definition pgs (sz : Z) : Z := PGROUNDUP sz / PGSIZE.

Lemma TRAPFRAME_val : TRAPFRAME = 2 ^ 38 - 8192.
Proof. done. Qed.

Lemma MAXVA_val : MAXVA = 2 ^ 38.
Proof. done. Qed.

Lemma aligned_eq a : a mod PGSIZE = 0 -> a = vpn a * PGSIZE.
Proof. unfold vpn. rewrite PGSIZE_val. intros H. pose proof (Z.div_mod a 4096). lia. Qed.

Lemma PGROUNDUP_pgs sz : PGROUNDUP sz = pgs sz * PGSIZE.
Proof. apply aligned_eq, PGROUNDUP_aligned. Qed.

Lemma pgs_spec sz : 0 <= sz <= TRAPFRAME -> sz <= pgs sz * PGSIZE < sz + PGSIZE /\ 0 <= pgs sz <= vpn TRAPFRAME.
Proof.
  intros H. rewrite <- PGROUNDUP_pgs. rewrite TRAPFRAME_val in H.
  pose proof (PGROUNDUP_range sz ltac:(rewrite PGSIZE_val; lia)) as Hr. split; [done|].
  rewrite PGROUNDUP_pgs in Hr. rewrite PGSIZE_val in Hr. change (vpn TRAPFRAME) with (2 ^ 26 - 2). lia.
Qed.

Lemma asp_all_owned r root T D v n : asp r root T D -> v + n <= vpn TRAPFRAME -> all_owned (leaf r T) D v n.
Proof. intros Hasp Hn k Hk. apply (asp_low _ _ _ _ Hasp). lia. Qed.

(** ** [uvmdealloc] *)

Lemma uvmdealloc_spec m root T D l oldsz newsz :
  aspace m root T D l -> 0 <= newsz -> 0 <= oldsz <= TRAPFRAME ->
  mwp (uvmdealloc root oldsz newsz) m (fun r m' => r = Z.min oldsz newsz /\ exists D' l',
    aspace m' root T D' l' /\
    unmaps (pgs newsz) (if decide (newsz < oldsz) then pgs oldsz - pgs newsz else 0) m T D l m' D' l').
Proof.
  intros Has Hn Ho. unfold uvmdealloc. destruct (oldsz <=? newsz) eqn:E; bool_to_prop.
  { apply mwp_ret. rewrite decide_False by lia. split; [lia|]. exists D, l. split; [done|apply unmaps_refl]. }
  rewrite decide_True by lia. pose proof (pgs_spec oldsz Ho) as [Hop Hob].
  pose proof (pgs_spec newsz ltac:(lia)) as [Hnp Hnb]. rewrite !PGROUNDUP_pgs.
  destruct (pgs newsz * PGSIZE <? pgs oldsz * PGSIZE) eqn:E2; bool_to_prop; cbn [mwhen].
  - apply mwp_bind. rewrite PGSIZE_val in *. change (vpn TRAPFRAME) with (2 ^ 26 - 2) in *.
    replace (pgs oldsz * 4096 - pgs newsz * 4096) with ((pgs oldsz - pgs newsz) * 4096) by lia.
    rewrite Z.div_mul, i32_small, u64_small by lia.
    eapply mwp_mono; [apply (uvmunmap_spec m root T D l); [done| |lia|lia|rewrite MAXVA_val, PGSIZE_val; lia|]|].
    + rewrite PGSIZE_val. by apply Z.mod_mul.
    + apply (asp_all_owned _ root); [apply Has|]. unfold vpn at 1. rewrite PGSIZE_val, Z.div_mul by lia.
      change (vpn TRAPFRAME) with (2 ^ 26 - 2). lia.
    + intros [] m' (D' & l' & Has' & Hu). apply mwp_ret. split; [lia|]. exists D', l'. split; [done|].
      unfold vpn in Hu. by rewrite PGSIZE_val, Z.div_mul in Hu by lia.
  - apply mwp_bind, mwp_ret, mwp_ret. split; [lia|]. exists D, l. split; [done|].
    replace (pgs oldsz - pgs newsz) with 0 by (rewrite PGSIZE_val in *; lia). apply unmaps_refl.
Qed.

(** ** Accounting *)

(** [p] is a free page, a table or a page of the process. *)
Definition part T D l (p : Z) : Prop := p ∈ l \/ tab T p \/ data D p.

Definition same_pages T D l T' D' l' : Prop := forall p, part T D l p <-> part T' D' l' p.

Lemma same_pages_trans T1 D1 l1 T2 D2 l2 T3 D3 l3 :
  same_pages T1 D1 l1 T2 D2 l2 -> same_pages T2 D2 l2 T3 D3 l3 -> same_pages T1 D1 l1 T3 D3 l3.
Proof. intros H1 H2 p. by rewrite (H1 p). Qed.

Lemma data_cut D v n p : data D p <-> data (cut D v n) p \/ owned D v n p.
Proof.
  split.
  - intros [k Hk]. destruct (decide (v <= k < v + n)); [right; by exists k|left].
    exists k. by rewrite lookup_cut, decide_False.
  - intros [[k Hk]|(k & _ & Hk)]; exists k; [|done]. rewrite lookup_cut in Hk. by case_decide.
Qed.

Lemma unmaps_same_pages v n m T D l m' D' l' : unmaps v n m T D l m' D' l' -> same_pages T D l T D' l'.
Proof. intros [-> Hf _ _ _] p. unfold part. rewrite Hf, (data_cut D v n). tauto. Qed.

Lemma ext_same_pages m T l m' T' l' D : ext m T l m' T' l' -> same_pages T D l T' D l'.
Proof. intros [_ (new & -> & Hn) _ _] p. unfold part. rewrite elem_of_app, Hn. tauto. Qed.

(** ** Adding a page *)

Lemma has_mkpte_V pa perm : has (mkpte pa perm) PTE_V = true.
Proof. apply has_lor_V. Qed.

Lemma PTE2PA_mkpte pa perm : page_ok pa -> 0 <= perm < 1024 -> PTE2PA (mkpte pa perm) = pa.
Proof.
  intros Hp Hf. pose proof (page_ok_bound pa Hp). rewrite mkpte_eq. apply PTE2PA_PA2PTE; [apply Hp|lia|].
  apply lor_flags; [done|]. change PTE_V with 1. lia.
Qed.

(** A page mapped at an address that was free becomes the process's. *)
Lemma asp_insert r r' root T T' D n p perm :
  asp r root T D -> pt_ok r' root T' -> page_ok p -> 0 <= perm < 1024 -> 0 <= n < vpn TRAPFRAME ->
  D !! n = None -> ~ data D p -> ~ tab T' p -> (forall q, tab T' q -> ~ data D q) ->
  (forall x, leaf r' T' x = if decide (x = n) then mkpte p perm else leaf r T x) ->
  asp r' root T' (<[n := p]> D).
Proof.
  intros [H1 H2 H3 H4 H5 H6 H7 H8] Hpt Hp Hperm Hn HD Hfd Hft Htd Hl. split; [done|..].
  - intros x. rewrite Hl. case_decide; [by rewrite has_mkpte_V|auto].
  - intros x q [[<- <-]|[Hne Hq]]%lookup_insert_Some; rewrite Hl.
    + rewrite decide_True by done. by rewrite has_mkpte_V, PTE2PA_mkpte.
    + rewrite decide_False by done. auto.
  - intros x y q [[<- <-]|[Hx Hq]]%lookup_insert_Some [[<- Hy]|[Hy Hy']]%lookup_insert_Some;
      [done| | |eauto]; exfalso; apply Hfd; eexists; by subst.
  - intros q [x [[<- <-]|[Hx Hq]]%lookup_insert_Some]; [done|]. intros Ht. apply (Htd q Ht). by eexists.
  - intros x q [[<- <-]|[Hx Hq]]%lookup_insert_Some; eauto.
  - intros x Hx. rewrite Hl. case_decide; [subst; rewrite lookup_insert_eq; eauto|].
    rewrite lookup_insert_ne by done. auto.
  - intros x Hx. rewrite Hl. case_decide; [lia|auto].
Qed.

(** The same entries in larger tables. *)
Lemma asp_same r r' root T T' D :
  asp r root T D -> pt_ok r' root T' -> (forall q, tab T' q -> ~ data D q) ->
  (forall x, leaf r' T' x = leaf r T x) -> asp r' root T' D.
Proof.
  intros [H1 H2 H3 H4 H5 H6 H7 H8] Hpt Htd Hl.
  split; [done| | |done| |done| |]; [intros x; rewrite Hl; auto .. | |intros x; rewrite Hl; auto|intros x; rewrite Hl; auto].
  intros p Hp Ht. by apply (Htd p).
Qed.

(** A page that is none of the process's and not free. *)
Definition fresh T D l (g : Z) : Prop := page_ok g /\ ~ part T D l g.

Lemma aspace_touches P m r' root T D l :
  aspace m root T D l -> touches P (ram m) r' -> (forall p, tab T p \/ p ∈ l -> ~ P p) ->
  aspace (set_ram r' m) root T D l.
Proof.
  intros [Hasp Hf Hap] Ht HP. split; [eapply asp_touches|eapply free_pages_touches|]; eauto.
Qed.

Lemma kalloc_as m root T D g l (Q : Z -> pmem -> Prop) :
  aspace m root T D (g :: l) ->
  (forall m', aspace m' root T D l -> fresh T D l g -> touches (eq g) (ram m) (ram m') ->
     kernel_pagetable m' = kernel_pagetable m -> Q g m') ->
  mwp kalloc_mem m Q.
Proof.
  intros [Hasp Hf Hap] HQ. eapply kalloc_pops; [done|]. intros m' Hf' Ht _ Hk.
  assert (Hg : forall q, tab T q \/ data D q -> g <> q) by (intros q Hq ->; apply (Hap q Hq); set_solver).
  apply HQ; [split| |done|done].
  - eapply asp_touches; [done|done|auto].
  - done.
  - intros p Hp. specialize (Hap p Hp). set_solver.
  - split; [apply (free_pages_ok m (g :: l)); [done|set_solver]|].
    intros [Hgl|Hg']; [|by apply (Hg g)]. by destruct Hf as [_ [? _]%NoDup_cons].
Qed.

Lemma kfree_as m root T D g l (Q : unit -> pmem -> Prop) :
  aspace m root T D l -> fresh T D l g ->
  (forall m', aspace m' root T D (g :: l) -> touches (eq g) (ram m) (ram m') ->
     kernel_pagetable m' = kernel_pagetable m -> Q tt m') ->
  mwp (kfree_mem g) m Q.
Proof.
  intros [Hasp Hf Hap] [Hg Hfr] HQ. unfold part in Hfr.
  eapply (kfree_pushes m g l); [done|done|tauto|]. intros m' Hf' Ht Hk. apply HQ; [split|done|done].
  - eapply asp_touches; [done|done|]. intros p Hp <-. tauto.
  - done.
  - intros p Hp. apply not_elem_of_cons. split; [intros ->; tauto|auto].
Qed.

(** Filling a fresh page. *)
Lemma mem_set_as m root T D l g c (Q : unit -> pmem -> Prop) :
  aspace m root T D l -> fresh T D l g ->
  (forall m', aspace m' root T D l -> touches (eq g) (ram m) (ram m') -> filled (ram m') g c ->
     kernel_pagetable m' = kernel_pagetable m -> Q tt m') ->
  mwp (mem_set g c PGSIZE) m Q.
Proof.
  intros Has [Hg Hfr] HQ. apply mwp_mem_set; [apply (page_in_ram g); [done|lia|lia]|].
  assert (Ht : touches (eq g) (ram m) (put (ram m) g PGSIZE (fun _ => c)))
    by (apply touches_put; [apply Hg|lia|lia]).
  apply HQ; [|done| |done].
  - eapply aspace_touches; [done|done|]. intros p Hp <-. unfold part in Hfr. tauto.
  - intros a Ha. simpl. by rewrite put_in.
Qed.

Lemma vpn_page a b : a mod PGSIZE = 0 -> a <= b < a + PGSIZE -> vpn b = vpn a.
Proof.
  intros Ha Hb. pose proof (aligned_eq a Ha). unfold vpn in *. rewrite PGSIZE_val in *.
  symmetry. apply Z.div_unique with (b - a); lia.
Qed.

Lemma vpn_low a : a mod PGSIZE = 0 -> 0 <= a < TRAPFRAME -> 0 <= vpn a < vpn TRAPFRAME /\ a + PGSIZE <= TRAPFRAME.
Proof.
  intros Ha Hr. rewrite (aligned_eq a Ha) in Hr |- *. rewrite TRAPFRAME_val, PGSIZE_val in *.
  unfold vpn in *. rewrite PGSIZE_val in *. change ((2 ^ 38 - 8192) / 4096) with (2 ^ 26 - 2).
  rewrite Z.div_mul by lia. lia.
Qed.

(** Tables grow into free pages only. *)
Lemma ext_apart m T D l m' T' l' root q :
  aspace m root T D l -> ext m T l m' T' l' -> tab T' q -> ~ data D q.
Proof.
  intros [Hasp _ Hap] [_ (new & -> & Hnew) _ _] [Hq|Hq]%Hnew Hd; [by apply (asp_apart _ _ _ _ Hasp q)|].
  apply (Hap q); [by right|set_solver].
Qed.

(** Mapping a fresh page at an address where the process has none. *)
Lemma map_page_spec m root T D l g a perm :
  aspace m root T D l -> fresh T D l g -> a mod PGSIZE = 0 -> 0 <= a < TRAPFRAME ->
  D !! vpn a = None -> 0 <= perm < 1024 ->
  mwp (mappages root a PGSIZE g perm) m (fun r m' => exists T' l', ext m T l m' T' l' /\
    ((r = 0 /\ aspace m' root T' (<[vpn a := g]> D) l' /\
      (length l <= length l' + 2)%nat /\
      forall x, leaf (ram m') T' x = if decide (x = vpn a) then mkpte g perm else leaf (ram m) T x) \/
     (r = -1 /\ (length l < 2)%nat /\ aspace m' root T' D l' /\ fresh T' D l' g /\
      forall x, leaf (ram m') T' x = leaf (ram m) T x))).
Proof.
  intros Has [Hg Hfr] Ha Hr HD Hperm. pose proof (as_asp _ _ _ _ _ Has) as Hasp.
  pose proof (page_ok_bound g Hg) as Hgb. pose proof (vpn_low a Ha Hr) as [Hn Hr'].
  eapply mwp_mono; [apply (mappages_spec m root T l); [by eapply as_own|done|done|done|lia|..]|].
  - rewrite MAXVA_val. rewrite TRAPFRAME_val in *. lia.
  - lia.
  - rewrite PGSIZE_val. lia.
  - done.
  - intros b Hb. rewrite (vpn_page a b Ha Hb). destruct (has _ _) eqn:E; [|done].
    destruct (asp_low _ _ _ _ Hasp (vpn a)) as [p Hp]; [lia|done|]. congruence.
  - change (PGSIZE / PGSIZE) with 1. intros r m' (T' & l' & k & Ho' & He' & Hl' & Hres).
    assert (Htd : forall q, tab T' q -> ~ data D q) by (intros q; by eapply ext_apart).
    assert (Hfr' : ~ part T' D l' g) by by rewrite <- (ext_same_pages _ _ _ _ _ _ D He' g).
    exists T', l'. split; [done|]. destruct Hres as [(-> & -> & Hlen)|(-> & -> & Hk & Hlen)]; [left|right].
    + assert (Hl : forall x, leaf (ram m') T' x = if decide (x = vpn a) then mkpte g perm else leaf (ram m) T x).
      { intros x. rewrite Hl'. unfold mapped. repeat case_decide; try lia. f_equal. lia. }
      unfold part in Hfr, Hfr'. split_and!; [done| |lia|done].
      split; [eapply asp_insert; try done; [apply Ho'|tauto|tauto]|apply Ho'|].
      intros p [Hp|[n [[_ <-]|[_ Hp]]%lookup_insert_Some]]; [by apply Ho'|tauto|].
      intros Hpl. apply (as_apart _ _ _ _ _ Has p); [right; by eexists|].
      destruct He' as [_ (new & -> & _) _ _]. set_solver.
    + assert (Hl : forall x, leaf (ram m') T' x = leaf (ram m) T x).
      { intros x. rewrite Hl'. unfold mapped. by rewrite decide_False by lia. }
      split_and!; [done|lia| |done|done]. split; [eapply asp_same; [done|apply Ho'|eauto|done]|apply Ho'|]. set_solver.
Qed.

(** ** Adding pages *)

(** The page [p] holds the bytes [c]. *)
Definition holds (r : bytes) (p : Z) (c : Z -> Z) : Prop := forall i, 0 <= i < PGSIZE -> r (p + i) = c i.

(** New pages at the page numbers in [S], with permissions [perm] and contents
    [c]; nothing else of the address space has changed. *)
Record grown (S : Z -> Prop) (perm : Z -> Z) (c : Z -> Z -> Z) m T D l m' T' D' l' : Prop := mkgrown {
  gw_old : forall x, ~ S x -> D' !! x = D !! x /\ leaf (ram m') T' x = leaf (ram m) T x;
  gw_new : forall x, S x -> exists p,
    D' !! x = Some p /\ leaf (ram m') T' x = mkpte p (perm x) /\ holds (ram m') p (c x);
  gw_pages : same_pages T D l T' D' l';
  gw_touch : touches (fun p => p ∈ l \/ tab T p) (ram m) (ram m');
  gw_kpt : kernel_pagetable m' = kernel_pagetable m
}.

Lemma grown_refl (S : Z -> Prop) perm c m T D l : (forall x, ~ S x) -> grown S perm c m T D l m T D l.
Proof. intros HS. split; [done| |done..]. intros x Hx. by destruct (HS x). Qed.

Lemma grown_iff (S S' : Z -> Prop) perm c m T D l m' T' D' l' :
  (forall x, S x <-> S' x) -> grown S perm c m T D l m' T' D' l' -> grown S' perm c m T D l m' T' D' l'.
Proof. intros HS [H1 H2 H3 H4 H5]. split; [|..|done|done|done]; intros x Hx; [apply H1|apply H2]; by rewrite HS. Qed.

(** What was written later was free or a table before, or became one. *)
Lemma same_pages_touch T D l T' D' l' root m P r1 r2 :
  same_pages T D l T' D' l' -> aspace m root T' D' l' -> (forall p, data D p -> data D' p) ->
  touches P r1 r2 -> (forall p, P p -> p ∈ l' \/ tab T' p) ->
  touches (fun p => p ∈ l \/ tab T p) r1 r2.
Proof.
  intros Hs Has HD Ht HP. eapply touches_mono; [done|]. intros p Hp%HP.
  assert (Hpart : part T D l p) by (apply Hs; unfold part; tauto).
  destruct Hpart as [?|[?|Hd%HD]]; [by left|by right|]. exfalso.
  destruct Hp as [Hp|Hp]; [by apply (as_apart _ _ _ _ _ Has p); [right|]|].
  by apply (asp_apart _ _ _ _ (as_asp _ _ _ _ _ Has) p).
Qed.

Lemma grown_data (S : Z -> Prop) perm c m T D l m' T' D' l' p :
  grown S perm c m T D l m' T' D' l' -> (forall x, S x -> D !! x = None) -> data D p -> data D' p.
Proof.
  intros Hg HS [x Hx]. exists x. destruct (gw_old _ _ _ _ _ _ _ _ _ _ _ Hg x) as [-> _]; [|done].
  intros HSx. rewrite HS in Hx; done.
Qed.

(** The contents of owned pages survive. *)
Lemma holds_touches P r r' p c : page_ok p -> touches P r r' -> ~ P p -> holds r p c -> holds r' p c.
Proof.
  intros [Hp _] Ht HP Hc i Hi. rewrite (touches_page P r r' p); [by apply Hc|done|done|done|lia].
Qed.

Lemma grown_trans (S1 S2 : Z -> Prop) perm c root m1 T1 D1 l1 m2 T2 D2 l2 m3 T3 D3 l3 :
  aspace m2 root T2 D2 l2 -> (forall x, S1 x -> D1 !! x = None /\ ~ S2 x) ->
  grown S1 perm c m1 T1 D1 l1 m2 T2 D2 l2 -> grown S2 perm c m2 T2 D2 l2 m3 T3 D3 l3 ->
  grown (fun x => S1 x \/ S2 x) perm c m1 T1 D1 l1 m3 T3 D3 l3.
Proof.
  intros Has HS Hg1 Hg2. pose proof Hg1 as [Ho1 Hn1 Hs1 Ht1 Hk1]. pose proof Hg2 as [Ho2 Hn2 Hs2 Ht2 Hk2]. split.
  - intros x Hx. destruct (Ho1 x ltac:(tauto)) as [<- <-]. apply Ho2. tauto.
  - intros x [Hx|Hx]; [|by apply Hn2]. destruct (Hn1 x Hx) as (p & HD & Hl & Hc).
    destruct (Ho2 x) as [-> ->]; [by apply HS|]. exists p. split_and!; [done|done|].
    destruct (asp_leaf _ _ _ _ (as_asp _ _ _ _ _ Has) _ _ HD) as (_ & _ & Hpok).
    eapply holds_touches; [done|exact Ht2| |done].
    assert (data D2 p) by by eexists. intros [Hp|Hp]; [by apply (as_apart _ _ _ _ _ Has p); [right|]|].
    by apply (asp_apart _ _ _ _ (as_asp _ _ _ _ _ Has) p).
  - by eapply same_pages_trans.
  - eapply touches_trans; [exact Ht1| |done|exact (fun p H => H)].
    eapply same_pages_touch; [exact Hs1|exact Has| |exact Ht2|done].
    intros p. eapply grown_data; [exact Hg1|]. intros x Hx. by apply HS.
  - congruence.
Qed.

(** Undoing it: [uvmunmap] over a range that holds all new pages. *)
Lemma grown_undo (S : Z -> Prop) perm c v n root m1 T D l m2 T2 D2 l2 m3 D3 l3 :
  aspace m1 root T D l -> aspace m2 root T2 D2 l2 ->
  (forall x, S x -> v <= x < v + n) ->
  (forall x, v <= x < v + n -> D !! x = None) -> v + n <= vpn TRAPFRAME ->
  grown S perm c m1 T D l m2 T2 D2 l2 -> unmaps v n m2 T2 D2 l2 m3 D3 l3 ->
  grown (fun _ => False) perm c m1 T D l m3 T2 D3 l3.
Proof.
  intros Has1 Has HS HD Hlim Hg Hu. pose proof (unmaps_same_pages _ _ _ _ _ _ _ _ _ Hu) as Hs2.
  pose proof Hg as [Ho1 Hn1 Hs1 Ht1 Hk1]. destruct Hu as [-> Hf Hl Ht Hk]. split; [| |by eapply same_pages_trans| |congruence].
  - intros x _. rewrite lookup_cut, Hl. case_decide as Hx.
    + rewrite HD by done. split; [done|]. symmetry. apply (asp_zero _ _ _ _ (as_asp _ _ _ _ _ Has1)).
      destruct (has _ _) eqn:E; [|done].
      destruct (asp_low _ _ _ _ (as_asp _ _ _ _ _ Has1) x) as [p Hp]; [lia|done|]. by rewrite HD in Hp.
    + apply Ho1. auto.
  - done.
  - eapply touches_trans; [exact Ht1| |done|exact (fun p H => H)].
    eapply touches_mono; [exact Ht|]. intros p Hp.
    assert (Hp2 : part T2 D2 l2 p).
    { destruct Hp as [Hp|(x & _ & Hx)]; [right; by left|right; right; by exists x]. }
    apply Hs1 in Hp2 as [?|[?|Hd]]; [by left|by right|]. exfalso.
    destruct Hp as [Hp|(x & Hx & Hp)].
    + apply (asp_apart _ _ _ _ (as_asp _ _ _ _ _ Has) p); [|done]. eapply grown_data; [done| |done]. auto.
    + destruct Hd as [y Hy]. assert (HyS : ~ S y) by (intros Hs%HS; rewrite HD in Hy; done).
      destruct (Ho1 y HyS) as [Hy2 _]. rewrite <- Hy2 in Hy.
      pose proof (asp_inj _ _ _ _ (as_asp _ _ _ _ _ Has) _ _ _ Hp Hy) as ->. rewrite Hy2, HD in Hy; done.
Qed.

Lemma grown_one root m m1 m2 T D g l T' l' a perm c :
  aspace m root T D (g :: l) -> touches (eq g) (ram m) (ram m1) -> kernel_pagetable m1 = kernel_pagetable m ->
  aspace m1 root T D l -> fresh T D l g -> ext m1 T l m2 T' l' ->
  holds (ram m1) g (c (vpn a)) -> D !! vpn a = None ->
  (forall x, leaf (ram m2) T' x = if decide (x = vpn a) then mkpte g (perm (vpn a)) else leaf (ram m1) T x) ->
  grown (fun x => x = vpn a) perm c m T D (g :: l) m2 T' (<[vpn a := g]> D) l'.
Proof.
  intros Has Ht1 Hk1 Has1 [Hg Hfr] He Hc HD Hl. unfold part in Hfr.
  assert (Hl1 : forall x, leaf (ram m1) T x = leaf (ram m) T x).
  { intros x. eapply leaf_touches; [apply Has|exact Ht1|]. intros p Hp <-. tauto. }
  pose proof (ext_touch _ _ _ _ _ _ He) as Ht2. split.
  - intros x Hx. by rewrite lookup_insert_ne, Hl, decide_False, Hl1.
  - intros x ->. exists g. rewrite lookup_insert_eq, Hl, decide_True by done. split_and!; [done|done|].
    eapply holds_touches; [done|exact Ht2|tauto|done].
  - destruct He as [_ (new & -> & Hnew) _ _]. intros p. unfold part. rewrite elem_of_cons, elem_of_app, Hnew.
    assert (Hd : data (<[vpn a := g]> D) p <-> p = g \/ data D p); [|rewrite Hd; tauto]. split.
    + intros [x [[_ <-]|[_ Hx]]%lookup_insert_Some]; [by left|right; by exists x].
    + intros [->|[x Hx]]; [exists (vpn a); apply lookup_insert_eq|]. exists x.
      rewrite lookup_insert_ne; [done|]. intros <-. congruence.
  - eapply touches_trans; [exact Ht1|exact Ht2| |]; simpl.
    + intros p <-. left. set_solver.
    + intros p. rewrite elem_of_cons. tauto.
  - rewrite (ext_kpt _ _ _ _ _ _ He). done.
Qed.

(** Only tables were added. *)
Lemma grown_none root m m1 m2 m3 T D g l T' l' perm c :
  aspace m root T D (g :: l) -> touches (eq g) (ram m) (ram m1) -> kernel_pagetable m1 = kernel_pagetable m ->
  fresh T D l g -> ext m1 T l m2 T' l' -> (forall x, leaf (ram m2) T' x = leaf (ram m1) T x) ->
  aspace m2 root T' D l' -> fresh T' D l' g ->
  touches (eq g) (ram m2) (ram m3) -> kernel_pagetable m3 = kernel_pagetable m2 ->
  grown (fun _ => False) perm c m T D (g :: l) m3 T' D (g :: l').
Proof.
  intros Has Ht1 Hk1 [Hg Hfr] He Hl Has2 [_ Hfr2] Ht3 Hk3. unfold part in Hfr, Hfr2.
  pose proof (ext_touch _ _ _ _ _ _ He) as Ht2. split; [|done| | |].
  - intros x _. split; [done|]. rewrite (leaf_touches (eq g) (ram m2) (ram m3) root);
      [|apply Has2|done|intros p Hp <-; tauto]. rewrite Hl.
    eapply leaf_touches; [apply Has|exact Ht1|]. intros p Hp <-. tauto.
  - intros p. pose proof (ext_same_pages _ _ _ _ _ _ D He p) as Hs. unfold part in *. rewrite !elem_of_cons. tauto.
  - eapply touches_trans; [exact Ht1| |intros p <-; left; set_solver|exact (fun p H => H)].
    eapply touches_trans; [exact Ht2|exact Ht3| |]; simpl; [intros p; rewrite elem_of_cons; tauto|].
    intros p <-. left. set_solver.
  - by rewrite Hk3, (ext_kpt _ _ _ _ _ _ He).
Qed.

(** [fill g] gives the new page [g] the contents [c] and writes nothing else. *)
Definition fills m (root : Z) T D l (fill : Z -> MM unit) (c : Z -> Z) : Prop :=
  forall g m1 l1 (Q : unit -> pmem -> Prop), g ∈ l -> aspace m1 root T D l1 -> fresh T D l1 g ->
    touches (eq g) (ram m) (ram m1) ->
    (forall m2, aspace m2 root T D l1 -> touches (eq g) (ram m1) (ram m2) -> holds (ram m2) g c ->
       kernel_pagetable m2 = kernel_pagetable m1 -> Q tt m2) -> mwp (fill g) m1 Q.

(** The steps [uvmalloc], [uvmcopy] and [vmfault] have in common: allocate a
    page, fill it, map it, and give it back when there is no memory for tables. *)
Lemma mwp_new_page m root T D l a fill perm c (E : MM Z) (K : Z -> MM Z) Q :
  aspace m root T D l -> a mod PGSIZE = 0 -> 0 <= a < TRAPFRAME -> D !! vpn a = None ->
  0 <= perm (vpn a) < 1024 ->
  fills m root T D l fill (c (vpn a)) ->
  (forall m' T' l', aspace m' root T' D l' -> (length l < 3)%nat ->
     grown (fun _ => False) perm c m T D l m' T' D l' -> mwp E m' Q) ->
  (forall m' T' l' g, aspace m' root T' (<[vpn a := g]> D) l' -> (length l <= length l' + 3)%nat -> page_ok g ->
     grown (fun x => x = vpn a) perm c m T D l m' T' (<[vpn a := g]> D) l' -> mwp (K g) m' Q) ->
  mwp (mm_bind kalloc_mem (fun g => if g =? 0 then E else
       mm_bind (fill g) (fun _ => mm_bind (mappages root a PGSIZE g (perm (vpn a))) (fun r =>
       if negb (r =? 0) then mm_bind (kfree_mem g) (fun _ => E) else K g)))) m Q.
Proof.
  intros Has Ha Hr HD Hperm Hfill HE HK. apply mwp_bind. destruct l as [|g l].
  { apply kalloc_empty; [apply Has|]. rewrite Z.eqb_refl. apply (HE m T []); [done|simpl; lia|].
    apply grown_refl. tauto. }
  apply (kalloc_as m root T D g l); [done|]. intros m1 Has1 Hfr Ht1 Hk1.
  rewrite (page_eqb0 g) by apply Hfr. apply mwp_bind, (Hfill g m1 l); [set_solver|done..|].
  intros m2 Has2 Ht2 Hc Hk2.
  assert (Ht : touches (eq g) (ram m) (ram m2)) by by eapply touches_trans.
  apply mwp_bind. eapply mwp_mono; [by apply (map_page_spec m2 root T D l g a (perm (vpn a)))|].
  intros r m3 (T' & l' & He & [(-> & Has3 & Hlen & Hl)|(-> & Hlen & Has3 & Hfr3 & Hl)]).
  - rewrite Z.eqb_refl. cbn [negb]. apply (HK m3 T' l'); [done|simpl; lia|apply Hfr|].
    eapply (grown_one root m m2); [done|done|congruence|done..].
  - change (negb (-1 =? 0)) with true. cbn iota. apply mwp_bind, (kfree_as m3 root T' D g l'); [done|done|].
    intros m4 Has4 Ht4 Hk4. apply (HE m4 T' (g :: l')); [done|simpl; lia|].
    eapply (grown_none root m m2 m3); [done|done|congruence|done..].
Qed.

(** ** [uvmalloc] *)

Lemma filled_holds r p c : filled r p c -> holds r p (fun _ => c).
Proof. intros H i Hi. apply H. lia. Qed.

Lemma fills_zero m root T D l : fills m root T D l (fun g => mem_set g 0 PGSIZE) (fun _ => 0).
Proof.
  intros g m1 l1 Q1 _ Has Hfr _ HQ. eapply mem_set_as; [done|done|]. intros m2 Has2 Ht Hf Hk.
  apply HQ; [done|done| |done]. by apply filled_holds.
Qed.

(** [n] zeroed pages from [v] on. *)
Definition zeroed (v n perm : Z) m T D l m' T' D' l' : Prop :=
  grown (fun x => v <= x < v + n) (fun _ => perm) (fun _ _ => 0) m T D l m' T' D' l'.

Lemma pgs_aligned z : z mod PGSIZE = 0 -> 0 <= z <= TRAPFRAME -> pgs z = vpn z.
Proof.
  intros Hz Hr. pose proof (pgs_spec z Hr) as [Hp _]. pose proof (aligned_eq z Hz) as E.
  rewrite PGSIZE_val in Hp, E. lia.
Qed.

(** The failure path of [uvmalloc] after the pages from [oldsz] to [a]. *)
Lemma uvmalloc_fail m0 T0 D0 l0 root m T D l a oldsz perm :
  aspace m0 root T0 D0 l0 -> aspace m root T D l ->
  oldsz mod PGSIZE = 0 -> a mod PGSIZE = 0 -> 0 <= oldsz <= a -> a <= TRAPFRAME ->
  (forall x, vpn oldsz <= x < vpn a -> D0 !! x = None) ->
  zeroed (vpn oldsz) (vpn a - vpn oldsz) perm m0 T0 D0 l0 m T D l ->
  mwp (mm_bind (uvmdealloc root a oldsz) (fun _ => mm_ret 0)) m (fun r m' => r = 0 /\ exists T' D' l',
    aspace m' root T' D' l' /\ zeroed (vpn oldsz) 0 perm m0 T0 D0 l0 m' T' D' l').
Proof.
  intros Has0 Has Ho Ha Hr Hlim HD Hz. apply mwp_bind.
  assert (vpn oldsz <= vpn a <= vpn TRAPFRAME) by (unfold vpn; rewrite PGSIZE_val; split; apply Z.div_le_mono; lia).
  eapply mwp_mono; [apply (uvmdealloc_spec m root T D l a oldsz Has); lia|].
  intros _ m' (_ & D' & l' & Has' & Hu). apply mwp_ret. split; [done|]. exists T, D', l'. split; [done|].
  rewrite !pgs_aligned in Hu by (done || lia). unfold zeroed.
  eapply (grown_iff (fun _ => False)); [intros x; lia|].
  case_decide as Hlt.
  - eapply (grown_undo _ _ _ (vpn oldsz) (vpn a - vpn oldsz) root m0 T0 D0 l0 m T D l); [done|done| | | |exact Hz|exact Hu].
    + done.
    + intros x Hx. apply HD. lia.
    + lia.
  - eapply (grown_undo _ _ _ (vpn oldsz) 0 root m0 T0 D0 l0 m T D l); [done|done| | | |exact Hz|exact Hu].
    + assert (a = oldsz) as -> by lia. lia.
    + lia.
    + lia.
Qed.

Lemma uvmalloc_loop_spec fuel m0 T0 D0 l0 root m T D l a oldsz newsz xperm :
  aspace m0 root T0 D0 l0 -> aspace m root T D l -> 0 <= xperm < 1024 ->
  oldsz mod PGSIZE = 0 -> a mod PGSIZE = 0 -> 0 <= oldsz <= a -> 0 <= newsz <= TRAPFRAME -> a < newsz + PGSIZE ->
  newsz - a <= Z.of_nat fuel * PGSIZE ->
  (forall x, vpn oldsz <= x < pgs newsz -> D0 !! x = None) ->
  zeroed (vpn oldsz) (vpn a - vpn oldsz) (Z.lor (Z.lor PTE_R PTE_U) xperm) m0 T0 D0 l0 m T D l ->
  Z.of_nat (length l0) <= Z.of_nat (length l) + 3 * (vpn a - vpn oldsz) ->
  mwp (uvmalloc_loop fuel root a oldsz newsz xperm) m (fun r m' => exists T' D' l' n,
    aspace m' root T' D' l' /\
    zeroed (vpn oldsz) n (Z.lor (Z.lor PTE_R PTE_U) xperm) m0 T0 D0 l0 m' T' D' l' /\
    ((r = newsz /\ n = pgs newsz - vpn oldsz) \/
     (r = 0 /\ n = 0 /\ Z.of_nat (length l0) < 3 * (pgs newsz - vpn oldsz)))).
Proof.
  intros Has0. revert m T D l a. induction fuel as [|fuel IH];
    intros m T D l a Has Hx Ho Ha Hoa Hnew Hlt Hfuel HD Hz Hlen; cbn [uvmalloc_loop];
    pose proof (pgs_spec newsz Hnew) as [Hp1 Hp2]; pose proof (aligned_eq a Ha) as Ea;
    (destruct (a <? newsz) eqn:E; bool_to_prop; [|apply mwp_ret; exists T, D, l, (vpn a - vpn oldsz)]).
  - lia.
  - split_and!; [done|done|left]. split; [done|]. rewrite PGSIZE_val in *. lia.
  - assert (Hperm : 0 <= Z.lor (Z.lor PTE_R PTE_U) xperm < 1024) by (apply lor_flags; [done|done]).
    pose proof (vpn_low a Ha ltac:(lia)) as [Hva Hap].
    assert (Hvp : vpn a < pgs newsz) by (rewrite PGSIZE_val in *; lia).
    assert (HDa : D !! vpn a = None).
    { destruct (gw_old _ _ _ _ _ _ _ _ _ _ _ Hz (vpn a)) as [-> _]; [lia|]. apply HD. split; [|done].
      unfold vpn. apply Z.div_le_mono; [by rewrite PGSIZE_val|lia]. }
    assert (Hvo : vpn oldsz <= vpn a) by (unfold vpn; apply Z.div_le_mono; [by rewrite PGSIZE_val|lia]).
    assert (Hin : forall x, vpn oldsz <= x < vpn oldsz + (vpn a - vpn oldsz) -> D0 !! x = None /\ x <> vpn a).
    { intros x Hx'. split; [apply HD; lia|lia]. }
    apply (mwp_new_page m root T D l a (fun g => mem_set g 0 PGSIZE)
      (fun _ => Z.lor (Z.lor PTE_R PTE_U) xperm) (fun _ _ => 0)); [done|done|lia|done|done|apply fills_zero|..].
    + intros m' T' l' Has' Hl3 Hg. pose proof (fun H => grown_trans _ _ _ _ root _ _ _ _ _ _ _ _ _ _ _ _ Has H Hz Hg) as Hg'.
      eapply mwp_mono; [apply (uvmalloc_fail m0 T0 D0 l0 root m' T' D l' a oldsz); [done|done|done|done|done|lia| |]|].
      * intros x Hx'. apply Hin. lia.
      * eapply grown_iff; [|apply Hg']; simpl; [tauto|]. intros x Hx'. split; [by apply Hin|tauto].
      * intros r m1 (-> & T1 & D1 & l1 & Has1 & Hz1). exists T1, D1, l1, 0.
        split_and!; [done|done|right]. split_and!; [done|done|lia].
    + intros m' T' l' g Has' Hl3 _ Hg. rewrite u64_small by (rewrite TRAPFRAME_val, PGSIZE_val in *; lia).
      pose proof (grown_trans _ _ _ _ root _ _ _ _ _ _ _ _ _ _ _ _ Has Hin Hz Hg) as Hg'.
      apply (IH m' T' (<[vpn a := g]> D) l'); try done.
      * rewrite PGSIZE_val in *. rewrite <- Z.add_mod_idemp_r by lia. by rewrite Z.add_0_r.
      * rewrite PGSIZE_val. lia.
      * rewrite PGSIZE_val in *. lia.
      * rewrite PGSIZE_val in *. lia.
      * rewrite vpn_step. eapply grown_iff; [|exact Hg']. simpl. intros x. lia.
      * rewrite vpn_step. lia.
  - split_and!; [done|done|left]. split; [done|]. rewrite PGSIZE_val in *. lia.
Qed.

Lemma uvmalloc_spec m root T D l oldsz newsz xperm :
  aspace m root T D l -> 0 <= oldsz <= newsz -> newsz <= TRAPFRAME -> 0 <= xperm < 1024 ->
  (forall x, pgs oldsz <= x < pgs newsz -> D !! x = None) ->
  mwp (uvmalloc root oldsz newsz xperm) m (fun r m' => exists T' D' l' n,
    aspace m' root T' D' l' /\
    zeroed (pgs oldsz) n (Z.lor (Z.lor PTE_R PTE_U) xperm) m T D l m' T' D' l' /\
    ((r = newsz /\ n = pgs newsz - pgs oldsz) \/
     (r = 0 /\ n = 0 /\ Z.of_nat (length l) < 3 * (pgs newsz - pgs oldsz)))).
Proof.
  intros Has Hsz Hlim Hx HD. unfold uvmalloc. rewrite (proj2 (Z.ltb_ge newsz oldsz)) by lia.
  pose proof (pgs_spec oldsz ltac:(lia)) as [Ho _]. rewrite <- PGROUNDUP_pgs in Ho.
  assert (Hv : vpn (PGROUNDUP oldsz) = pgs oldsz) by done.
  eapply mwp_mono; [apply (uvmalloc_loop_spec _ m T D l root m T D l); try done|].
  - apply PGROUNDUP_aligned.
  - apply PGROUNDUP_aligned.
  - lia.
  - lia.
  - lia.
  - rewrite PGSIZE_val in *. set (a := PGROUNDUP oldsz) in *.
    pose proof (Z.div_mod (newsz - a + 4096 - 1) 4096). pose proof (Z.mod_pos_bound (newsz - a + 4096 - 1) 4096). lia.
  - apply grown_refl. lia.
  - lia.
  - rewrite Hv. intros r m' (T' & D' & l' & n & H). by exists T', D', l', n.
Qed.

End User.
