(* ===== verification/VmCopy.v ===== *)
(** * User memory as bytes: [copyout], [copyin], [copyinstr], page faults

    [view m D] is the memory a process sees: a page that is not there yet reads
    as zeros, which is what [vmfault] will make it.  The copies of [vm.c] are
    reads and writes of the view. *)

From stdpp Require Import base list gmap strings.
From Stdlib Require Import ZArith Lia.
From S2P Require Import Prelude KernelBase KString PhysMem Kalloc Vm VmFacts VmMaps VmUser.

Open Scope Z_scope.

Section Copy.

Context {lay : layout}.
Implicit Types (T : gmap (nat * Z) Z) (D : gmap Z Z) (l : list Z) (m : pmem).

Definition view m D (va : Z) : Z :=
  match D !! vpn va with Some p => ram m (p + va mod PGSIZE) | None => 0 end.

Lemma off_range va : 0 <= va mod PGSIZE < PGSIZE.
Proof. apply Z.mod_pos_bound. by rewrite PGSIZE_val. Qed.

(** Adding zeroed pages is invisible. *)
Lemma grown_view (S : Z -> Prop) perm m T D l m' T' D' l' root va :
  aspace m root T D l -> (forall x, S x \/ ~ S x) -> (forall x, S x -> D !! x = None) ->
  grown S perm (fun _ _ => 0) m T D l m' T' D' l' -> view m' D' va = view m D va.
Proof.
  intros Has HS HD [Ho Hn _ Ht _]. unfold view. pose proof (off_range va).
  destruct (HS (vpn va)) as [Hs|Hs].
  - rewrite (HD _ Hs). destruct (Hn _ Hs) as (p & -> & _ & Hc). by apply Hc.
  - destruct (Ho _ Hs) as [-> _]. destruct (D !! vpn va) as [p|] eqn:E; [|done].
    destruct (asp_leaf _ _ _ _ (as_asp _ _ _ _ _ Has) _ _ E) as (_ & _ & [Hp _]).
    assert (data D p) by by eexists.
    eapply touches_page; [exact Ht|done| |lia].
    intros [?|?]; [by apply (as_apart _ _ _ _ _ Has p); [right|]|].
    by apply (asp_apart _ _ _ _ (as_asp _ _ _ _ _ Has) p).
Qed.

(** ** Looking up a page *)

Lemma walk_find_pt m root T va (Q : Z -> pmem -> Prop) :
  pt_ok (ram m) root T -> 0 <= va < MAXVA ->
  (slot T va = 0 -> leaf (ram m) T (vpn va) = 0 -> Q 0 m) ->
  (slot T va <> 0 -> Q (slot T va) m) -> mwp (walk root va false) m Q.
Proof.
  intros Hpt Hva H0 H1. eapply mwp_mono; [by apply walk_find|]. intros r m' [-> ->].
  destruct (decide (slot T va = 0)) as [E|E]; [|by apply H1]. rewrite E. apply H0; [done|].
  apply slot_none; [done|apply Hpt].
Qed.

Lemma walk_find_leaf m root T D l va (Q : Z -> pmem -> Prop) :
  aspace m root T D l -> 0 <= va < MAXVA ->
  (slot T va = 0 -> leaf (ram m) T (vpn va) = 0 -> Q 0 m) ->
  (slot T va <> 0 -> Q (slot T va) m) -> mwp (walk root va false) m Q.
Proof. intros Has. apply walk_find_pt, Has. Qed.

(** The entry lets user code in. *)
Definition uvalid (e : Z) : bool := (has e PTE_V && has e PTE_U)%bool.

Lemma walkaddr_spec m root T D l va (Q : Z -> pmem -> Prop) :
  aspace m root T D l -> 0 <= va ->
  (va < MAXVA -> uvalid (leaf (ram m) T (vpn va)) = true -> Q (PTE2PA (leaf (ram m) T (vpn va))) m) ->
  (MAXVA <= va \/ uvalid (leaf (ram m) T (vpn va)) = false -> Q 0 m) ->
  mwp (walkaddr root va) m Q.
Proof.
  intros Has Hva H1 H0. unfold walkaddr. destruct (MAXVA <=? va) eqn:E; bool_to_prop.
  { apply mwp_ret, H0. by left. }
  apply mwp_bind, (walk_find_leaf m root T D l va); [done|done| |].
  - intros _ Hl. apply mwp_ret, H0. right. by rewrite Hl.
  - intros Hs. rewrite (proj2 (Z.eqb_neq _ _) Hs).
    apply mwp_bind, (mwp_load_slot m root T l); [by eapply as_own|done|].
    unfold uvalid in *. destruct (has _ PTE_V) eqn:Ev, (has _ PTE_U) eqn:Eu; cbn [negb]; apply mwp_ret; auto.
Qed.

Lemma ismapped_spec m root T D l va (Q : Z -> pmem -> Prop) :
  aspace m root T D l -> 0 <= va < MAXVA ->
  Q (if has (leaf (ram m) T (vpn va)) PTE_V then 1 else 0) m -> mwp (ismapped root va) m Q.
Proof.
  intros Has Hva HQ. unfold ismapped. apply mwp_bind, (walk_find_leaf m root T D l va); [done|done| |].
  - intros _ Hl. rewrite Hl in HQ. by apply mwp_ret.
  - intros Hs. rewrite (proj2 (Z.eqb_neq _ _) Hs).
    apply mwp_bind, (mwp_load_slot m root T l); [by eapply as_own|done|]. by destruct (has _ PTE_V).
Qed.

Definition fault_perm : Z := Z.lor (Z.lor PTE_W PTE_U) PTE_R.

(** The page of [va] has been added if it was missing. *)
Definition faulted (va : Z) m T D l m' T' D' l' : Prop :=
  grown (fun x => x = vpn va /\ D !! x = None) (fun _ => fault_perm) (fun _ _ => 0) m T D l m' T' D' l'.

(** Only tables, if anything, have been added. *)
Definition unfaulted m T D l m' T' D' l' : Prop :=
  grown (fun _ => False) (fun _ => fault_perm) (fun _ _ => 0) m T D l m' T' D' l'.

Lemma vmfault_spec m root T D l psz va rd :
  aspace m root T D l -> 0 <= va -> psz <= TRAPFRAME ->
  mwp (vmfault root psz va rd) m (fun r m' => exists T' D' l', aspace m' root T' D' l' /\
    ((r = 0 /\ unfaulted m T D l m' T' D' l' /\
      (psz <= va \/ has (leaf (ram m) T (vpn va)) PTE_V = true \/ (length l < 3)%nat)) \/
     (page_ok r /\ va < psz /\ D !! vpn va = None /\ D' !! vpn va = Some r /\ faulted va m T D l m' T' D' l'))).
Proof.
  intros Has Hva Hpsz. unfold vmfault.
  assert (Hstay : aspace m root T D l /\ unfaulted m T D l m T D l) by (split; [done|apply grown_refl; tauto]).
  destruct (psz <=? va) eqn:E; bool_to_prop; [apply mwp_ret; exists T, D, l; tauto|].
  pose proof (PGROUNDDOWN_range va) as Hr. pose proof (PGROUNDDOWN_aligned va) as Ha.
  set (v0 := PGROUNDDOWN va) in *. assert (Hvp : vpn va = vpn v0) by (apply vpn_page; [done|lia]).
  assert (H0 : 0 <= v0 < TRAPFRAME).
  { split; [|lia]. unfold v0. rewrite PGROUNDDOWN_eq. apply Z.mul_nonneg_nonneg; [apply Z.div_pos|]; by rewrite ?PGSIZE_val. }
  rewrite Hvp. apply mwp_bind, (ismapped_spec m root T D l); [done|rewrite TRAPFRAME_val, MAXVA_val in *; lia|].
  destruct (has (leaf (ram m) T (vpn v0)) PTE_V) eqn:Ev.
  { change (negb (1 =? 0)) with true. apply mwp_ret. exists T, D, l. tauto. }
  rewrite Z.eqb_refl. cbn [negb].
  assert (HD : D !! vpn v0 = None).
  { destruct (D !! vpn v0) eqn:ED; [|done]. apply (asp_leaf _ _ _ _ (as_asp _ _ _ _ _ Has)) in ED as [ED _]. congruence. }
  apply (mwp_new_page m root T D l v0 (fun g => mem_set g 0 PGSIZE) (fun _ => fault_perm) (fun _ _ => 0));
    [done|done|done|done|done|apply fills_zero| |].
  - intros m' T' l' Has' Hl Hg. apply mwp_ret. exists T', D, l'. split; [done|]. left. tauto.
  - intros m' T' l' g Has' _ Hgok Hg. apply mwp_ret. exists T', (<[vpn v0 := g]> D), l'. split; [done|]. right.
    split_and!; [done|done|done|apply lookup_insert_eq|].
    eapply grown_iff; [|exact Hg]. simpl. rewrite Hvp. intros x. split; [by intros ->|tauto].
Qed.

Lemma grown_none_pages perm c m T D l m' T' D' l' : grown (fun _ => False) perm c m T D l m' T' D' l' -> D' = D.
Proof. intros [Ho _ _ _ _]. apply map_eq. intros x. by destruct (Ho x ltac:(tauto)). Qed.

Lemma uvalid_owned m root T D l n : aspace m root T D l -> uvalid (leaf (ram m) T n) = true ->
  exists p, D !! n = Some p /\ page_ok p /\ PTE2PA (leaf (ram m) T n) = p.
Proof.
  intros [Hasp _ _] [Hv Hu]%andb_true_iff. destruct (decide (n < vpn TRAPFRAME)) as [Hn|Hn].
  - destruct (asp_low _ _ _ _ Hasp n Hn Hv) as [p Hp]. exists p.
    destruct (asp_leaf _ _ _ _ Hasp _ _ Hp) as (_ & ? & ?). done.
  - rewrite (asp_high _ _ _ _ Hasp n) in Hu by (lia || done). done.
Qed.

Lemma uvalid_fault p : uvalid (mkpte p fault_perm) = true /\ has (mkpte p fault_perm) PTE_W = true.
Proof. unfold uvalid. rewrite mkpte_eq, !has_PA2PTE by done. done. Qed.

(** The page both copies go through: mapped for the user, faulted in if need be. *)
Lemma user_page_spec m root T D l psz va rd :
  aspace m root T D l -> 0 <= va -> psz <= TRAPFRAME ->
  mwp (user_page root psz va rd) m (fun r m' => exists T' D' l', aspace m' root T' D' l' /\
    ((r = 0 /\ unfaulted m T D l m' T' D' l' /\ (MAXVA <= va \/ uvalid (leaf (ram m) T (vpn va)) = false)) \/
     (page_ok r /\ va < MAXVA /\ D' !! vpn va = Some r /\ uvalid (leaf (ram m') T' (vpn va)) = true /\
      faulted va m T D l m' T' D' l'))).
Proof.
  intros Has Hva Hpsz. unfold user_page. apply mwp_bind, (walkaddr_spec m root T D l); [done|done| |].
  - intros Hmax Hu. destruct (uvalid_owned _ _ _ _ _ _ Has Hu) as (p & Hp & Hpok & ->).
    rewrite (page_eqb0 p Hpok). apply mwp_ret. exists T, D, l. split; [done|right].
    split_and!; [done|done|done|done|]. apply grown_refl. intros x [-> HD]. congruence.
  - intros Hno. rewrite Z.eqb_refl. eapply mwp_mono; [by apply (vmfault_spec m root T D l)|].
    intros r m' (T' & D' & l' & Has' & [(-> & Hg & _)|(Hr & Hlt & HD & HD' & Hf)]);
      exists T', D', l'; (split; [done|]); [by left|right].
    split_and!; [done|rewrite TRAPFRAME_val, MAXVA_val in *; lia|done| |done].
    destruct (gw_new _ _ _ _ _ _ _ _ _ _ _ Hf (vpn va)) as (p & _ & -> & _); [done|]. apply uvalid_fault.
Qed.

(** Faulting pages in does not change what user code sees, and leaves entries
    usable that were. *)
Lemma faulted_view va m T D l m' T' D' l' root a :
  aspace m root T D l -> faulted va m T D l m' T' D' l' -> view m' D' a = view m D a.
Proof.
  intros Has Hf. eapply grown_view; [exact Has| | |exact Hf]; simpl; [|tauto].
  intros x. destruct (decide (x = vpn va)), (D !! x); (left; tauto) || (right; intros [? [=]]; tauto) || (right; tauto).
Qed.

Lemma unfaulted_view m T D l m' T' D' l' root a :
  aspace m root T D l -> unfaulted m T D l m' T' D' l' -> view m' D' a = view m D a.
Proof. intros Has Hf. eapply grown_view; [exact Has| | |exact Hf]; simpl; tauto. Qed.

(** ** Writing to a page of the process *)

Lemma view_write m root T D l va p off b a :
  aspace m root T D l -> va mod PGSIZE = 0 -> D !! vpn va = Some p -> 0 <= off ->
  off + Z.of_nat (length b) <= PGSIZE ->
  view (set_ram (wr (ram m) (p + off) b) m) D a = wr (view m D) (va + off) b a.
Proof.
  intros [Hasp _ _] Hva Hp Hoff Hlen. destruct (asp_leaf _ _ _ _ Hasp _ _ Hp) as (_ & _ & [Hpa _]).
  pose proof (off_range a) as Ha. assert (Hdm : a = vpn a * PGSIZE + a mod PGSIZE).
  { unfold vpn. pose proof (Z.div_mod a PGSIZE ltac:(by rewrite PGSIZE_val)). lia. }
  pose proof (aligned_eq va Hva) as Hv. unfold view at 1. cbn [ram set_ram].
  destruct (decide (va + off <= a < va + off + Z.of_nat (length b))) as [Hin|Hout].
  - assert (vpn a = vpn va) as E by (apply vpn_page; [done|lia]). rewrite E, Hp. rewrite E in Hdm.
    unfold wr. rewrite !put_in by lia. do 3 f_equal. lia.
  - rewrite (wr_out (view m D)) by done. unfold view. destruct (D !! vpn a) as [q|] eqn:Eq; [|done].
    apply wr_out. destruct (decide (q = p)) as [->|Hne].
    + pose proof (asp_inj _ _ _ _ Hasp _ _ _ Eq Hp) as E. rewrite E in Hdm. lia.
    + destruct (asp_leaf _ _ _ _ Hasp _ _ Eq) as (_ & _ & [Hqa _]).
      destruct (aligned_apart q p Hqa Hpa Hne); lia.
Qed.

Lemma aspace_write m root T D l n p off b :
  aspace m root T D l -> D !! n = Some p -> 0 <= off -> off + Z.of_nat (length b) <= PGSIZE ->
  let m' := set_ram (wr (ram m) (p + off) b) m in
  aspace m' root T D l /\ touches (eq p) (ram m) (ram m') /\
  forall x, leaf (ram m') T x = leaf (ram m) T x.
Proof.
  intros Has Hp Hoff Hlen m'. pose proof Has as [Hasp _ Hap].
  destruct (asp_leaf _ _ _ _ Hasp _ _ Hp) as (_ & _ & [Hpa _]). assert (Hd : data D p) by by eexists.
  assert (Ht : touches (eq p) (ram m) (ram m')) by (apply touches_put; [done|lia|lia]).
  assert (Htab : forall q, tab T q -> p <> q) by (intros q Hq ->; by apply (asp_apart _ _ _ _ Hasp q)).
  split_and!; [|done|intros x; by eapply leaf_touches, Htab; [apply Hasp|]].
  eapply aspace_touches; [done|done|]. intros q [Hq|Hq]; [by apply Htab|]. intros ->. by apply (Hap q); [right|].
Qed.

(** ** [copyout] *)

Definition writable (e : Z) : bool := (uvalid e && has e PTE_W)%bool.

(** A page that cannot be written after another was faulted in could not before. *)
Lemma faulted_writable va m T D l m' T' D' l' n :
  faulted va m T D l m' T' D' l' -> writable (leaf (ram m') T' n) = false -> writable (leaf (ram m) T n) = false.
Proof.
  intros [Ho Hn _ _ _] Hw. destruct (decide (n = vpn va)) as [->|Hne].
  - destruct (D !! vpn va) eqn:ED.
    + destruct (Ho (vpn va)) as [_ <-]; [|done]. rewrite ED. by intros [_ [=]].
    + destruct (Hn (vpn va)) as (p & _ & Hl & _); [done|]. rewrite Hl in Hw. unfold writable in Hw.
      destruct (uvalid_fault p) as [E1 E2]. by rewrite E1, E2 in Hw.
  - destruct (Ho n) as [_ <-]; [|done]. tauto.
Qed.

(** What running user-memory code can do to the memory. *)
Record ustep m T D l m' T' D' l' : Prop := mkustep {
  us_pages : same_pages T D l T' D' l';
  us_touch : touches (part T D l) (ram m) (ram m');
  us_valid : forall n, uvalid (leaf (ram m) T n) = true -> uvalid (leaf (ram m') T' n) = true;
  us_kpt : kernel_pagetable m' = kernel_pagetable m
}.

Lemma ustep_refl m T D l : ustep m T D l m T D l.
Proof. done. Qed.

Lemma ustep_trans m1 T1 D1 l1 m2 T2 D2 l2 m3 T3 D3 l3 :
  ustep m1 T1 D1 l1 m2 T2 D2 l2 -> ustep m2 T2 D2 l2 m3 T3 D3 l3 -> ustep m1 T1 D1 l1 m3 T3 D3 l3.
Proof.
  intros [Hs1 Ht1 Hv1 Hk1] [Hs2 Ht2 Hv2 Hk2]. split; [by eapply same_pages_trans| |auto|congruence].
  eapply touches_trans; [exact Ht1|exact Ht2|done|]. intros p. by rewrite (Hs1 p).
Qed.

Lemma grown_ustep (S : Z -> Prop) c m T D l m' T' D' l' : (forall x, S x \/ ~ S x) ->
  grown S (fun _ => fault_perm) c m T D l m' T' D' l' -> ustep m T D l m' T' D' l'.
Proof.
  intros HS [Ho Hn Hs Ht Hk]. split; [done| | |done].
  - eapply touches_mono; [exact Ht|]. unfold part. tauto.
  - intros n Hu. destruct (HS n) as [H|H]; [destruct (Hn n H) as (p & _ & -> & _); apply uvalid_fault|].
    by destruct (Ho n H) as [_ ->].
Qed.

Lemma faulted_ustep va m T D l m' T' D' l' : faulted va m T D l m' T' D' l' -> ustep m T D l m' T' D' l'.
Proof.
  apply grown_ustep. intros x. destruct (decide (x = vpn va /\ D !! x = None)); tauto.
Qed.

Lemma unfaulted_ustep m T D l m' T' D' l' : unfaulted m T D l m' T' D' l' -> ustep m T D l m' T' D' l'.
Proof. apply grown_ustep. tauto. Qed.

Lemma write_ustep m T D l n p off b : D !! n = Some p -> touches (eq p) (ram m) (wr (ram m) (p + off) b) ->
  (forall x, leaf (wr (ram m) (p + off) b) T x = leaf (ram m) T x) ->
  ustep m T D l (set_ram (wr (ram m) (p + off) b) m) T D l.
Proof.
  intros Hp Ht Hl. split; [done| |intros x; simpl; by rewrite Hl|done]. eapply touches_mono; [exact Ht|]. intros q <-. right. right. by eexists.
Qed.

Lemma faulted_uvalid va m T D l m' T' D' l' n :
  faulted va m T D l m' T' D' l' -> uvalid (leaf (ram m') T' n) = false -> uvalid (leaf (ram m) T n) = false.
Proof.
  intros [Ho Hn _ _ _] Hw. destruct (decide (n = vpn va)) as [->|Hne].
  - destruct (D !! vpn va) eqn:ED.
    + destruct (Ho (vpn va)) as [_ <-]; [|done]. rewrite ED. by intros [_ [=]].
    + destruct (Hn (vpn va)) as (p & _ & Hl & _); [done|]. rewrite Hl in Hw.
      destruct (uvalid_fault p) as [E1 _]. congruence.
  - destruct (Ho n) as [_ <-]; [|done]. tauto.
Qed.

(** One round of [copyout]: the bytes [b] go to [dstva], inside one page. *)
Lemma copyout_round m root T D l psz dstva b (K : MM Z) Q :
  let v0 := PGROUNDDOWN dstva in
  aspace m root T D l -> psz <= TRAPFRAME -> 0 <= v0 < MAXVA -> dstva - v0 + Z.of_nat (length b) <= PGSIZE ->
  (forall m' T' D' l', aspace m' root T' D' l' -> ustep m T D l m' T' D' l' ->
     (forall va, view m' D' va = view m D va) -> writable (leaf (ram m) T (vpn dstva)) = false -> Q (-1) m') ->
  (forall m' T' D' l', aspace m' root T' D' l' -> ustep m T D l m' T' D' l' ->
     (forall va, view m' D' va = wr (view m D) dstva b va) ->
     (forall n, writable (leaf (ram m') T' n) = false -> writable (leaf (ram m) T n) = false) ->
     uvalid (leaf (ram m') T' (vpn dstva)) = true -> mwp K m' Q) ->
  mwp (mm_bind (user_page root psz v0 0) (fun pa0 => if pa0 =? 0 then mm_ret (-1) else
       mm_bind (walk root v0 false) (fun pte => mm_bind (load64 pte) (fun e =>
       if negb (has e PTE_W) then mm_ret (-1) else
       mm_bind (mem_write (pa0 + (dstva - v0)) b) (fun _ => K))))) m Q.
Proof.
  intros v0 Has Hpsz Hv0 Hlen Hfail HK. pose proof (PGROUNDDOWN_range dstva) as Hr.
  pose proof (PGROUNDDOWN_aligned dstva) as Ha. fold v0 in Hr, Ha.
  assert (Hvp : vpn dstva = vpn v0) by (apply vpn_page; [done|lia]). rewrite Hvp in Hfail.
  apply mwp_bind. eapply mwp_mono; [apply (user_page_spec m root T D l psz v0 0); [done|lia|done]|].
  intros r m1 (T1 & D1 & l1 & Has1 & [(-> & Hg & Hu)|(Hpok & _ & HD1 & Hu & Hf)]).
  { rewrite Z.eqb_refl. apply mwp_ret, (Hfail m1 T1 D1 l1); [done|by eapply unfaulted_ustep|intros va; by eapply unfaulted_view|].
    destruct Hu as [?|Hu]; [lia|]. unfold writable. by rewrite Hu. }
  rewrite (page_eqb0 r Hpok). apply mwp_bind, (walk_find_leaf m1 root T1 D1 l1); [done|lia| |].
  { intros _ Hl. by rewrite Hl in Hu. }
  intros Hs. apply mwp_bind, (mwp_load_slot m1 root T1 l1); [by eapply as_own|done|].
  destruct (has (leaf (ram m1) T1 (vpn v0)) PTE_W) eqn:Ew; cbn [negb].
  2: { apply mwp_ret, (Hfail m1 T1 D1 l1); [done|by eapply faulted_ustep|intros va; by eapply faulted_view|].
    eapply faulted_writable; [exact Hf|]. unfold writable. by rewrite Ew, andb_false_r. }
  destruct (aspace_write m1 root T1 D1 l1 (vpn v0) r (dstva - v0) b Has1 HD1) as (Has2 & Ht2 & Hl2); [lia|lia|].
  apply mwp_bind, mwp_mem_write; [apply (page_in_ram r); [done|lia|lia]|].
  eapply HK; [exact Has2| | | |by rewrite Hvp, Hl2].
  - eapply ustep_trans; [by eapply faulted_ustep|]. by eapply write_ustep.
  - intros va. rewrite (view_write m1 root T1 D1 l1 v0) by (done || lia). replace (v0 + (dstva - v0)) with dstva by lia.
    apply wr_ext. by eapply faulted_view.
  - intros n. rewrite Hl2. by eapply faulted_writable.
Qed.

Lemma copyout_loop_spec fuel root psz : psz <= TRAPFRAME -> forall m T D l dstva src,
  aspace m root T D l -> 0 <= dstva -> (length src <= fuel)%nat ->
  mwp (copyout_loop fuel root psz dstva src) m (fun r m' => exists T' D' l' k,
    aspace m' root T' D' l' /\ ustep m T D l m' T' D' l' /\
    (forall va, view m' D' va = wr (view m D) dstva (take k src) va) /\
    ((r = 0 /\ k = length src /\ forall va, dstva <= va < dstva + Z.of_nat (length src) ->
        va < MAXVA /\ uvalid (leaf (ram m') T' (vpn va)) = true) \/
     (r = -1 /\ (k < length src)%nat /\ exists va, dstva <= va < dstva + Z.of_nat (length src) /\
        (MAXVA <= va \/ writable (leaf (ram m) T (vpn va)) = false)))).
Proof.
  intros Hpsz. induction fuel as [|fuel IH]; intros m T D l dstva src Has Hdst Hfuel; cbn [copyout_loop];
    (destruct (0 <? Z.of_nat (length src)) eqn:E; bool_to_prop;
     [|apply mwp_ret; exists T, D, l, 0%nat; split_and!; [done|apply ustep_refl|intros va; by rewrite wr_nil|left; split_and!; [lia|lia|intros va; lia]]]);
    [lia|].
  pose proof (PGROUNDDOWN_range dstva) as Hr. assert (Hv0 : 0 <= PGROUNDDOWN dstva).
  { rewrite PGROUNDDOWN_eq. apply Z.mul_nonneg_nonneg; [apply Z.div_pos|]; by rewrite ?PGSIZE_val. }
  destruct (MAXVA <=? PGROUNDDOWN dstva) eqn:Em; bool_to_prop.
  { apply mwp_ret. exists T, D, l, 0%nat. split_and!; [done|apply ustep_refl|intros va; by rewrite wr_nil|right].
    split_and!; [done|lia|]. exists dstva. lia. }
  set (v0 := PGROUNDDOWN dstva) in *. set (n := Z.min (PGSIZE - (dstva - v0)) (Z.of_nat (length src))).
  assert (Hb : Z.of_nat (length (take (Z.to_nat n) src)) = n) by (rewrite length_take; lia).
  apply (copyout_round m root T D l); [done|done|done|lia| |].
  { intros m' T' D' l' Has' Hus Hview Hbad. exists T', D', l', 0%nat. split_and!; [done|done|intros va; by rewrite wr_nil|right].
    split_and!; [done|lia|]. exists dstva. split; [lia|by right]. }
  intros m1 T1 D1 l1 Has1 Hus1 Hview1 Hw1 Hval1.
  assert (HM : MAXVA = 2 ^ 38) by done. rewrite u64_small by (rewrite PGSIZE_val in *; lia).
  eapply mwp_mono; [apply (IH m1 T1 D1 l1 (v0 + PGSIZE) (drop (Z.to_nat n) src) Has1); [rewrite PGSIZE_val; lia|]|].
  { rewrite length_drop. lia. }
  intros r' m' (T' & D' & l' & k & Has' & Hus' & Hview' & Hr'). rewrite length_drop in Hr'.
  exists T', D', l', (Z.to_nat n + k)%nat. split_and!; [done|by eapply ustep_trans| |].
  - intros va. rewrite Hview', <- take_take_drop, <- wr_app, Hb.
    destruct (decide (n = PGSIZE - (dstva - v0))) as [En|En].
    + replace (v0 + PGSIZE) with (dstva + n) by lia. by apply wr_ext.
    + rewrite drop_ge, take_nil, !wr_nil by lia. done.
  - destruct Hr' as [(-> & -> & Hok)|(-> & Hk & va & Hva & Hbad)]; [left|right].
    { split_and!; [done|lia|]. intros va Hva. destruct (decide (va < v0 + PGSIZE)) as [Hlt|Hge]; [|apply Hok; lia].
      rewrite TRAPFRAME_val in *. rewrite (vpn_page v0 va) by (apply PGROUNDDOWN_aligned || lia).
      rewrite (vpn_page v0 dstva) in Hval1 by (apply PGROUNDDOWN_aligned || lia).
      split; [|by apply (us_valid _ _ _ _ _ _ _ _ Hus')].
      destruct (aligned_apart v0 MAXVA (PGROUNDDOWN_aligned _) eq_refl); lia. }
    split_and!; [done|lia|]. exists va. assert (n = PGSIZE - (dstva - v0)) by lia. split; [lia|].
    destruct Hbad as [?|Hbad]; [by left|right]. auto.
Qed.

(** ** [copyin] *)

Lemma PGROUNDDOWN_nonneg a : 0 <= a -> 0 <= PGROUNDDOWN a.
Proof. intros H. rewrite PGROUNDDOWN_eq. apply Z.mul_nonneg_nonneg; [apply Z.div_pos|]; by rewrite ?PGSIZE_val. Qed.

(** The bytes of a page of the process. *)
Lemma view_page m D va p a : va mod PGSIZE = 0 -> D !! vpn va = Some p -> va <= a < va + PGSIZE ->
  view m D a = ram m (p + (a - va)).
Proof.
  intros Hva Hp Ha. unfold view. rewrite (vpn_page va a Hva Ha), Hp. do 2 f_equal.
  pose proof (aligned_eq va Hva) as E. rewrite E in Ha |- *. rewrite PGSIZE_val in *.
  symmetry. apply Z.mod_unique with (vpn va); lia.
Qed.

(** The address is not one user code can read. *)
Definition unreadable m T (va : Z) : Prop := MAXVA <= va \/ uvalid (leaf (ram m) T (vpn va)) = false.

(** One round of [copyin] and [copyinstr]: [pa0 + i] holds the byte the user sees. *)
Lemma copyin_round m root T D l psz srcva {A} (E : MM A) K Q :
  let v0 := PGROUNDDOWN srcva in
  aspace m root T D l -> psz <= TRAPFRAME -> 0 <= srcva ->
  (forall m' T' D' l', aspace m' root T' D' l' -> ustep m T D l m' T' D' l' ->
     (forall va, view m' D' va = view m D va) -> unreadable m T srcva -> mwp E m' Q) ->
  (forall m' T' D' l' pa0, aspace m' root T' D' l' -> ustep m T D l m' T' D' l' ->
     (forall va, view m' D' va = view m D va) -> page_ok pa0 -> v0 < MAXVA ->
     (forall a, v0 <= a < v0 + PGSIZE -> ram m' (pa0 + (a - v0)) = view m D a) ->
     (forall va, unreadable m' T' va -> unreadable m T va) -> mwp (K pa0) m' Q) ->
  mwp (mm_bind (user_page root psz v0 1) (fun pa0 => if pa0 =? 0 then E else K pa0)) m Q.
Proof.
  intros v0 Has Hpsz Hsrc HE HK. pose proof (PGROUNDDOWN_range srcva) as Hr.
  pose proof (PGROUNDDOWN_aligned srcva) as Ha. fold v0 in Hr, Ha.
  assert (Hvp : vpn srcva = vpn v0) by (apply vpn_page; [done|lia]).
  apply mwp_bind. eapply mwp_mono; [apply (user_page_spec m root T D l psz v0 1); [done| |done]|].
  { by apply PGROUNDDOWN_nonneg. }
  intros r m1 (T1 & D1 & l1 & Has1 & [(-> & Hg & Hu)|(Hpok & Hmax & HD1 & Hu & Hf)]).
  - rewrite Z.eqb_refl. eapply HE; [done|by eapply unfaulted_ustep|intros va; by eapply unfaulted_view|].
    unfold unreadable. rewrite Hvp. destruct Hu as [?|Hu]; [left; lia|by right].
  - rewrite (page_eqb0 r Hpok). eapply HK; [done|by eapply faulted_ustep|intros va; by eapply faulted_view|done|done| |].
    + intros a Ha'. rewrite <- (view_page m1 D1 v0 r a) by done. by eapply faulted_view.
    + intros va [?|Hva]; [by left|right]. by eapply faulted_uvalid.
Qed.

Lemma rd_view m m' D pa0 v0 srcva n : v0 <= srcva -> srcva + Z.of_nat n <= v0 + PGSIZE ->
  (forall a, v0 <= a < v0 + PGSIZE -> ram m' (pa0 + (a - v0)) = view m D a) ->
  rd n (ram m') (pa0 + (srcva - v0)) = rd n (view m D) srcva.
Proof.
  intros H1 H2 Hb. apply list_eq. intros i. destruct (decide (i < n)%nat) as [Hi|Hi].
  - rewrite !lookup_rd by done. rewrite <- Hb by lia. do 2 f_equal. lia.
  - by rewrite !lookup_ge_None_2 by (rewrite length_rd; lia).
Qed.

Lemma rd_view_eq n m D m' D' a : (forall va, view m' D' va = view m D va) ->
  rd n (view m' D') a = rd n (view m D) a.
Proof. intros H. by apply rd_ext. Qed.

Lemma copyin_loop_spec fuel root psz : psz <= TRAPFRAME -> forall m T D l srcva len dst,
  aspace m root T D l -> 0 <= srcva -> 0 <= len <= Z.of_nat fuel ->
  mwp (copyin_loop fuel root psz srcva len dst) m (fun r m' => exists T' D' l',
    aspace m' root T' D' l' /\ ustep m T D l m' T' D' l' /\ (forall va, view m' D' va = view m D va) /\
    (r = (0, dst ++ rd (Z.to_nat len) (view m D) srcva) \/
     (r.1 = -1 /\ (exists k, (Z.of_nat k < len) /\ r.2 = dst ++ rd k (view m D) srcva) /\ exists va, srcva <= va < srcva + len /\ unreadable m T va))).
Proof.
  intros Hpsz. induction fuel as [|fuel IH]; intros m T D l srcva len dst Has Hsrc Hlen; cbn [copyin_loop];
    (destruct (0 <? len) eqn:E; bool_to_prop;
     [|apply mwp_ret; exists T, D, l; replace len with 0 by lia; rewrite app_nil_r;
       split_and!; [done|apply ustep_refl|done|by left]]); [lia|].
  pose proof (PGROUNDDOWN_range srcva) as Hr. apply (copyin_round m root T D l); [done|done|done| |].
  { intros m' T' D' l' Has' Hus Hview Hbad. apply mwp_ret. exists T', D', l'. split_and!; [done|done|done|right].
    split; [done|]. split; [exists 0%nat; by rewrite app_nil_r|]. exists srcva. split; [lia|done]. }
  intros m1 T1 D1 l1 pa0 Has1 Hus1 Hview1 Hpok Hmax Hbytes Hun.
  set (v0 := PGROUNDDOWN srcva) in *. set (n := Z.min (PGSIZE - (srcva - v0)) len).
  assert (Hn : 0 < n <= len) by lia. apply mwp_bind, mwp_mem_read; [apply (page_in_ram pa0); [done|lia|lia]|].
  rewrite (rd_view m m1 D) by (done || lia).
  assert (HM : MAXVA = 2 ^ 38) by done. pose proof (PGROUNDDOWN_nonneg srcva Hsrc) as Hv0. fold v0 in Hv0.
  rewrite u64_small by (rewrite PGSIZE_val in *; lia).
  eapply mwp_mono; [apply (IH m1 T1 D1 l1 (v0 + PGSIZE) (len - n) _ Has1); [rewrite PGSIZE_val; lia|lia]|].
  intros r m' (T' & D' & l' & Has' & Hus' & Hview' & Hres). exists T', D', l'.
  split_and!; [done|by eapply ustep_trans|intros va; by rewrite Hview', Hview1|].
  destruct Hres as [->|(Hr1 & (k & Hk & ->) & va & Hva & Hbad)]; [left|right].
  - rewrite <- app_assoc, (rd_view_eq _ m D m1 D1) by done. do 2 f_equal.
    destruct (decide (n = PGSIZE - (srcva - v0))) as [En|En].
    + replace (v0 + PGSIZE) with (srcva + Z.of_nat (Z.to_nat n)) by lia. rewrite <- rd_app. f_equal. lia.
    + replace (len - n) with 0 by lia. rewrite app_nil_r. f_equal. lia.
  - split; [done|]. split; [|exists va; split; [lia|auto]].
    exists (Z.to_nat n + k)%nat. split; [lia|]. rewrite <- app_assoc, (rd_view_eq _ m D m1 D1), rd_app by done. do 3 f_equal. lia.
Qed.

(** ** [copyinstr] *)

Lemma cstr_app_in b1 b2 : 0 ∈ b1 -> cstr (b1 ++ b2) = cstr b1.
Proof.
  induction b1 as [|c b1 IH]; intros H; [by apply not_elem_of_nil in H|]. simpl.
  destruct (c =? 0) eqn:E; [done|]. bool_to_prop. f_equal. apply IH. by apply elem_of_cons in H as [<-|H].
Qed.

Lemma cstr_app_out b1 b2 : 0 ∉ b1 -> cstr (b1 ++ b2) = b1 ++ cstr b2.
Proof.
  induction b1 as [|c b1 IH]; intros H; [done|]. apply not_elem_of_cons in H as [H1 H2]. simpl.
  rewrite (proj2 (Z.eqb_neq c 0)) by auto. f_equal. auto.
Qed.

Lemma copyinstr_page_spec n m p dst :
  in_ram p (Z.of_nat n) = true ->
  mwp (copyinstr_page n p dst) m (fun r m' => m' = m /\
    let b := rd n (ram m) p in
    ((0 ∈ b /\ r = (dst ++ cstr b ++ [0], true)) \/ (0 ∉ b /\ r = (dst ++ b, false)))).
Proof.
  revert p dst. induction n as [|n IH]; intros p dst Hram; cbn [copyinstr_page rd].
  - apply mwp_ret. split; [done|right]. rewrite app_nil_r. split; [apply not_elem_of_nil|done].
  - unfold in_ram in Hram. bool_to_prop. apply mwp_bind, mwp_load8; [apply andb_true_iff; split; apply Z.leb_le; lia|].
    destruct (ram m p =? 0) eqn:E; cbn [cstr]; rewrite ?E.
    + bool_to_prop. apply mwp_ret. split; [done|left]. split; [rewrite E; set_solver|done].
    + eapply mwp_mono; [apply IH; apply andb_true_iff; split; apply Z.leb_le; lia|].
      intros r m' [-> Hr]. split; [done|]. cbn zeta in *. cbn [cstr]. rewrite ?E. bool_to_prop. rewrite !elem_of_cons.
      destruct Hr as [[Hz ->]|[Hz ->]]; [left|right].
      * split; [by right|]. by rewrite <- app_assoc.
      * split; [intros [?|?]; congruence|]. by rewrite <- app_assoc.
Qed.

Lemma copyinstr_loop_spec fuel root psz : psz <= TRAPFRAME -> forall m T D l srcva max dst,
  aspace m root T D l -> 0 <= srcva -> 0 <= max <= Z.of_nat fuel ->
  mwp (copyinstr_loop fuel root psz srcva max dst) m (fun r m' => exists T' D' l',
    aspace m' root T' D' l' /\ ustep m T D l m' T' D' l' /\ (forall va, view m' D' va = view m D va) /\
    let b := rd (Z.to_nat max) (view m D) srcva in
    ((r = Some (dst ++ cstr b ++ [0]) /\ 0 ∈ b) \/
     (r = None /\ (0 ∉ b \/ exists va, srcva <= va < srcva + max /\ unreadable m T va)))).
Proof.
  intros Hpsz. induction fuel as [|fuel IH]; intros m T D l srcva max dst Has Hsrc Hmax; cbn [copyinstr_loop];
    (destruct (0 <? max) eqn:E; bool_to_prop;
     [|apply mwp_ret; exists T, D, l; replace max with 0 by lia;
       split_and!; [done|apply ustep_refl|done|right; split; [done|left; apply not_elem_of_nil]]]); [lia|].
  pose proof (PGROUNDDOWN_range srcva) as Hr. apply (copyin_round m root T D l); [done|done|done| |].
  { intros m' T' D' l' Has' Hus Hview Hbad. apply mwp_ret. exists T', D', l'. split_and!; [done|done|done|right].
    split; [done|]. right. exists srcva. split; [lia|done]. }
  intros m1 T1 D1 l1 pa0 Has1 Hus1 Hview1 Hpok Hv0m Hbytes Hun.
  set (v0 := PGROUNDDOWN srcva) in *. set (n := Z.min (PGSIZE - (srcva - v0)) max).
  assert (Hn : 0 < n <= max) by lia. apply mwp_bind.
  eapply mwp_mono; [apply copyinstr_page_spec; apply (page_in_ram pa0); [done|lia|lia]|].
  intros r m2 [-> Hpage]. rewrite (rd_view m m1 D) in Hpage by (done || lia).
  assert (Hb : rd (Z.to_nat max) (view m D) srcva =
    rd (Z.to_nat n) (view m D) srcva ++ rd (Z.to_nat (max - n)) (view m D) (srcva + n)).
  { replace (Z.to_nat max) with (Z.to_nat n + Z.to_nat (max - n))%nat by lia. rewrite rd_app. do 2 f_equal. lia. }
  rewrite Hb. destruct Hpage as [[H0 ->]|[H0 ->]]; cbn [fst snd].
  { apply mwp_ret. exists T1, D1, l1. split_and!; [done|done|done|left]. rewrite cstr_app_in by done. set_solver. }
  assert (HM : MAXVA = 2 ^ 38) by done. pose proof (PGROUNDDOWN_nonneg srcva Hsrc) as Hv0. fold v0 in Hv0.
  rewrite u64_small by (rewrite PGSIZE_val in *; lia).
  eapply mwp_mono; [apply (IH m1 T1 D1 l1 (v0 + PGSIZE) (max - n) _ Has1); [rewrite PGSIZE_val; lia|lia]|].
  intros r m' (T' & D' & l' & Has' & Hus' & Hview' & Hres). exists T', D', l'.
  split_and!; [done|by eapply ustep_trans|intros va; by rewrite Hview', Hview1|].
  assert (Hrest : rd (Z.to_nat (max - n)) (view m1 D1) (v0 + PGSIZE) = rd (Z.to_nat (max - n)) (view m D) (srcva + n)).
  { rewrite (rd_view_eq _ m D m1 D1) by done. destruct (decide (max = n)) as [En|]; [|f_equal; lia].
    by replace (max - n) with 0 by lia. }
  cbn zeta in *. rewrite Hrest in Hres. rewrite cstr_app_out, elem_of_app by done.
  destruct Hres as [[-> Hin]|[-> Hno]]; [left|right].
  - split; [by rewrite <- !app_assoc|by right].
  - split; [done|]. destruct Hno as [Hno|(va & Hva & Hbad)]; [left; tauto|right].
    exists va. split; [lia|auto].
Qed.

End Copy.
