(* ===== verification/VmFork.v ===== *)
(** * [uvmcopy]: copying an address space for [kfork]

    [old] and [new] are two page tables in the same memory.  [uvmcopy] gives
    [new] a page of its own, with the same contents and flags, for every page of
    [old] below [sz]; when memory runs out it takes all of them away again. *)

From stdpp Require Import base list gmap strings.
From Stdlib Require Import ZArith Lia.
From S2P Require Import Prelude KernelBase PhysMem Kalloc Vm VmFacts VmMaps VmUser VmCopy.

Open Scope Z_scope.

Section Fork.

Context {lay : layout}.
Variables (old new sz : Z) (m0 : pmem) (T1 T0 : gmap (nat * Z) Z) (D1 D0 : gmap Z Z) (l0 : list Z).
Hypotheses (Hold : asp (ram m0) old T1 D1) (Hnew : aspace m0 new T0 D0 l0)
  (Hsep : forall p, tab T1 p \/ data D1 p -> ~ part T0 D0 l0 p)
  (Hempty : forall x, 0 <= x < pgs sz -> D0 !! x = None) (Hsz : 0 <= sz <= TRAPFRAME).
Implicit Types (T : gmap (nat * Z) Z) (D : gmap Z Z) (l : list Z) (m : pmem).

(** The flags and the contents of a page of the parent. *)
Definition parent_flags (x : Z) : Z := PTE_FLAGS (leaf (ram m0) T1 x).

Definition parent_bytes (x i : Z) : Z := ram m0 (default 0 (D1 !! x) + i).

(** The first [n] pages have been copied. *)
Definition copied (n : Z) m T D l : Prop :=
  grown (fun x => 0 <= x < n /\ is_Some (D1 !! x)) parent_flags parent_bytes m0 T0 D0 l0 m T D l.

(** The parent is as it was. *)
Lemma copied_old (S : Z -> Prop) m T D l : grown S parent_flags parent_bytes m0 T0 D0 l0 m T D l ->
  asp (ram m) old T1 D1 /\ (forall x, leaf (ram m) T1 x = leaf (ram m0) T1 x) /\
  (forall p i, data D1 p -> 0 <= i < PGSIZE -> ram m (p + i) = ram m0 (p + i)).
Proof.
  intros Hg. pose proof (gw_touch _ _ _ _ _ _ _ _ _ _ _ Hg) as Ht.
  assert (Htab : forall p, tab T1 p -> ~ (p ∈ l0 \/ tab T0 p)).
  { intros p Hp H. apply (Hsep p); [by left|]. unfold part. tauto. }
  split_and!; [by eapply asp_touches|intros x; eapply leaf_touches; [apply Hold|exact Ht|exact Htab]|].
  intros p i Hp Hi. pose proof Hp as [n Hn]. destruct (asp_leaf _ _ _ _ Hold _ _ Hn) as (_ & _ & [Hpa _]).
  eapply touches_page; [exact Ht|exact Hpa| |lia]. intros H. apply (Hsep p); [by right|]. unfold part. tauto.
Qed.

Lemma copied_parent (S : Z -> Prop) m T D l : grown S parent_flags parent_bytes m0 T0 D0 l0 m T D l ->
  asp (ram m) old T1 D1 /\ (forall va, view m D1 va = view m0 D1 va).
Proof.
  intros Hg. destruct (copied_old S m T D l Hg) as (Ha & _ & Hb). split; [done|].
  intros va. unfold view. destruct (D1 !! vpn va) eqn:E; [|done]. apply Hb; [by eexists|apply off_range].
Qed.

(** Parent and child see the same bytes. *)
Lemma copied_child m T D l va : copied (pgs sz) m T D l -> 0 <= va < sz -> view m D va = view m0 D1 va.
Proof.
  intros Hg Hva. pose proof (pgs_spec sz Hsz) as [Hp _]. assert (Hx : 0 <= vpn va < pgs sz).
  { unfold vpn. split; [apply Z.div_pos; [lia|by rewrite PGSIZE_val]|].
    apply Z.div_lt_upper_bound; rewrite PGSIZE_val in *; lia. }
  unfold view. destruct (D1 !! vpn va) as [q|] eqn:E.
  - destruct (gw_new _ _ _ _ _ _ _ _ _ _ _ Hg (vpn va)) as (p & -> & _ & Hc); [split; [done|by eexists]|].
    rewrite (Hc _ (off_range va)). unfold parent_bytes. by rewrite E.
  - destruct (gw_old _ _ _ _ _ _ _ _ _ _ _ Hg (vpn va)) as [-> _]; [rewrite E; intros [_ [? ?]]; done|].
    by rewrite Hempty.
Qed.

Lemma PTE_FLAGS_range e : 0 <= PTE_FLAGS e < 1024.
Proof. unfold PTE_FLAGS. change 1023 with (Z.ones 10). rewrite Z.land_ones by lia. apply Z.mod_pos_bound. lia. Qed.

(** [memmove(mem, pa, PGSIZE)] from a page of the parent. *)
Lemma fills_copy m T D l n x p : copied n m T D l -> aspace m new T D l -> D1 !! x = Some p ->
  fills m new T D l (fun g => mem_move g p PGSIZE) (parent_bytes x).
Proof.
  intros Hc Has Hp g m1 l1 Q Hg Has1 [Hgok Hfr] Ht HQ.
  destruct (copied_old _ m T D l Hc) as (Hasp & _ & Hbytes).
  destruct (asp_leaf _ _ _ _ Hold _ _ Hp) as (_ & _ & Hpok).
  assert (Hdp : data D1 p) by by eexists.
  assert (Hne : p <> g).
  { intros ->. apply (Hsep g); [by right|]. apply (gw_pages _ _ _ _ _ _ _ _ _ _ _ Hc). by left. }
  apply mwp_mem_move; [apply (page_in_ram g); [done|lia|lia]|apply (page_in_ram p); [done|lia|lia]|].
  assert (Ht2 : touches (eq g) (ram m1) (put (ram m1) g PGSIZE (fun i => ram m1 (p + i))))
    by (apply touches_put; [apply Hgok|lia|lia]).
  apply HQ; [|done| |done].
  - eapply aspace_touches; [done|exact Ht2|]. intros q Hq <-. unfold part in Hfr. tauto.
  - intros i Hi. cbn [ram set_ram]. rewrite put_in by lia. replace (g + i - g) with i by lia.
    unfold parent_bytes. rewrite Hp. cbn [default from_option id].
    rewrite <- (Hbytes p i Hdp Hi). eapply touches_page; [exact Ht|apply Hpok|congruence|lia].
Qed.

(** The [err] exit after [i] bytes. *)
Lemma uvmcopy_err m T D l i : aspace m new T D l -> i mod PGSIZE = 0 -> 0 <= i <= TRAPFRAME -> vpn i <= pgs sz ->
  copied (vpn i) m T D l ->
  mwp (mm_bind (uvmunmap new 0 (i / PGSIZE) true) (fun _ => mm_ret (-1))) m (fun r m' => r = -1 /\ exists T' D' l',
    aspace m' new T' D' l' /\ grown (fun _ => False) parent_flags parent_bytes m0 T0 D0 l0 m' T' D' l').
Proof.
  intros Has Hi Hr Hle Hc. apply mwp_bind. fold (vpn i). pose proof (aligned_eq i Hi) as Ei.
  assert (Hv : 0 <= vpn i <= vpn TRAPFRAME).
  { unfold vpn. split; [apply Z.div_pos; [lia|by rewrite PGSIZE_val]|]. apply Z.div_le_mono; [by rewrite PGSIZE_val|lia]. }
  eapply mwp_mono; [apply (uvmunmap_spec m new T D l 0 (vpn i) Has); [done|lia|lia| |]|].
  - rewrite <- Ei. rewrite TRAPFRAME_val in Hr. rewrite MAXVA_val. lia.
  - apply (asp_all_owned _ new); [apply Has|]. change (vpn 0) with 0. lia.
  - intros [] m' (D' & l' & Has' & Hu). apply mwp_ret. split; [done|]. exists T, D', l'. split; [done|].
    eapply (grown_undo _ _ _ 0 (vpn i) new m0 T0 D0 l0 m T D l); [done|done| | | |exact Hc|exact Hu].
    + simpl. lia.
    + intros x Hx. apply Hempty. lia.
    + lia.
Qed.

Lemma copied_skip n m T D l : D1 !! n = None -> 0 <= n -> copied n m T D l -> copied (n + 1) m T D l.
Proof.
  intros Hn Hpos. apply grown_iff. intros x. split; intros [Hx [p Hp]]; (split; [|by exists p]); [lia|].
  destruct (decide (x = n)) as [->|]; [congruence|lia].
Qed.

Lemma copied_step n m T D l m' T' D' l' : aspace m new T D l -> 0 <= n < pgs sz -> is_Some (D1 !! n) ->
  copied n m T D l ->
  grown (fun x => x = n) parent_flags parent_bytes m T D l m' T' D' l' -> copied (n + 1) m' T' D' l'.
Proof.
  intros Has Hn Hs Hc Hg. unfold copied in *.
  eapply grown_iff; [|eapply (grown_trans _ _ _ _ new); [exact Has| |exact Hc|exact Hg]]; simpl.
  - intros x. split; [intros [[? ?]| ->]; split; try done; lia|].
    intros [? ?]. destruct (decide (x = n)); [by right|left; split; [lia|done]].
  - intros x [Hx _]. split; [apply Hempty; lia|lia].
Qed.

(** What [uvmcopy] has done when it returns [r]. *)
Definition uvmcopy_post (r : Z) (m' : pmem) : Prop := exists T' D' l', aspace m' new T' D' l' /\
  ((r = 0 /\ copied (pgs sz) m' T' D' l') \/
   (r = -1 /\ grown (fun _ => False) parent_flags parent_bytes m0 T0 D0 l0 m' T' D' l' /\
    Z.of_nat (length l0) < 3 * pgs sz)).

(** The round of page [i] that copies a page. *)
Lemma uvmcopy_round m T D l i p (K : MM Z) :
  aspace m new T D l -> i mod PGSIZE = 0 -> 0 <= i < TRAPFRAME -> vpn i < pgs sz ->
  copied (vpn i) m T D l -> Z.of_nat (length l0) <= Z.of_nat (length l) + 3 * vpn i ->
  D1 !! vpn i = Some p ->
  (forall m' T' D' l', aspace m' new T' D' l' -> copied (vpn i + 1) m' T' D' l' ->
     Z.of_nat (length l0) <= Z.of_nat (length l') + 3 * (vpn i + 1) -> mwp K m' uvmcopy_post) ->
  let err := mm_bind (uvmunmap new 0 (i / PGSIZE) true) (fun _ => mm_ret (-1)) in
  mwp (mm_bind kalloc_mem (fun mem => if mem =? 0 then err else
       mm_bind (mem_move mem p PGSIZE) (fun _ => mm_bind (mappages new i PGSIZE mem (parent_flags (vpn i))) (fun r =>
       if negb (r =? 0) then mm_bind (kfree_mem mem) (fun _ => err) else K)))) m uvmcopy_post.
Proof.
  intros Has Hi Hr Hlt Hc Hlen Hp HK err.
  assert (HDn : D !! vpn i = None).
  { destruct (gw_old _ _ _ _ _ _ _ _ _ _ _ Hc (vpn i)) as [-> _]; [lia|]. apply Hempty.
    destruct (vpn_low i Hi Hr). lia. }
  apply (mwp_new_page m new T D l i (fun g => mem_move g p PGSIZE) parent_flags parent_bytes);
    [done|done|lia|done|apply PTE_FLAGS_range|by eapply fills_copy| |].
  - intros m' T' l' Has' Hl3 Hg. eapply mwp_mono; [apply (uvmcopy_err m' T' D l' i); [done|done|lia|lia|]|].
    + eapply grown_iff; [|eapply (grown_trans _ _ _ _ new); [exact Has| |exact Hc|exact Hg]]; simpl; [tauto|].
      intros x [Hx _]. split; [apply Hempty; lia|tauto].
    + intros r m1 (-> & T2 & D2 & l2 & Has2 & Hg2). exists T2, D2, l2. split; [done|right]. split_and!; [done|done|lia].
  - intros m' T' l' g Has' Hl3 _ Hg. apply (HK m' T' _ l' Has'); [|lia].
    eapply copied_step; [exact Has| |by eexists|exact Hc|exact Hg]. destruct (vpn_low i Hi Hr). lia.
Qed.

Lemma uvmcopy_loop_spec fuel m T D l i :
  aspace m new T D l -> i mod PGSIZE = 0 -> 0 <= i < sz + PGSIZE -> sz - i <= Z.of_nat fuel * PGSIZE ->
  copied (vpn i) m T D l -> Z.of_nat (length l0) <= Z.of_nat (length l) + 3 * vpn i ->
  mwp (uvmcopy_loop fuel old new i sz) m uvmcopy_post.
Proof.
  revert m T D l i. induction fuel as [|fuel IH]; intros m T D l i Has Hi Hr Hfuel Hc Hlen; cbn [uvmcopy_loop];
    pose proof (pgs_spec sz Hsz) as [Hp1 Hp2]; pose proof (aligned_eq i Hi) as Ei;
    (destruct (i <? sz) eqn:E; bool_to_prop; [|apply mwp_ret; exists T, D, l; split; [done|left; split; [done|];
       replace (pgs sz) with (vpn i) by (rewrite PGSIZE_val in *; lia); done]]); [lia|].
  pose proof (vpn_low i Hi ltac:(lia)) as [Hvi Hi'].
  assert (Hlt : vpn i < pgs sz) by (rewrite PGSIZE_val in *; lia).
  destruct (copied_old _ m T D l Hc) as (Hasp & Hleaf & _).
  rewrite u64_small by (rewrite TRAPFRAME_val, PGSIZE_val in *; lia).
  assert (Hnext : forall m' T' D' l', aspace m' new T' D' l' -> copied (vpn i + 1) m' T' D' l' ->
    Z.of_nat (length l0) <= Z.of_nat (length l') + 3 * (vpn i + 1) ->
    mwp (uvmcopy_loop fuel old new (i + PGSIZE) sz) m' uvmcopy_post).
  { intros m' T' D' l' Has' Hc' Hlen'. apply (IH m' T' D' l'); rewrite ?vpn_step; try done; rewrite PGSIZE_val in *; try lia.
    rewrite <- Z.add_mod_idemp_r by lia. by rewrite Z.add_0_r. }
  assert (Hskip : has (leaf (ram m) T1 (vpn i)) PTE_V = false ->
    mwp (uvmcopy_loop fuel old new (i + PGSIZE) sz) m uvmcopy_post).
  { intros Hv. apply (Hnext m T D l Has); [apply copied_skip; [|lia|done]|lia].
    destruct (D1 !! vpn i) eqn:ED; [|done]. apply (asp_leaf _ _ _ _ Hasp) in ED as [ED _]. congruence. }
  apply mwp_bind, (walk_find_pt m old T1 i); [apply Hasp|rewrite TRAPFRAME_val, MAXVA_val in *; lia| |].
  { intros _ Hl. apply Hskip. by rewrite Hl. }
  intros Hs. rewrite (proj2 (Z.eqb_neq _ _) Hs). apply mwp_bind, (mwp_load_pt m old T1); [apply Hasp|done|].
  destruct (has (leaf (ram m) T1 (vpn i)) PTE_V) eqn:Ev; cbn [negb]; [|by apply Hskip].
  destruct (asp_low _ _ _ _ Hasp (vpn i) ltac:(lia) Ev) as [p Hp].
  destruct (asp_leaf _ _ _ _ Hasp _ _ Hp) as (_ & -> & Hpok). rewrite Hleaf. fold (parent_flags (vpn i)).
  apply (uvmcopy_round m T D l i p); [done|done|lia|done|done|done|done|exact Hnext].
Qed.

End Fork.
