(* ===== verification/VmFree.v ===== *)
(** * [freewalk] and [uvmfree]: giving an address space back

    Freeing the tables of an address space whose pages are unmapped returns
    every one of them to the free list, once, and needs three levels of
    recursion. *)

From stdpp Require Import base list gmap strings.
From Stdlib Require Import ZArith Lia.
From S2P Require Import Prelude KernelBase PhysMem Kalloc Vm VmFacts VmMaps VmUser.

Open Scope Z_scope.

Section Free.

Context {lay : layout}.
Variable (T : gmap (nat * Z) Z).
Hypotheses (Hpage : forall k p, T !! k = Some p -> page_ok p)
  (Hinj : forall k1 k2 p, T !! k1 = Some p -> T !! k2 = Some p -> k1 = k2)
  (Hparent : forall lev i p, T !! (lev, i) = Some p ->
    (lev, i) = (2%nat, 0) \/ ((lev < 2)%nat /\ is_Some (T !! (S lev, i / 512)))).

(** The table [(lev', k')] hangs below [(lev, k)] or is it. *)
Definition under (lev : nat) (k : Z) (lev' : nat) (k' : Z) : Prop :=
  (lev' <= lev)%nat /\ k' / 512 ^ Z.of_nat (lev - lev') = k.

Definition below (lev : nat) (k : Z) (q : Z) : Prop :=
  exists lev' k', T !! (lev', k') = Some q /\ under lev k lev' k'.

(** The entry [i] of the table [(lev, k)] when no page is mapped. *)
Definition entry (lev : nat) (k i : Z) : Z :=
  match lev with
  | O => 0
  | S lev' => match T !! (lev', k * 512 + i) with Some q => Z.lor (PA2PTE q) PTE_V | None => 0 end
  end.

Definition table_ok (r : bytes) (lev : nat) (k q : Z) : Prop :=
  forall i, 0 <= i < 512 -> ld64 r (q + 8 * i) = entry lev k i.

Definition intact (r : bytes) (lev : nat) (k : Z) : Prop :=
  forall lev' k' q, T !! (lev', k') = Some q -> under lev k lev' k' -> table_ok r lev' k' q.

Lemma under_S lev k lev' k' :
  under (S lev) k lev' k' <->
  (lev' = S lev /\ k' = k) \/ exists i, 0 <= i < 512 /\ under lev (k * 512 + i) lev' k'.
Proof.
  unfold under. split.
  - intros [Hl Hk]. destruct (decide (lev' = S lev)) as [->|Hne].
    + left. rewrite Nat.sub_diag in Hk. by rewrite Z.div_1_r in Hk.
    + right. exists (k' / 512 ^ Z.of_nat (lev - lev') mod 512).
      split; [apply Z.mod_pos_bound; lia|split; [lia|]].
      replace (S lev - lev')%nat with (S (lev - lev')) in Hk by lia.
      rewrite Nat2Z.inj_succ, Z.pow_succ_r, Z.mul_comm, <- Z.div_div in Hk by lia.
      rewrite <- Hk. rewrite Z.mul_comm. apply Z.div_mod. lia.
  - intros [[-> ->]|(i & Hi & Hl & Hk)].
    + split; [lia|]. rewrite Nat.sub_diag. apply Z.div_1_r.
    + split; [lia|]. replace (S lev - lev')%nat with (S (lev - lev')) by lia.
      rewrite Nat2Z.inj_succ, Z.pow_succ_r, Z.mul_comm, <- Z.div_div, Hk by lia.
      rewrite Z.div_add_l, Z.div_small by lia. lia.
Qed.

Lemma below_S lev k p q : T !! (S lev, k) = Some p ->
  below (S lev) k q <-> q = p \/ exists i, 0 <= i < 512 /\ below lev (k * 512 + i) q.
Proof.
  intros Hp. split.
  - intros (lev' & k' & Hq & [[-> ->]|(i & Hi & Hu)]%under_S); [left; congruence|right].
    exists i. split; [done|]. by exists lev', k'.
  - intros [->|(i & Hi & lev' & k' & Hq & Hu)].
    + exists (S lev), k. split; [done|]. apply under_S. by left.
    + exists lev', k'. split; [done|]. apply under_S. right. by exists i.
Qed.

Lemma below_unique lev a b q : below lev a q -> below lev b q -> a = b.
Proof.
  intros (l1 & k1 & H1 & _ & <-) (l2 & k2 & H2 & _ & <-).
  by pose proof (Hinj _ _ _ H1 H2) as [= -> ->].
Qed.

Lemma not_below lev k a p : T !! (S lev, k) = Some p -> ~ below lev a p.
Proof. intros Hp (l1 & k1 & H1 & Hl & _). pose proof (Hinj _ _ _ H1 Hp) as [= -> ->]. lia. Qed.

Lemma below_ok lev k q : below lev k q -> page_ok q.
Proof. intros (l1 & k1 & H1 & _). eauto. Qed.

(** Below a table that is not there is nothing. *)
Lemma below_none lev k q : (lev <= 2)%nat -> T !! (lev, k) = None -> ~ below lev k q.
Proof.
  intros Hlev Hn (l1 & k1 & H1 & Hl & Hk).
  assert (Hup : forall d, (l1 + d <= 2)%nat -> is_Some (T !! ((l1 + d)%nat, k1 / 512 ^ Z.of_nat d))).
  { induction d as [|d IH]; intros Hd.
    - rewrite Nat.add_0_r, Z.div_1_r. by exists q.
    - destruct (IH ltac:(lia)) as [x Hx]. destruct (Hparent _ _ _ Hx) as [[= ? ?]|[_ Hs]]; [lia|].
      rewrite Nat2Z.inj_succ, Z.pow_succ_r, Z.mul_comm, <- Z.div_div by lia.
      by replace (l1 + S d)%nat with (S (l1 + d)) by lia. }
  destruct (Hup (lev - l1)%nat) as [x Hx]; [lia|]. rewrite Hk in Hx.
  replace (l1 + (lev - l1))%nat with lev in Hx by lia. congruence.
Qed.

Lemma intact_touches P r r' lev k : intact r lev k -> touches P r r' ->
  (forall q, below lev k q -> ~ P q) -> intact r' lev k.
Proof.
  intros Hin Ht HP lev' k' q Hq Hu i Hi. rewrite <- (Hin lev' k' q Hq Hu i Hi).
  apply (touches_slot P); [done|eauto|apply HP; by exists lev', k'|done].
Qed.

(** ** The loop over the entries *)

(** The subtrees of the entries from [j] on. *)
Definition kids (lev : nat) (k j q : Z) : Prop := exists i, j <= i < 512 /\ below lev (k * 512 + i) q.

(** What freeing the pages in [P] does. *)
Definition frees (P : Z -> Prop) (m : pmem) (l : list Z) (m' : pmem) (l' : list Z) : Prop :=
  free_pages m' l' /\ (forall q, q ∈ l' <-> q ∈ l \/ P q) /\ kernel_pagetable m' = kernel_pagetable m.

Lemma pointer_entry q : page_ok q ->
  has (Z.lor (PA2PTE q) PTE_V) PTE_V = true /\
  Z.land (Z.lor (PA2PTE q) PTE_V) (Z.lor (Z.lor PTE_R PTE_W) PTE_X) = 0 /\
  PTE2PA (Z.lor (PA2PTE q) PTE_V) = q.
Proof.
  intros Hq. split_and!; [apply has_lor_V| |by apply PTE2PA_tab].
  change (Z.lor (Z.lor PTE_R PTE_W) PTE_X) with 14. rewrite Z.land_lor_distr_l. unfold PA2PTE.
  by rewrite land_shiftl_small by lia.
Qed.

Lemma kids_step lev k j q : j < 512 ->
  kids lev k j q <-> below lev (k * 512 + j) q \/ kids lev k (j + 1) q.
Proof.
  intros Hj. split.
  - intros (i & Hi & Hb). destruct (decide (i = j)) as [->|]; [by left|right]. exists i. split; [lia|done].
  - intros [Hb|(i & Hi & Hb)]; [exists j|exists i]; (split; [lia|done]).
Qed.

(** [rec] frees a subtree. *)
Definition frees_subtree (lev : nat) (rec : Z -> MM unit) : Prop :=
  forall m l k c, T !! (lev, k) = Some c -> intact (ram m) lev k -> free_pages m l ->
    (forall q, below lev k q -> q ∉ l) ->
    mwp (rec c) m (fun _ m' => exists l', frees (below lev k) m l m' l' /\
      touches (below lev k) (ram m) (ram m')).

(** The entries of the table [(S lev, k)] at [p] from [j] on are as they were. *)
Definition rest_ok (r : bytes) (lev : nat) (k p j : Z) : Prop :=
  forall i, j <= i < 512 -> intact r lev (k * 512 + i) /\ ld64 r (p + 8 * i) = entry (S lev) k i.

(** An entry that points to a table: free the subtree, clear the entry. *)
Lemma free_child lev k p rec j m l c : T !! (S lev, k) = Some p -> frees_subtree lev rec ->
  0 <= j < 512 -> T !! (lev, k * 512 + j) = Some c -> free_pages m l -> rest_ok (ram m) lev k p j ->
  (forall q, below lev (k * 512 + j) q -> q ∉ l) -> p ∉ l ->
  mwp (mm_bind (rec c) (fun _ => store64 (p + 8 * j) 0)) m (fun _ m' => exists l',
    frees (below lev (k * 512 + j)) m l m' l' /\ rest_ok (ram m') lev k p (j + 1) /\ p ∉ l' /\
    touches (fun q => q = p \/ below lev (k * 512 + j) q) (ram m) (ram m')).
Proof.
  intros Hp Hrec Hj Hc Hf Hok Hap Hpl. assert (Hpok : page_ok p) by eauto. apply mwp_bind.
  eapply mwp_mono; [apply (Hrec m l (k * 512 + j) c); [done|apply Hok; lia|done|done]|].
  intros [] m1 (l1 & (Hf1 & Hl1 & Hk1) & Ht1).
  apply mwp_store64; [apply slot_in_ram; [done|lia]|]. set (m2 := set_ram _ m1).
  assert (Hpl1 : p ∉ l1) by (rewrite Hl1; intros [?|Hb]; [done|by eapply not_below]).
  assert (Ht2 : touches (eq p) (ram m1) (ram m2)) by (apply touches_st64; [done|lia]).
  exists l1. split_and!; [split_and!; [|done|done]| |done|].
  - eapply free_pages_touches; [exact Hf1|exact Ht2|]. by intros q Hq <-.
  - intros i Hi. destruct (Hok i ltac:(lia)) as [Hin Hent]. split.
    + eapply (intact_touches (eq p)); [|exact Ht2|intros q Hq <-; by eapply not_below].
      eapply (intact_touches (below lev (k * 512 + j))); [done|exact Ht1|].
      intros q Hq Hq'. pose proof (below_unique _ _ _ _ Hq Hq'). lia.
    + unfold m2. cbn [ram set_ram]. rewrite ld64_st64_ne by lia.
      rewrite (touches_slot (below lev (k * 512 + j)) (ram m) (ram m1) p i Ht1 Hpok); [done| |lia].
      by eapply not_below.
  - eapply touches_trans; [exact Ht1|exact Ht2|by right|]. intros q <-. by left.
Qed.

Lemma freewalk_entries_spec lev k p rec : (lev <= 1)%nat -> T !! (S lev, k) = Some p -> frees_subtree lev rec ->
  forall n j m l, 0 <= j -> j + Z.of_nat n = 512 -> free_pages m l -> rest_ok (ram m) lev k p j ->
    (forall q, kids lev k j q -> q ∉ l) -> p ∉ l ->
    mwp (freewalk_entries rec n p j) m (fun _ m' => exists l', frees (kids lev k j) m l m' l' /\
      touches (fun q => q = p \/ kids lev k j q) (ram m) (ram m')).
Proof.
  intros Hlev Hp Hrec. assert (Hpok : page_ok p) by eauto.
  induction n as [|n IH]; intros j m l Hj Hjn Hfree Hok Hap Hpl; cbn [freewalk_entries].
  { apply mwp_ret. exists l. split; [|done]. split_and!; [done| |done]. intros q. split; [by left|].
    intros [?|(i & ? & _)]; [done|lia]. }
  assert (Hkids : forall q, kids lev k j q <-> below lev (k * 512 + j) q \/ kids lev k (j + 1) q)
    by (intros q; apply kids_step; lia).
  apply mwp_bind, mwp_load64; [apply slot_in_ram; [done|lia]|].
  rewrite (proj2 (Hok j ltac:(lia))). cbn [entry]. destruct (T !! (lev, k * 512 + j)) as [c|] eqn:Ec.
  - destruct (pointer_entry c (Hpage _ _ Ec)) as (Hv & H0 & Hpa). rewrite Hv, H0, Hpa, Z.eqb_refl. cbn [andb].
    apply mwp_bind. eapply mwp_mono; [apply (free_child lev k p rec j m l c); [done|done|lia|done|done|done| |done]|].
    { intros q Hq. apply Hap, Hkids. by left. }
    intros [] m1 (l1 & (Hf1 & Hl1 & Hk1) & Hok1 & Hpl1 & Ht1).
    eapply mwp_mono; [apply (IH (j + 1) m1 l1); [lia|lia|done|done| |done]|].
    + intros q Hq. rewrite Hl1. intros [Hql|Hb]; [apply (Hap q); [|done]; apply Hkids; by right|].
      destruct Hq as (i & Hi & Hq). pose proof (below_unique _ _ _ _ Hq Hb). lia.
    + intros [] m' (l' & (Hf' & Hl' & Hk') & Ht'). exists l'. split; [split_and!; [done| |congruence]|].
      * intros q. rewrite Hl', Hl1, Hkids. tauto.
      * eapply touches_trans; [exact Ht1|exact Ht'| |]; intros q; simpl; rewrite Hkids; tauto.
  - rewrite has_0. cbn [andb]. apply mwp_bind, mwp_ret.
    assert (Hnone : forall q, ~ below lev (k * 512 + j) q) by (intros q; apply below_none; [lia|done]).
    eapply mwp_mono; [apply (IH (j + 1) m l); [lia|lia|done| | |done]|].
    + intros i Hi. apply Hok. lia.
    + intros q Hq. apply Hap, Hkids. by right.
    + intros [] m' (l' & (Hf' & Hl' & Hk') & Ht'). exists l'. split; [split_and!; [done| |done]|].
      * intros q. rewrite Hl', Hkids. specialize (Hnone q). tauto.
      * eapply touches_mono; [exact Ht'|]. intros q. rewrite Hkids. tauto.
Qed.

(** A table of the last level has nothing to free below it. *)
Lemma freewalk_entries_zero rec p : page_ok p -> forall n j m (Q : unit -> pmem -> Prop),
  0 <= j -> j + Z.of_nat n = 512 ->
  (forall i, j <= i < 512 -> ld64 (ram m) (p + 8 * i) = 0) ->
  Q tt m -> mwp (freewalk_entries rec n p j) m Q.
Proof.
  intros Hp. induction n as [|n IH]; intros j m Q Hj Hjn Hz HQ; cbn [freewalk_entries]; [by apply mwp_ret|].
  apply mwp_bind, mwp_load64; [apply slot_in_ram; [done|lia]|]. rewrite Hz, has_0 by lia. cbn [andb].
  apply mwp_bind, mwp_ret. apply IH; [lia|lia| |done]. intros i Hi. apply Hz. lia.
Qed.

(** The [kfree] of a table after everything below it. *)
Lemma free_table m m1 l l1 p (P : Z -> Prop) : page_ok p -> ~ P p -> p ∉ l ->
  frees P m l m1 l1 -> touches (fun q => q = p \/ P q) (ram m) (ram m1) ->
  mwp (kfree_mem p) m1 (fun _ m' => exists l', frees (fun q => q = p \/ P q) m l m' l' /\
    touches (fun q => q = p \/ P q) (ram m) (ram m')).
Proof.
  intros Hp HPp Hpl (Hf & Hl & Hk) Ht. apply (kfree_pushes m1 p l1); [done|done|rewrite Hl; tauto|].
  intros m' Hf' Ht' Hk'. exists (p :: l1). split; [split_and!; [done| |congruence]|].
  - intros q. rewrite elem_of_cons, Hl. tauto.
  - eapply touches_trans; [exact Ht|exact Ht'|done|]. intros q <-. by left.
Qed.

Lemma frees_iff (P P' : Z -> Prop) m l m' l' : (forall q, P q <-> P' q) ->
  frees P m l m' l' /\ touches P (ram m) (ram m') -> frees P' m l m' l' /\ touches P' (ram m) (ram m').
Proof.
  intros HP [(Hf & Hl & Hk) Ht]. split; [split_and!; [done| |done]|].
  - intros q. by rewrite Hl, HP.
  - eapply touches_mono; [exact Ht|]. intros q. by rewrite HP.
Qed.

Lemma below_0 k p q : T !! (0%nat, k) = Some p -> below 0 k q <-> q = p.
Proof.
  intros Hp. split; [intros (l1 & k1 & H1 & Hl & Hk)|intros ->; exists 0%nat, k].
  - assert (l1 = 0%nat) as -> by lia. rewrite Z.div_1_r in Hk. subst k1. congruence.
  - split; [done|]. split; [lia|]. apply Z.div_1_r.
Qed.

Lemma freewalk_spec lev : (lev <= 2)%nat -> frees_subtree lev (freewalk (S lev)).
Proof.
  induction lev as [|lev IH]; intros Hlev m l k p Hp Hin Hf Hap; cbn [freewalk]; apply mwp_bind.
  - apply freewalk_entries_zero; [eauto|lia|lia| |].
    { intros i Hi. apply (Hin 0%nat k p Hp); [|done]. split; [lia|]. apply Z.div_1_r. }
    eapply mwp_mono; [apply (free_table m m l l p (fun _ => False)); [eauto|tauto| | |done]|].
    + apply Hap. by rewrite (below_0 k p).
    + split_and!; [done|tauto|done].
    + intros [] m' (l' & H). exists l'. eapply frees_iff; [|exact H]. intros q. rewrite (below_0 k p) by done. tauto.
  - assert (Hb : forall q, below (S lev) k q <-> q = p \/ kids lev k 0 q) by (intros q; by apply below_S).
    eapply mwp_mono; [apply (freewalk_entries_spec lev k p (freewalk (S lev)) ltac:(lia) Hp (IH ltac:(lia)) 512 0 m l);
      [lia|lia|done| | |]|].
    + intros i Hi. split; [intros lev' k' q Hq Hu; apply (Hin lev' k' q Hq)|apply (Hin (S lev) k p Hp); [|done]];
        apply under_S; [right; by exists i|by left].
    + intros q Hq. apply Hap, Hb. by right.
    + apply Hap, Hb. by left.
    + intros [] m1 (l1 & Hfr & Ht). eapply mwp_mono; [apply (free_table m m1 l l1 p (kids lev k 0)); [eauto| | |done|done]|].
      * intros (i & _ & Hk). by eapply not_below.
      * apply Hap, Hb. by left.
      * intros [] m' (l' & H). exists l'. eapply frees_iff; [|exact H]. intros q. by rewrite Hb.
Qed.

(** Below the root is every table. *)
Lemma below_tab root q : T !! (2%nat, 0) = Some root -> below 2 0 q <-> tab T q.
Proof.
  intros Hroot. split; [intros (l1 & k1 & H1 & _); by eexists|]. intros [[lev k] Hq].
  assert (Hlev : (lev <= 2)%nat) by (destruct (Hparent _ _ _ Hq) as [[= -> ->]|[? _]]; lia).
  exists lev, k. split; [done|]. split; [done|].
  destruct (T !! (2%nat, k / 512 ^ Z.of_nat (2 - lev))) as [x|] eqn:E.
  - destruct (Hparent _ _ _ E) as [[= ->]|[? _]]; [done|lia].
  - destruct (below_none 2 (k / 512 ^ Z.of_nat (2 - lev)) q ltac:(lia) E). by exists lev, k.
Qed.

End Free.
