(* ===== verification/VmTheorems.v ===== *)
(** * The theorems about [vm.c]

    What the callers of [vm.c] rely on, for address spaces in memory
    ([aspace]), with an example memory that satisfies the hypotheses. *)

From stdpp Require Import base list gmap strings.
From Stdlib Require Import ZArith Lia.
From S2P Require Import Prelude KernelBase KString PhysMem Kalloc Vm VmFacts VmMaps VmUser VmCopy VmFork VmFree.

Open Scope Z_scope.
Open Scope mem_scope.

Section Theorems.

Context {lay : layout}.
Implicit Types (T : gmap (nat * Z) Z) (D : gmap Z Z) (l : list Z) (m : pmem).

(** ** An empty address space *)

Lemma leaf_zero_page r g n : filled r g 0 -> leaf r {[ (2%nat, 0) := g ]} n = 0.
Proof. intros _. unfold leaf. by rewrite lookup_singleton_ne. Qed.

Lemma zero_page_pt r g : page_ok g -> filled r g 0 -> pt_ok r g {[ (2%nat, 0) := g ]}.
Proof.
  intros Hg Hz. split.
  - apply lookup_singleton_eq.
  - intros k p [<- <-]%lookup_singleton_Some. done.
  - intros k1 k2 p [<- _]%lookup_singleton_Some [<- _]%lookup_singleton_Some. done.
  - intros lev i p [[= <- <-] _]%lookup_singleton_Some. by left.
  - intros lev k p i [[= <- <-] <-]%lookup_singleton_Some Hi.
    rewrite lookup_singleton_ne by (intros [=]; lia). apply ldn_zero. intros x Hx. apply Hz. rewrite PGSIZE_val. lia.
Qed.

Lemma uvmcreate_spec m g l : free_pages m (g :: l) ->
  mwp uvmcreate m (fun r m' => r = g /\ aspace m' g {[ (2%nat, 0) := g ]} ∅ l /\ touches (eq g) (ram m) (ram m')).
Proof.
  intros Hf. assert (Hg : page_ok g) by (apply (free_pages_ok m (g :: l)); [done|set_solver]).
  assert (Hgl : g ∉ l) by by destruct Hf as [_ [? _]%NoDup_cons].
  unfold uvmcreate. apply mwp_bind. eapply kalloc_pops; [done|]. intros m1 Hf1 Ht1 _ _.
  rewrite (page_eqb0 g Hg). apply mwp_bind, mwp_mem_set; [apply (page_in_ram g); [done|lia|lia]|].
  apply mwp_ret. set (m2 := set_ram _ m1).
  assert (Ht2 : touches (eq g) (ram m1) (ram m2)) by (apply touches_put; [apply Hg|lia|lia]).
  assert (Hz : filled (ram m2) g 0) by (intros a Ha; unfold m2; simpl; by rewrite put_in).
  assert (Hl : forall n, leaf (ram m2) {[ (2%nat, 0) := g ]} n = 0) by (intros n; by apply leaf_zero_page).
  split_and!; [done| |by eapply touches_trans]. split.
  - split; [by apply zero_page_pt|done|done|done| |done| |]; [by intros p [n ?]|intros n _..]; by rewrite Hl.
  - eapply free_pages_touches; [exact Hf1|exact Ht2|]. by intros q Hq <-.
  - intros p [[k [_ <-]%lookup_singleton_Some]|[n ?]]; done.
Qed.

(** ** Mapping *)

(** C30.  [mappages] on a range that is not mapped either maps it all and
    returns 0, so that [walk] then finds for every address of the range the
    entry of the matching physical page with the given permissions, or returns
    -1 because no free page is left, having mapped a prefix. The entries of
    all other addresses are as before, nothing but free pages and tables is
    written, and it never panics; with a misaligned address or size, or size
    0, it does. *)
Theorem mappages_maps m root T l va size pa perm :
  own m root T l -> va mod PGSIZE = 0 -> size mod PGSIZE = 0 -> 0 < size ->
  0 <= va -> va + size <= MAXVA -> 0 <= pa -> pa + size <= 2 ^ 64 -> 0 <= perm < 1024 ->
  (forall a, va <= a < va + size -> has (leaf (ram m) T (vpn a)) PTE_V = false) ->
  mwp (mappages root va size pa perm) m (fun r m' => exists T' l' k,
    own m' root T' l' /\ ext m T l m' T' l' /\
    (forall x, leaf (ram m') T' x = mapped (leaf (ram m) T) (vpn va) k pa perm x) /\
    ((r = 0 /\ k = size / PGSIZE /\ forall a, va <= a < va + size ->
        mwp (walk root a false) m' (fun pte m2 => m2 = m' /\ pte <> 0 /\
          ld64 (ram m') pte = mkpte (pa + (PGROUNDDOWN a - va)) perm)) \/
     (r = -1 /\ l' = [] /\ 0 <= k < size / PGSIZE))) /\
  (forall va' size', va' mod PGSIZE <> 0 \/ size' mod PGSIZE <> 0 \/ size' = 0 ->
     exists msg, mappages root va' size' pa perm m = MPanic msg).
Proof.
  intros Hown Hva Hsz Hpos H0 Hmax Hpa Hpaw Hperm Hfree. split.
  - eapply mwp_mono; [by apply (mappages_spec m root T l)|].
    intros r m' (T' & l' & k & Ho & He & Hl & Hr). exists T', l', k. split_and!; [done..|].
    destruct Hr as [(-> & -> & _)|(-> & -> & Hk & _)]; [left|right; done]. split_and!; [done|done|].
    intros a Ha. eapply mwp_mono; [apply walk_find; [apply Ho|lia]|]. intros pte m2 [-> ->].
    pose proof (PGROUNDDOWN_range a) as Hda. pose proof (aligned_eq va Hva) as Ev.
    pose proof (aligned_eq _ (PGROUNDDOWN_aligned a)) as Ed.
    rewrite <- (vpn_page _ a (PGROUNDDOWN_aligned a) Hda) in Ed.
    assert (size = PGSIZE * (size / PGSIZE)) by by apply Z.div_exact.
    assert (Hleaf : leaf (ram m') T' (vpn a) = mkpte (pa + (PGROUNDDOWN a - va)) perm).
    { rewrite Hl. unfold mapped. rewrite PGSIZE_val in *. rewrite decide_True by lia. f_equal. lia. }
    assert (Hs : slot T' a <> 0).
    { intros Hs. rewrite slot_none in Hleaf by (done || apply Ho). pose proof (has_mkpte_V (pa + (PGROUNDDOWN a - va)) perm) as Hv.
      by rewrite <- Hleaf in Hv. }
    split_and!; [done|done|]. by rewrite slot_leaf.
  - intros va' size' Hbad. unfold mappages. destruct (va' mod PGSIZE =? 0) eqn:E1; [|by eexists].
    destruct (size' mod PGSIZE =? 0) eqn:E2; [|by eexists]. bool_to_prop. cbn [negb].
    destruct Hbad as [?|[?| ->]]; [done|done|]. by eexists.
Qed.

(** ** Growing *)

(** C18.  [uvmalloc] from [oldsz] to [newsz] either returns [newsz] with a
    fresh, zeroed page mapped readable for the user at every new page number,
    or returns 0 with the address space as it was: the same pages, entries and
    contents, and every page it had taken free again or in use as a table. It
    succeeds when three free pages are left for each new one. *)
Theorem uvmalloc_grows m root T D l oldsz newsz xperm :
  aspace m root T D l -> 0 <= oldsz <= newsz -> newsz <= TRAPFRAME -> 0 <= xperm < 1024 ->
  (forall x, pgs oldsz <= x < pgs newsz -> D !! x = None) ->
  mwp (uvmalloc root oldsz newsz xperm) m (fun r m' => exists T' D' l',
    aspace m' root T' D' l' /\ same_pages T D l T' D' l' /\ (forall va, view m' D' va = view m D va) /\
    ((r = newsz /\
      (forall x, pgs oldsz <= x < pgs newsz -> exists p, D' !! x = Some p /\
         leaf (ram m') T' x = mkpte p (Z.lor (Z.lor PTE_R PTE_U) xperm)) /\
      (forall x, ~ (pgs oldsz <= x < pgs newsz) -> D' !! x = D !! x /\ leaf (ram m') T' x = leaf (ram m) T x)) \/
     (r = 0 /\ D' = D /\ (forall x, leaf (ram m') T' x = leaf (ram m) T x) /\
      Z.of_nat (length l) < 3 * (pgs newsz - pgs oldsz)))).
Proof.
  intros Has Hsz Hlim Hx HD. eapply mwp_mono; [by apply uvmalloc_spec|].
  intros r m' (T' & D' & l' & n & Has' & Hz & Hr). exists T', D', l'.
  pose proof (gw_pages _ _ _ _ _ _ _ _ _ _ _ Hz) as Hs. split_and!; [done|done| |].
  - intros va. eapply (grown_view (fun x => pgs oldsz <= x < pgs oldsz + n)); [exact Has| | |exact Hz].
    + intros x. lia.
    + intros x Hx'. apply HD. destruct Hr as [[-> ->]|(-> & -> & _)]; lia.
  - destruct Hr as [[-> ->]|(-> & -> & Hlen)]; [left|right]; (split; [done|]).
    + split; intros x Hx'; [|apply (gw_old _ _ _ _ _ _ _ _ _ _ _ Hz); lia].
      destruct (gw_new _ _ _ _ _ _ _ _ _ _ _ Hz x) as (p & Hp & Hl & _); [lia|]. by exists p.
    + assert (Ho : forall x, D' !! x = D !! x /\ leaf (ram m') T' x = leaf (ram m) T x).
      { intros x. apply (gw_old _ _ _ _ _ _ _ _ _ _ _ Hz). lia. }
      split_and!; [apply map_eq; intros x; by destruct (Ho x)|intros x; by destruct (Ho x)|done].
Qed.

(** ** Copying for [kfork] *)

(** C17.  [uvmcopy] gives the child a page of its own for each page the parent
    has below [sz], with the parent's flags and the parent's bytes, so that
    both see the same memory there; the parent's address space and bytes are
    untouched. When memory runs out it returns -1 with the child as before and
    every page accounted for; three free pages for each page are enough. *)
Theorem uvmcopy_copies old new sz m T1 D1 T0 D0 l0 :
  asp (ram m) old T1 D1 -> aspace m new T0 D0 l0 ->
  (forall p, tab T1 p \/ data D1 p -> ~ part T0 D0 l0 p) ->
  (forall x, 0 <= x < pgs sz -> D0 !! x = None) -> 0 <= sz <= TRAPFRAME ->
  mwp (uvmcopy old new sz) m (fun r m' => exists T' D' l',
    aspace m' new T' D' l' /\ same_pages T0 D0 l0 T' D' l' /\
    asp (ram m') old T1 D1 /\ (forall va, view m' D1 va = view m D1 va) /\
    ((r = 0 /\
      (forall x, 0 <= x < pgs sz -> is_Some (D1 !! x) ->
         exists p, D' !! x = Some p /\ leaf (ram m') T' x = mkpte p (PTE_FLAGS (leaf (ram m) T1 x))) /\
      (forall va, 0 <= va < sz -> view m' D' va = view m D1 va)) \/
     (r = -1 /\ D' = D0 /\ (forall x, leaf (ram m') T' x = leaf (ram m) T0 x) /\
      Z.of_nat (length l0) < 3 * pgs sz))).
Proof.
  intros Hold Hnew Hsep Hempty Hsz. pose proof (pgs_spec sz Hsz) as [Hp _].
  eapply mwp_mono; [apply (uvmcopy_loop_spec old new sz m T1 T0 D1 D0 l0 Hold Hnew Hsep Hempty Hsz _ m T0 D0 l0 0 Hnew)|].
  - done.
  - rewrite PGSIZE_val. lia.
  - rewrite PGSIZE_val. pose proof (Z.div_mod (sz + 4096 - 1) 4096). pose proof (Z.mod_pos_bound (sz + 4096 - 1) 4096). lia.
  - apply grown_refl. change (vpn 0) with 0. lia.
  - change (vpn 0) with 0. lia.
  - intros r m' (T' & D' & l' & Has' & Hr). exists T', D', l'.
    assert (Hparent : asp (ram m') old T1 D1 /\ (forall va, view m' D1 va = view m D1 va) /\ same_pages T0 D0 l0 T' D' l').
    { destruct Hr as [[_ Hg]|(_ & Hg & _)];
        (destruct (copied_parent old sz m T1 T0 D1 D0 l0 Hold Hsep Hsz _ m' T' D' l' Hg) as [? ?];
         split; [done|split; [done|exact (gw_pages _ _ _ _ _ _ _ _ _ _ _ Hg)]]). }
    destruct Hparent as (Ha & Hb & Hs). split_and!; [done..|].
    destruct Hr as [[-> Hg]|(-> & Hg & Hlen)]; [left|right]; (split; [done|]).
    + split; [|intros va Hva; by eapply copied_child].
      intros x Hx Hd. destruct (gw_new _ _ _ _ _ _ _ _ _ _ _ Hg x) as (p & Hp' & Hl & _); [done|]. by exists p.
    + split_and!; [|intros x; by destruct (gw_old _ _ _ _ _ _ _ _ _ _ _ Hg x ltac:(tauto))|done].
      by eapply grown_none_pages.
Qed.

(** ** Freeing *)

(** [uvmfree] gives everything back: when nothing is mapped at or above [sz],
    the free list then holds exactly the pages that were free, the process's
    pages and the tables. *)
Lemma uvmfree_spec m root T D l sz :
  aspace m root T D l -> 0 <= sz <= TRAPFRAME ->
  (forall x, pgs sz <= x -> has (leaf (ram m) T x) PTE_V = false) ->
  mwp (uvmfree root sz) m (fun _ m' => exists l', free_pages m' l' /\ forall p, p ∈ l' <-> part T D l p).
Proof.
  intros Has Hsz Hhigh. unfold uvmfree. apply mwp_bind. pose proof (pgs_spec sz Hsz) as [Hp1 Hp2].
  apply (mwp_mono _ _ (fun _ m1 => exists D1 l1, aspace m1 root T D1 l1 /\ unmaps 0 (pgs sz) m T D l m1 D1 l1)).
  { destruct (0 <? sz) eqn:E; bool_to_prop; cbn [mwhen].
    - fold (pgs sz). change 0 with (vpn 0) at 2. apply uvmunmap_spec; [done|done|lia|lia| |].
      + rewrite TRAPFRAME_val in *. rewrite MAXVA_val. change (vpn TRAPFRAME) with (2 ^ 26 - 2) in *. rewrite PGSIZE_val in *. lia.
      + apply (asp_all_owned _ root); [apply Has|]. change (vpn 0) with 0. lia.
    - apply mwp_ret. exists D, l. split; [done|]. replace (pgs sz) with 0 by (rewrite PGSIZE_val in *; lia). apply unmaps_refl. }
  intros [] m1 (D1 & l1 & Has1 & Hu). pose proof (as_asp _ _ _ _ _ Has1) as Hasp1.
  destruct (asp_pt _ _ _ _ Hasp1) as [Hroot Hpage Hinj Hpar Hent].
  assert (Hzero : forall x, leaf (ram m1) T x = 0).
  { intros x. apply (asp_zero _ _ _ _ Hasp1). rewrite (um_leaf _ _ _ _ _ _ _ _ _ Hu). case_decide; [done|].
    destruct (decide (x < 0)) as [Hneg|]; [|apply Hhigh; lia].
    destruct (has _ _) eqn:Ev; [|done]. destruct (asp_low _ _ _ _ (as_asp _ _ _ _ _ Has) x) as [p Hp]; [|done|].
    - change (vpn TRAPFRAME) with (2 ^ 26 - 2). lia.
    - apply (asp_dom _ _ _ _ (as_asp _ _ _ _ _ Has)) in Hp. lia. }
  eapply mwp_mono; [apply (freewalk_spec T Hpage Hinj Hpar 2 ltac:(lia) m1 l1 0 root Hroot)|].
  - intros [|lev] k q Hq _ i Hi; [|by apply Hent]. cbn [entry].
    transitivity (leaf (ram m1) T (k * 512 + i)); [|apply Hzero]. unfold leaf.
    rewrite Z.div_add_l, Z.div_small, Z.add_0_r, Hq by lia. do 3 f_equal.
    rewrite Z.add_comm, Z.mod_add by lia. by rewrite Z.mod_small.
  - apply Has1.
  - intros q (lev & k & Hq & _). apply Has1. left. by eexists.
  - intros [] m' (l' & (Hf & Hl & _) & _). exists l'. split; [done|]. intros p.
    rewrite (unmaps_same_pages _ _ _ _ _ _ _ _ _ Hu p). unfold part. rewrite Hl.
    assert (Hnod : ~ data D1 p).
    { intros [n Hn]. apply (asp_leaf _ _ _ _ Hasp1) in Hn as [Hn _]. by rewrite Hzero in Hn. }
    assert (Hb : below T 2 0 p <-> tab T p); [|rewrite Hb; tauto].
    by apply (below_tab T Hpar root).
Qed.

(** ** Copies between kernel and user *)

(** Another address space shares no page with this one. *)
Definition elsewhere T D l T2 D2 : Prop := forall p, tab T2 p \/ data D2 p -> ~ part T D l p.

Lemma ustep_elsewhere m T D l m' T' D' l' root2 T2 D2 :
  ustep m T D l m' T' D' l' -> asp (ram m) root2 T2 D2 -> elsewhere T D l T2 D2 ->
  asp (ram m') root2 T2 D2 /\ forall va, view m' D2 va = view m D2 va.
Proof.
  intros Hus Hasp He. pose proof (us_touch _ _ _ _ _ _ _ _ Hus) as Ht. split.
  - eapply asp_touches; [exact Hasp|exact Ht|]. intros p Hp. apply He. by left.
  - intros va. unfold view. destruct (D2 !! vpn va) as [p|] eqn:E; [|done].
    destruct (asp_leaf _ _ _ _ Hasp _ _ E) as (_ & _ & [Hp _]). pose proof (off_range va).
    eapply touches_page; [exact Ht|exact Hp| |lia]. apply He. right. by eexists.
Qed.



End Theorems.

(** ** An example memory *)

Module VmDemo.

(** A kernel that ends sixteen pages below the top of memory. *)
#[local] Instance demo_layout : layout := {|
  end_ := PHYSTOP - 16 * PGSIZE; etext := KERNBASE + PGSIZE;
  end_in_ram := ltac:(split; vm_compute; discriminate)
|}.

Definition page (i : Z) : Z := PHYSTOP - 16 * PGSIZE + i * PGSIZE.

(** Zeroed memory with a list of free pages. *)
Fixpoint linked_up (r : bytes) (l : list Z) : bytes :=
  match l with
  | [] => r
  | p :: l' => st64 (linked_up r l') p (match l' with [] => 0 | q :: _ => q end)
  end.

Definition demo_free : list Z := map page [0; 1; 2; 3; 4; 5; 6; 7; 8; 9; 10; 11; 12; 13; 14; 15].

Definition demo_mem : pmem := mkpmem (linked_up (fun _ => 0) demo_free) (page 0) 0.

Lemma demo_free_pages : free_pages demo_mem demo_free.
Proof.
  split.
  - repeat (split; [vm_compute; reflexivity|]; split;
      [split; [reflexivity|split; [vm_compute; discriminate|vm_compute; reflexivity]]|]).
    vm_compute. reflexivity.
  - apply (bool_decide_unpack _). vm_compute. exact I.
Qed.

(** The memory after code that returns. *)
Definition after {A} (c : MM A) (m : pmem) : pmem := match c m with MOk _ m' => m' | _ => m end.

Lemma mwp_after {A} (c : MM A) m (Q : A -> pmem -> Prop) : mwp c m Q -> exists r, Q r (after c m).
Proof. intros (r & m' & E & HQ)%mwp_Ok. exists r. unfold after. by rewrite E. Qed.

Definition root_table (p : Z) : gmap (nat * Z) Z := {[ (2%nat, 0) := p ]}.

Lemma root_table_tab g p : tab (root_table g) p -> p = g.
Proof. unfold root_table. intros [k Hk]. by apply lookup_singleton_Some in Hk as [_ <-]. Qed.

(** Two processes with empty address spaces. *)
Definition demo1 : pmem := after uvmcreate demo_mem.

Definition demo2 : pmem := after uvmcreate demo1.

Lemma demo1_as : aspace demo1 (page 0) (root_table (page 0)) ∅ (drop 1 demo_free).
Proof. by destruct (mwp_after _ _ _ (uvmcreate_spec demo_mem _ _ demo_free_pages)) as (r & _ & H & _). Qed.

Lemma demo2_child : aspace demo2 (page 1) (root_table (page 1)) ∅ (drop 2 demo_free) /\
  touches (eq (page 1)) (ram demo1) (ram demo2).
Proof. by destruct (mwp_after _ _ _ (uvmcreate_spec demo1 _ _ (as_free _ _ _ _ _ demo1_as))) as (r & _ & H). Qed.

Lemma demo2_parent : aspace demo2 (page 0) (root_table (page 0)) ∅ (drop 2 demo_free).
Proof.
  destruct demo2_child as [[_ Hf _] Ht]. split; [|done|].
  - eapply asp_touches; [apply demo1_as|exact Ht|]. intros p ->%root_table_tab. vm_compute. discriminate.
  - intros p Hp Hin. apply (as_apart _ _ _ _ _ demo1_as p Hp). rewrite <- (take_drop 1 (drop 1 demo_free)).
    apply elem_of_app. right. by rewrite drop_drop.
Qed.

Lemma demo_leaf m p n : leaf (ram m) (root_table p) n = 0.
Proof. unfold leaf, root_table. by rewrite lookup_singleton_ne. Qed.

Example mappages_maps_witness :
  own demo1 (page 0) (root_table (page 0)) (drop 1 demo_free) /\
  mwp (mappages (page 0) 4096 8192 KERNBASE 6) demo1 (fun r m' => exists T' l' k,
    own m' (page 0) T' l' /\ ext demo1 (root_table (page 0)) (drop 1 demo_free) m' T' l' /\
    (forall x, leaf (ram m') T' x = mapped (leaf (ram demo1) (root_table (page 0))) (vpn 4096) k KERNBASE 6 x) /\
    ((r = 0 /\ k = 8192 / PGSIZE /\ forall a, 4096 <= a < 4096 + 8192 ->
        mwp (walk (page 0) a false) m' (fun pte m2 => m2 = m' /\ pte <> 0 /\
          ld64 (ram m') pte = mkpte (KERNBASE + (PGROUNDDOWN a - 4096)) 6)) \/
     (r = -1 /\ l' = [] /\ 0 <= k < 8192 / PGSIZE))) /\
  (match mappages (page 0) 4096 8192 KERNBASE 6 demo1 with MOk r _ => r | _ => 7 end) = 0.
Proof.
  pose proof (as_own _ _ _ _ _ demo1_as) as Hown. split; [exact Hown|]. split; [|vm_compute; reflexivity].
  destruct (mappages_maps demo1 (page 0) (root_table (page 0)) (drop 1 demo_free) 4096 8192 KERNBASE 6) as [H _];
    [exact Hown|reflexivity|reflexivity|lia|lia|rewrite MAXVA_val; lia|unfold KERNBASE; lia|unfold KERNBASE; lia|lia| |exact H].
  intros a _. by rewrite demo_leaf.
Defined.

Example uvmalloc_grows_witness :
  mwp (uvmalloc (page 0) 100 10000 PTE_W) demo1 (fun r m' => exists T' D' l',
    aspace m' (page 0) T' D' l' /\ same_pages (root_table (page 0)) ∅ (drop 1 demo_free) T' D' l' /\
    (forall va, view m' D' va = view demo1 ∅ va) /\
    ((r = 10000 /\
      (forall x, pgs 100 <= x < pgs 10000 -> exists p, D' !! x = Some p /\
         leaf (ram m') T' x = mkpte p (Z.lor (Z.lor PTE_R PTE_U) PTE_W)) /\
      (forall x, ~ (pgs 100 <= x < pgs 10000) -> D' !! x = (∅ : gmap Z Z) !! x /\ leaf (ram m') T' x = leaf (ram demo1) (root_table (page 0)) x)) \/
     (r = 0 /\ D' = ∅ /\ (forall x, leaf (ram m') T' x = leaf (ram demo1) (root_table (page 0)) x) /\
      Z.of_nat (length (drop 1 demo_free)) < 3 * (pgs 10000 - pgs 100)))) /\
  (match uvmalloc (page 0) 100 10000 PTE_W demo1 with MOk r _ => r | _ => 7 end) = 10000.
Proof.
  split; [|vm_compute; reflexivity].
  apply (uvmalloc_grows demo1 (page 0) (root_table (page 0)) ∅ (drop 1 demo_free) 100 10000 PTE_W demo1_as);
    [lia|rewrite TRAPFRAME_val; lia|change PTE_W with 4; lia|done].
Defined.

(** The parent with two pages. *)
Definition demo3 : pmem := after (uvmalloc (page 0) 0 8192 PTE_W) demo2.

Lemma demo3_parent : exists T D l, aspace demo3 (page 0) T D l /\
  same_pages (root_table (page 0)) ∅ (drop 2 demo_free) T D l /\
  touches (fun p => p ∈ drop 2 demo_free \/ tab (root_table (page 0)) p) (ram demo2) (ram demo3) /\
  (forall x, 0 <= x < 2 -> is_Some (D !! x)) /\ (forall x, 2 <= x -> has (leaf (ram demo3) T x) PTE_V = false).
Proof.
  destruct (mwp_after _ _ _ (uvmalloc_spec demo2 (page 0) _ ∅ _ 0 8192 PTE_W demo2_parent ltac:(lia)
    ltac:(rewrite TRAPFRAME_val; lia) ltac:(change PTE_W with 4; lia) ltac:(done)))
    as (r & T & D & l & n & Has & Hz & Hr).
  exists T, D, l. pose proof Hz as [Ho Hn Hs Ht _].
  assert (n = 2) as -> by (destruct Hr as [[_ ->]|(_ & _ & Hlen)]; [done|exfalso; revert Hlen; vm_compute; discriminate]).
  split; [done|]. split; [done|]. split; [done|]. change (pgs 0) with 0 in *. split; intros x Hx.
  - destruct (Hn x Hx) as (p & Hp & _). by exists p.
  - destruct (Ho x) as [_ Hl]; [lia|]. fold demo3 in Hl. by rewrite Hl, demo_leaf.
Qed.

Example uvmcopy_copies_witness : exists T1 D1 l0,
  asp (ram demo3) (page 0) T1 D1 /\ is_Some (D1 !! 0) /\ aspace demo3 (page 1) (root_table (page 1)) ∅ l0 /\
  mwp (uvmcopy (page 0) (page 1) 8192) demo3 (fun r m' => exists T' D' l',
    aspace m' (page 1) T' D' l' /\ same_pages (root_table (page 1)) ∅ l0 T' D' l' /\
    asp (ram m') (page 0) T1 D1 /\ (forall va, view m' D1 va = view demo3 D1 va) /\
    ((r = 0 /\
      (forall x, 0 <= x < pgs 8192 -> is_Some (D1 !! x) ->
         exists p, D' !! x = Some p /\ leaf (ram m') T' x = mkpte p (PTE_FLAGS (leaf (ram demo3) T1 x))) /\
      (forall va, 0 <= va < 8192 -> view m' D' va = view demo3 D1 va)) \/
     (r = -1 /\ D' = ∅ /\ (forall x, leaf (ram m') T' x = leaf (ram demo3) (root_table (page 1)) x) /\
      Z.of_nat (length l0) < 3 * pgs 8192))).
Proof.
  destruct demo3_parent as (T & D & l & Has & Hs & Ht & Hd & _). exists T, D, l.
  destruct demo2_child as [Hc _]. assert (Hno : forall p, part T D l p -> p <> page 1).
  { intros p Hp ->. apply Hs in Hp as [Hp|[Hp%root_table_tab|[n Hp]]]; [|done|done].
    by apply (as_apart _ _ _ _ _ Hc (page 1)); [left; exists (2%nat, 0); apply lookup_singleton_eq|]. }
  assert (Hasp : aspace demo3 (page 1) (root_table (page 1)) ∅ l).
  { split; [|apply Has|].
    - eapply asp_touches; [apply Hc|exact Ht|]. intros p ->%root_table_tab Hp.
      apply (Hno (page 1)); [|done]. apply Hs. unfold part. tauto.
    - intros p [->%root_table_tab|[n ?]] Hp; [|done]. apply (Hno (page 1)); [by left|done]. }
  split; [apply Has|]. split; [apply Hd; lia|]. split; [exact Hasp|].
  apply (uvmcopy_copies (page 0) (page 1) 8192 demo3 T D (root_table (page 1)) ∅ l); [apply Has|exact Hasp| |done|rewrite TRAPFRAME_val; lia].
  intros p Hp Hp'. destruct Hp' as [Hp'|[->%root_table_tab|[n ?]]]; [|apply (Hno (page 1)); [by right|done]|done].
  by apply (as_apart _ _ _ _ _ Has p).
Defined.



End VmDemo.
