(* ===== verification/Proc.v ===== *)
(** * [kernel/proc.c]: processes

    The process table and its operations, the wait and wakeup protocol and the
    switch to the scheduler; the schedulers themselves are in [Sched.v].  The
    memory and file services this code calls ([kalloc.c], [vm.c], [fs.c],
    [log.c], [exec.c]) are the operations of the class [services]. *)

From stdpp Require Import base list gmap strings.
From Stdlib Require Import ZArith Lia.
From S2P Require Import Prelude KString KernelBase.

Open Scope Z_scope.

(** Addresses the linker chooses. *)
Class symbols := {
  sym_trampoline : Z; sym_uservec : Z; sym_userret : Z;
  sym_forkret : Z; sym_usertrap : Z; sym_kernelvec : Z
}.

(** What [proc.c] calls in other components.  The memory operations run to
    their end on the memory state, or panic ([None]); the file operations may
    sleep, so they are kernel code. *)
Class services (mem : Type) := {
  kalloc : mem -> Z * mem;
  kfree : Z -> mem -> option mem;
  uvmcreate : mem -> Z * mem;
  mappages : Z -> Z -> Z -> Z -> Z -> mem -> option (Z * mem);
  uvmunmap : Z -> Z -> Z -> Z -> mem -> option mem;
  uvmfree : Z -> Z -> mem -> option mem;
  uvmcopy : Z -> Z -> Z -> mem -> option (Z * mem);
  uvmalloc : Z -> Z -> Z -> Z -> mem -> option (Z * mem);
  uvmdealloc : Z -> Z -> Z -> mem -> option (Z * mem);
  copyout : Z -> Z -> Z -> list Z -> mem -> option (Z * mem);
  vmfault : Z -> Z -> Z -> Z -> mem -> option (Z * mem);
  copyin : Z -> Z -> Z -> Z -> mem -> option (Z * list Z * mem);
  copyinstr : Z -> Z -> Z -> Z -> mem -> option (option (list Z) * mem);
  filedup : Z -> M mem Z;
  fileclose : Z -> M mem unit;
  idup : Z -> M mem Z;
  iput : Z -> M mem unit;
  begin_op : M mem unit;
  end_op : M mem unit;
  namei : string -> M mem Z;
  fsinit : Z -> M mem unit;
  kexec : string -> list string -> M mem Z
}.

(** The page [kalloc] returns is filled with 5s. *)
Definition tf_junk : trapframe :=
  let j := 361700864190383365 in
  mktrapframe j j j j j j j j j j j j j j j j j j j j j j j j j j j j j j j j j j j j.

Section Proc.

Context {mem : Type} {cfg : config} {svc : services mem} {sym : symbols}.

(** Run a memory operation; [None] is its panic. *)
Definition mem_op {A} (f : mem -> option (A * mem)) : M mem A := fun s =>
  match f (k_mem s) with
  | Some (a, m) => Done a (set_k_mem m s)
  | None => Panicked "vm"
  end.

Definition mem_do (f : mem -> option mem) : M mem unit :=
  mem_op (fun m => option_map (fun m' => (tt, m')) (f m)).

(** The trapframe in the page at physical address [a]. *)
Definition get_tf (a : Z) : M mem trapframe := gets (fun s => default tf_junk (k_tfs s !! a)).

Definition put_tf (a : Z) (t : trapframe) : M mem unit :=
  modify (fun s => set_k_tfs (<[a := t]> (k_tfs s)) s).

(** [kalloc()] as the process code uses it: the page holds junk. *)
Definition kalloc_page : M mem Z :=
  let* a := mem_op (fun m => Some (kalloc m)) in
  when (negb (a =? 0)) (put_tf a tf_junk) ;;
  ret a.

(** [struct proc *p = myproc()] where [p] is then dereferenced. *)
Definition curproc : M mem nat :=
  let* p := myproc in match p with Some i => ret i | None => undefined end.

(** ** Sequence numbers and identifiers *)

Definition mlfq_next_seq : M mem Z :=
  acquire LSeq ;;
  let* g := gets mlfq_global_seq in
  modify (set_mlfq_global_seq (u64 (g + 1))) ;;
  release LSeq ;;
  ret (u64 (g + 1)).

(** [#ifdef SCHEDULER_MLFQ] around statements. *)
Definition ifdef_MLFQ (m : M mem unit) : M mem unit :=
  match SCHEDULER with SCHEDULER_MLFQ => m | _ => ret tt end.

Definition procinit : M mem unit :=
  initlock LPid ;;
  initlock LWait ;;
  ifdef_MLFQ (initlock LSeq) ;;
  let* _ := for_procs (R := unit) (fun i =>
    initlock (LProc i) ;;
    setp i (set_p_state UNUSED) ;;
    setp i (set_p_kstack (KSTACK (Z.of_nat i))) ;;
    ret None) in
  ret tt.

Definition allocpid : M mem Z :=
  acquire LPid ;;
  let* pid := gets k_nextpid in
  modify (set_k_nextpid (i32 (pid + 1))) ;;
  release LPid ;;
  ret pid.

(** ** Page tables of a process *)

Definition proc_freepagetable (pagetable sz : Z) : M mem unit :=
  mem_do (uvmunmap pagetable TRAMPOLINE 1 0) ;;
  mem_do (uvmunmap pagetable TRAPFRAME 1 0) ;;
  mem_do (uvmfree pagetable sz).

Definition proc_pagetable (i : nat) : M mem Z :=
  let* pagetable := mem_op (fun m => Some (uvmcreate m)) in
  if pagetable =? 0 then ret 0 else
  let* r := mem_op (mappages pagetable TRAMPOLINE PGSIZE sym_trampoline (Z.lor PTE_R PTE_X)) in
  if r <? 0 then mem_do (uvmfree pagetable 0) ;; ret 0 else
  let* p := getp i in
  let* r := mem_op (mappages pagetable TRAPFRAME PGSIZE (p_trapframe p) (Z.lor PTE_R PTE_W)) in
  if r <? 0 then
    mem_do (uvmunmap pagetable TRAMPOLINE 1 0) ;; mem_do (uvmfree pagetable 0) ;; ret 0
  else ret pagetable.

(** ** Allocation and release of a table entry *)

Definition freeproc (i : nat) : M mem unit :=
  let* p := getp i in
  when (negb (p_trapframe p =? 0)) (mem_do (kfree (p_trapframe p))) ;;
  setp i (set_p_trapframe 0) ;;
  let* p := getp i in
  when (negb (p_pagetable p =? 0)) (proc_freepagetable (p_pagetable p) (p_sz p)) ;;
  setp i (set_p_pagetable 0) ;;
  setp i (set_p_sz 0) ;;
  setp i (set_p_pid 0) ;;
  setp i (fun p => set_p_name (<[0%nat := 0]> (p_name p)) p) ;;
  setp i (set_p_chan ChNull) ;;
  setp i (set_p_killed 0) ;;
  setp i (set_p_xstate 0) ;;
  setp i (set_p_ctime 0) ;;
  setp i (set_p_stime (-1)) ;;
  setp i (set_p_etime 0) ;;
  setp i (set_p_rtime 0) ;;
  ifdef_MLFQ (
    setp i (set_mlfq_queue 0) ;;
    setp i (set_mlfq_ticks_used 0) ;;
    setp i (set_mlfq_total_ticks 0) ;;
    setp i (set_mlfq_enter_seq 0)) ;;
  setp i (set_p_state UNUSED).

(** The [found:] part of [allocproc]: [p->lock] is held. *)
Definition allocproc_found (i : nat) : M mem (option nat) :=
  let* pid := allocpid in
  setp i (set_p_pid pid) ;;
  setp i (set_p_state USED) ;;
  let* tf := kalloc_page in
  setp i (set_p_trapframe tf) ;;
  if tf =? 0 then freeproc i ;; release (LProc i) ;; ret None else
  let* pt := proc_pagetable i in
  setp i (set_p_pagetable pt) ;;
  if pt =? 0 then freeproc i ;; release (LProc i) ;; ret None else
  setp i (fun p => set_p_context
    (mkcontext sym_forkret (u64 (p_kstack p + PGSIZE)) 0 0 0 0 0 0 0 0 0 0 0 0) p) ;;
  acquire LTicks ;;
  let* t := gets k_ticks in
  setp i (set_p_ctime t) ;;
  release LTicks ;;
  setp i (set_p_stime (-1)) ;;
  setp i (set_p_etime 0) ;;
  setp i (set_p_rtime 0) ;;
  ifdef_MLFQ (
    setp i (set_mlfq_queue 0) ;;
    setp i (set_mlfq_ticks_used 0) ;;
    setp i (set_mlfq_total_ticks 0) ;;
    let* q := mlfq_next_seq in
    setp i (set_mlfq_enter_seq q)) ;;
  ret (Some i).

Definition allocproc : M mem (option nat) :=
  let* r := for_procs (fun i =>
    acquire (LProc i) ;;
    let* p := getp i in
    if bool_decide (p_state p = UNUSED) then ret (Some i)
    else release (LProc i) ;; ret None) in
  match r with
  | None => ret None
  | Some i => allocproc_found i
  end.

Definition userinit : M mem unit :=
  let* p := allocproc in
  modify (set_k_initproc p) ;;
  match p with
  | None => undefined
  | Some i =>
      let* ip := namei "/" in
      setp i (set_p_cwd ip) ;;
      setp i (set_p_state RUNNABLE) ;;
      release (LProc i)
  end.

Definition growproc (n : Z) : M mem Z :=
  let* i := curproc in
  let* p := getp i in
  let sz := p_sz p in
  if 0 <? n then
    if TRAPFRAME <? u64 (sz + n) then ret (-1) else
    let* sz' := mem_op (uvmalloc (p_pagetable p) sz (u64 (sz + n)) PTE_W) in
    if sz' =? 0 then ret (-1) else setp i (set_p_sz sz') ;; ret 0
  else if n <? 0 then
    let* sz' := mem_op (uvmdealloc (p_pagetable p) sz (u64 (sz + n))) in
    setp i (set_p_sz sz') ;; ret 0
  else setp i (set_p_sz sz) ;; ret 0.

(** ** Sleep and wakeup *)

Definition chan_of (p : option nat) : chan_t :=
  match p with Some i => ChProc i | None => ChNull end.

Definition wakeup (ch : chan_t) : M mem unit :=
  let* _ := for_procs (R := unit) (fun i =>
    acquire (LProc i) ;;
    let* p := getp i in
    when (bool_decide (p_chan p = ch)) (
      setp i (set_p_chan ChNull) ;;
      when (bool_decide (p_state p = SLEEPING)) (
        setp i (set_p_state RUNNABLE) ;;
        ifdef_MLFQ (let* q := mlfq_next_seq in setp i (set_mlfq_enter_seq q)))) ;;
    release (LProc i) ;;
    ret None) in
  ret tt.

Definition sleep_prepare (ch : chan_t) : M mem unit :=
  let* i := curproc in
  acquire (LProc i) ;;
  if bool_decide (ch = ChNull) then panic "sleep_prepare: zero chan" else
  setp i (set_p_chan ch) ;;
  release (LProc i).

Definition sched : M mem unit :=
  let* i := curproc in
  let* h := holding (LProc i) in
  if negb h then panic "sched p->lock" else
  let* c := mycpu in
  if negb (c_noff c =? 1) then panic "sched locks" else
  let* p := getp i in
  if bool_decide (p_state p = RUNNING) then panic "sched RUNNING" else
  let* on := intr_get in
  if on then panic "sched interruptible" else
  let* c := mycpu in
  swtch ;;
  modcpu (set_c_intena (c_intena c)).

Definition sleep : M mem unit :=
  let* i := curproc in
  acquire (LProc i) ;;
  let* p := getp i in
  when (negb (bool_decide (p_chan p = ChNull))) (
    setp i (set_p_state SLEEPING) ;;
    ifdef_MLFQ (setp i (set_mlfq_ticks_used 0)) ;;
    sched) ;;
  release (LProc i).

Definition yield : M mem unit :=
  let* i := curproc in
  acquire (LProc i) ;;
  setp i (set_p_state RUNNABLE) ;;
  sched ;;
  release (LProc i).

(** ** Kill *)

Definition setkilled (i : nat) : M mem unit :=
  acquire (LProc i) ;;
  setp i (set_p_killed 1) ;;
  release (LProc i).

Definition killed (i : nat) : M mem Z :=
  acquire (LProc i) ;;
  let* p := getp i in
  release (LProc i) ;;
  ret (p_killed p).

Definition kkill (pid : Z) : M mem Z :=
  let* r := for_procs (fun i =>
    acquire (LProc i) ;;
    let* p := getp i in
    if p_pid p =? pid then
      setp i (set_p_killed 1) ;;
      when (bool_decide (p_state p = SLEEPING)) (
        setp i (set_p_state RUNNABLE) ;;
        ifdef_MLFQ (let* q := mlfq_next_seq in setp i (set_mlfq_enter_seq q))) ;;
      release (LProc i) ;;
      ret (Some 0)
    else
      release (LProc i) ;;
      ret None) in
  match r with Some x => ret x | None => ret (-1) end.

(** ** Fork, exit, wait *)

(** [for (i = 0; i < NOFILE; i++) if (p->ofile[i]) np->ofile[i] = filedup(p->ofile[i]);] *)
Fixpoint fork_files (n fd : nat) (p np : nat) : M mem unit :=
  match n with
  | O => ret tt
  | S n' =>
      let* pp := getp p in
      match p_ofile pp !! fd with
      | None => undefined
      | Some f =>
          when (negb (f =? 0)) (
            let* f' := filedup f in
            setp np (fun q => set_p_ofile (<[fd := f']> (p_ofile q)) q)) ;;
          fork_files n' (S fd) p np
      end
  end.

(** What [kfork] does with the child once its memory is copied, until it
    releases the child's lock. *)
Definition fork_fill (p np : nat) : M mem Z :=
  let* pp := getp p in
  setp np (set_p_sz (p_sz pp)) ;;
  let* npp := getp np in
  let* t := get_tf (p_trapframe pp) in
  put_tf (p_trapframe npp) t ;;
  let* t := get_tf (p_trapframe npp) in
  put_tf (p_trapframe npp) (set_tf_a0 0 t) ;;
  fork_files NOFILE 0 p np ;;
  let* pp := getp p in
  let* ip := idup (p_cwd pp) in
  setp np (set_p_cwd ip) ;;
  let* npp := getp np in
  match safestrcpy (p_name npp) (p_name pp) 16 with
  | None => undefined
  | Some nm => setp np (set_p_name nm) ;; let* npp := getp np in ret (p_pid npp)
  end.

Definition kfork : M mem Z :=
  let* p := curproc in
  let* r := allocproc in
  match r with
  | None => ret (-1)
  | Some np =>
      let* pp := getp p in
      let* npp := getp np in
      let* r := mem_op (uvmcopy (p_pagetable pp) (p_pagetable npp) (p_sz pp)) in
      if r <? 0 then freeproc np ;; release (LProc np) ;; ret (-1) else
      let* pid := fork_fill p np in
      release (LProc np) ;;
      acquire LWait ;;
      setp np (set_p_parent (Some p)) ;;
      release LWait ;;
      acquire (LProc np) ;;
      setp np (set_p_state RUNNABLE) ;;
      release (LProc np) ;;
      ret pid
  end.

Definition reparent (p : nat) : M mem unit :=
  let* _ := for_procs (R := unit) (fun i =>
    let* pp := getp i in
    when (bool_decide (p_parent pp = Some p)) (
      let* init := gets k_initproc in
      setp i (set_p_parent init) ;;
      wakeup (chan_of init)) ;;
    ret None) in
  ret tt.

(** [for (int fd = 0; fd < NOFILE; fd++) if (p->ofile[fd]) { fileclose; p->ofile[fd] = 0; }] *)
Fixpoint close_files (n fd : nat) (p : nat) : M mem unit :=
  match n with
  | O => ret tt
  | S n' =>
      let* pp := getp p in
      match p_ofile pp !! fd with
      | None => undefined
      | Some f =>
          when (negb (f =? 0)) (
            fileclose f ;;
            setp p (fun q => set_p_ofile (<[fd := 0]> (p_ofile q)) q)) ;;
          close_files n' (S fd) p
      end
  end.

(** [kexit] from [acquire(&wait_lock)] on. *)
Definition exit_finish (p : nat) (status : Z) : M mem unit :=
  acquire LWait ;;
  reparent p ;;
  let* pp := getp p in
  wakeup (chan_of (p_parent pp)) ;;
  acquire (LProc p) ;;
  acquire LTicks ;;
  let* t := gets k_ticks in
  setp p (set_p_etime t) ;;
  release LTicks ;;
  setp p (set_p_xstate status) ;;
  setp p (set_p_state ZOMBIE) ;;
  release LWait ;;
  sched ;;
  panic "zombie exit".

Definition kexit (status : Z) : M mem unit :=
  let* p := curproc in
  let* init := gets k_initproc in
  if bool_decide (Some p = init) then panic "init exiting" else
  close_files NOFILE 0 p ;;
  begin_op ;;
  let* pp := getp p in
  iput (p_cwd pp) ;;
  end_op ;;
  setp p (set_p_cwd 0) ;;
  exit_finish p status.

(** The [n] low bytes of [v], low byte first: how [copyout] sees an object. *)
Fixpoint le_bytes (n : nat) (v : Z) : list Z :=
  match n with
  | O => []
  | S n' => v mod 256 :: le_bytes n' (v / 256)
  end.

(** [addr != 0 && copyout(p->pagetable, p->sz, addr, &v, 4) < 0] *)
Definition copyout_int (p : nat) (addr v : Z) : M mem bool :=
  if addr =? 0 then ret false else
  let* pp := getp p in
  let* r := mem_op (copyout (p_pagetable pp) (p_sz pp) addr (le_bytes 4 v)) in
  ret (r <? 0).

(** Release both locks and fail: the error exits inside the scan. *)
Definition wait_fail (i : nat) : M mem (Z + bool) :=
  release (LProc i) ;; release LWait ;; ret (inl (-1)).

(** Free the zombie [i], release both locks and return its pid. *)
Definition wait_reap (i : nat) (pid : Z) : M mem (Z + bool) :=
  setp i (set_p_parent None) ;;
  freeproc i ;;
  release (LProc i) ;;
  release LWait ;;
  ret (inl pid).

(** The scan of [kwait]; the local variable of the loop is [havekids]. *)
Definition kwait_body (p : nat) (addr : Z) (i : nat) (havekids : bool) : M mem (Z + bool) :=
  let* pp := getp i in
  if bool_decide (p_parent pp = Some p) then
    acquire (LProc i) ;;
    let* pp := getp i in
    if bool_decide (p_state pp = ZOMBIE) then
      let* bad := copyout_int p addr (p_xstate pp) in
      if bad then wait_fail i else wait_reap i (p_pid pp)
    else release (LProc i) ;; ret (inr true)
  else ret (inr havekids).

(** The accounting of [kwaitx] on a zombie: [wtime], [rtime] and [response]. *)
Definition waitx_times (pp : proc) : Z * Z * Z :=
  let total_time := if p_ctime pp <=? p_etime pp then u32 (p_etime pp - p_ctime pp) else 0 in
  let rtime := p_rtime pp in
  let wtime := if rtime <? total_time then u32 (total_time - rtime) else 0 in
  let response := if i32 (p_ctime pp) <=? p_stime pp then u32 (p_stime pp - p_ctime pp) else 0 in
  (wtime, rtime, response).

Definition kwaitx_body (p : nat) (addr addr_wtime addr_rtime addr_stime : Z)
    (i : nat) (havekids : bool) : M mem (Z + bool) :=
  let* pp := getp i in
  if bool_decide (p_parent pp = Some p) then
    acquire (LProc i) ;;
    let* pp := getp i in
    if bool_decide (p_state pp = ZOMBIE) then
      let* bad := copyout_int p addr (p_xstate pp) in
      if bad then wait_fail i else
      let '(wtime, rtime, response) := waitx_times pp in
      let* bad := copyout_int p addr_wtime wtime in
      if bad then wait_fail i else
      let* bad := copyout_int p addr_rtime rtime in
      if bad then wait_fail i else
      let* bad := copyout_int p addr_stime response in
      if bad then wait_fail i else wait_reap i (p_pid pp)
    else release (LProc i) ;; ret (inr true)
  else ret (inr havekids).

(** [for (;;)] around a scan, [fuel] rounds of it; [p] is the caller. *)
Fixpoint wait_loop (fuel : nat) (p : nat) (scan : M mem (Z + bool)) : M mem Z :=
  match fuel with
  | O => fun _ => OutOfFuel
  | S fuel' =>
      let* r := scan in
      match r with
      | inl pid => ret pid
      | inr havekids =>
          let* k := (if havekids then killed p else ret 0) in
          if (negb havekids || negb (k =? 0))%bool then release LWait ;; ret (-1) else
          sleep_prepare (ChProc p) ;;
          release LWait ;;
          sleep ;;
          acquire LWait ;;
          wait_loop fuel' p scan
      end
  end.

Definition kwait (fuel : nat) (addr : Z) : M mem Z :=
  let* p := curproc in
  acquire LWait ;;
  wait_loop fuel p (for_acc NPROC 0 false (kwait_body p addr)).

Definition kwaitx (fuel : nat) (addr addr_wtime addr_rtime addr_stime : Z) : M mem Z :=
  let* p := curproc in
  acquire LWait ;;
  wait_loop fuel p
    (for_acc NPROC 0 false (kwaitx_body p addr addr_wtime addr_rtime addr_stime)).

(** ** Listing *)

Definition state_name (st : procstate) : string :=
  match st with
  | UNUSED => "unused" | USED => "used" | SLEEPING => "sleep "
  | RUNNABLE => "runble" | RUNNING => "run   " | ZOMBIE => "zombie"
  end.

Definition procdump : M mem unit :=
  printk "\n" [] ;;
  let* _ := for_procs (R := unit) (fun i =>
    let* p := getp i in
    if bool_decide (p_state p = UNUSED) then ret None else
    match SCHEDULER with
    | SCHEDULER_MLFQ =>
        acquire LTicks ;;
        let* cur_t := gets k_ticks in
        release LTicks ;;
        printk "%d %s %s  q=%d ticks_used=%d total=%d ticks_since_boost=%d"
          [PInt (p_pid p); PLit (state_name (p_state p)); PStr (p_name p);
           PInt (mlfq_queue p); PInt (mlfq_ticks_used p); PInt (mlfq_total_ticks p);
           PInt (cur_t mod 48)]
    | _ =>
        printk "%d %s %s" [PInt (p_pid p); PLit (state_name (p_state p)); PStr (p_name p)]
    end ;;
    printk "\n" [] ;;
    ret None) in
  ret tt.

End Proc.
