(* ===== verification/VmServices.v ===== *)
(** * The memory services of the process code, implemented

    [proc.c] is written against the operations of the class [services]; here the
    memory part of it is [kalloc.c] and [vm.c].  With it the page-table code of
    [proc.c] is proved down to physical memory: [proc_pagetable] and
    [proc_freepagetable] lose no page. *)

From stdpp Require Import base list gmap strings.
From Stdlib Require Import ZArith Lia.
From S2P Require Import Prelude KernelBase PhysMem Proc Kalloc Vm VmFacts VmMaps VmUser VmCopy VmTheorems.

Open Scope Z_scope.

(** The file services, which stay a parameter. *)
Class file_services (mem : Type) := {
  fs_filedup : Z -> M mem Z;
  fs_fileclose : Z -> M mem unit;
  fs_idup : Z -> M mem Z;
  fs_iput : Z -> M mem unit;
  fs_begin_op : M mem unit;
  fs_end_op : M mem unit;
  fs_namei : string -> M mem Z;
  fs_fsinit : Z -> M mem unit;
  fs_kexec : string -> list string -> M mem Z
}.

Section Services.

Context {lay : layout} {mem : Type} {hpm : has_pmem mem} {fs : file_services mem}.

(** Memory code as an operation of [services]: a panic or a fault is [None]. *)
Definition of_mm {A} (c : MM A) (m : mem) : option (A * mem) :=
  match c (pm_of m) with MOk a p => Some (a, with_pm p m) | _ => None end.

Definition of_mm' (c : MM unit) (m : mem) : option mem := option_map snd (of_mm c m).

(** For the two operations that cannot panic; a fault gives a null pointer. *)
Definition of_mm_ptr (c : MM Z) (m : mem) : Z * mem := default (0, m) (of_mm c m).

#[export] Instance vm_services : services mem := {|
  Proc.kalloc := of_mm_ptr kalloc_mem;
  Proc.kfree pa := of_mm' (kfree_mem pa);
  Proc.uvmcreate := of_mm_ptr uvmcreate;
  Proc.mappages pt va size pa perm := of_mm (mappages pt va size pa perm);
  Proc.uvmunmap pt va n do_free := of_mm' (uvmunmap pt va n (negb (do_free =? 0)));
  Proc.uvmfree pt sz := of_mm' (uvmfree pt sz);
  Proc.uvmcopy old new sz := of_mm (uvmcopy old new sz);
  Proc.uvmalloc pt oldsz newsz xperm := of_mm (uvmalloc pt oldsz newsz xperm);
  Proc.uvmdealloc pt oldsz newsz := of_mm (uvmdealloc pt oldsz newsz);
  Proc.copyout pt psz dstva src := of_mm (copyout pt psz dstva src);
  Proc.vmfault pt psz va read := of_mm (vmfault pt psz va read);
  Proc.copyin pt psz srcva len := of_mm (copyin pt psz srcva len);
  Proc.copyinstr pt psz srcva max := of_mm (copyinstr pt psz srcva max);
  filedup := fs_filedup;
  fileclose := fs_fileclose;
  idup := fs_idup;
  iput := fs_iput;
  begin_op := fs_begin_op;
  end_op := fs_end_op;
  namei := fs_namei;
  fsinit := fs_fsinit;
  kexec := fs_kexec
|}.

(** [kvminithart] of [vm.c]: the kernel's page table goes into [satp]. *)
Definition kvminithart : M mem unit :=
  let* kpt := gets (fun s => kernel_pagetable (pm_of (k_mem s))) in
  modify (fun s => set_k_csr (set_c_satp (MAKE_SATP kpt) (k_csr s)) s).

(** ** Entries above the user's memory *)

Implicit Types (T : gmap (nat * Z) Z) (D : gmap Z Z) (l : list Z) (m : pmem).

Lemma vpn_high a : a mod PGSIZE = 0 -> TRAPFRAME <= a < MAXVA -> vpn TRAPFRAME <= vpn a /\ a + PGSIZE <= MAXVA.
Proof.
  intros Ha Hr. pose proof (aligned_eq a Ha). change (vpn TRAPFRAME) with (2 ^ 26 - 2).
  rewrite TRAPFRAME_val, MAXVA_val, PGSIZE_val in *. lia.
Qed.

(** Mapping a page user code cannot touch. *)
Lemma map_high_spec m root T D l a pa perm :
  aspace m root T D l -> a mod PGSIZE = 0 -> TRAPFRAME <= a < MAXVA ->
  has (leaf (ram m) T (vpn a)) PTE_V = false -> 0 <= pa -> pa + PGSIZE <= 2 ^ 64 -> 0 <= perm < 1024 ->
  has perm PTE_U = false ->
  mwp (mappages root a PGSIZE pa perm) m (fun r m' => exists T' l', aspace m' root T' D l' /\
    same_pages T D l T' D l' /\
    ((r = 0 /\ forall x, leaf (ram m') T' x = if decide (x = vpn a) then mkpte pa perm else leaf (ram m) T x) \/
     (r = -1 /\ forall x, leaf (ram m') T' x = leaf (ram m) T x))).
Proof.
  intros Has Ha Hr Hv Hpa Hpa2 Hperm Hu. pose proof (vpn_high a Ha Hr) as [Hva Ha2].
  pose proof (as_asp _ _ _ _ _ Has) as [H1 H2 H3 H4 H5 H6 H7 H8].
  eapply mwp_mono; [apply (mappages_spec m root T l); [by eapply as_own|done|done|done|rewrite TRAPFRAME_val in *; lia|done|done|done|done|]|].
  { intros b Hb. by rewrite (vpn_page a b). }
  change (PGSIZE / PGSIZE) with 1. intros r m' (T' & l' & k & Ho' & He' & Hl' & Hres).
  assert (Htd : forall q, tab T' q -> ~ data D q) by (intros q; by eapply ext_apart).
  assert (Hapart : forall p, tab T' p \/ data D p -> p ∉ l').
  { intros p [Hp|Hp]; [by apply Ho'|]. intros Hpl. apply (as_apart _ _ _ _ _ Has p); [by right|].
    destruct He' as [_ (new & -> & _) _ _]. set_solver. }
  exists T', l'. destruct Hres as [(-> & -> & _)|(-> & -> & Hk & _)].
  - assert (Hl : forall x, leaf (ram m') T' x = if decide (x = vpn a) then mkpte pa perm else leaf (ram m) T x).
    { intros x. rewrite Hl'. unfold mapped. repeat case_decide; try lia. f_equal. lia. }
    split_and!; [|by eapply ext_same_pages|by left]. split; [|apply Ho'|done].
    split; [apply Ho'| | |done| |done| |].
    + intros n. rewrite Hl. case_decide; [by rewrite has_mkpte_V|auto].
    + intros n p Hn. pose proof (H6 _ _ Hn). rewrite Hl, decide_False by lia. auto.
    + intros p Hp Ht. by apply (Htd p).
    + intros n Hn. rewrite Hl, decide_False by lia. auto.
    + intros n Hn. rewrite Hl. case_decide; [|auto]. intros _. rewrite mkpte_eq, has_PA2PTE by done.
      unfold has in *. rewrite Z.land_lor_distr_l. bool_to_prop. rewrite Hu. done.
  - assert (Hl : forall x, leaf (ram m') T' x = leaf (ram m) T x).
    { intros x. rewrite Hl'. unfold mapped. by rewrite decide_False by lia. }
    split_and!; [|by eapply ext_same_pages|by right]. split; [eapply asp_same; [apply Has|apply Ho'|done|done]|apply Ho'|done].
Qed.

(** [uvmunmap(pagetable, a, 1, 0)] there. *)
Lemma unmap_high_spec m root T D l a :
  aspace m root T D l -> a mod PGSIZE = 0 -> TRAPFRAME <= a < MAXVA ->
  mwp (uvmunmap root a 1 false) m (fun _ m' => aspace m' root T D l /\
    forall x, leaf (ram m') T x = if decide (x = vpn a) then 0 else leaf (ram m) T x).
Proof.
  intros Has Ha Hr. pose proof (vpn_high a Ha Hr) as [Hva Ha2]. pose proof (as_own _ _ _ _ _ Has) as Hown.
  pose proof (as_asp _ _ _ _ _ Has) as Hasp. rewrite TRAPFRAME_val in Hr. rewrite MAXVA_val in Hr, Ha2.
  assert (Hz : has (leaf (ram m) T (vpn a)) PTE_V = false -> forall x,
    leaf (ram m) T x = if decide (x = vpn a) then 0 else leaf (ram m) T x).
  { intros Hinv x. case_decide as E; [|done]. rewrite E. by apply (asp_zero _ _ _ _ Hasp). }
  unfold uvmunmap. rewrite Ha. cbn [negb Z.eqb]. rewrite Z.mul_1_l.
  rewrite (u64_small PGSIZE) by (rewrite PGSIZE_val; lia). rewrite u64_small by (rewrite PGSIZE_val in *; lia).
  replace (a + PGSIZE - a) with PGSIZE by lia. change (Z.to_nat (PGSIZE / PGSIZE)) with 1%nat. cbn [uvmunmap_loop].
  rewrite (proj2 (Z.ltb_lt a (a + PGSIZE))) by (rewrite PGSIZE_val; lia).
  rewrite u64_small by (rewrite PGSIZE_val in *; lia). rewrite Z.ltb_irrefl. unfold unmap_page.
  apply mwp_bind, mwp_bind, (walk_find_leaf m root T D l a); [done|rewrite MAXVA_val; lia| |].
  { intros _ Hl. apply mwp_ret, mwp_ret. split; [done|]. apply Hz. by rewrite Hl. }
  intros Hs. rewrite (proj2 (Z.eqb_neq _ _) Hs). apply mwp_bind, (mwp_load_slot m root T l); [done|done|].
  destruct (has _ _) eqn:Ev; cbn [negb mwhen]; [|apply mwp_ret, mwp_ret; split; [done|by apply Hz]].
  apply mwp_bind, mwp_ret, (mwp_store_slot m root T l); [done|done|]. apply mwp_ret.
  destruct (write_leaf m root T l a 0 Hown Hs ltac:(lia)) as (Hown' & _ & Hl').
  split; [|done]. split; [|apply Hown'|apply Has].
  replace D with (delete (vpn a) D); [by apply asp_clear|]. apply delete_id.
  destruct (D !! vpn a) eqn:E; [|done]. apply (asp_dom _ _ _ _ Hasp) in E. lia.
Qed.

(** ** Memory code inside the kernel *)

Implicit Types s : kst mem.

(** [s] with another memory. *)
Definition st m s : kst mem := set_k_mem (with_pm m (k_mem s)) s.

Lemma st_id s : s = st (pm_of (k_mem s)) s.
Proof. unfold st. rewrite with_pm_of. by destruct s. Qed.

Lemma wp_mm {A} (c : MM A) m s (Q : A -> kst mem -> Prop) :
  mwp c m (fun a m' => Q a (st m' s)) -> wp (mem_op (of_mm c)) (st m s) Q.
Proof.
  intros (a & m' & E & HQ)%mwp_Ok. unfold wp, mem_op, of_mm, st. kred. rewrite pm_of_with, E.
  rewrite with_with_pm. exact HQ.
Qed.

Lemma wp_mm' (c : MM unit) m s (Q : unit -> kst mem -> Prop) :
  mwp c m (fun _ m' => Q tt (st m' s)) -> wp (mem_do (of_mm' c)) (st m s) Q.
Proof.
  intros ([] & m' & E & HQ)%mwp_Ok. unfold wp, mem_do, mem_op, of_mm', of_mm, st. kred. rewrite pm_of_with, E.
  cbn [option_map snd]. rewrite with_with_pm. exact HQ.
Qed.

Lemma wp_mm_ptr (c : MM Z) m s (Q : Z -> kst mem -> Prop) :
  mwp c m (fun a m' => Q a (st m' s)) -> wp (mem_op (fun k => Some (of_mm_ptr c k))) (st m s) Q.
Proof.
  intros (a & m' & E & HQ)%mwp_Ok. unfold wp, mem_op, of_mm_ptr, of_mm, st. kred. rewrite pm_of_with, E.
  cbn [default from_option id]. rewrite with_with_pm. exact HQ.
Qed.

(** ** The page table of a process *)

Section Proc.

Context {sym : symbols}.

(** Above the user's memory: the trampoline and the trap frame at [tf]. *)
Definition high_entry (tf x : Z) : Z :=
  if decide (x = vpn TRAMPOLINE) then mkpte sym_trampoline (Z.lor PTE_R PTE_X)
  else if decide (x = vpn TRAPFRAME) then mkpte tf (Z.lor PTE_R PTE_W) else 0.

Definition user_pt m (root tf : Z) T D l : Prop :=
  aspace m root T D l /\ forall x, vpn TRAPFRAME <= x -> leaf (ram m) T x = high_entry tf x.

Definition pa_ok (pa : Z) : Prop := 0 <= pa /\ pa + PGSIZE <= 2 ^ 64.

(** What [proc_pagetable] may return: a table, or 0 with the free pages [L]. *)
Definition pagetable_result (tf : Z) (L : list Z) (r : Z) m : Prop :=
  (r = 0 /\ exists l', free_pages m l' /\ forall q, q ∈ l' <-> q ∈ L) \/
  (r <> 0 /\ exists T l', user_pt m r tf T ∅ l' /\ forall q, part T ∅ l' q <-> q ∈ L).

Lemma root_part g l q : part {[ (2%nat, 0) := g ]} ∅ l q <-> q ∈ g :: l.
Proof.
  unfold part. rewrite elem_of_cons. split.
  - intros [?|[[k [_ <-]%lookup_singleton_Some]|[n ?]]]; [by right|by left|done].
  - intros [->|?]; [right; left; exists (2%nat, 0); apply lookup_singleton_eq|by left].
Qed.

Lemma root_leaf r g x : leaf r {[ (2%nat, 0) := g ]} x = 0.
Proof. unfold leaf. by rewrite lookup_singleton_ne. Qed.

(** The failure exits: [uvmfree(pagetable, 0)] of a table with no entries. *)
Lemma pagetable_cleanup tf g l m T l' s :
  aspace m g T ∅ l' -> (forall q, part T ∅ l' q <-> q ∈ g :: l) -> (forall y, leaf (ram m) T y = 0) ->
  wp (mem_do (Proc.uvmfree g 0) ;; ret 0) (st m s)
     (fun r s' => exists m, s' = st m s /\ pagetable_result tf (g :: l) r m).
Proof.
  intros Has Hs Hz. apply wp_bind, wp_mm'.
  eapply mwp_mono; [apply (uvmfree_spec m g T ∅ l' 0 Has); [rewrite TRAPFRAME_val; lia|]|].
  - intros y _. by rewrite Hz.
  - intros _ m' (l2 & Hf2 & Hl2). apply wp_ret. exists m'. split; [done|left]. split; [done|]. exists l2.
    split; [done|]. intros q. by rewrite Hl2, Hs.
Qed.

(** C20.  [proc_pagetable] on the real allocator and page tables: it either
    returns a page table that maps exactly the trampoline (read, execute) and
    the process's trap frame (read, write), neither for user code, with every
    page it took in use as a table; or, when memory runs out on the way, it
    returns 0 and the free list holds the same pages as before. It never
    panics. *)
Theorem proc_pagetable_maps (i : nat) (p : proc) l s :
  k_procs s !! i = Some p -> free_pages (pm_of (k_mem s)) l -> pa_ok sym_trampoline -> pa_ok (p_trapframe p) ->
  wp (proc_pagetable i) s (fun r s' => exists m, s' = st m s /\
    ((r = 0 /\ exists l', free_pages m l' /\ forall q, q ∈ l' <-> q ∈ l) \/
     (r <> 0 /\ exists T l', user_pt m r (p_trapframe p) T ∅ l' /\ forall q, part T ∅ l' q <-> q ∈ l))).
Proof.
  intros Hp Hf [Ht1 Ht2] [Hq1 Hq2]. unfold proc_pagetable. rewrite (st_id s) at 1. set (m0 := pm_of (k_mem s)) in *.
  apply wp_bind, wp_mm_ptr. destruct l as [|g l].
  { unfold uvmcreate. apply mwp_bind, kalloc_empty; [done|]. rewrite Z.eqb_refl. apply mwp_ret. rewrite Z.eqb_refl.
    apply wp_ret. exists m0. split; [done|]. left. split; [done|]. by exists []. }
  eapply mwp_mono; [by apply uvmcreate_spec|]. intros r m1 (-> & Has1 & _).
  assert (Hg : page_ok g) by (apply (free_pages_ok m0 (g :: l)); [done|set_solver]).
  rewrite (page_eqb0 g Hg). pose proof (root_part g l) as Hpart1. pose proof (root_leaf (ram m1) g) as Hz1.
  set (T1 := {[ (2%nat, 0) := g ]}) in *.
  apply wp_bind, wp_mm. eapply mwp_mono; [apply (map_high_spec m1 g T1 ∅ l TRAMPOLINE); [done|done|done| |done..]|].
  { by rewrite Hz1. }
  intros r m2 (T2 & l2 & Has2 & Hs2 & Hl2).
  assert (Hpart2 : forall q, part T2 ∅ l2 q <-> q ∈ g :: l) by (intros q; by rewrite <- (Hs2 q), Hpart1).
  destruct Hl2 as [[-> Hl2]|[-> Hl2]].
  2: { change (-1 <? 0) with true. cbn iota. apply (pagetable_cleanup _ g l m2 T2 l2); [done|done|]. intros y. by rewrite Hl2. }
  change (0 <? 0) with false. cbn iota. apply wp_bind, (wp_getp i p); [done|].
  apply wp_bind, wp_mm. eapply mwp_mono; [apply (map_high_spec m2 g T2 ∅ l2 TRAPFRAME); [done|done|done| |done..]|].
  { rewrite Hl2, decide_False by done. by rewrite Hz1. }
  intros r m3 (T3 & l3 & Has3 & Hs3 & [[-> Hl3]|[-> Hl3]]).
  - change (0 <? 0) with false. cbn iota. apply wp_ret. exists m3. split; [done|right].
    split; [by apply page_ok_nonzero|]. exists T3, l3. split; [split; [done|]|intros q; by rewrite <- (Hs3 q), Hpart2].
    intros x _. rewrite Hl3, Hl2, Hz1. unfold high_entry. by repeat case_decide; subst.
  - change (-1 <? 0) with true. cbn iota. apply wp_bind, wp_mm'.
    eapply mwp_mono; [by apply (unmap_high_spec m3 g T3 ∅ l3 TRAMPOLINE)|].
    intros [] m4 [Has4 Hl4]. apply (pagetable_cleanup _ g l m4 T3 l3); [done|intros q; by rewrite <- (Hs3 q), Hpart2|].
    intros y. rewrite Hl4, Hl3, Hl2, Hz1. by repeat case_decide.
Qed.

(** C21.  [proc_freepagetable] returns every page of a process to the free
    list: its memory below [sz] and all its page tables, each once, and
    neither the trampoline nor the trap frame; it never panics. *)
Theorem proc_freepagetable_returns (root tf sz : Z) T D l s :
  user_pt (pm_of (k_mem s)) root tf T D l -> 0 <= sz <= TRAPFRAME ->
  (forall x, pgs sz <= x -> D !! x = None) ->
  wp (proc_freepagetable root sz) s (fun _ s' => exists m l', s' = st m s /\ free_pages m l' /\
    forall q, q ∈ l' <-> part T D l q).
Proof.
  intros [Has Hhigh] Hsz HD. unfold proc_freepagetable. rewrite (st_id s) at 1. set (m0 := pm_of (k_mem s)) in *.
  apply wp_bind, wp_mm'. eapply mwp_mono; [by apply (unmap_high_spec m0 root T D l TRAMPOLINE)|]. intros [] m1 [Has1 Hl1].
  apply wp_bind, wp_mm'. eapply mwp_mono; [by apply (unmap_high_spec m1 root T D l TRAPFRAME)|]. intros [] m2 [Has2 Hl2].
  apply wp_mm'. eapply mwp_mono; [apply (uvmfree_spec m2 root T D l sz Has2 Hsz)|].
  - intros x Hx. destruct (has _ _) eqn:E; [|done]. exfalso. destruct (decide (x < vpn TRAPFRAME)) as [Hlt|Hge].
    + destruct (asp_low _ _ _ _ (as_asp _ _ _ _ _ Has2) x Hlt E) as [q Hq]. by rewrite HD in Hq.
    + rewrite Hl2, Hl1, Hhigh in E by lia. unfold high_entry in E. by repeat case_decide.
  - intros [] m' (l' & Hf & Hl). exists m', l'. done.
Qed.

End Proc.

End Services.
