(* ===== verification/KernelLoops.v ===== *)
(** * Loops over the process table

    Symbolic execution for the kernel monad and the loops the process code is
    made of: a sweep that rewrites every entry and may draw sequence numbers, a
    scan that only reads, and a search that leaves at the first hit.  In each
    the body takes and releases the lock of the entry it looks at. *)

From stdpp Require Import base list gmap strings.
From Stdlib Require Import ZArith Lia.
From S2P Require Import Prelude KString KernelBase Proc.

Open Scope Z_scope.

(** Every process lock is free. *)
Definition procs_free (h : hw) : Prop := forall i, (i < NPROC)%nat -> free h (LProc i).

Lemma procs_free_cyc h : procs_free h -> procs_free (hw_cyc h).
Proof. done. Qed.

Lemma procs_free_acq h l : (forall i, l <> LProc i) -> procs_free h -> procs_free (hw_acq l h).
Proof. intros Hl H i Hi. apply free_acq; auto. Qed.

#[export] Hint Resolve procs_free_cyc : locks.
#[export] Hint Extern 2 (free _ (LProc _)) => (match goal with H : procs_free _ |- _ => apply H end) : locks.
#[export] Hint Extern 2 (procs_free (hw_acq _ _)) => (apply procs_free_acq; [discriminate|]) : locks.

(** [h] or [h] after a lock cycle: what a loop body starts in. *)
Definition hw_near (h0 h : hw) : Prop := h = h0 \/ h = hw_cyc h0.

Lemma near_ok h0 h : hw_ok h0 -> hw_near h0 h -> hw_ok h.
Proof. by intros ? [->| ->]. Qed.

Lemma near_free h0 h l : free h0 l -> hw_near h0 h -> free h l.
Proof. by intros ? [->| ->]. Qed.

Lemma near_procs h0 h : procs_free h0 -> hw_near h0 h -> procs_free h.
Proof. by intros ? [->| ->]. Qed.

Lemma set_procs_twice {mem} ps qs (s : kst mem) :
  set_k_procs ps (set_k_procs qs s) = set_k_procs ps s.
Proof. done. Qed.

Lemma set_hw_twice {mem} h h' (s : kst mem) : set_k_hw h (set_k_hw h' s) = set_k_hw h s.
Proof. done. Qed.

(** Normalise a state: projections, nested lock cycles, repeated updates. *)
Ltac knorm :=
  kred;
  repeat first
    [ rewrite hw_cyc_acq by auto with locks
    | rewrite hw_cyc_cyc
    | rewrite set_procs_twice
    | rewrite set_hw_twice
    | rewrite list_insert_insert_eq ].

(** [l !! i = Some ?p] for a table updated at [i]. *)
Ltac lookup_tac :=
  kred;
  first [ eassumption
        | rewrite list_lookup_insert_eq;
            [ reflexivity
            | rewrite ?length_insert; first [assumption | eapply lookup_lt_Some; eassumption | lia ] ]
        | rewrite list_lookup_insert_ne by (first [assumption | congruence | lia]); lookup_tac ].

Ltac wp_step :=
  lazymatch goal with
  | |- wp (bind _ _) _ _ => apply wp_bind
  | |- wp (ret _) _ _ => apply wp_ret
  | |- wp (gets _) _ _ => apply wp_gets
  | |- wp (modify _) _ _ => apply wp_modify
  | |- wp (printk _ _) _ _ => apply wp_printk
  | |- wp intr_on _ _ => apply wp_modify
  | |- wp intr_off _ _ => apply wp_modify
  | |- wp (modcpu _) _ _ => apply wp_modify
  | |- wp (acquire _) _ _ => apply wp_acquire; [kred; auto 6 with locks|]
  | |- wp (release _) _ _ =>
      eapply wp_release; [knorm; reflexivity | auto 6 with locks | auto 6 with locks |]
  | |- wp (getp _) _ _ => eapply wp_getp; [lookup_tac|]
  | |- wp (setp _ _) _ _ => eapply wp_setp; [lookup_tac|]
  | |- wp (when _ _) _ _ => apply wp_when; intros ?
  end; knorm.

Ltac wp_run := repeat wp_step.

Section Loops.

Context {mem : Type} {cfg : config} {svc : services mem} {sym : symbols}.
Implicit Types s : kst mem.

Lemma wp_mlfq_next_seq s (Q : Z -> kst mem -> Prop) :
  hw_ok (k_hw s) -> free (k_hw s) LSeq ->
  (let g := u64 (mlfq_global_seq s + 1) in
   Q g (set_mlfq_global_seq g (set_k_hw (hw_cyc (k_hw s)) s))) ->
  wp mlfq_next_seq s Q.
Proof. intros Hok Hf HQ. unfold mlfq_next_seq. wp_run. exact HQ. Qed.

(** ** Sweeps *)

(** Apply [f] to every entry, threading the sequence counter. *)
Fixpoint sweep (f : proc -> Z -> proc * Z) (ps : list proc) (g : Z) : list proc * Z :=
  match ps with
  | [] => ([], g)
  | p :: ps' => let '(p', g1) := f p g in
                let '(ps1, g2) := sweep f ps' g1 in (p' :: ps1, g2)
  end.

Lemma sweep_app f ps qs g :
  sweep f (ps ++ qs) g =
  (fst (sweep f ps g) ++ fst (sweep f qs (snd (sweep f ps g))),
   snd (sweep f qs (snd (sweep f ps g)))).
Proof.
  revert g. induction ps as [|p ps IH]; intros g; simpl.
  - by destruct (sweep f qs g).
  - destruct (f p g) as [p' g1]. rewrite IH. by destruct (sweep f ps g1).
Qed.

Lemma length_sweep f ps g : length (fst (sweep f ps g)) = length ps.
Proof.
  revert g. induction ps as [|p ps IH]; intros g; simpl; [done|].
  destruct (f p g) as [p' g1]. specialize (IH g1). destruct (sweep f ps g1). simpl in *. lia.
Qed.

(** The counter before the entry [i] is reached. *)
Lemma sweep_lookup f ps g i p : ps !! i = Some p ->
  fst (sweep f ps g) !! i = Some (fst (f p (snd (sweep f (take i ps) g)))).
Proof.
  revert g i. induction ps as [|q ps IH]; intros g i Hi; [done|].
  destruct i as [|i]; simpl in *.
  - simplify_eq. destruct (f p g) as [p' g1]. by destruct (sweep f ps g1).
  - specialize (IH (snd (f q g)) i Hi). destruct (f q g) as [q' g1]. simpl in *.
    destruct (sweep f ps g1), (sweep f (take i ps) g1). simpl in *. done.
Qed.

(** [s] with the table swept. *)
Definition swept (f : proc -> Z -> proc * Z) (n : nat) s : kst mem :=
  let r := sweep f (take n (k_procs s)) (mlfq_global_seq s) in
  set_k_procs (fst r ++ drop n (k_procs s)) (set_mlfq_global_seq (snd r) s).

Lemma swept_all f s : swept f (length (k_procs s)) s =
  set_k_procs (fst (sweep f (k_procs s) (mlfq_global_seq s)))
    (set_mlfq_global_seq (snd (sweep f (k_procs s) (mlfq_global_seq s))) s).
Proof. unfold swept. by rewrite firstn_all, drop_all, app_nil_r. Qed.

Lemma swept_lookup f n s p : k_procs s !! n = Some p -> k_procs (swept f n s) !! n = Some p.
Proof.
  intros H. pose proof (lookup_lt_Some _ _ _ H). simpl.
  rewrite lookup_app_r; rewrite length_sweep, length_take; [|lia].
  rewrite lookup_drop, <- H. f_equal. lia.
Qed.

Lemma swept_S f n s p : k_procs s !! n = Some p ->
  let t := swept f n s in
  let r := f p (mlfq_global_seq t) in
  swept f (S n) s = set_k_procs (<[n := fst r]> (k_procs t)) (set_mlfq_global_seq (snd r) t).
Proof.
  intros H. pose proof (lookup_lt_Some _ _ _ H) as Hlt. cbv zeta.
  unfold swept. rewrite (take_S_r _ _ p) by done. rewrite sweep_app. simpl.
  destruct (f p (snd (sweep f (take n (k_procs s)) (mlfq_global_seq s)))) as [p' g'] eqn:E.
  simpl. unfold set_k_procs, set_mlfq_global_seq. simpl. f_equal.
  rewrite (drop_S _ p n) by done.
  rewrite insert_app_r_alt by (rewrite length_sweep, length_take; lia).
  rewrite length_sweep, length_take, Nat.min_l, Nat.sub_diag by lia. simpl.
  by rewrite <- app_assoc.
Qed.

(** A loop whose body turns entry [p] into [f p] implements the sweep. *)
Lemma wp_sweep f (body : nat -> M mem (option unit)) s (Q : option unit -> kst mem -> Prop) :
  length (k_procs s) = NPROC ->
  (forall i p h t, k_procs t !! i = Some p -> (i < NPROC)%nat -> k_hw t = h -> hw_near (k_hw s) h ->
     wp (body i) t (fun r t' => r = None /\
       t' = set_k_procs (<[i := fst (f p (mlfq_global_seq t))]> (k_procs t))
              (set_mlfq_global_seq (snd (f p (mlfq_global_seq t))) (set_k_hw (hw_cyc h) t)))) ->
  Q None (set_k_hw (hw_cyc (k_hw s)) (swept f NPROC s)) ->
  wp (for_procs body) s Q.
Proof.
  intros Hlen Hbody HQ. unfold for_procs.
  eapply wp_mono.
  { apply (wp_for_range
      (fun n t => t = (match n with O => s | S _ => set_k_hw (hw_cyc (k_hw s)) (swept f n s) end))
      (fun _ _ => False)); [done|].
    intros n t Hn Ht. destruct (lookup_lt_is_Some_2 (k_procs s) n) as [p Hp]; [lia|].
    assert (Hp' : k_procs t !! n = Some p).
    { subst t. destruct n; [done|]. by apply (swept_lookup f (S n) s p). }
    eapply wp_mono.
    { apply (Hbody n p (k_hw t) t Hp' ltac:(lia) eq_refl). subst t. destruct n; [by left|by right]. }
    intros r t' [-> ->]. rewrite (swept_S f n s p Hp). subst t.
    destruct n; simpl; [done|]. by rewrite hw_cyc_cyc. }
  intros [r|] t Ht; [done|]. by subst t.
Qed.

(** ** Scans *)

(** The value of a read-only loop's variables. *)
Fixpoint ifold {X} (g : nat -> proc -> X -> X) (i : nat) (ps : list proc) (x : X) : X :=
  match ps with
  | [] => x
  | p :: ps' => ifold g (S i) ps' (g i p x)
  end.

Lemma ifold_app {X} (g : nat -> proc -> X -> X) i ps qs x :
  ifold g i (ps ++ qs) x = ifold g (i + length ps)%nat qs (ifold g i ps x).
Proof.
  revert i x. induction ps as [|p ps IH]; intros i x; simpl.
  - by rewrite Nat.add_0_r.
  - rewrite IH. by rewrite Nat.add_succ_comm.
Qed.

Lemma ifold_S {X} (g : nat -> proc -> X -> X) n ps p x : ps !! n = Some p ->
  ifold g 0 (take (S n) ps) x = g n p (ifold g 0 (take n ps) x).
Proof.
  intros H. pose proof (lookup_lt_Some _ _ _ H).
  rewrite (take_S_r _ _ p) by done. rewrite ifold_app, length_take, Nat.min_l by lia. done.
Qed.

(** An invariant of a scan: [J ps x] relates the entries seen to the variables. *)
Lemma ifold_inv {X} (J : list proc -> X -> Prop) (g : nat -> proc -> X -> X) ps x :
  J [] x -> (forall qs p y, J qs y -> p ∈ ps -> J (qs ++ [p]) (g (length qs) p y)) ->
  J ps (ifold g 0 ps x).
Proof.
  intros H0. induction ps as [|p ps IH] using rev_ind; intros Hstep; [done|].
  rewrite ifold_app. simpl. apply Hstep; [apply IH; intros; apply Hstep; [done|] |];
    apply elem_of_app; [by left | right; by apply list_elem_of_singleton].
Qed.

Lemma wp_scan {R X} (g : nat -> proc -> X -> X) (body : nat -> X -> M mem (R + X)) (x : X) s
    (Q : R + X -> kst mem -> Prop) :
  length (k_procs s) = NPROC ->
  (forall i x p h t, k_procs t !! i = Some p -> (i < NPROC)%nat -> k_hw t = h -> hw_near (k_hw s) h ->
     wp (body i x) t (fun r t' => r = inr (g i p x) /\ t' = set_k_hw (hw_cyc h) t)) ->
  Q (inr (ifold g 0 (k_procs s) x)) (set_k_hw (hw_cyc (k_hw s)) s) ->
  wp (for_acc NPROC 0 x body) s Q.
Proof.
  intros Hlen Hbody HQ.
  eapply wp_mono.
  { apply (wp_for_acc
      (fun n y t => y = ifold g 0 (take n (k_procs s)) x /\
                    t = (match n with O => s | S _ => set_k_hw (hw_cyc (k_hw s)) s end))
      (fun _ _ => False)); [by rewrite take_0|].
    intros n y t Hn [-> Ht]. destruct (lookup_lt_is_Some_2 (k_procs s) n) as [p Hp]; [lia|].
    eapply wp_mono.
    { apply (Hbody n _ p (k_hw t) t); subst t; destruct n; try done; try lia; [by left|by right]. }
    intros r t' [-> ->]. split; [symmetry; by apply ifold_S|].
    subst t. destruct n; simpl; [done|]. by rewrite hw_cyc_cyc. }
  intros [r|y] t; [done|]. intros [-> ->]. simpl.
  by rewrite (take_ge (k_procs s)) by lia.
Qed.

(** [b] is the first entry with the least [key] among those with [c]. *)
Definition first_min (c : proc -> bool) (key : proc -> Z) (ps : list proc) (b : nat) : Prop :=
  exists pb, ps !! b = Some pb /\ c pb = true /\
    forall i p, ps !! i = Some p -> c p = true ->
      key pb < key p \/ (key pb = key p /\ (b <= i)%nat).

Definition min_or_none (c : proc -> bool) (key : proc -> Z) (ps : list proc)
    (x : option nat * Z) : Prop :=
  match fst x with
  | None => forall p, p ∈ ps -> c p = false
  | Some b => first_min c key ps b /\ exists pb, ps !! b = Some pb /\ snd x = key pb
  end.

Lemma min_or_none_take c key ps p x : min_or_none c key ps x -> c p = true ->
  (fst x = None \/ key p < snd x) -> min_or_none c key (ps ++ [p]) (Some (length ps), key p).
Proof.
  intros HJ Hc Hlt. split.
  - exists p. split_and!; [by rewrite list_lookup_middle|done|].
    intros i q Hq Hcq. apply lookup_app_Some in Hq as [Hq|[Hle Hq]].
    + left. unfold min_or_none in HJ. destruct (fst x) as [b|].
      * destruct HJ as [(pb & Hb & Hcb & Hmin) (pb' & Hb' & Hk)]. simplify_eq.
        destruct Hlt as [?|Hlt]; [done|]. destruct (Hmin i q Hq Hcq); lia.
      * rewrite (HJ q) in Hcq; [done|]. by eapply list_elem_of_lookup_2.
    + apply list_lookup_singleton_Some in Hq as [? ->]. right. lia.
  - exists p. split; [by rewrite list_lookup_middle|done].
Qed.

Lemma min_or_none_skip c key ps p x : min_or_none c key ps x ->
  (c p = true -> fst x <> None /\ snd x <= key p) -> min_or_none c key (ps ++ [p]) x.
Proof.
  intros HJ Hskip. unfold min_or_none in *. destruct (fst x) as [b|].
  - destruct HJ as [(pb & Hb & Hcb & Hmin) (pb' & Hb' & Hk)]. simplify_eq.
    pose proof (lookup_lt_Some _ _ _ Hb).
    split; exists pb; (split; [by apply lookup_app_l_Some|]); [|done].
    split; [done|]. intros i q Hq Hcq. apply lookup_app_Some in Hq as [Hq|[Hle Hq]]; [eauto|].
    apply list_lookup_singleton_Some in Hq as [? ->]. destruct (Hskip Hcq). lia.
  - intros q [Hq|Hq]%elem_of_app; [by apply HJ|].
    apply list_elem_of_singleton in Hq as ->. destruct (c p); [|done].
    by destruct (Hskip eq_refl).
Qed.

(** ** Searches *)

(** A loop that leaves with [r] at the first entry that satisfies [b]. *)
Lemma wp_search {R} (b : proc -> bool) (r : R) (body : nat -> M mem (option R)) s
    (Q : option R -> kst mem -> Prop) :
  length (k_procs s) = NPROC ->
  (forall i p h t, k_procs t !! i = Some p -> (i < NPROC)%nat -> k_hw t = h -> hw_near (k_hw s) h ->
     wp (body i) t (fun o t' => o = (if b p then Some r else None) /\ t' = set_k_hw (hw_cyc h) t)) ->
  Q (if existsb b (k_procs s) then Some r else None) (set_k_hw (hw_cyc (k_hw s)) s) ->
  wp (for_procs body) s Q.
Proof.
  intros Hlen Hbody HQ. unfold for_procs.
  eapply wp_mono.
  { apply (wp_for_range
      (fun n t => existsb b (take n (k_procs s)) = false /\
                  t = (match n with O => s | S _ => set_k_hw (hw_cyc (k_hw s)) s end))
      (fun x t => x = r /\ existsb b (k_procs s) = true /\ t = set_k_hw (hw_cyc (k_hw s)) s)).
    { by rewrite take_0. }
    intros n t Hn [Hno Ht]. destruct (lookup_lt_is_Some_2 (k_procs s) n) as [p Hp]; [lia|].
    eapply wp_mono.
    { apply (Hbody n p (k_hw t) t); subst t; destruct n; try done; try lia; [by left|by right]. }
    assert (Hcyc : set_k_hw (hw_cyc (k_hw t)) t = set_k_hw (hw_cyc (k_hw s)) s).
    { subst t. destruct n; simpl; [done|]. by rewrite hw_cyc_cyc. }
    intros o t' [-> ->]. rewrite Hcyc. destruct (b p) eqn:Eb.
    - split_and!; [done| |done]. apply existsb_exists. exists p. split; [|done].
      by eapply list_elem_of_In, list_elem_of_lookup_2.
    - split; [|done]. rewrite (take_S_r _ _ p) by done.
      rewrite existsb_app, Hno. simpl. by rewrite Eb. }
  intros [x|] t; simpl.
  - intros (-> & He & ->). by rewrite He in HQ.
  - intros [Hno ->]. rewrite (take_ge (k_procs s)) in Hno by lia. by rewrite Hno in HQ.
Qed.

(** A loop that does nothing until the first entry that satisfies [P] and
    leaves there. *)
Lemma wp_find {R} (P : proc -> Prop) `{!forall p, Decision (P p)} (body : nat -> M mem (option R)) s
    (Q : option R -> kst mem -> Prop) :
  length (k_procs s) = NPROC ->
  (forall i p h t, k_procs t !! i = Some p -> (i < NPROC)%nat -> k_hw t = h -> hw_near (k_hw s) h ->
     ~ P p -> wp (body i) t (fun o t' => o = None /\ t' = set_k_hw (hw_cyc h) t)) ->
  match list_find P (k_procs s) with
  | Some (i, p) => forall t, t = s \/ t = set_k_hw (hw_cyc (k_hw s)) s ->
      wp (body i) t (fun o t' => match o with Some x => Q (Some x) t' | None => False end)
  | None => Q None (set_k_hw (hw_cyc (k_hw s)) s)
  end ->
  wp (for_procs body) s Q.
Proof.
  intros Hlen Hbody HQ. unfold for_procs.
  eapply wp_mono.
  { apply (wp_for_range
      (fun n t => (forall j p, (j < n)%nat -> k_procs s !! j = Some p -> ~ P p) /\
                  t = (match n with O => s | S _ => set_k_hw (hw_cyc (k_hw s)) s end))
      (fun x t => Q (Some x) t)); [split; [intros; lia|done]|].
    intros n t Hn [Hno Ht]. destruct (lookup_lt_is_Some_2 (k_procs s) n) as [p Hp]; [lia|].
    assert (Hts : t = s \/ t = set_k_hw (hw_cyc (k_hw s)) s) by (destruct n; subst; auto).
    destruct (decide (P p)) as [HP|HP].
    - assert (Hf : list_find P (k_procs s) = Some (n, p)).
      { apply list_find_Some. split_and!; [done|done|]. intros j y Hj Hjn. exact (Hno j y Hjn Hj). }
      rewrite Hf in HQ. eapply wp_mono; [by apply HQ|]. by intros [x|] t'.
    - assert (Hnear : hw_near (k_hw s) (k_hw t)) by (destruct Hts as [->| ->]; [by left|by right]).
      eapply wp_mono.
      { apply (Hbody n p (k_hw t) t); [by destruct Hts as [->| ->]|lia|done|done|done]. }
      intros o t' [-> ->]. split.
      + intros j q Hj Hq. destruct (decide (j = n)) as [->|]; [by simplify_eq|].
        apply (Hno j q); [lia|done].
      + destruct Hts as [->| ->]; simpl; [done|]. by rewrite hw_cyc_cyc. }
  intros [x|] t; [done|]. intros [Hno ->]. simpl.
  destruct (list_find P (k_procs s)) as [[i p]|] eqn:Hf; [|done].
  apply list_find_Some in Hf as (Hi & HP & _). exfalso. eapply (Hno i p); [|done|done].
  apply lookup_lt_Some in Hi. lia.
Qed.

(** The same for a loop with variables that leaves the state as it is. *)
Lemma wp_find_acc {R X} (P : proc -> Prop) `{!forall p, Decision (P p)} (g : nat -> proc -> X -> X)
    (body : nat -> X -> M mem (R + X)) (x : X) s (Q : R + X -> kst mem -> Prop) :
  length (k_procs s) = NPROC ->
  (forall i y p, k_procs s !! i = Some p -> (i < NPROC)%nat -> ~ P p ->
     wp (body i y) s (fun o t => o = inr (g i p y) /\ t = s)) ->
  match list_find P (k_procs s) with
  | Some (i, p) => forall y,
      wp (body i y) s (fun o t => match o with inl r => Q (inl r) t | inr _ => False end)
  | None => Q (inr (ifold g 0 (k_procs s) x)) s
  end ->
  wp (for_acc NPROC 0 x body) s Q.
Proof.
  intros Hlen Hbody HQ.
  eapply wp_mono.
  { apply (wp_for_acc
      (fun n y t => (forall j p, (j < n)%nat -> k_procs s !! j = Some p -> ~ P p) /\
                    y = ifold g 0 (take n (k_procs s)) x /\ t = s)
      (fun r t => Q (inl r) t)); [split_and!; [intros; lia|by rewrite take_0|done]|].
    intros n y t Hn (Hno & -> & ->). destruct (lookup_lt_is_Some_2 (k_procs s) n) as [p Hp]; [lia|].
    destruct (decide (P p)) as [HP|HP].
    - assert (Hf : list_find P (k_procs s) = Some (n, p)).
      { apply list_find_Some. split_and!; [done|done|]. intros j q Hj Hjn. exact (Hno j q Hjn Hj). }
      rewrite Hf in HQ. eapply wp_mono; [by apply HQ|]. by intros [r|z] t'.
    - eapply wp_mono; [by apply (Hbody n _ p); [|lia|]|]. intros o t' [-> ->]. split_and!.
      + intros j q Hj Hq. destruct (decide (j = n)) as [->|]; [by simplify_eq|].
        apply (Hno j q); [lia|done].
      + symmetry. by apply ifold_S.
      + done. }
  intros [r|z] t; [done|]. intros (Hno & -> & ->). simpl.
  destruct (list_find P (k_procs s)) as [[i p]|] eqn:Hf.
  - apply list_find_Some in Hf as (Hi & HP & _). exfalso. eapply (Hno i p); [|done|done].
    apply lookup_lt_Some in Hi. lia.
  - by rewrite (take_ge (k_procs s)) by lia.
Qed.

End Loops.

(** [wp_step] extended with the calls the process code makes under a lock. *)
Ltac wp_go :=
  repeat first
    [ wp_step
    | lazymatch goal with
      | |- wp mlfq_next_seq _ _ =>
          apply wp_mlfq_next_seq; [kred; auto 6 with locks .. | cbv zeta; knorm]
      | |- wp (ifdef_MLFQ _) _ _ => unfold ifdef_MLFQ; destruct SCHEDULER
      end ].

(** The facts a loop body starts from. *)
Ltac near_facts :=
  repeat match goal with
  | Hh : hw_near ?h0 ?h, H : hw_ok ?h0 |- _ =>
      lazymatch goal with H' : hw_ok h |- _ => fail | _ => pose proof (near_ok _ _ H Hh) end
  | Hh : hw_near ?h0 ?h, H : procs_free ?h0 |- _ =>
      lazymatch goal with H' : procs_free h |- _ => fail | _ => pose proof (near_procs _ _ H Hh) end
  | Hh : hw_near ?h0 ?h, H : free ?h0 ?l |- _ =>
      lazymatch goal with H' : free h l |- _ => fail | _ => pose proof (near_free _ _ _ H Hh) end
  end.

(** One step of code that may switch. *)
Ltac wps_step :=
  lazymatch goal with
  | |- wps (bind _ _) _ _ _ => apply wps_bind
  | |- wps swtch _ _ _ => apply wps_swtch
  | |- wps _ _ _ _ => apply wps_wp; wp_step
  end.

Ltac wps_go := repeat wps_step.

(** Equality of two descriptions of a state. *)
Ltac state_eq :=
  first [ reflexivity
        | rewrite list_insert_id by (assumption || done);
          match goal with |- _ = ?x => match x with context [set_k_hw _ ?t] => destruct t; reflexivity end end ].
