(* ===== verification/ProcFacts.v ===== *)
(** * What the process operations do

    The operations of [Proc.v] as functions of the process table: wakeups, the
    sleep protocol, kill, allocation, exit and wait. *)

From stdpp Require Import base list gmap strings.
From Stdlib Require Import ZArith Lia.
From S2P Require Import Prelude KString KernelBase Proc KernelLoops.

Open Scope Z_scope.

Section ProcFacts.

Context {mem : Type} {cfg : config} {svc : services mem} {sym : symbols}.
Implicit Types s : kst mem.

(** ** Wakeup *)

(** A sleeper made runnable; the MLFQ puts it at the tail of its queue. *)
Definition make_runnable (p : proc) (g : Z) : proc * Z :=
  match SCHEDULER with
  | SCHEDULER_MLFQ => (set_mlfq_enter_seq (u64 (g + 1)) (set_p_state RUNNABLE p), u64 (g + 1))
  | _ => (set_p_state RUNNABLE p, g)
  end.

Definition wake1 (ch : chan_t) (p : proc) (g : Z) : proc * Z :=
  if bool_decide (p_chan p = ch) then
    let p' := set_p_chan ChNull p in
    if bool_decide (p_state p = SLEEPING) then make_runnable p' g else (p', g)
  else (p, g).

Lemma wp_wakeup ch s (Q : unit -> kst mem -> Prop) :
  length (k_procs s) = NPROC -> hw_ok (k_hw s) -> procs_free (k_hw s) -> free (k_hw s) LSeq ->
  Q tt (set_k_hw (hw_cyc (k_hw s)) (swept (wake1 ch) NPROC s)) ->
  wp (wakeup ch) s Q.
Proof.
  intros Hlen Hok Hp Hq HQ. unfold wakeup. apply wp_bind.
  apply (wp_sweep (wake1 ch)); [done| |by apply wp_ret].
  intros i p h t Hi Hlt Ht Hh. near_facts. subst h. unfold wake1, make_runnable. wp_go.
  all: repeat match goal with H : bool_decide _ = _ |- _ => rewrite H end;
       try (destruct SCHEDULER; try done); split; try done; state_eq.
Qed.

(** What a wakeup does to the entry [p] when the counter stands at [g]. *)
Lemma wakeup_spec ch s :
  length (k_procs s) = NPROC -> hw_ok (k_hw s) -> procs_free (k_hw s) -> free (k_hw s) LSeq ->
  wakeup ch s =
  Done tt (set_k_procs (fst (sweep (wake1 ch) (k_procs s) (mlfq_global_seq s)))
            (set_mlfq_global_seq (snd (sweep (wake1 ch) (k_procs s) (mlfq_global_seq s)))
               (set_k_hw (hw_cyc (k_hw s)) s))).
Proof.
  intros Hlen Hok Hp Hq. apply wp_eq. apply wp_wakeup; [done..|].
  split; [done|]. rewrite <- Hlen at 1. by rewrite swept_all.
Qed.

(** ** The sleep protocol *)

Lemma wp_curproc i s (Q : nat -> kst mem -> Prop) :
  hw_ok (k_hw s) -> c_proc (hw_cpu (k_hw s)) = Some i ->
  Q i (set_k_hw (hw_cyc (k_hw s)) s) -> wp curproc s Q.
Proof.
  intros Hok Hc HQ. unfold curproc. apply wp_bind, wp_myproc; [done|]. rewrite Hc. by apply wp_ret.
Qed.

(** The current process [i] holds its own lock and no other. *)
Definition own_lock (i : nat) (h : hw) : Prop :=
  hw_ok h /\ free h (LProc i) /\ c_noff (hw_cpu h) = 0 /\ c_proc (hw_cpu h) = Some i.

Lemma wps_sched i p h s (QD : unit -> kst mem -> Prop) (QS : kst mem -> (kst mem -> run mem unit) -> Prop) :
  k_hw s = hw_acq (LProc i) h -> own_lock i h -> k_procs s !! i = Some p -> p_state p <> RUNNING ->
  QS s (modcpu (set_c_intena (hw_sie h))) ->
  wps sched s QD QS.
Proof.
  intros Hs (Hok & Hf & Hn & Hc) Hp Hst HQ. unfold sched.
  assert (Hid : set_k_hw (hw_cyc (k_hw s)) s = s).
  { rewrite Hs, hw_cyc_acq by done. rewrite <- Hs. apply set_hw_id. }
  apply wps_bind, wps_wp, (wp_curproc i); [rewrite Hs; auto with locks|by rewrite Hs|].
  rewrite Hid. apply wps_bind, wps_wp, wp_gets. unfold get_lock. rewrite Hs. simpl.
  rewrite lookup_insert_eq. simpl. rewrite bool_decide_true by done. simpl.
  apply wps_bind, wps_wp, wp_gets. rewrite Hs. simpl. rewrite Hn. simpl.
  apply wps_bind, wps_wp. eapply wp_getp; [done|].
  rewrite bool_decide_false by done. apply wps_bind, wps_wp, wp_gets. rewrite Hs. simpl.
  apply wps_bind, wps_wp, wp_gets. rewrite Hs. simpl. rewrite Hn. simpl.
  apply wps_bind, wps_swtch. exact HQ.
Qed.

(** The end of [sleep] and [yield], when the process runs again on some hart. *)
Lemma resume_unlock i h b s : k_hw s = hw_acq (LProc i) h -> hw_ok h -> free h (LProc i) ->
  c_noff (hw_cpu h) = 0 ->
  (modcpu (set_c_intena b) ;; release (LProc i)) s =
  Done tt (set_k_hw (mkhw (hw_locks h) (mkcpu (c_proc (hw_cpu h)) 0 b) b (hw_hart h)) s).
Proof.
  intros Hs Hok Hf Hn. destruct s, h as [locks [cp n ie] sie hart]. simpl in *. subst.
  apply wp_eq. do 2 wp_step.
  apply (wp_release _ (mkhw locks (mkcpu cp 0 b) b hart)); [done|by split|done|]. done.
Qed.

(** When the channel has been cleared by a wakeup. *)
Lemma sleep_returns i p s :
  k_procs s !! i = Some p -> hw_ok (k_hw s) -> free (k_hw s) (LProc i) ->
  c_proc (hw_cpu (k_hw s)) = Some i -> p_chan p = ChNull ->
  sleep s = Done tt (set_k_hw (hw_cyc (k_hw s)) s).
Proof.
  intros Hp Hok Hf Hc Hch. apply wp_eq. unfold sleep.
  apply wp_bind, (wp_curproc i); [done..|]. do 6 wp_step; [|wp_go; done].
  by rewrite bool_decide_true in *.
Qed.

(** The entry of a process that goes to sleep: rule 5 of the MLFQ restarts its
    time slice and leaves its level. *)
Definition asleep (p : proc) : proc :=
  match SCHEDULER with
  | SCHEDULER_MLFQ => set_mlfq_ticks_used 0 (set_p_state SLEEPING p)
  | _ => set_p_state SLEEPING p
  end.

(** The state in which process [i] leaves the hart with entry [p']. *)
Definition left_hart (i : nat) (p' : proc) s : kst mem :=
  set_k_procs (<[i := p']> (k_procs s)) (set_k_hw (hw_acq (LProc i) (hw_cyc (k_hw s))) s).

(** How it goes on: it gives up its lock and has its interrupt flag back. *)
Definition comes_back (i : nat) s (k : kst mem -> run mem unit) : Prop :=
  forall h t, k_hw t = hw_acq (LProc i) h -> hw_ok h -> free h (LProc i) -> c_noff (hw_cpu h) = 0 ->
    k t = Done tt (set_k_hw (mkhw (hw_locks h) (mkcpu (c_proc (hw_cpu h)) 0 (hw_sie (k_hw s)))
                                  (hw_sie (k_hw s)) (hw_hart h)) t).

Lemma sleep_switches i p s :
  k_procs s !! i = Some p -> own_lock i (k_hw s) -> p_chan p <> ChNull ->
  exists k, sleep s = Switch (left_hart i (asleep p) s) k /\ comes_back i s k.
Proof.
  intros Hp (Hok & Hf & Hn & Hc) Hch.
  cut (exists s1 k, sleep s = Switch s1 k /\ s1 = left_hart i (asleep p) s /\ comes_back i s k).
  { intros (s1 & k & H & -> & Hk). by exists k. }
  apply wps_switch. unfold sleep. apply wps_bind, wps_wp, (wp_curproc i); [done..|].
  do 4 wps_step. rewrite bool_decide_false by done. simpl when.
  apply wps_bind, wps_bind, wps_wp. wp_step. apply wps_bind, wps_wp.
  unfold left_hart, asleep, ifdef_MLFQ. destruct SCHEDULER; wp_step;
    (eapply (wps_sched i _ (hw_cyc (k_hw s)));
      [kred; reflexivity | by split_and! | kred; lookup_tac | done |]).
  all: split; [done|]; intros h t Ht Ho Hfr Hno; by apply (resume_unlock i h).
Qed.

Lemma yield_switches i p s :
  k_procs s !! i = Some p -> own_lock i (k_hw s) ->
  exists k, yield s = Switch (left_hart i (set_p_state RUNNABLE p) s) k /\ comes_back i s k.
Proof.
  intros Hp (Hok & Hf & Hn & Hc).
  cut (exists s1 k, yield s = Switch s1 k /\ s1 = left_hart i (set_p_state RUNNABLE p) s /\
                    comes_back i s k).
  { intros (s1 & k & H & -> & Hk). by exists k. }
  apply wps_switch. unfold yield. apply wps_bind, wps_wp, (wp_curproc i); [done..|].
  do 4 wps_step. apply wps_bind.
  eapply (wps_sched i _ (hw_cyc (k_hw s)));
      [kred; reflexivity | by split_and! | kred; lookup_tac | done |].
  split; [done|]. intros h t Ht Ho Hfr Hno. by apply (resume_unlock i h).
Qed.

Lemma sleep_prepare_spec i p ch s :
  k_procs s !! i = Some p -> hw_ok (k_hw s) -> free (k_hw s) (LProc i) ->
  c_proc (hw_cpu (k_hw s)) = Some i -> ch <> ChNull ->
  sleep_prepare ch s =
  Done tt (set_k_procs (<[i := set_p_chan ch p]> (k_procs s)) (set_k_hw (hw_cyc (k_hw s)) s)).
Proof.
  intros Hp Hok Hf Hc Hch. apply wp_eq. unfold sleep_prepare.
  apply wp_bind, (wp_curproc i); [done..|]. do 2 wp_step. rewrite bool_decide_false by done.
  wp_go. done.
Qed.

(** ** Kill *)

Definition kill1 (p : proc) (g : Z) : proc * Z :=
  let p' := set_p_killed 1 p in
  if bool_decide (p_state p = SLEEPING) then make_runnable p' g else (p', g).

Lemma kkill_spec pid s :
  length (k_procs s) = NPROC -> hw_ok (k_hw s) -> procs_free (k_hw s) -> free (k_hw s) LSeq ->
  kkill pid s =
  match list_find (fun p => p_pid p = pid) (k_procs s) with
  | Some (i, p) =>
      let r := kill1 p (mlfq_global_seq s) in
      Done 0 (set_k_procs (<[i := fst r]> (k_procs s))
               (set_mlfq_global_seq (snd r) (set_k_hw (hw_cyc (k_hw s)) s)))
  | None => Done (-1) (set_k_hw (hw_cyc (k_hw s)) s)
  end.
Proof.
  intros Hlen Hok Hp Hq.
  destruct (list_find _ (k_procs s)) as [[i p]|] eqn:Hf; apply wp_eq; unfold kkill;
    apply wp_bind; (apply (wp_find (fun p => p_pid p = pid));
      [done| intros i' p' h t Hi Hlt Ht Hh HP; near_facts; subst h; do 4 wp_step;
             rewrite (proj2 (Z.eqb_neq _ _)) by done; wp_go; done |]); rewrite Hf.
  - intros t Ht. apply list_find_Some in Hf as (Hi & HP & _). subst pid.
    assert (Hlt : (i < NPROC)%nat) by (rewrite <- Hlen; by eapply lookup_lt_Some).
    unfold kill1, make_runnable.
    destruct Ht; subst t; do 4 wp_step; rewrite Z.eqb_refl; wp_go.
    all: repeat match goal with H : bool_decide _ = _ |- _ => rewrite H; clear H end;
         try (destruct SCHEDULER; try done); rewrite ?hw_cyc_cyc; done.
  - by apply wp_ret.
Qed.

(** ** Freeing an entry *)

(** What [freeproc] gives back, when none of the calls panics. *)
Definition free_mem (p : proc) (m : mem) : option mem :=
  m1 ← (if p_trapframe p =? 0 then Some m else kfree (p_trapframe p) m);
  if p_pagetable p =? 0 then Some m1 else
  m2 ← uvmunmap (p_pagetable p) TRAMPOLINE 1 0 m1;
  m3 ← uvmunmap (p_pagetable p) TRAPFRAME 1 0 m2;
  uvmfree (p_pagetable p) (p_sz p) m3.

(** The entry [freeproc] leaves. *)
Definition freed (p : proc) : proc :=
  let q := mkproc UNUSED ChNull 0 0 0 (p_parent p) (p_kstack p) 0 0 0 (p_context p) (p_ofile p)
             (p_cwd p) (<[0%nat := 0]> (p_name p)) 0 (-1) 0 0 (mlfq_queue p) (mlfq_ticks_used p)
             (mlfq_total_ticks p) (mlfq_enter_seq p) in
  match SCHEDULER with
  | SCHEDULER_MLFQ =>
      set_mlfq_enter_seq 0 (set_mlfq_total_ticks 0 (set_mlfq_ticks_used 0 (set_mlfq_queue 0 q)))
  | _ => q
  end.

Lemma wp_mem_op {A} (f : mem -> option (A * mem)) a m' s (Q : A -> kst mem -> Prop) :
  f (k_mem s) = Some (a, m') -> Q a (set_k_mem m' s) -> wp (mem_op f) s Q.
Proof. intros H HQ. unfold wp, mem_op. by rewrite H. Qed.

Lemma wp_mem_do f m' s (Q : unit -> kst mem -> Prop) :
  f (k_mem s) = Some m' -> Q tt (set_k_mem m' s) -> wp (mem_do f) s Q.
Proof. intros H HQ. unfold mem_do. eapply wp_mem_op; [|exact HQ]. by rewrite H. Qed.

Lemma wp_freeproc i p m' s (Q : unit -> kst mem -> Prop) :
  k_procs s !! i = Some p -> free_mem p (k_mem s) = Some m' ->
  Q tt (set_k_procs (<[i := freed p]> (k_procs s)) (set_k_mem m' s)) ->
  wp (freeproc i) s Q.
Proof.
  intros Hp Hm HQ. unfold free_mem in Hm. apply bind_Some in Hm as (m1 & Hm1 & Hm).
  unfold freeproc. do 3 wp_step.
  assert (Hwp : forall (Q' : unit -> kst mem -> Prop), Q' tt (set_k_mem m1 s) ->
     wp (when (negb (p_trapframe p =? 0)) (mem_do (kfree (p_trapframe p)))) s Q').
  { intros Q' HQ'. destruct (p_trapframe p =? 0); simpl in *.
    - apply wp_ret. simplify_eq. by destruct s.
    - by eapply wp_mem_do. }
  apply Hwp. clear Hwp. do 5 wp_step.
  assert (Hwp : forall t (Q' : unit -> kst mem -> Prop), k_mem t = m1 -> Q' tt (set_k_mem m' t) ->
     wp (when (negb (p_pagetable p =? 0)) (proc_freepagetable (p_pagetable p) (p_sz p))) t Q').
  { intros t Q' Ht HQ'. destruct (p_pagetable p =? 0); simpl in *.
    - apply wp_ret. simplify_eq. by destruct t.
    - apply bind_Some in Hm as (m2 & Hm2 & Hm). apply bind_Some in Hm as (m3 & Hm3 & Hm).
      subst m1. unfold proc_freepagetable.
      apply wp_bind. eapply wp_mem_do; [exact Hm2|]. apply wp_bind.
      eapply wp_mem_do; [exact Hm3|]. eapply wp_mem_do; [exact Hm|]. exact HQ'. }
  apply Hwp; [done|]. kred. do 23 wp_step. unfold ifdef_MLFQ, freed in *.
  destruct SCHEDULER; wp_go; exact HQ.
Qed.
(** ** Allocating an entry *)

(** The memory calls of [allocproc] all succeed: trapframe page [tf], page
    table [pt]. *)
Definition alloc_mem (m : mem) (tf pt : Z) (m' : mem) : Prop :=
  exists m1 m2 m3 r1 r2,
    kalloc m = (tf, m1) /\ tf <> 0 /\ uvmcreate m1 = (pt, m2) /\ pt <> 0 /\
    mappages pt TRAMPOLINE PGSIZE sym_trampoline (Z.lor PTE_R PTE_X) m2 = Some (r1, m3) /\ 0 <= r1 /\
    mappages pt TRAPFRAME PGSIZE tf (Z.lor PTE_R PTE_W) m3 = Some (r2, m') /\ 0 <= r2.

(** The sequence counter after [mlfq_next_seq], where it is compiled in. *)
Definition next_seq (g : Z) : Z :=
  match SCHEDULER with SCHEDULER_MLFQ => u64 (g + 1) | _ => g end.

(** The entry of a new process: at the tail of queue 0, never yet run. *)
Definition born (p : proc) (pid tf pt t g : Z) : proc :=
  let q := mkproc USED (p_chan p) (p_killed p) (p_xstate p) pid (p_parent p) (p_kstack p) (p_sz p)
             pt tf (mkcontext sym_forkret (u64 (p_kstack p + PGSIZE)) 0 0 0 0 0 0 0 0 0 0 0 0)
             (p_ofile p) (p_cwd p) (p_name p) t (-1) 0 0
             (mlfq_queue p) (mlfq_ticks_used p) (mlfq_total_ticks p) (mlfq_enter_seq p) in
  match SCHEDULER with
  | SCHEDULER_MLFQ =>
      set_mlfq_enter_seq (u64 (g + 1))
        (set_mlfq_total_ticks 0 (set_mlfq_ticks_used 0 (set_mlfq_queue 0 q)))
  | _ => q
  end.

Lemma wp_allocpid s (Q : Z -> kst mem -> Prop) : hw_ok (k_hw s) -> free (k_hw s) LPid ->
  Q (k_nextpid s) (set_k_nextpid (i32 (k_nextpid s + 1)) (set_k_hw (hw_cyc (k_hw s)) s)) ->
  wp allocpid s Q.
Proof. intros Hok Hf HQ. unfold allocpid. wp_go. exact HQ. Qed.

Lemma wp_kalloc_page tf m1 s (Q : Z -> kst mem -> Prop) : kalloc (k_mem s) = (tf, m1) -> tf <> 0 ->
  Q tf (set_k_tfs (<[tf := tf_junk]> (k_tfs s)) (set_k_mem m1 s)) -> wp kalloc_page s Q.
Proof.
  intros Hk Htf HQ. unfold kalloc_page. apply wp_bind. eapply wp_mem_op; [by rewrite Hk|].
  rewrite (proj2 (Z.eqb_neq _ _)) by done. simpl when. apply wp_bind, wp_modify. by apply wp_ret.
Qed.

Lemma wp_proc_pagetable i p m1 m2 m3 m4 pt r1 r2 s (Q : Z -> kst mem -> Prop) :
  k_procs s !! i = Some p -> k_mem s = m1 -> uvmcreate m1 = (pt, m2) -> pt <> 0 ->
  mappages pt TRAMPOLINE PGSIZE sym_trampoline (Z.lor PTE_R PTE_X) m2 = Some (r1, m3) -> 0 <= r1 ->
  mappages pt TRAPFRAME PGSIZE (p_trapframe p) (Z.lor PTE_R PTE_W) m3 = Some (r2, m4) -> 0 <= r2 ->
  Q pt (set_k_mem m4 s) -> wp (proc_pagetable i) s Q.
Proof.
  intros Hp Hm Hu Hpt Ht Hr1 Hf Hr2 HQ. unfold proc_pagetable.
  apply wp_bind. eapply wp_mem_op; [by rewrite Hm, Hu|]. rewrite (proj2 (Z.eqb_neq _ _)) by done.
  apply wp_bind. eapply wp_mem_op; [exact Ht|]. rewrite (proj2 (Z.ltb_ge _ _)) by done.
  apply wp_bind. eapply wp_getp; [exact Hp|].
  apply wp_bind. eapply wp_mem_op; [exact Hf|]. rewrite (proj2 (Z.ltb_ge _ _)) by done.
  apply wp_ret. by destruct s.
Qed.

(** The locks [allocproc] takes beside the entry's own. *)
Definition alloc_locks (h : hw) : Prop :=
  hw_ok h /\ free h LPid /\ free h LTicks /\ free h LSeq.

(** [s] after [allocproc] has made [p'] of entry [i], whose lock it holds. *)
Definition allocated (i : nat) (p' : proc) (tf : Z) (m' : mem) s : kst mem :=
  mkkst (<[i := p']> (k_procs s)) (k_initproc s) (i32 (k_nextpid s + 1)) (next_seq (mlfq_global_seq s))
    (k_ticks s) (<[tf := tf_junk]> (k_tfs s)) (k_first s) (k_csr s) (k_out s) m' (k_hw s).

Lemma wp_allocproc_found i p h tf pt m' s (Q : option nat -> kst mem -> Prop) :
  k_procs s !! i = Some p -> k_hw s = hw_acq (LProc i) h -> alloc_locks h ->
  alloc_mem (k_mem s) tf pt m' ->
  Q (Some i) (allocated i (born p (k_nextpid s) tf pt (k_ticks s) (mlfq_global_seq s)) tf m' s) ->
  wp (allocproc_found i) s Q.
Proof.
  intros Hp Hs (Hok & Hfp & Hft & Hfs) (m1 & m2 & m3 & r1 & r2 & Hk & Htf & Hu & Hpt & Hm1 & Hr1 & Hm2 & Hr2) HQ.
  assert (Hlt : (i < length (k_procs s))%nat) by by eapply lookup_lt_Some.
  unfold allocproc_found. apply wp_bind, wp_allocpid; [rewrite Hs; auto with locks ..|].
  rewrite Hs, hw_cyc_acq by done. do 5 wp_step.
  eapply wp_kalloc_page; [exact Hk|done|]. kred. do 2 wp_step.
  rewrite (proj2 (Z.eqb_neq _ _)) by done. apply wp_bind.
  eapply wp_proc_pagetable; [lookup_tac|kred; reflexivity|exact Hu|done|exact Hm1|done|exact Hm2|done|].
  do 2 wp_step. rewrite (proj2 (Z.eqb_neq _ _)) by done.
  do 17 wp_step. unfold ifdef_MLFQ, born, allocated, next_seq in *.
  destruct SCHEDULER; wp_go; rewrite <- Hs in *; destruct s; exact HQ.
Qed.

(** The state in which [allocproc] is called. *)
Record alloc_ok (s : kst mem) : Prop := {
  ao_len : length (k_procs s) = NPROC;
  ao_procs : procs_free (k_hw s);
  ao_locks : alloc_locks (k_hw s)
}.

Abbreviation first_unused ps := (list_find (fun p => p_state p = UNUSED) ps).

(** The search of [allocproc], which keeps the lock of the entry it found. *)
Lemma wp_allocproc s (Q : option nat -> kst mem -> Prop) : alloc_ok s ->
  match first_unused (k_procs s) with
  | Some (i, p) => wp (allocproc_found i) (set_k_hw (hw_acq (LProc i) (k_hw s)) s) Q
  | None => Q None (set_k_hw (hw_cyc (k_hw s)) s)
  end ->
  wp allocproc s Q.
Proof.
  intros [Hlen Hp (Hok & _)] HQ. unfold allocproc. apply wp_bind.
  apply (wp_find (fun p => p_state p = UNUSED)); [done| |].
  - intros i p h t Hi Hlt Ht Hh HP. near_facts. subst h. do 4 wp_step.
    rewrite bool_decide_false by done. wp_go. done.
  - destruct (first_unused (k_procs s)) as [[i p]|] eqn:Hf; [|by apply wp_ret].
    apply list_find_Some in Hf as (Hi & HP & _).
    assert (Hlt : (i < NPROC)%nat) by (rewrite <- Hlen; by eapply lookup_lt_Some).
    intros t [->| ->]; do 4 wp_step; rewrite bool_decide_true by done; apply wp_ret; [exact HQ|].
    by rewrite hw_acq_cyc.
Qed.

Lemma allocproc_ok i p tf pt m' s : alloc_ok s -> first_unused (k_procs s) = Some (i, p) ->
  alloc_mem (k_mem s) tf pt m' ->
  allocproc s =
  Done (Some i) (allocated i (born p (k_nextpid s) tf pt (k_ticks s) (mlfq_global_seq s)) tf m'
                   (set_k_hw (hw_acq (LProc i) (k_hw s)) s)).
Proof.
  intros Hs Hf Hm. apply wp_eq, wp_allocproc; [done|]. rewrite Hf.
  apply list_find_Some in Hf as (Hi & _ & _).
  eapply wp_allocproc_found; [exact Hi|reflexivity|apply Hs|exact Hm|]. done.
Qed.

Lemma allocproc_table_full s : alloc_ok s -> first_unused (k_procs s) = None ->
  allocproc s = Done None (set_k_hw (hw_cyc (k_hw s)) s).
Proof. intros Hs Hf. apply wp_eq, wp_allocproc; [done|]. by rewrite Hf. Qed.

(** Without a page for the trapframe the entry is given back; its pid is lost. *)
Lemma allocproc_no_memory i p m1 s : alloc_ok s -> first_unused (k_procs s) = Some (i, p) ->
  kalloc (k_mem s) = (0, m1) -> p_pagetable p = 0 ->
  allocproc s =
  Done None (set_k_procs (<[i := freed p]> (k_procs s)) (set_k_nextpid (i32 (k_nextpid s + 1))
              (set_k_mem m1 (set_k_hw (hw_cyc (k_hw s)) s)))).
Proof.
  intros Hs Hf Hk Hpt. apply wp_eq, wp_allocproc; [done|]. rewrite Hf.
  apply list_find_Some in Hf as (Hi & _ & _). destruct Hs as [Hlen Hp (Hok & Hfp & Hft & Hfs)].
  assert (Hlt : (i < NPROC)%nat) by (rewrite <- Hlen; by eapply lookup_lt_Some).
  unfold allocproc_found. apply wp_bind, wp_allocpid; [kred; auto with locks ..|].
  knorm. do 5 wp_step. unfold kalloc_page. apply wp_bind. eapply wp_mem_op; [kred; by rewrite Hk|].
  apply wp_bind, wp_ret, wp_ret. kred. do 2 wp_step. simpl Z.eqb. cbv iota. apply wp_bind.
  eapply (wp_freeproc _ _ m1); [lookup_tac| |].
  { unfold free_mem. simpl. by rewrite Hpt. }
  knorm. wp_step. wp_step. wp_step. split; [done|]. unfold freed. by destruct SCHEDULER.
Qed.

(** ** [kill(0)]

    The free entries have pid 0, so [kkill(0)] finds one, marks it killed and
    reports success; [allocproc] does not reset the mark. *)

(** [kill(0)] is not refused: the free entries have pid 0, so it marks
    the first one as killed and reports success, and since [allocproc] does
    not reset the mark the next process is born killed. *)
Theorem kill_zero_marks_next_process i p tf pt m' s :
  alloc_ok s -> first_unused (k_procs s) = Some (i, p) ->
  list_find (fun p => p_pid p = 0) (k_procs s) = Some (i, p) ->
  alloc_mem (k_mem s) tf pt m' ->
  exists s1 s2 p', kkill 0 s = Done 0 s1 /\ allocproc s1 = Done (Some i) s2 /\
    k_procs s2 !! i = Some p' /\ p_pid p' = k_nextpid s /\ p_killed p' = 1.
Proof.
  intros Hs Hf Hz Hm. pose proof Hs as [Hlen Hp (Hok & Hfp & Hft & Hfs)].
  assert (Hst : p_state p = UNUSED) by by apply list_find_Some in Hf as (_ & ? & _).
  pose proof (kkill_spec 0 s Hlen Hok Hp Hfs) as Hkill. rewrite Hz in Hkill.
  unfold kill1 in Hkill. rewrite bool_decide_false in Hkill by congruence. simpl in Hkill.
  assert (Hi : k_procs s !! i = Some p) by by apply list_find_Some in Hf as (? & _).
  assert (Hlt : (i < length (k_procs s))%nat) by by eapply lookup_lt_Some.
  match type of Hkill with _ = Done 0 ?t => set (s1 := t) in * end.
  assert (Hf1 : first_unused (k_procs s1) = Some (i, set_p_killed 1 p)).
  { apply list_find_Some in Hf as (_ & _ & Hno). apply list_find_Some. subst s1. simpl.
    split_and!; [by apply list_lookup_insert_eq|done|].
    intros j q Hj Hji. rewrite list_lookup_insert_ne in Hj by lia. by apply (Hno j). }
  assert (Hs1 : alloc_ok s1).
  { subst s1. split; simpl; [by rewrite length_insert|done|done]. }
  exists s1. eexists _, _. split_and!; [done|by apply (allocproc_ok i (set_p_killed 1 p) tf pt m')| | |].
  - simpl. rewrite list_lookup_insert_eq; [done|]. by rewrite length_insert.
  - unfold born. by destruct SCHEDULER.
  - unfold born. by destruct SCHEDULER.
Qed.

(** ** No lost wakeup

    A wakeup between [sleep_prepare] and [sleep] is seen by [sleep]. *)

(** C32.  No lost wakeup: a wakeup on the channel between [sleep_prepare] and
    [sleep] is seen by [sleep], which returns without giving up the processor;
    the process is left running with its channel cleared. *)
Theorem no_lost_wakeup i p ch s :
  length (k_procs s) = NPROC -> hw_ok (k_hw s) -> procs_free (k_hw s) -> free (k_hw s) LSeq ->
  k_procs s !! i = Some p -> c_proc (hw_cpu (k_hw s)) = Some i ->
  p_state p = RUNNING -> ch <> ChNull ->
  exists s1 s2 s3, sleep_prepare ch s = Done tt s1 /\ wakeup ch s1 = Done tt s2 /\
    sleep s2 = Done tt s3 /\ k_procs s3 !! i = Some (set_p_chan ChNull p).
Proof.
  intros Hlen Hok Hp Hq Hi Hc Hst Hch.
  assert (Hlt : (i < NPROC)%nat) by (rewrite <- Hlen; by eapply lookup_lt_Some).
  pose proof (sleep_prepare_spec i p ch s Hi Hok (Hp i Hlt) Hc Hch) as H1.
  match type of H1 with _ = Done tt ?t => set (s1 := t) in * end.
  assert (Hlen1 : length (k_procs s1) = NPROC) by (subst s1; simpl; by rewrite length_insert).
  pose proof (wakeup_spec ch s1 Hlen1 Hok Hp Hq) as H2.
  match type of H2 with _ = Done tt ?t => set (s2 := t) in * end.
  assert (Hi2 : k_procs s2 !! i = Some (set_p_chan ChNull p)).
  { subst s2. cbn [k_procs set_k_procs]. erewrite sweep_lookup.
    2: { subst s1. simpl. apply list_lookup_insert_eq. by rewrite Hlen. }
    unfold wake1. simpl. rewrite bool_decide_true by done.
    rewrite bool_decide_false by congruence. done. }
  pose proof (sleep_returns i _ s2 Hi2 Hok (Hp i Hlt) Hc eq_refl) as H3.
  eexists _, _, _. split_and!; [exact H1|exact H2|exact H3|exact Hi2].
Qed.

(** ** Wait *)

Definition kid (me : nat) (p : proc) : bool := bool_decide (p_parent p = Some me).

Abbreviation dead_kid me p := (p_parent p = Some me /\ p_state p = ZOMBIE).

(** The [copyout]s of [kwait] and [kwaitx], one [int] each; all must succeed. *)
Fixpoint copy_ints (pagetable sz : Z) (l : list (Z * Z)) (m : mem) : option mem :=
  match l with
  | [] => Some m
  | (addr, v) :: l' =>
      if addr =? 0 then copy_ints pagetable sz l' m else
      '(r, m') ← copyout pagetable sz addr (le_bytes 4 v) m;
      if r <? 0 then None else copy_ints pagetable sz l' m'
  end.

Lemma wp_copyout_int me mp addr v l m' s (Q : bool -> kst mem -> Prop) :
  k_procs s !! me = Some mp ->
  copy_ints (p_pagetable mp) (p_sz mp) ((addr, v) :: l) (k_mem s) = Some m' ->
  (forall m1, copy_ints (p_pagetable mp) (p_sz mp) l m1 = Some m' -> Q false (set_k_mem m1 s)) ->
  wp (copyout_int me addr v) s Q.
Proof.
  intros Hme Hc HQ. unfold copyout_int. simpl in Hc. destruct (addr =? 0).
  - apply wp_ret. specialize (HQ _ Hc). by destruct s.
  - apply bind_Some in Hc as ([r m1] & Hc1 & Hc). destruct (r <? 0) eqn:E; [done|].
    apply wp_bind. eapply wp_getp; [done|]. apply wp_bind. eapply wp_mem_op; [exact Hc1|].
    apply wp_ret. rewrite E. by apply HQ.
Qed.

Lemma wp_wait_reap i p m' h s pid (Q : Z + bool -> kst mem -> Prop) :
  k_procs s !! i = Some p -> (i < NPROC)%nat -> k_hw s = hw_acq (LProc i) (hw_acq LWait h) ->
  hw_ok h -> procs_free h -> free h LWait ->
  free_mem p (k_mem s) = Some m' ->
  Q (inl pid) (set_k_procs (<[i := freed (set_p_parent None p)]> (k_procs s))
                (set_k_mem m' (set_k_hw (hw_cyc h) s))) ->
  wp (wait_reap i pid) s Q.
Proof.
  intros Hi Hlt Hs Hok Hp Hf Hm HQ. unfold wait_reap. do 3 wp_step.
  eapply (wp_freeproc _ _ m'); [lookup_tac|done|]. knorm. wp_step.
  eapply (wp_release _ (hw_acq LWait h)); [kred; exact Hs|auto with locks ..|].
  knorm. wp_step. wp_step. wp_step. exact HQ.
Qed.

(** The scan of [kwaitx]: nothing happens until the first dead child. *)
Lemma wp_waitx_scan me mp addr aw ar ast h s (Q : Z + bool -> kst mem -> Prop) :
  length (k_procs s) = NPROC -> k_hw s = hw_acq LWait h -> hw_ok h -> procs_free h ->
  free h LWait -> k_procs s !! me = Some mp ->
  match list_find (fun p => dead_kid me p) (k_procs s) with
  | Some (i, p) =>
      let '(w, r, resp) := waitx_times p in
      exists m1 m2,
        copy_ints (p_pagetable mp) (p_sz mp) [(addr, p_xstate p); (aw, w); (ar, r); (ast, resp)]
          (k_mem s) = Some m1 /\ free_mem p m1 = Some m2 /\
        Q (inl (p_pid p)) (set_k_procs (<[i := freed (set_p_parent None p)]> (k_procs s))
                             (set_k_mem m2 (set_k_hw (hw_cyc h) s)))
  | None => Q (inr (existsb (kid me) (k_procs s))) s
  end ->
  wp (for_acc NPROC 0 false (kwaitx_body me addr aw ar ast)) s Q.
Proof.
  intros Hlen Hs Hok Hp Hf Hme HQ.
  assert (Hid : set_k_hw (hw_cyc (k_hw s)) s = s).
  { rewrite Hs, hw_cyc_acq by done. rewrite <- Hs. apply set_hw_id. }
  apply (wp_find_acc (fun p => dead_kid me p) (fun _ p y => if kid me p then true else y)); [done| |].
  - intros i y p Hi Hlt HP. unfold kwaitx_body, kid. do 2 wp_step.
    destruct (bool_decide (p_parent p = Some me)) eqn:Ek; [|by apply wp_ret].
    apply bool_decide_eq_true in Ek. apply wp_bind, wp_acquire; [rewrite Hs; auto with locks|].
    do 2 wp_step. rewrite bool_decide_false by naive_solver. rewrite Hs. wp_go.
    split; [done|]. rewrite <- Hs. by rewrite set_hw_id.
  - destruct (list_find _ (k_procs s)) as [[i p]|] eqn:Hl.
    + intros y. apply list_find_Some in Hl as (Hi & [Hpar Hst] & _).
      assert (Hlt : (i < NPROC)%nat) by (rewrite <- Hlen; by eapply lookup_lt_Some).
      destruct (waitx_times p) as [[w r] resp] eqn:Et.
      destruct HQ as (m1 & m2 & Hc & Hm & HQ).
      unfold kwaitx_body. do 2 wp_step. rewrite bool_decide_true by done.
      apply wp_bind, wp_acquire; [rewrite Hs; auto with locks|].
      do 2 wp_step. rewrite bool_decide_true by done. rewrite Et.
      apply wp_bind. eapply wp_copyout_int; [exact Hme|exact Hc|]. clear Hc. intros ? Hc.
      apply wp_bind. eapply wp_copyout_int; [exact Hme|exact Hc|]. clear Hc. intros ? Hc.
      apply wp_bind. eapply wp_copyout_int; [exact Hme|exact Hc|]. clear Hc. intros ? Hc.
      apply wp_bind. eapply wp_copyout_int; [exact Hme|exact Hc|]. clear Hc. intros ? Hc.
      simpl in Hc. simplify_eq.
      eapply (wp_wait_reap i p m2 h); [exact Hi|done|kred; by rewrite Hs|done..|]. done.
    + replace (existsb (kid me) (k_procs s)) with
        (ifold (fun _ p y => if kid me p then true else y) 0 (k_procs s) false) in HQ; [done|].
      apply ifold_inv; [done|]. intros qs p y -> _. rewrite existsb_app. simpl.
      destruct (kid me p), (existsb (kid me) qs); done.
Qed.

(** C33.  With a zombie child, [kwaitx] does not sleep: it copies the exit
    status and the waiting, running and response times of the first one to the
    caller, frees that entry and returns its pid, leaving every lock as it
    was. *)
Theorem kwaitx_reaps me mp i p addr aw ar ast fuel m1 m2 s :
  length (k_procs s) = NPROC -> hw_ok (k_hw s) -> procs_free (k_hw s) -> free (k_hw s) LWait ->
  c_proc (hw_cpu (k_hw s)) = Some me -> k_procs s !! me = Some mp ->
  list_find (fun p => dead_kid me p) (k_procs s) = Some (i, p) ->
  (let '(w, r, resp) := waitx_times p in
   copy_ints (p_pagetable mp) (p_sz mp) [(addr, p_xstate p); (aw, w); (ar, r); (ast, resp)]
     (k_mem s) = Some m1) ->
  free_mem p m1 = Some m2 ->
  kwaitx (S fuel) addr aw ar ast s =
  Done (p_pid p) (set_k_procs (<[i := freed (set_p_parent None p)]> (k_procs s))
                   (set_k_mem m2 (set_k_hw (hw_cyc (k_hw s)) s))).
Proof.
  intros Hlen Hok Hp Hf Hc Hme Hl Hcp Hm. apply wp_eq. unfold kwaitx.
  apply wp_bind, (wp_curproc me); [done..|]. wp_step. wp_step. cbn [wait_loop]. wp_step.
  eapply (wp_waitx_scan _ _ _ _ _ _ (hw_cyc (k_hw s)));
    [exact Hlen|kred; reflexivity|auto with locks|auto with locks|auto with locks|exact Hme|].
  kred. rewrite Hl. destruct (waitx_times p) as [[w r] resp]. exists m1, m2.
  split_and!; [done|done|]. apply wp_ret. split; [done|]. by rewrite hw_cyc_cyc.
Qed.

(** Without children [kwaitx] fails at once. *)
Lemma kwaitx_no_children me mp addr aw ar ast fuel s :
  length (k_procs s) = NPROC -> hw_ok (k_hw s) -> procs_free (k_hw s) -> free (k_hw s) LWait ->
  c_proc (hw_cpu (k_hw s)) = Some me -> k_procs s !! me = Some mp ->
  existsb (kid me) (k_procs s) = false ->
  kwaitx (S fuel) addr aw ar ast s = Done (-1) (set_k_hw (hw_cyc (k_hw s)) s).
Proof.
  intros Hlen Hok Hp Hf Hc Hme Hno. apply wp_eq. unfold kwaitx.
  apply wp_bind, (wp_curproc me); [done..|]. wp_step. wp_step. cbn [wait_loop]. wp_step.
  eapply (wp_waitx_scan _ _ _ _ _ _ (hw_cyc (k_hw s)));
    [exact Hlen|kred; reflexivity|auto with locks|auto with locks|auto with locks|exact Hme|].
  kred. destruct (list_find _ (k_procs s)) as [[i p]|] eqn:Hl.
  - apply list_find_Some in Hl as (Hi & [Hpar _] & _).
    assert (Hk : existsb (kid me) (k_procs s) = true); [|by rewrite Hk in Hno].
    apply existsb_exists. exists p. split; [by eapply list_elem_of_In, list_elem_of_lookup_2|].
    by apply bool_decide_eq_true.
  - rewrite Hno. apply wp_bind, wp_ret. simpl orb. cbv iota. wp_go. done.
Qed.

(** The times [kwaitx] reports for a process that lived from [ctime] to
    [etime]: waiting and running time add up to its whole life, and the
    response time is the time until it first ran (0 if it never did); none of
    the unsigned subtractions wraps around. *)
Theorem waitx_times_add_up p : 0 <= p_ctime p <= p_etime p -> p_etime p < 2 ^ 31 ->
  0 <= p_rtime p <= p_etime p - p_ctime p -> p_stime p <= p_etime p ->
  exists w response, waitx_times p = (w, p_rtime p, response) /\ 0 <= w /\
    w + p_rtime p = p_etime p - p_ctime p /\
    response = (if p_ctime p <=? p_stime p then p_stime p - p_ctime p else 0).
Proof.
  intros Hc He Hr Hs. unfold waitx_times. rewrite i32_small by lia. rewrite (proj2 (Z.leb_le _ _)) by lia.
  rewrite (u32_small (p_etime p - p_ctime p)) by lia.
  assert (Hresp : (if p_ctime p <=? p_stime p then u32 (p_stime p - p_ctime p) else 0) =
                  (if p_ctime p <=? p_stime p then p_stime p - p_ctime p else 0)).
  { destruct (_ <=? _) eqn:E; [|done]. bool_to_prop. apply u32_small. lia. }
  rewrite Hresp. destruct (p_rtime p <? _) eqn:E; bool_to_prop; (eexists _, _; split; [done|]).
  - rewrite u32_small by lia. lia.
  - lia.
Qed.

End ProcFacts.
