(* ===== verification/Sched.v ===== *)
(** * [kernel/proc.c]: the three schedulers

    The multi-level feedback queue, its timer handler and priority boost, the
    FIFO scheduler and the round-robin scheduler, written as the source has
    them, with the locks; then what each computes, as a function of the process
    table. *)

From stdpp Require Import base list gmap strings.
From Stdlib Require Import ZArith Lia.
From S2P Require Import Prelude KString KernelBase Proc KernelLoops.

Open Scope Z_scope.

Section Sched.

Context {mem : Type} {cfg : config} {svc : services mem} {sym : symbols}.

(** ** The multi-level feedback queue *)

Definition mlfq_timeslice : list Z := [1; 4; 8; 16].

(** [mlfq_timeslice[q]]; outside the array it is undefined. *)
Definition timeslice_at (q : Z) : option Z :=
  if q <? 0 then None else mlfq_timeslice !! Z.to_nat q.

Definition mlfq_boost : M mem unit :=
  let* _ := for_procs (R := unit) (fun i =>
    acquire (LProc i) ;;
    let* p := getp i in
    when (bool_decide (p_state p <> UNUSED /\ p_state p <> ZOMBIE)) (
      setp i (set_mlfq_queue 0) ;;
      setp i (set_mlfq_ticks_used 0) ;;
      let* q := mlfq_next_seq in
      setp i (set_mlfq_enter_seq q)) ;;
    release (LProc i) ;;
    ret None) in
  ret tt.

Definition mlfq_has_higher_priority (cur_q : Z) : M mem bool :=
  let* r := for_procs (fun i =>
    acquire (LProc i) ;;
    let* p := getp i in
    if (bool_decide (p_state p = RUNNABLE) && (mlfq_queue p <? cur_q))%bool
    then release (LProc i) ;; ret (Some true)
    else release (LProc i) ;; ret None) in
  ret (match r with Some b => b | None => false end).

Definition MLFQ_TRACE : string := "[MLFQ_TRACE] %d %d %d\n".

(** Returns whether [p] should yield the CPU. *)
Definition mlfq_tick_handler (i : nat) : M mem bool :=
  setp i (fun p => set_mlfq_ticks_used (mlfq_ticks_used p + 1) p) ;;
  setp i (fun p => set_mlfq_total_ticks (i32 (mlfq_total_ticks p + 1)) p) ;;
  setp i (fun p => set_p_rtime (u32 (p_rtime p + 1)) p) ;;
  acquire LTicks ;;
  let* cur_t := gets k_ticks in
  release LTicks ;;
  let* p := getp i in
  when (3 <=? p_pid p)
    (printk MLFQ_TRACE [PInt cur_t; PInt (p_pid p); PInt (mlfq_queue p)]) ;;
  let should_yield := ((0 <? cur_t) && (cur_t mod 48 =? 0))%bool in
  match timeslice_at (mlfq_queue p) with
  | None => undefined
  | Some slice =>
      if slice <=? mlfq_ticks_used p then
        setp i (set_mlfq_ticks_used 0) ;;
        when (mlfq_queue p <? 3) (setp i (fun p => set_mlfq_queue (mlfq_queue p + 1) p)) ;;
        let* q := mlfq_next_seq in
        setp i (set_mlfq_enter_seq q) ;;
        ret true
      else
        let* higher := mlfq_has_higher_priority (mlfq_queue p) in
        if higher then ret true else ret should_yield
  end.

(** The scan of one queue: [best] and [best_seq] are the loop's variables. *)
Definition mlfq_scan (q : Z) : M mem (option nat * Z) :=
  let* r := for_acc (R := Empty_set) NPROC 0 (None, 0) (fun i '(best, best_seq) =>
    acquire (LProc i) ;;
    let* p := getp i in
    let next :=
      if (bool_decide (p_state p = RUNNABLE) && (mlfq_queue p =? q))%bool then
        if (bool_decide (best = None) || (mlfq_enter_seq p <? best_seq))%bool
        then (Some i, mlfq_enter_seq p) else (best, best_seq)
      else (best, best_seq) in
    release (LProc i) ;;
    ret (inr next)) in
  match r with inl e => match e with end | inr x => ret x end.

(** [if (p->stime == -1) p->stime = ticks;] under [tickslock]. *)
Definition note_first_run (i : nat) : M mem unit :=
  let* p := getp i in
  when (p_stime p =? -1) (
    acquire LTicks ;;
    let* t := gets k_ticks in
    setp i (set_p_stime (i32 t)) ;;
    release LTicks).

(** Run process [i], whose lock is held, until it switches back. *)
Definition run_process (i : nat) : M mem unit :=
  setp i (set_p_state RUNNING) ;;
  modcpu (set_c_proc (Some i)) ;;
  swtch ;;
  modcpu (set_c_intena false) ;;
  modcpu (set_c_proc None).

(** One queue of the scan of [scheduler]: whether a process was run. *)
Definition mlfq_try_queue (q : Z) : M mem bool :=
  let* r := mlfq_scan q in
  match fst r with
  | None => ret false
  | Some best =>
      acquire (LProc best) ;;
      let* p := getp best in
      if (bool_decide (p_state p = RUNNABLE) && (mlfq_queue p =? q))%bool then
        note_first_run best ;;
        let* p := getp best in
        when (3 <=? p_pid p) (
          acquire LTicks ;;
          let* cur_t := gets k_ticks in
          release LTicks ;;
          printk MLFQ_TRACE [PInt cur_t; PInt (p_pid p); PInt (mlfq_queue p)]) ;;
        run_process best ;;
        release (LProc best) ;;
        ret true
      else
        release (LProc best) ;;
        ret false
  end.

(** [for (int q = 0; q <= 3 && !found; q++)] *)
Fixpoint mlfq_queues (n : nat) (q : Z) : M mem bool :=
  match n with
  | O => ret false
  | S n' => let* found := mlfq_try_queue q in
            if found then ret true else mlfq_queues n' (q + 1)
  end.

(** One turn of the [for (;;)] of [scheduler]; [false] is the [wfi]. *)
Definition mlfq_scheduler_turn : M mem bool :=
  intr_on ;;
  intr_off ;;
  mlfq_queues 4 0.

(** ** The FIFO scheduler *)

Definition fifo_scan : M mem (option nat * Z) :=
  let* r := for_acc (R := Empty_set) NPROC 0 (None, 2147483647) (fun i '(best, min_pid) =>
    acquire (LProc i) ;;
    let* p := getp i in
    let next :=
      if (bool_decide (p_state p = RUNNABLE) && (p_pid p <? min_pid))%bool
      then (Some i, p_pid p) else (best, min_pid) in
    release (LProc i) ;;
    ret (inr next)) in
  match r with inl e => match e with end | inr x => ret x end.

Definition fifo_scheduler_turn : M mem bool :=
  intr_on ;;
  intr_off ;;
  let* r := fifo_scan in
  match fst r with
  | None => ret false
  | Some best =>
      acquire (LProc best) ;;
      let* p := getp best in
      when (bool_decide (p_state p = RUNNABLE)) (
        note_first_run best ;;
        run_process best) ;;
      release (LProc best) ;;
      ret true
  end.

(** ** The round-robin scheduler *)

Definition rr_body (i : nat) (found : bool) : M mem (Empty_set + bool) :=
  acquire (LProc i) ;;
  let* p := getp i in
  let* found' :=
    (if bool_decide (p_state p = RUNNABLE) then
       note_first_run i ;;
       run_process i ;;
       ret true
     else ret found) in
  release (LProc i) ;;
  ret (inr found').

Definition rr_scheduler_turn : M mem bool :=
  intr_on ;;
  intr_off ;;
  let* r := for_acc NPROC 0 false rr_body in
  match r with inl e => match e with end | inr x => ret x end.

(** ** [scheduler]

    [fuel] turns of the endless loop; the real one never returns. *)
Fixpoint scheduler_loop (fuel : nat) : M mem unit :=
  match fuel with
  | O => fun _ => OutOfFuel
  | S fuel' =>
      let* _ := match SCHEDULER with
                | SCHEDULER_MLFQ => mlfq_scheduler_turn
                | SCHEDULER_FIFO => fifo_scheduler_turn
                | SCHEDULER_RR => rr_scheduler_turn
                end in
      scheduler_loop fuel'
  end.

Definition scheduler (fuel : nat) : M mem unit :=
  modcpu (set_c_proc None) ;;
  scheduler_loop fuel.

(** ** What the MLFQ code computes *)

(** A process the boost moves: not [UNUSED] and not [ZOMBIE]. *)
Definition live (p : proc) : bool := bool_decide (p_state p <> UNUSED /\ p_state p <> ZOMBIE).

Definition boost1 (p : proc) (g : Z) : proc * Z :=
  if live p
  then (set_mlfq_enter_seq (u64 (g + 1)) (set_mlfq_ticks_used 0 (set_mlfq_queue 0 p)), u64 (g + 1))
  else (p, g).

(** The state the code between traps runs in: the table is whole and the locks
    it takes are free. *)
Record sched_ok (s : kst mem) : Prop := {
  ok_len : length (k_procs s) = NPROC;
  ok_hw : hw_ok (k_hw s);
  ok_procs : procs_free (k_hw s);
  ok_seq : free (k_hw s) LSeq;
  ok_ticks : free (k_hw s) LTicks
}.

Lemma mlfq_boost_swept s : sched_ok s ->
  mlfq_boost s = Done tt (set_k_hw (hw_cyc (k_hw s)) (swept boost1 NPROC s)).
Proof.
  intros [Hlen Hok Hp Hq _]. apply wp_eq. unfold mlfq_boost. apply wp_bind.
  apply (wp_sweep boost1); [done| |by apply wp_ret].
  intros i p h t Hi Hlt Ht Hh.
  near_facts. subst h. unfold boost1, live. wp_go.
  all: rewrite H2; split; [done|state_eq].
Qed.

Definition higher (q : Z) (p : proc) : bool :=
  (bool_decide (p_state p = RUNNABLE) && (mlfq_queue p <? q))%bool.

Lemma wp_mlfq_has_higher_priority q s (Q : bool -> kst mem -> Prop) : sched_ok s ->
  Q (existsb (higher q) (k_procs s)) (set_k_hw (hw_cyc (k_hw s)) s) ->
  wp (mlfq_has_higher_priority q) s Q.
Proof.
  intros [Hlen Hok Hp _ _] HQ. unfold mlfq_has_higher_priority. apply wp_bind.
  apply (wp_search (higher q) true); [done| |].
  - intros i p h t Hi Hlt Ht Hh. near_facts. subst h. unfold higher. wp_go.
    destruct (_ && _)%bool; wp_go; done.
  - apply wp_ret. by destruct (existsb _ _).
Qed.

(** The loop body of [mlfq_scan] on its variables. *)
Definition mlfq_scan_step (q : Z) (i : nat) (p : proc) (x : option nat * Z) : option nat * Z :=
  if (bool_decide (p_state p = RUNNABLE) && (mlfq_queue p =? q))%bool then
    if (bool_decide (fst x = None) || (mlfq_enter_seq p <? snd x))%bool
    then (Some i, mlfq_enter_seq p) else x
  else x.

Lemma wp_mlfq_scan q s (Q : option nat * Z -> kst mem -> Prop) : sched_ok s ->
  Q (ifold (mlfq_scan_step q) 0 (k_procs s) (None, 0)) (set_k_hw (hw_cyc (k_hw s)) s) ->
  wp (mlfq_scan q) s Q.
Proof.
  intros [Hlen Hok Hp _ _] HQ. unfold mlfq_scan. apply wp_bind.
  apply (wp_scan (mlfq_scan_step q)); [done| |by apply wp_ret].
  intros i [best seq] p h t Hi Hlt Ht Hh. near_facts. subst h. wp_go. done.
Qed.

Definition in_queue (q : Z) (p : proc) : bool :=
  (bool_decide (p_state p = RUNNABLE) && (mlfq_queue p =? q))%bool.

Lemma mlfq_scan_min q ps :
  min_or_none (in_queue q) mlfq_enter_seq ps (ifold (mlfq_scan_step q) 0 ps (None, 0)).
Proof.
  apply ifold_inv; [by intros p ?%not_elem_of_nil|].
  intros qs p x HJ _. unfold mlfq_scan_step. fold (in_queue q p).
  destruct (in_queue q p) eqn:E; [|apply min_or_none_skip; congruence].
  destruct (bool_decide (fst x = None)) eqn:E1; [|destruct (mlfq_enter_seq p <? snd x) eqn:E2]; simpl.
  - apply (min_or_none_take _ _ _ _ x); [done..|]. left. by apply bool_decide_eq_true in E1.
  - apply (min_or_none_take _ _ _ _ x); [done..|]. bool_to_prop. by right.
  - apply min_or_none_skip; [done|]. intros _. apply bool_decide_eq_false in E1.
    bool_to_prop. done.
Qed.

(** The loop body of [fifo_scan] on its variables. *)
Definition fifo_scan_step (i : nat) (p : proc) (x : option nat * Z) : option nat * Z :=
  if (bool_decide (p_state p = RUNNABLE) && (p_pid p <? snd x))%bool then (Some i, p_pid p) else x.

Definition runnable (p : proc) : bool := bool_decide (p_state p = RUNNABLE).

(** A pid of [0x7fffffff] is never smaller than the initial [min_pid]. *)
Lemma fifo_scan_min ps : (forall p, p ∈ ps -> p_pid p < 2147483647) ->
  min_or_none runnable p_pid ps (ifold fifo_scan_step 0 ps (None, 2147483647)).
Proof.
  intros Hpid.
  apply (ifold_inv (fun qs x => min_or_none runnable p_pid qs x /\
                                (fst x = None -> snd x = 2147483647))).
  { split; [by intros p ?%not_elem_of_nil | done]. }
  intros qs p x [HJ Hx] Hp. specialize (Hpid p Hp). unfold fifo_scan_step.
  fold (runnable p). destruct (runnable p) eqn:E; simpl;
    [|split; [apply min_or_none_skip; congruence | done]].
  destruct (p_pid p <? snd x) eqn:E2; bool_to_prop.
  - split; [|done]. apply (min_or_none_take _ _ _ _ x); [done..|]. by right.
  - split; [|done]. apply min_or_none_skip; [done|]. intros _. split; [|done].
    intros HN. specialize (Hx HN). lia.
Qed.

Lemma wp_fifo_scan s (Q : option nat * Z -> kst mem -> Prop) : sched_ok s ->
  Q (ifold fifo_scan_step 0 (k_procs s) (None, 2147483647)) (set_k_hw (hw_cyc (k_hw s)) s) ->
  wp fifo_scan s Q.
Proof.
  intros [Hlen Hok Hp _ _] HQ. unfold fifo_scan. apply wp_bind.
  apply (wp_scan fifo_scan_step); [done| |by apply wp_ret].
  intros i [best seq] p h t Hi Hlt Ht Hh. near_facts. subst h. wp_go. done.
Qed.

(** ** One turn of the MLFQ scheduler *)

(** [if (p->stime == -1) p->stime = ticks;] *)
Definition first_run (t : Z) (p : proc) : proc :=
  if p_stime p =? -1 then set_p_stime (i32 t) p else p.

Definition trace_msgs (t : Z) (p : proc) : list kmsg :=
  if 3 <=? p_pid p then [Printk MLFQ_TRACE [PInt t; PInt (p_pid p); PInt (mlfq_queue p)]] else [].

(** [h] in the hands of process [b], whose lock the scheduler has taken. *)
Definition hw_run (b : nat) (h : hw) : hw :=
  set_hw_cpu (set_c_proc (Some b) (hw_cpu (hw_acq (LProc b) h))) (hw_acq (LProc b) h).

(** The state in which the scheduler switches to process [b]. *)
Definition dispatched (b : nat) (p : proc) (s : kst mem) : kst mem :=
  set_k_procs (<[b := set_p_state RUNNING (first_run (k_ticks s) p)]> (k_procs s))
    (set_k_hw (hw_run b (k_hw s)) s).

(** [b] switches back holding its own lock and no other. *)
Definition handed_back (b : nat) (s : kst mem) : Prop :=
  exists h, k_hw s = hw_acq (LProc b) h /\ hw_ok h /\ free h (LProc b) /\ c_noff (hw_cpu h) = 0.

(** The scheduler's hart with no process, no lock and interrupts off. *)
Definition hw_idle (l : lockid) (h : hw) : hw :=
  mkhw (<[l := unlocked]> (hw_locks h)) (mkcpu None 0 false) false (hw_hart h).

Lemma wp_note_first_run i p s (Q : unit -> kst mem -> Prop) :
  k_procs s !! i = Some p -> hw_ok (k_hw s) -> 0 < c_noff (hw_cpu (k_hw s)) -> free (k_hw s) LTicks ->
  Q tt (set_k_procs (<[i := first_run (k_ticks s) p]> (k_procs s)) s) ->
  wp (note_first_run i) s Q.
Proof.
  intros Hi Hok Hn Hf HQ. unfold note_first_run, first_run in *. wp_go.
  - rewrite H in HQ.
    rewrite hw_cyc_held by done. destruct s. exact HQ.
  - rewrite H in HQ. rewrite list_insert_id in HQ by done. by destruct s.
Qed.

Lemma dispatch_resume b s : handed_back b s ->
  (modcpu (set_c_intena false) ;; modcpu (set_c_proc None) ;; release (LProc b)) s =
  Done tt (set_k_hw (hw_idle (LProc b) (k_hw s)) s).
Proof.
  intros (h & Hs & Hok & Hf & Hn). destruct s, h as [locks [cp n ie] sie hart]. simpl in *. subst.
  apply wp_eq. unfold modcpu, modhw. wp_step. wp_step. wp_step. wp_step.
  apply (wp_release _ (mkhw locks (mkcpu None 0 false) false hart)); [done|done|done|].
  split; [done|]. unfold hw_idle, hw_cyc. simpl.
  by rewrite insert_insert_eq, insert_id.
Qed.

Lemma sched_ok_cyc s : sched_ok s -> sched_ok (set_k_hw (hw_cyc (k_hw s)) s).
Proof. intros []. by split. Qed.

(** [s] after a scan, with the trace line of [p] printed. *)
Definition traced (p : proc) (s : kst mem) : kst mem :=
  set_k_out (k_out s ++ trace_msgs (k_ticks s) p) (set_k_hw (hw_cyc (k_hw s)) s).

Lemma trace_first_run t t' p : trace_msgs t' (first_run t p) = trace_msgs t' p.
Proof. unfold trace_msgs, first_run. by destruct (p_stime p =? -1). Qed.

Lemma wp_trace p s (Q : unit -> kst mem -> Prop) : hw_ok (k_hw s) -> free (k_hw s) LTicks ->
  0 < c_noff (hw_cpu (k_hw s)) ->
  Q tt (set_k_out (k_out s ++ trace_msgs (k_ticks s) p) (set_k_hw (hw_cyc (k_hw s)) s)) ->
  wp (when (3 <=? p_pid p) (
        acquire LTicks ;;
        let* cur_t := gets k_ticks in
        release LTicks ;;
        printk MLFQ_TRACE [PInt cur_t; PInt (p_pid p); PInt (mlfq_queue p)])) s Q.
Proof.
  intros Hok Hf Hn HQ. unfold trace_msgs in HQ. wp_go; rewrite H in HQ; [exact HQ|].
  rewrite app_nil_r, hw_cyc_held in HQ by done. by destruct s.
Qed.

Lemma wps_run_process b p s (QD : unit -> kst mem -> Prop) (QS : kst mem -> (kst mem -> run mem unit) -> Prop) :
  k_procs s !! b = Some p ->
  QS (set_k_procs (<[b := set_p_state RUNNING p]> (k_procs s))
        (set_k_hw (set_hw_cpu (set_c_proc (Some b) (hw_cpu (k_hw s))) (k_hw s)) s))
     (modcpu (set_c_intena false) ;; modcpu (set_c_proc None)) ->
  wps (run_process b) s QD QS.
Proof.
  intros Hp HQ. unfold run_process. apply wps_bind, wps_wp. eapply wp_setp; [done|].
  apply wps_bind, wps_wp, wp_modify. exact HQ.
Qed.

Lemma resume_release {A} b (a : A) s : handed_back b s ->
  run_bind ((modcpu (set_c_intena false) ;; modcpu (set_c_proc None)) s)
    (fun _ => release (LProc b) ;; ret a) =
  Done a (set_k_hw (hw_idle (LProc b) (k_hw s)) s).
Proof.
  intros Hb.
  transitivity (run_bind ((modcpu (set_c_intena false) ;; modcpu (set_c_proc None) ;;
                           release (LProc b)) s) (fun _ => ret a)); [done|].
  by rewrite dispatch_resume.
Qed.

Lemma mlfq_try_queue_none q s : sched_ok s ->
  fst (ifold (mlfq_scan_step q) 0 (k_procs s) (None, 0)) = None ->
  mlfq_try_queue q s = Done false (set_k_hw (hw_cyc (k_hw s)) s).
Proof.
  intros Hs Hb. apply wp_eq. unfold mlfq_try_queue. apply wp_bind, wp_mlfq_scan; [done|].
  rewrite Hb. by apply wp_ret.
Qed.

Lemma mlfq_try_queue_some q s b p : sched_ok s ->
  fst (ifold (mlfq_scan_step q) 0 (k_procs s) (None, 0)) = Some b ->
  k_procs s !! b = Some p -> in_queue q p = true ->
  exists k, mlfq_try_queue q s = Switch (dispatched b p (traced p s)) k /\
    forall s', handed_back b s' -> k s' = Done true (set_k_hw (hw_idle (LProc b) (k_hw s')) s').
Proof.
  intros Hs Hb Hp Hq.
  assert (Hlt : (b < NPROC)%nat) by (rewrite <- (ok_len s Hs); by eapply lookup_lt_Some).
  cut (exists s1 k, mlfq_try_queue q s = Switch s1 k /\ s1 = dispatched b p (traced p s) /\
    forall s', handed_back b s' -> k s' = Done true (set_k_hw (hw_idle (LProc b) (k_hw s')) s')).
  { intros (s1 & k & H & -> & Hk). by exists k. }
  destruct Hs as [Hlen Hok Hpf Hsq Htk].
  apply wps_switch. unfold mlfq_try_queue, in_queue in *. apply wps_bind, wps_wp.
  apply wp_mlfq_scan; [done|]. rewrite Hb.
  wps_go. rewrite Hq. apply wps_bind, wps_wp.
  eapply wp_note_first_run; [kred; exact Hp | kred; auto with locks | | kred; auto with locks |].
  { destruct Hok as [Hn _]. simpl. lia. }
  kred. wps_step. apply wps_wp. eapply wp_getp; [lookup_tac|].
  apply wps_bind, wps_wp, wp_trace; [kred; auto with locks ..|].
  apply wps_bind. eapply wps_run_process; [lookup_tac|]. split; [|by apply resume_release].
  rewrite trace_first_run. unfold dispatched, traced, hw_run. kred.
  by rewrite list_insert_insert_eq, hw_cyc_acq by auto with locks.
Qed.

(** The scan for queue [q] has nothing to run. *)
Definition queue_empty (ps : list proc) (q : Z) : Prop := forall p, p ∈ ps -> in_queue q p = false.

(** Process [b] is run: the switch to it and the return from it. *)
Definition runs (m : M mem bool) (s : kst mem) (b : nat) (p : proc) : Prop :=
  exists k, m s = Switch (dispatched b p (traced p s)) k /\
    forall s', handed_back b s' -> k s' = Done true (set_k_hw (hw_idle (LProc b) (k_hw s')) s').

Lemma mlfq_queues_spec n q s : sched_ok s ->
  (exists b p q', q <= q' < q + Z.of_nat (S n) /\ k_procs s !! b = Some p /\
     first_min (in_queue q') mlfq_enter_seq (k_procs s) b /\
     (forall q'', q <= q'' < q' -> queue_empty (k_procs s) q'') /\
     runs (mlfq_queues (S n) q) s b p) \/
  ((forall q'', q <= q'' < q + Z.of_nat (S n) -> queue_empty (k_procs s) q'') /\
   mlfq_queues (S n) q s = Done false (set_k_hw (hw_cyc (k_hw s)) s)).
Proof.
  revert q s. induction n as [|n IH]; intros q s Hs;
    pose proof (mlfq_scan_min q (k_procs s)) as Hmin; unfold min_or_none in Hmin;
    destruct (fst (ifold _ 0 (k_procs s) (None, 0))) as [b|] eqn:Eb.
  1, 3: left; destruct Hmin as [Hmin _]; pose proof Hmin as (p & Hp & Hc & _);
    exists b, p, q; (split_and!; [lia|lia|done|done|intros; lia|]);
    destruct (mlfq_try_queue_some q s b p Hs Eb Hp Hc) as (k & Hk & Hres);
    eexists; simpl; unfold bind; rewrite Hk; (split; [reflexivity|]);
    intros s' Hs'; simpl; by rewrite Hres.
  - right. split; [intros q'' Hq; by replace q'' with q by lia|].
    simpl. unfold bind. by rewrite mlfq_try_queue_none.
  - pose proof (mlfq_try_queue_none q s Hs Eb) as Hnone.
    assert (Hrest : mlfq_queues (S (S n)) q s =
                    mlfq_queues (S n) (q + 1) (set_k_hw (hw_cyc (k_hw s)) s)).
    { change (mlfq_queues (S (S n)) q s) with
        (run_bind (mlfq_try_queue q s)
           (fun found => if found then ret true else mlfq_queues (S n) (q + 1))).
      by rewrite Hnone. }
    destruct (IH (q + 1) _ (sched_ok_cyc s Hs)) as [(b & p & q' & Hq & Hp & Hm & He & k & Hk & Hres)|[He Hd]];
      simpl in *.
    + left. exists b, p, q'. split_and!; [lia|lia|done|done| |].
      * intros q'' Hq''. destruct (decide (q'' = q)) as [->|]; [exact Hmin | apply He; lia].
      * exists k. unfold runs. rewrite Hrest, Hk. unfold traced, dispatched. kred.
        by rewrite hw_cyc_cyc.
    + right. split.
      * intros q'' Hq''. destruct (decide (q'' = q)) as [->|]; [exact Hmin | apply He; lia].
      * rewrite Hrest, Hd. simpl. by rewrite hw_cyc_cyc.
Qed.

(** The order of the queues: by level, then by entry. *)
Definition prio_le (p p' : proc) : Prop :=
  mlfq_queue p < mlfq_queue p' \/
  (mlfq_queue p = mlfq_queue p' /\ mlfq_enter_seq p <= mlfq_enter_seq p').

Definition ints_off (s : kst mem) : kst mem := set_k_hw (set_hw_sie false (k_hw s)) s.

Lemma sched_ok_ints_off s : sched_ok s -> sched_ok (ints_off s).
Proof. intros [? [? ?] ? ? ?]. by split. Qed.

(** Every process that can run is in one of the four queues. *)
Definition levels_ok (ps : list proc) : Prop :=
  forall p, p ∈ ps -> p_state p = RUNNABLE -> 0 <= mlfq_queue p <= 3.

Lemma in_queue_true q p : in_queue q p = true <-> p_state p = RUNNABLE /\ mlfq_queue p = q.
Proof.
  unfold in_queue. rewrite andb_true_iff, bool_decide_eq_true, Z.eqb_eq. done.
Qed.

(** C1.  One turn of the MLFQ scheduler: if some process can run, the turn
    switches to a runnable process that no runnable process precedes (a higher
    queue, or the same queue and a smaller sequence number), having noted its
    first run and marked it RUNNING; once that process has switched back, the
    turn ends with the entry's lock released. If none can run, nothing is
    dispatched and the table is unchanged. *)
Theorem mlfq_turn_runs_head (s : kst mem) : sched_ok s -> levels_ok (k_procs s) ->
  (exists b p, k_procs s !! b = Some p /\ p_state p = RUNNABLE /\
     (forall p', p' ∈ k_procs s -> p_state p' = RUNNABLE -> prio_le p p') /\
     exists k, mlfq_scheduler_turn s = Switch (dispatched b p (traced p (ints_off s))) k /\
       forall s', handed_back b s' ->
         k s' = Done true (set_k_hw (hw_idle (LProc b) (k_hw s')) s')) \/
  ((forall p, p ∈ k_procs s -> p_state p <> RUNNABLE) /\
   mlfq_scheduler_turn s = Done false (set_k_hw (hw_cyc (k_hw (ints_off s))) s)).
Proof.
  intros Hs Hlev. change (mlfq_scheduler_turn s) with (mlfq_queues 4 0 (ints_off s)).
  destruct (mlfq_queues_spec 3 0 (ints_off s) (sched_ok_ints_off s Hs))
    as [(b & p & q & Hq & Hp & Hmin & He & Hrun)|[He Hd]]; simpl in *.
  - left. exists b, p. destruct Hmin as (pb & Hb & Hc & Hmin). simplify_eq.
    apply in_queue_true in Hc as [Hst Hqp].
    split_and!; [done|done| |exact Hrun].
    intros p' Hin Hst'. pose proof (Hlev p' Hin Hst').
    destruct (decide (mlfq_queue p' < q)) as [Hlt|Hge].
    + specialize (He (mlfq_queue p') ltac:(lia) p' Hin).
      by rewrite (proj2 (in_queue_true _ _)) in He.
    + destruct (decide (mlfq_queue p' = q)) as [Heq|Hne]; [right|left; lia].
      apply list_elem_of_lookup in Hin as [i Hi].
      destruct (Hmin i p' Hi); [by apply in_queue_true| |]; lia.
  - right. split; [|done]. intros p Hin Hst. pose proof (Hlev p Hin Hst).
    specialize (He (mlfq_queue p) ltac:(lia) p Hin).
    by rewrite (proj2 (in_queue_true _ _)) in He.
Qed.

(** ** The timer handler *)

(** The three counters of a tick. *)
Definition charge (p : proc) : proc :=
  set_p_rtime (u32 (p_rtime p + 1))
    (set_mlfq_total_ticks (i32 (mlfq_total_ticks p + 1))
       (set_mlfq_ticks_used (mlfq_ticks_used p + 1) p)).

(** The end of a time slice: one level down, to the tail [g] of that queue. *)
Definition demote (g : Z) (p : proc) : proc :=
  set_mlfq_enter_seq g
    (set_mlfq_queue (Z.min 3 (mlfq_queue p + 1)) (set_mlfq_ticks_used 0 p)).

Definition boost_tick (t : Z) : bool := ((0 <? t) && (t mod 48 =? 0))%bool.

(** [s] after a tick of [i], with its entry [p'] and the sequence counter [g]. *)
Definition ticked (i : nat) (p p' : proc) (g : Z) (s : kst mem) : kst mem :=
  set_k_procs (<[i := p']> (k_procs s))
    (set_mlfq_global_seq g
       (set_k_out (k_out s ++ trace_msgs (k_ticks s) p) (set_k_hw (hw_cyc (k_hw s)) s))).

Lemma timeslice_range q slice : timeslice_at q = Some slice -> 0 <= q <= 3 /\ 1 <= slice <= 16.
Proof.
  unfold timeslice_at, mlfq_timeslice. destruct (q <? 0) eqn:E; [done|]. bool_to_prop.
  intros H. pose proof (lookup_lt_Some _ _ _ H) as Hlt. simpl in Hlt.
  assert (Hq : q = 0 \/ q = 1 \/ q = 2 \/ q = 3) by lia.
  destruct Hq as [->|[->|[->| ->]]]; simpl in H; simplify_eq; lia.
Qed.

Lemma existsb_insert (f : proc -> bool) ps i p p' :
  ps !! i = Some p -> f p' = f p -> existsb f (<[i := p']> ps) = existsb f ps.
Proof.
  revert i. induction ps as [|q ps IH]; intros [|i] Hi Hf; simplify_eq/=; [by rewrite Hf|].
  by rewrite IH.
Qed.

Lemma sched_ok_ticked i p p' g s : sched_ok s -> sched_ok (ticked i p p' g s).
Proof. intros []. split; simpl; try done. by rewrite length_insert. Qed.

Lemma wp_trace_nolock t p s (Q : unit -> kst mem -> Prop) :
  Q tt (set_k_out (k_out s ++ trace_msgs t p) s) ->
  wp (when (3 <=? p_pid p) (printk MLFQ_TRACE [PInt t; PInt (p_pid p); PInt (mlfq_queue p)])) s Q.
Proof.
  unfold trace_msgs. intros HQ. apply wp_when; intros E; rewrite E in HQ; [by apply wp_printk|].
  rewrite app_nil_r in HQ. by destruct s.
Qed.

Lemma mlfq_tick_handler_eq (s : kst mem) (i : nat) (p : proc) (slice : Z) :
  sched_ok s -> k_procs s !! i = Some p -> timeslice_at (mlfq_queue p) = Some slice ->
  mlfq_tick_handler i s =
  if slice <=? mlfq_ticks_used p + 1
  then let g := u64 (mlfq_global_seq s + 1) in
       Done true (ticked i p (demote g (charge p)) g s)
  else Done (existsb (higher (mlfq_queue p)) (k_procs s) || boost_tick (k_ticks s))
            (ticked i p (charge p) (mlfq_global_seq s) s).
Proof.
  intros Hs Hi Hsl. destruct (timeslice_range _ _ Hsl) as [Hq _].
  pose proof Hs as [Hlen Hok Hpf Hsq Htk].
  destruct (slice <=? mlfq_ticks_used p + 1) eqn:E; apply wp_eq; unfold mlfq_tick_handler; do 15 wp_step;
    apply (wp_trace_nolock (k_ticks s) (charge p)); kred;
    match goal with |- context [set_p_rtime ?a ?b] =>
      change (set_p_rtime a b) with (charge p) end;
    change (mlfq_queue (charge p)) with (mlfq_queue p);
    change (mlfq_ticks_used (charge p)) with (mlfq_ticks_used p + 1); rewrite Hsl, E.
  - wp_go; bool_to_prop; unfold ticked, demote; (split; [done|]).
    + change (mlfq_queue (charge p)) with (mlfq_queue p).
      replace (Z.min 3 (mlfq_queue p + 1)) with (mlfq_queue p + 1) by lia. done.
    + change (mlfq_queue (charge p)) with (mlfq_queue p) in *.
      replace (Z.min 3 (mlfq_queue p + 1)) with (mlfq_queue p) by lia. done.
  - apply wp_bind, wp_mlfq_has_higher_priority.
    { split; kred; auto with locks. by rewrite length_insert. }
    kred. rewrite (existsb_insert _ _ _ p) by done. rewrite hw_cyc_cyc.
    destruct (existsb _ _); apply wp_ret; done.
Qed.

(** C2.  A timer tick: the handler charges the process; when its slice is used
    up it demotes it by one level (at most to 3), puts it at the tail of that
    queue and yields; otherwise it yields exactly if a runnable process waits
    in a higher queue or the tick is a boost tick. No other entry changes. *)
Theorem mlfq_tick_handler_spec (s : kst mem) (i : nat) (p : proc) (slice : Z) :
  sched_ok s -> k_procs s !! i = Some p -> timeslice_at (mlfq_queue p) = Some slice ->
  mlfq_tick_handler i s =
  if slice <=? mlfq_ticks_used p + 1
  then let g := u64 (mlfq_global_seq s + 1) in
       Done true (ticked i p (demote g (charge p)) g s)
  else Done (existsb (higher (mlfq_queue p)) (k_procs s) || boost_tick (k_ticks s))
            (ticked i p (charge p) (mlfq_global_seq s) s).
Proof. intros; by apply mlfq_tick_handler_eq. Qed.

(** ** The boost *)

(** How many entries the boost numbers. *)
Definition nlive (ps : list proc) : Z := Z.of_nat (length (List.filter live ps)).

Lemma nlive_app ps qs : nlive (ps ++ qs) = nlive ps + nlive qs.
Proof. unfold nlive. rewrite List.filter_app, length_app. lia. Qed.

Lemma nlive_bound ps : 0 <= nlive ps <= Z.of_nat (length ps).
Proof.
  unfold nlive. induction ps as [|p ps IH]; simpl; [lia|]. destruct (live p); simpl; lia.
Qed.

Lemma sweep_boost_seq ps g : 0 <= g -> g + Z.of_nat (length ps) < 2 ^ 64 ->
  snd (sweep boost1 ps g) = g + nlive ps.
Proof.
  revert g. induction ps as [|p ps IH]; intros g Hg Hw; simpl in *; [unfold nlive; simpl; lia|].
  unfold nlive in *. simpl. unfold boost1 at 1. destruct (live p); simpl.
  - rewrite u64_small by lia. specialize (IH (g + 1) ltac:(lia) ltac:(lia)).
    destruct (sweep boost1 ps (g + 1)). simpl in *. lia.
  - specialize (IH g ltac:(lia) ltac:(lia)). destruct (sweep boost1 ps g). simpl in *. lia.
Qed.

(** The entry [p], the [n]th live one counted from 1, after a boost at [g]. *)
Definition boosted (g n : Z) (p : proc) : proc :=
  if live p then set_mlfq_enter_seq (g + n) (set_mlfq_ticks_used 0 (set_mlfq_queue 0 p)) else p.

Lemma sweep_boost_lookup ps g i p : 0 <= g -> g + Z.of_nat (length ps) < 2 ^ 64 ->
  ps !! i = Some p ->
  fst (sweep boost1 ps g) !! i = Some (boosted g (nlive (take (S i) ps)) p).
Proof.
  intros Hg Hw Hi. pose proof (lookup_lt_Some _ _ _ Hi) as Hlt.
  rewrite (sweep_lookup _ _ _ _ p) by done.
  rewrite sweep_boost_seq by (try rewrite length_take; lia).
  rewrite (take_S_r _ _ p), nlive_app by done. unfold boosted, boost1.
  pose proof (nlive_bound (take i ps)) as Hn. rewrite length_take in Hn.
  assert (H1 : nlive [p] = if live p then 1 else 0) by (unfold nlive; simpl; by destruct (live p)).
  rewrite H1. destruct (live p); [|done]. simpl. rewrite u64_small by lia. do 2 f_equal. lia.
Qed.

(** C3.  A boost moves every live process to queue 0 with an unused time slice
    and gives it a new sequence number, larger than all before it and
    increasing in the order of the table; UNUSED and ZOMBIE entries are not
    touched, and no other part of the state changes. *)
Theorem mlfq_boost_spec (s : kst mem) : sched_ok s ->
  0 <= mlfq_global_seq s -> mlfq_global_seq s + Z.of_nat NPROC < 2 ^ 64 ->
  exists ps, mlfq_boost s =
      Done tt (set_k_procs ps
                (set_mlfq_global_seq (mlfq_global_seq s + nlive (k_procs s))
                   (set_k_hw (hw_cyc (k_hw s)) s))) /\
    length ps = NPROC /\
    forall i p, k_procs s !! i = Some p ->
      ps !! i = Some (boosted (mlfq_global_seq s) (nlive (take (S i) (k_procs s))) p).
Proof.
  intros Hs Hg Hw. pose proof (ok_len s Hs) as Hlen.
  exists (fst (sweep boost1 (k_procs s) (mlfq_global_seq s))). split_and!.
  - rewrite mlfq_boost_swept by done. rewrite <- Hlen at 1. rewrite swept_all. simpl.
    by rewrite sweep_boost_seq by lia.
  - by rewrite length_sweep.
  - intros i p Hi. apply sweep_boost_lookup; [done|lia|done].
Qed.

(** ** One turn of the FIFO scheduler *)

Lemma fifo_turn_none s : sched_ok s ->
  fst (ifold fifo_scan_step 0 (k_procs s) (None, 2147483647)) = None ->
  fifo_scheduler_turn s = Done false (set_k_hw (hw_cyc (k_hw (ints_off s))) s).
Proof.
  intros Hs Hb. apply wp_eq. unfold fifo_scheduler_turn. do 4 wp_step.
  apply wp_bind, (wp_fifo_scan (ints_off s)); [by apply sched_ok_ints_off|].
  change (k_procs (ints_off s)) with (k_procs s). rewrite Hb. by apply wp_ret.
Qed.

Lemma fifo_turn_some s b p : sched_ok s ->
  fst (ifold fifo_scan_step 0 (k_procs s) (None, 2147483647)) = Some b ->
  k_procs s !! b = Some p -> p_state p = RUNNABLE ->
  exists k, fifo_scheduler_turn s =
      Switch (dispatched b p (set_k_hw (hw_cyc (k_hw (ints_off s))) s)) k /\
    forall s', handed_back b s' -> k s' = Done true (set_k_hw (hw_idle (LProc b) (k_hw s')) s').
Proof.
  intros Hs Hb Hp Hst.
  assert (Hlt : (b < NPROC)%nat) by (rewrite <- (ok_len s Hs); by eapply lookup_lt_Some).
  cut (exists s1 k, fifo_scheduler_turn s = Switch s1 k /\
    s1 = dispatched b p (set_k_hw (hw_cyc (k_hw (ints_off s))) s) /\
    forall s', handed_back b s' -> k s' = Done true (set_k_hw (hw_idle (LProc b) (k_hw s')) s')).
  { intros (s1 & k & H & -> & Hk). by exists k. }
  apply wps_switch. unfold fifo_scheduler_turn. do 4 wps_step.
  apply sched_ok_ints_off in Hs. apply wps_bind, wps_wp, (wp_fifo_scan (ints_off s)); [done|].
  destruct Hs as [Hlen Hok Hpf Hsq Htk].
  change (k_procs (ints_off s)) with (k_procs s). rewrite Hb.
  wps_step. wps_step. wps_step. wps_step. rewrite bool_decide_true by done.
  simpl when. apply wps_bind, wps_bind, wps_wp.
  eapply wp_note_first_run; [kred; exact Hp | kred; auto with locks ..|].
  eapply wps_run_process; [kred; lookup_tac|]. split; [|by apply resume_release].
  unfold dispatched, hw_run. kred. by rewrite list_insert_insert_eq.
Qed.

(** One turn of the FIFO scheduler: if some process can run, the turn
    switches to the runnable process with the least pid, having noted its
    first run and marked it RUNNING, and ends with its lock released when it
    has switched back; otherwise nothing is dispatched. Pids are below the
    initial value of the search, the largest [int]. *)
Theorem fifo_turn_runs_least_pid (s : kst mem) : sched_ok s ->
  (forall p, p ∈ k_procs s -> p_pid p < 2147483647) ->
  (exists b p, k_procs s !! b = Some p /\ p_state p = RUNNABLE /\
     (forall p', p' ∈ k_procs s -> p_state p' = RUNNABLE -> p_pid p <= p_pid p') /\
     exists k, fifo_scheduler_turn s =
         Switch (dispatched b p (set_k_hw (hw_cyc (k_hw (ints_off s))) s)) k /\
       forall s', handed_back b s' ->
         k s' = Done true (set_k_hw (hw_idle (LProc b) (k_hw s')) s')) \/
  ((forall p, p ∈ k_procs s -> p_state p <> RUNNABLE) /\
   fifo_scheduler_turn s = Done false (set_k_hw (hw_cyc (k_hw (ints_off s))) s)).
Proof.
  intros Hs Hpid. pose proof (fifo_scan_min _ Hpid) as Hmin. unfold min_or_none in Hmin.
  destruct (fst (ifold _ 0 (k_procs s) _)) as [b|] eqn:Eb.
  - left. destruct Hmin as [(p & Hp & Hc & Hmin) _]. apply bool_decide_eq_true in Hc.
    exists b, p. split_and!; [done|done| |by apply fifo_turn_some].
    intros p' Hin Hst. apply list_elem_of_lookup in Hin as [i Hi].
    destruct (Hmin i p' Hi); [by apply bool_decide_eq_true| |]; lia.
  - right. split; [|by apply fifo_turn_none].
    intros p Hin Hst. specialize (Hmin p Hin). by apply bool_decide_eq_false in Hmin.
Qed.

(** ** One turn of the round-robin scheduler *)

Lemma rr_body_skip i found p s : sched_ok s -> k_procs s !! i = Some p -> p_state p <> RUNNABLE ->
  rr_body i found s = Done (inr found) (set_k_hw (hw_cyc (k_hw s)) s).
Proof.
  intros [Hlen Hok Hpf Hsq Htk] Hp Hst.
  assert (Hlt : (i < NPROC)%nat) by (rewrite <- Hlen; by eapply lookup_lt_Some).
  apply wp_eq. unfold rr_body. do 5 wp_step. rewrite bool_decide_false by done.
  wp_go. done.
Qed.

Lemma rr_body_run i found p s : sched_ok s -> k_procs s !! i = Some p -> p_state p = RUNNABLE ->
  exists k, rr_body i found s = Switch (dispatched i p s) k /\
    forall s', handed_back i s' -> k s' = Done (inr true) (set_k_hw (hw_idle (LProc i) (k_hw s')) s').
Proof.
  intros [Hlen Hok Hpf Hsq Htk] Hp Hst.
  assert (Hlt : (i < NPROC)%nat) by (rewrite <- Hlen; by eapply lookup_lt_Some).
  cut (exists s1 k, rr_body i found s = Switch s1 k /\ s1 = dispatched i p s /\
    forall s', handed_back i s' -> k s' = Done (inr true) (set_k_hw (hw_idle (LProc i) (k_hw s')) s')).
  { intros (s1 & k & H & -> & Hk). by exists k. }
  apply wps_switch. unfold rr_body. do 5 wps_step. rewrite bool_decide_true by done.
  apply wps_bind, wps_wp.
  eapply wp_note_first_run; [kred; exact Hp | kred; auto with locks ..|].
  apply wps_bind. eapply wps_run_process; [kred; lookup_tac|].
  split; [|intros s' Hs'; by apply (resume_release i (inr true : Empty_set + bool))].
  unfold dispatched, hw_run. kred. by rewrite list_insert_insert_eq.
Qed.

(** No process from [i] up to [j] can run. *)
Definition none_from (ps : list proc) (i j : nat) : Prop :=
  forall i' p, (i <= i' < j)%nat -> ps !! i' = Some p -> p_state p <> RUNNABLE.

(** From entry [i] on: the next runnable entry is run, and when it has switched
    back the loop goes on behind it. *)
Definition rr_runs_next (n i : nat) (found : bool) (s : kst mem) (j : nat) (p : proc) : Prop :=
  exists k s0, for_acc n i found rr_body s = Switch (dispatched j p s0) k /\
    (s0 = s \/ s0 = set_k_hw (hw_cyc (k_hw s)) s) /\
    forall s', handed_back j s' ->
      k s' = for_acc (i + n - S j) (S j) true rr_body (set_k_hw (hw_idle (LProc j) (k_hw s')) s').

(** The loop of the round-robin scheduler, from entry [i] on: it passes
    over entries that cannot run, switches to the first one that can, and when
    that process has switched back goes on behind it; if none can run it ends
    without a switch. *)
Theorem rr_loop_spec n i found s : sched_ok s -> (i + n = NPROC)%nat ->
  (exists j p, (i <= j < NPROC)%nat /\ k_procs s !! j = Some p /\ p_state p = RUNNABLE /\
     none_from (k_procs s) i j /\ rr_runs_next n i found s j p) \/
  (none_from (k_procs s) i NPROC /\
   exists s', for_acc n i found rr_body s = Done (inr found) s' /\
     (s' = s \/ s' = set_k_hw (hw_cyc (k_hw s)) s)).
Proof.
  revert i s. induction n as [|n IH]; intros i s Hs Hi; simpl.
  { right. split; [intros i' p ?; lia|]. exists s. by auto. }
  destruct (lookup_lt_is_Some_2 (k_procs s) i) as [p Hp]; [rewrite (ok_len s Hs); lia|].
  destruct (decide (p_state p = RUNNABLE)) as [Hst|Hst].
  - left. exists i, p. split_and!; [lia|lia|done|done|intros i' p' ?; lia|].
    destruct (rr_body_run i found p s Hs Hp Hst) as (k & Hk & Hres).
    exists (fun s' => run_bind (k s') (fun r => match r with
       | inl y => ret (inl y) | inr x' => for_acc n (S i) x' rr_body end)), s.
    split_and!; [simpl; unfold bind; by rewrite Hk|by left|].
    intros s' Hs'. rewrite Hres by done. simpl. by replace (i + S n - S i)%nat with n by lia.
  - assert (Hrest : for_acc (S n) i found rr_body s =
                    for_acc n (S i) found rr_body (set_k_hw (hw_cyc (k_hw s)) s)).
    { simpl. unfold bind at 1. by rewrite (rr_body_skip i found p s Hs Hp Hst). }
    assert (Hn : forall j, none_from (k_procs s) (S i) j -> none_from (k_procs s) i j).
    { intros j Hj i' p' Hi' Hp'. destruct (decide (i' = i)) as [->|]; [by simplify_eq|].
      eapply (Hj i'); [lia|done]. }
    destruct (IH (S i) _ (sched_ok_cyc s Hs) ltac:(lia))
      as [(j & q & Hj & Hq & Hst' & Hno & k & s0 & Hk & Hs0 & Hres)|(Hno & s' & Hd & Hs')]; simpl in *.
    + left. exists j, q. split_and!; [lia|lia|done|done|by apply Hn|].
      exists k, s0. simpl. rewrite Hrest. split_and!; [done| |].
      * right. rewrite hw_cyc_cyc in Hs0. by destruct Hs0.
      * intros t Ht. rewrite Hres by done. by replace (i + S n - S j)%nat with (S (i + n) - S j)%nat by lia.
    + right. split; [by apply Hn|]. exists s'. rewrite Hrest. split; [done|].
      right. rewrite hw_cyc_cyc in Hs'. by destruct Hs'.
Qed.

End Sched.
