(* ===== verification/MlfqSystem.v ===== *)
(** * The MLFQ as a system

    The code of the kernel that writes the queue fields of the process table,
    as steps from one state to the next, and the invariant of the queues they
    keep.  The steps run the functions of [proc.c] themselves. *)

From stdpp Require Import base list gmap strings.
From Stdlib Require Import ZArith Lia.
From S2P Require Import Prelude KString KernelBase Proc KernelLoops ProcFacts Sched.

Open Scope Z_scope.

(** ** The invariant *)

(** A process is in one of the four queues, has a part of its slice left, and
    entered its queue with a number given out by the counter [g]. *)
Definition entry_ok (g : Z) (p : proc) : Prop :=
  exists slice, timeslice_at (mlfq_queue p) = Some slice /\ 0 <= mlfq_ticks_used p < slice /\
    0 < mlfq_enter_seq p <= g.

(** No two processes entered with the same number. *)
Record mlfq_inv (ps : list proc) (g : Z) : Prop := {
  inv_counter : 0 <= g;
  inv_entry i p : ps !! i = Some p -> p_state p <> UNUSED -> entry_ok g p;
  inv_distinct i j p q : ps !! i = Some p -> ps !! j = Some q -> p_state p <> UNUSED -> p_state q <> UNUSED ->
    mlfq_enter_seq p = mlfq_enter_seq q -> i = j
}.

(** A change of one entry: it becomes free, or stays or becomes well-formed with
    its old number or a new one. *)
Definition entry_to (g : Z) (p p' : proc) (g' : Z) : Prop :=
  g <= g' /\
  (p_state p' = UNUSED \/
   entry_ok g' p' /\ (p_state p <> UNUSED /\ mlfq_enter_seq p' = mlfq_enter_seq p \/ g < mlfq_enter_seq p')).

Lemma entry_ok_later g g' p : g <= g' -> entry_ok g p -> entry_ok g' p.
Proof. intros Hg (slice & Hs & Hu & Hq). exists slice. split_and!; [done|lia..]. Qed.

Lemma lookup_insert_cases {A} (l : list A) i x j y : <[i := x]> l !! j = Some y ->
  (j = i /\ y = x) \/ (j <> i /\ l !! j = Some y).
Proof.
  intros H. destruct (decide (j = i)) as [->|Hne].
  - left. assert (i < length l)%nat by (rewrite <- (length_insert l i x); by eapply lookup_lt_Some).
    rewrite list_lookup_insert_eq in H by done. by simplify_eq.
  - right. by rewrite list_lookup_insert_ne in H by done.
Qed.

Lemma mlfq_inv_put ps g i p p' g' : mlfq_inv ps g -> ps !! i = Some p -> entry_to g p p' g' ->
  mlfq_inv (<[i := p']> ps) g'.
Proof.
  intros [H0 He Hd] Hi [Hg Hto].
  assert (Hnew : p_state p' <> UNUSED -> forall j q, j <> i -> ps !! j = Some q -> p_state q <> UNUSED ->
    mlfq_enter_seq p' <> mlfq_enter_seq q).
  { intros Hn j q Hne Hj Hq Heq. destruct Hto as [Hu|[_ [[Hp Hs]|Hs]]]; [done|..].
    - apply Hne. symmetry. eapply Hd; [exact Hi|exact Hj|done|done|congruence].
    - destruct (He j q Hj Hq) as (? & _ & _ & ?). lia. }
  split; [lia|..].
  - intros j q [[-> ->]|[Hne Hj]]%lookup_insert_cases Hq; [by destruct Hto as [?|[? _]]|].
    eapply entry_ok_later; [exact Hg|by eapply He].
  - intros j k q r [[-> ->]|[Hj1 Hj]]%lookup_insert_cases [[-> ->]|[Hk1 Hk]]%lookup_insert_cases Hq Hr Heq.
    + done.
    + by destruct (Hnew Hq k r Hk1 Hk Hr).
    + by destruct (Hnew Hr j q Hj1 Hj Hq).
    + by eapply Hd.
Qed.

(** [f] changes every entry in such a way and uses up at most one number. *)
Definition sweep_ok (f : proc -> Z -> proc * Z) : Prop := forall p g, 0 <= g -> g + 1 < 2 ^ 64 ->
  (p_state p <> UNUSED -> entry_ok g p) -> entry_to g p (fst (f p g)) (snd (f p g)) /\ snd (f p g) <= g + 1.

Lemma mlfq_inv_sweep f ps g : sweep_ok f -> g + Z.of_nat (length ps) < 2 ^ 64 -> mlfq_inv ps g ->
  mlfq_inv (fst (sweep f ps g)) (snd (sweep f ps g)).
Proof.
  intros Hf. change ps with ([] ++ ps) at 2. change (fst (sweep f ps g)) with ([] ++ fst (sweep f ps g)).
  generalize (@nil proc) as pre. revert g. induction ps as [|p ps IH]; intros g pre Hg Hinv; [done|].
  simpl in *. destruct (Hf p g) as [Hto Hle]; [apply Hinv|lia| |].
  { intros Hp. eapply inv_entry; [exact Hinv| |exact Hp]. by apply list_lookup_middle. }
  destruct (f p g) as [p' g1]. simpl in *.
  specialize (IH g1 (pre ++ [p'])). destruct (sweep f ps g1) as [ps1 g2]. simpl in *.
  rewrite <- !app_assoc in IH. apply IH; [destruct Hto; lia|]. simpl.
  replace (pre ++ p' :: ps) with (<[length pre := p']> (pre ++ p :: ps))
    by by rewrite insert_app_r_alt, Nat.sub_diag by lia.
  eapply mlfq_inv_put; [exact Hinv|by apply list_lookup_middle|exact Hto].
Qed.

Section System.

Context {mem : Type} {cfg : config} {svc : services mem} {sym : symbols}.
Implicit Types s : kst mem.

Hypothesis is_mlfq : SCHEDULER = SCHEDULER_MLFQ.

(** The same queue fields, and no entry is taken into use. *)
Definition same_queue (p p' : proc) : Prop :=
  mlfq_queue p' = mlfq_queue p /\ mlfq_ticks_used p' = mlfq_ticks_used p /\
  mlfq_enter_seq p' = mlfq_enter_seq p /\ (p_state p = UNUSED -> p_state p' = UNUSED).

(** A step of the kernel, as long as the 64-bit counter has numbers left: a timer
    tick of a running process, a boost, a wakeup, a kill, the allocation of a
    process; a write of the rest of the code to an entry, which frees it or
    keeps its queue fields; anything that does not touch the table. *)
Inductive mlfq_step : kst mem -> kst mem -> Prop :=
| step_tick i p b s s' : sched_ok s -> mlfq_global_seq s + Z.of_nat NPROC < 2 ^ 64 ->
    k_procs s !! i = Some p -> p_state p = RUNNING -> mlfq_tick_handler i s = Done b s' -> mlfq_step s s'
| step_boost s s' : sched_ok s -> mlfq_global_seq s + Z.of_nat NPROC < 2 ^ 64 ->
    mlfq_boost s = Done tt s' -> mlfq_step s s'
| step_wakeup ch s s' : sched_ok s -> mlfq_global_seq s + Z.of_nat NPROC < 2 ^ 64 ->
    wakeup ch s = Done tt s' -> mlfq_step s s'
| step_kill pid r s s' : sched_ok s -> mlfq_global_seq s + Z.of_nat NPROC < 2 ^ 64 ->
    kkill pid s = Done r s' -> mlfq_step s s'
| step_alloc i tf pt m' s s' : alloc_ok s -> mlfq_global_seq s + Z.of_nat NPROC < 2 ^ 64 ->
    alloc_mem (k_mem s) tf pt m' -> allocproc s = Done (Some i) s' -> mlfq_step s s'
| step_entry i p p' s s' : k_procs s !! i = Some p -> same_queue p p' \/ p_state p' = UNUSED ->
    k_procs s' = <[i := p']> (k_procs s) -> mlfq_global_seq s' = mlfq_global_seq s -> mlfq_step s s'
| step_frame s s' : k_procs s' = k_procs s -> mlfq_global_seq s' = mlfq_global_seq s -> mlfq_step s s'.

(** The table as [procinit] leaves it, and what the steps make of it. *)
Inductive mlfq_reachable : kst mem -> Prop :=
| reach_boot s : Forall (fun p => p_state p = UNUSED) (k_procs s) -> mlfq_global_seq s = 0 -> mlfq_reachable s
| reach_step s s' : mlfq_reachable s -> mlfq_step s s' -> mlfq_reachable s'.

(** ** The steps keep it *)

Lemma entry_to_same g p p' : (p_state p <> UNUSED -> entry_ok g p) -> same_queue p p' -> entry_to g p p' g.
Proof.
  intros Hok (Hq & Hu & Hs & Hn). split; [lia|].
  destruct (decide (p_state p' = UNUSED)) as [?|Hne]; [by left|]. right.
  assert (Hp : p_state p <> UNUSED) by by intros ?%Hn. destruct (Hok Hp) as (slice & H1 & H2 & H3).
  split; [|by left]. exists slice. by rewrite Hq, Hu, Hs.
Qed.

Lemma make_runnable_to g p q : p_state p <> UNUSED -> 0 <= g -> g + 1 < 2 ^ 64 -> entry_ok g p -> same_queue p q ->
  entry_to g p (fst (make_runnable q g)) (snd (make_runnable q g)) /\ snd (make_runnable q g) <= g + 1.
Proof.
  intros Hp Hg Hw (slice & H1 & H2 & H3) (Hq & Hu & Hs & Hn). unfold make_runnable. rewrite is_mlfq. simpl.
  rewrite u64_small by lia. split; [|lia]. split; [lia|]. right. split; [|simpl; right; lia].
  exists slice. simpl. rewrite Hq, Hu. split_and!; [done|lia..].
Qed.

Lemma wake1_ok ch : sweep_ok (wake1 ch).
Proof.
  intros p g Hg Hw Hok. unfold wake1. case_bool_decide; [case_bool_decide as Hst|]; simpl.
  - apply make_runnable_to; [by rewrite Hst|lia|lia| |done]. apply Hok. by rewrite Hst.
  - split; [|lia]. by apply entry_to_same.
  - split; [|lia]. by apply entry_to_same.
Qed.

Lemma kill1_ok : sweep_ok kill1.
Proof.
  intros p g Hg Hw Hok. unfold kill1. case_bool_decide as Hst; simpl.
  - apply make_runnable_to; [by rewrite Hst|lia|lia| |done]. apply Hok. by rewrite Hst.
  - split; [|lia]. by apply entry_to_same.
Qed.

Lemma boost1_ok : sweep_ok boost1.
Proof.
  intros p g Hg Hw Hok. unfold boost1. destruct (live p) eqn:El; simpl.
  - rewrite u64_small by lia. split; [|lia]. split; [lia|]. right. split; [|simpl; right; lia].
    exists 1. simpl. split_and!; [done|lia..].
  - split; [|lia]. by apply entry_to_same.
Qed.

Lemma tick_to g p slice : 0 <= g -> g + 1 < 2 ^ 64 -> p_state p = RUNNING -> entry_ok g p ->
  timeslice_at (mlfq_queue p) = Some slice ->
  (slice <=? mlfq_ticks_used p + 1 = true -> entry_to g p (demote (u64 (g + 1)) (charge p)) (u64 (g + 1))) /\
  (slice <=? mlfq_ticks_used p + 1 = false -> entry_to g p (charge p) g).
Proof.
  intros Hg Hw Hst (slice' & H1 & H2 & H3) Hsl. assert (slice' = slice) as -> by congruence. rewrite u64_small by lia.
  destruct (timeslice_range _ _ Hsl) as [Hq _]. split; intros E; bool_to_prop; (split; [lia|]; right).
  - split; [|simpl; right; lia]. assert (Hn : exists slice, timeslice_at (Z.min 3 (mlfq_queue p + 1)) = Some slice).
    { assert (Hc : mlfq_queue p = 0 \/ mlfq_queue p = 1 \/ mlfq_queue p = 2 \/ mlfq_queue p = 3) by lia.
      destruct Hc as [->|[->|[->| ->]]]; by eexists. }
    destruct Hn as [slice1 Hn]. exists slice1. simpl. destruct (timeslice_range _ _ Hn). split_and!; [done|lia..].
  - split; [|left; by rewrite Hst]. exists slice. simpl. split_and!; [done|lia..].
Qed.

Lemma tick_step i p b s s' : sched_ok s -> mlfq_global_seq s + 1 < 2 ^ 64 -> k_procs s !! i = Some p ->
  p_state p = RUNNING -> mlfq_tick_handler i s = Done b s' ->
  mlfq_inv (k_procs s) (mlfq_global_seq s) -> mlfq_inv (k_procs s') (mlfq_global_seq s').
Proof.
  intros Hs Hw Hi Hst Hrun Hinv. assert (Hok : entry_ok (mlfq_global_seq s) p).
  { eapply inv_entry; [exact Hinv|exact Hi|by rewrite Hst]. }
  pose proof Hok as (slice & Hsl & _).
  destruct (tick_to (mlfq_global_seq s) p slice) as [H1 H2]; [apply Hinv|done..|].
  rewrite (mlfq_tick_handler_eq s i p slice Hs Hi Hsl) in Hrun.
  destruct (slice <=? mlfq_ticks_used p + 1) eqn:E; cbn zeta in Hrun; injection Hrun as _ <-;
    unfold ticked; kred; (eapply mlfq_inv_put; [exact Hinv|exact Hi|]); auto.
Qed.

Lemma alloc_step i tf pt m' s s' : alloc_ok s -> mlfq_global_seq s + 1 < 2 ^ 64 ->
  alloc_mem (k_mem s) tf pt m' -> allocproc s = Done (Some i) s' ->
  mlfq_inv (k_procs s) (mlfq_global_seq s) -> mlfq_inv (k_procs s') (mlfq_global_seq s').
Proof.
  intros Hs Hw Hm Hrun Hinv. destruct (list_find (fun p => p_state p = UNUSED) (k_procs s)) as [[j p]|] eqn:Ef.
  2: { rewrite (allocproc_table_full s Hs Ef) in Hrun. done. }
  rewrite (allocproc_ok j p tf pt m' s Hs Ef Hm) in Hrun. injection Hrun as -> <-.
  apply list_find_Some in Ef as (Hi & Hu & _). unfold allocated, next_seq, born. rewrite is_mlfq. kred.
  pose proof (inv_counter _ _ Hinv). rewrite u64_small by lia.
  eapply mlfq_inv_put; [exact Hinv|exact Hi|]. split; [lia|]. right. split; [|simpl; right; lia].
  exists 1. simpl. split_and!; [done|lia..].
Qed.

Lemma mlfq_step_inv s s' : mlfq_step s s' ->
  mlfq_inv (k_procs s) (mlfq_global_seq s) -> mlfq_inv (k_procs s') (mlfq_global_seq s').
Proof.
  intros Hstep Hinv.
  assert (Hlt : forall g, g + Z.of_nat NPROC < 2 ^ 64 -> g + 1 < 2 ^ 64) by (intros g; unfold NPROC; lia).
  destruct Hstep as [i p b s s' Hs Hw Hi Hst Hrun|s s' Hs Hw Hrun|ch s s' Hs Hw Hrun|pid r s s' Hs Hw Hrun
    |i tf pt m' s s' Hs Hw Hm Hrun|i p p' s s' Hi Hp Hps Hg|s s' Hps Hg].
  - eapply tick_step; eauto.
  - rewrite mlfq_boost_swept in Hrun by done. injection Hrun as <-. kred.
    rewrite <- (ok_len s Hs) at 1 2. rewrite swept_all. kred. rewrite <- (ok_len s Hs) in Hw.
    by apply mlfq_inv_sweep; [apply boost1_ok|..].
  - destruct Hs as [Hlen Hok Hp Hq _]. rewrite wakeup_spec in Hrun by done. injection Hrun as <-. kred.
    rewrite <- Hlen in Hw. by apply mlfq_inv_sweep; [apply wake1_ok|..].
  - destruct Hs as [Hlen Hok Hp Hq _]. rewrite kkill_spec in Hrun by done.
    destruct (list_find _ _) as [[i p]|] eqn:Ef; injection Hrun as _ <-; kred; [|done].
    apply list_find_Some in Ef as (Hi & _). eapply mlfq_inv_put; [exact Hinv|exact Hi|].
    apply kill1_ok; [apply Hinv|by apply Hlt|]. intros Hne. by eapply inv_entry.
  - eapply alloc_step; eauto.
  - rewrite Hps, Hg. eapply mlfq_inv_put; [exact Hinv|exact Hi|]. destruct Hp as [Hp|Hp].
    + apply entry_to_same; [|done]. intros Hne. by eapply inv_entry.
    + split; [lia|by left].
  - by rewrite Hps, Hg.
Qed.

Lemma mlfq_reachable_inv s : mlfq_reachable s -> mlfq_inv (k_procs s) (mlfq_global_seq s).
Proof.
  induction 1 as [s Hu Hg|s s' _ IH Hstep]; [|by eapply mlfq_step_inv].
  rewrite Hg. rewrite Forall_lookup in Hu. split; [lia|..].
  - intros i p Hi Hp. by destruct Hp; eapply Hu.
  - intros i j p q Hi Hj Hp. by destruct Hp; eapply Hu.
Qed.


End System.
