(* ===== verification/Syscall.v ===== *)
(** * [kernel/syscall.c] and [kernel/sysproc.c]: the system calls

    Argument fetching, the process system calls and the dispatch table.  The
    file system calls of [kernel/sysfile.c] and [sys_sync] are the operations
    of the class [file_calls]. *)

From stdpp Require Import base list gmap strings.
From Stdlib Require Import ZArith Lia.
From S2P Require Import Prelude KString KernelBase Proc KernelLoops.

Open Scope Z_scope.

Class file_calls (mem : Type) := {
  sys_pipe : M mem Z; sys_read : M mem Z; sys_exec : M mem Z; sys_fstat : M mem Z;
  sys_chdir : M mem Z; sys_dup : M mem Z; sys_open : M mem Z; sys_write : M mem Z;
  sys_mknod : M mem Z; sys_unlink : M mem Z; sys_link : M mem Z; sys_mkdir : M mem Z;
  sys_close : M mem Z; sys_sync : M mem Z
}.

Definition SBRK_EAGER : Z := 1.

Section Syscall.

Context {mem : Type} {cfg : config} {svc : services mem} {sym : symbols} {fc : file_calls mem}.

(** ** Arguments *)

(** The value of a byte list, low byte first. *)
Fixpoint of_le_bytes (l : list Z) : Z :=
  match l with [] => 0 | b :: l' => b + 256 * of_le_bytes l' end.

(** The pair is the C return value and what was stored through the pointer. *)
Definition fetchaddr (addr : Z) : M mem (Z * Z) :=
  let* i := curproc in
  let* p := getp i in
  if ((p_sz p <=? addr) || (p_sz p <? u64 (addr + 8)))%bool then ret (-1, 0) else
  let* r := mem_op (copyin (p_pagetable p) (p_sz p) addr 8) in
  if negb (r.1 =? 0) then ret (-1, 0) else ret (0, of_le_bytes r.2).

Definition fetchstr (addr max : Z) : M mem (Z * list Z) :=
  let* i := curproc in
  let* p := getp i in
  let* r := mem_op (copyinstr (p_pagetable p) (p_sz p) addr max) in
  match r with
  | None => ret (-1, [])
  | Some buf =>
      match strlen buf 0 with
      | Some n => ret (Z.of_nat n, buf)
      | None => undefined
      end
  end.

Definition argraw (n : Z) : M mem Z :=
  let* i := curproc in
  let* p := getp i in
  let* t := get_tf (p_trapframe p) in
  match n with
  | 0 => ret (tf_a0 t) | 1 => ret (tf_a1 t) | 2 => ret (tf_a2 t)
  | 3 => ret (tf_a3 t) | 4 => ret (tf_a4 t) | 5 => ret (tf_a5 t)
  | _ => panic "argraw"
  end.

Definition argint (n : Z) : M mem Z := let* v := argraw n in ret (i32 v).

Definition argaddr (n : Z) : M mem Z := argraw n.

Definition argstr (n max : Z) : M mem (Z * list Z) :=
  let* addr := argaddr n in fetchstr addr max.

(** ** Process system calls *)

Definition sys_exit : M mem Z :=
  let* n := argint 0 in
  kexit n ;;
  ret 0.

Definition sys_getpid : M mem Z :=
  let* i := curproc in
  let* p := getp i in
  ret (p_pid p).

Definition sys_fork : M mem Z := kfork.

Definition sys_wait (fuel : nat) : M mem Z :=
  let* p := argaddr 0 in
  kwait fuel p.

Definition sys_waitx (fuel : nat) : M mem Z :=
  let* status := argaddr 0 in
  let* wtime := argaddr 1 in
  let* rtime := argaddr 2 in
  let* stime := argaddr 3 in
  kwaitx fuel status wtime rtime stime.

Definition sys_sbrk : M mem Z :=
  let* n := argint 0 in
  let* t := argint 1 in
  let* i := curproc in
  let* p := getp i in
  let addr := p_sz p in
  if ((t =? SBRK_EAGER) || (n <? 0))%bool then
    let* r := growproc n in
    if r <? 0 then ret (-1) else ret addr
  else if u64 (addr + n) <? addr then ret (-1)
  else if TRAPFRAME <? u64 (addr + n) then ret (-1)
  else
    let* i := curproc in
    setp i (fun p => set_p_sz (u64 (p_sz p + n)) p) ;;
    ret addr.

(** [while (ticks - ticks0 < n)], [fuel] rounds of it; [ticks - ticks0] is unsigned. *)
Fixpoint pause_loop (fuel : nat) (ticks0 n : Z) : M mem Z :=
  match fuel with
  | O => fun _ => OutOfFuel
  | S fuel' =>
      let* t := gets k_ticks in
      if u32 (t - ticks0) <? n then
        let* i := curproc in
        let* k := killed i in
        if negb (k =? 0) then release LTicks ;; ret (-1) else
        sleep_prepare ChTicks ;;
        release LTicks ;;
        sleep ;;
        acquire LTicks ;;
        pause_loop fuel' ticks0 n
      else
        release LTicks ;;
        ret 0
  end.

Definition sys_pause (fuel : nat) : M mem Z :=
  let* n := argint 0 in
  let n := if n <? 0 then 0 else n in
  acquire LTicks ;;
  let* ticks0 := gets k_ticks in
  pause_loop fuel ticks0 n.

Definition sys_kill : M mem Z :=
  let* pid := argint 0 in
  kkill pid.

Definition sys_uptime : M mem Z :=
  acquire LTicks ;;
  let* xticks := gets k_ticks in
  release LTicks ;;
  ret xticks.

(** ** Dispatch *)

(** [syscalls[num]], by the numbers of [syscall.h]. *)
Definition syscalls (fuel : nat) (num : Z) : option (M mem Z) :=
  match num with
  | 1 => Some sys_fork | 2 => Some sys_exit | 3 => Some (sys_wait fuel) | 4 => Some sys_pipe
  | 5 => Some sys_read | 6 => Some sys_kill | 7 => Some sys_exec | 8 => Some sys_fstat
  | 9 => Some sys_chdir | 10 => Some sys_dup | 11 => Some sys_getpid | 12 => Some sys_sbrk
  | 13 => Some (sys_pause fuel) | 14 => Some sys_uptime | 15 => Some sys_open
  | 16 => Some sys_write | 17 => Some sys_mknod | 18 => Some sys_unlink | 19 => Some sys_link
  | 20 => Some sys_mkdir | 21 => Some sys_close | 22 => Some sys_sync
  | 23 => Some (sys_waitx fuel) | _ => None
  end.

(** [p->trapframe->a0 = v], where [p->trapframe] is read after [v] is computed. *)
Definition set_result (i : nat) (v : Z) : M mem unit :=
  let* p := getp i in
  let* t := get_tf (p_trapframe p) in
  put_tf (p_trapframe p) (set_tf_a0 (u64 v) t).

Definition syscall (fuel : nat) : M mem unit :=
  let* i := curproc in
  let* p := getp i in
  let* t := get_tf (p_trapframe p) in
  let num := i32 (tf_a7 t) in
  match syscalls fuel num with
  | Some call => let* v := call in set_result i v
  | None =>
      printk "%d %s: unknown sys call %d\n" [PInt (p_pid p); PStr (p_name p); PInt num] ;;
      set_result i (-1)
  end.

End Syscall.
