(* ===== verification/Trap.v ===== *)
(** * [kernel/trap.c]: traps and the clock

    The interrupt and exception handlers, the clock with its priority boost,
    and [forkret] of [proc.c], which returns to user space the same way. *)

From stdpp Require Import base list gmap strings.
From Stdlib Require Import ZArith Lia.
From S2P Require Import Prelude KString KernelBase Proc KernelLoops Sched Syscall.

Open Scope Z_scope.

Definition UART0_IRQ : Z := 10.

Definition VIRTIO0_IRQ : Z := 1.

(** Interrupt causes: the top bit, and 9 (external) or 5 (timer). *)
Definition SCAUSE_EXTERNAL : Z := 9223372036854775817.

Definition SCAUSE_TIMER : Z := 9223372036854775813.

(** The device drivers ([plic.c], [uart.c], [virtio_disk.c]). *)
Class devices (mem : Type) := {
  plic_claim : M mem Z;
  plic_complete : Z -> M mem unit;
  uartintr : M mem unit;
  virtio_disk_intr : M mem unit
}.

Section Trap.

Context {mem : Type} {cfg : config} {svc : services mem} {sym : symbols}
        {fc : file_calls mem} {dev : devices mem}.

Definition r_csr {A} (f : csr -> A) : M mem A := gets (fun s => f (k_csr s)).

Definition w_csr (f : csr -> csr) : M mem unit := modify (fun s => set_k_csr (f (k_csr s)) s).

Definition trapinit : M mem unit := initlock LTicks.

Definition trapinithart : M mem unit := w_csr (set_c_stvec sym_kernelvec).

Definition clockintr : M mem unit :=
  let* hart := cpuid in
  when (bool_decide (hart = 0%nat)) (
    acquire LTicks ;;
    modify (fun s => set_k_ticks (u32 (k_ticks s + 1)) s) ;;
    wakeup ChTicks ;;
    let* t := gets k_ticks in
    let do_boost :=
      match SCHEDULER with
      | SCHEDULER_MLFQ => ((0 <? t) && (t mod 48 =? 0))%bool
      | _ => false
      end in
    release LTicks ;;
    when do_boost mlfq_boost) ;;
  w_csr (fun c => set_c_stimecmp (u64 (c_time c + 1000000)) c).

(** 2 for a timer interrupt, 1 for another device, 0 if not recognised. *)
Definition devintr : M mem Z :=
  let* scause := r_csr c_scause in
  if scause =? SCAUSE_EXTERNAL then
    let* irq := plic_claim in
    (if irq =? UART0_IRQ then uartintr
     else if irq =? VIRTIO0_IRQ then virtio_disk_intr
     else when (negb (irq =? 0)) (printk "unexpected interrupt irq=%d\n" [PInt irq])) ;;
    when (negb (irq =? 0)) (plic_complete irq) ;;
    ret 1
  else if scause =? SCAUSE_TIMER then
    clockintr ;;
    ret 2
  else ret 0.

(** [p->trapframe->... = ...] *)
Definition mod_tf (i : nat) (f : trapframe -> trapframe) : M mem unit :=
  let* p := getp i in
  let* t := get_tf (p_trapframe p) in
  put_tf (p_trapframe p) (f t).

Definition prepare_return : M mem unit :=
  let* i := curproc in
  intr_off ;;
  w_csr (set_c_stvec (u64 (TRAMPOLINE + (sym_uservec - sym_trampoline)))) ;;
  let* satp := r_csr c_satp in
  mod_tf i (set_kernel_satp satp) ;;
  let* p := getp i in
  mod_tf i (set_kernel_sp (u64 (p_kstack p + PGSIZE))) ;;
  mod_tf i (set_kernel_trap sym_usertrap) ;;
  let* hart := cpuid in
  mod_tf i (set_kernel_hartid (Z.of_nat hart)) ;;
  w_csr (set_c_spp false) ;;
  w_csr (set_c_spie true) ;;
  let* t := get_tf (p_trapframe p) in
  w_csr (set_c_sepc (epc t)).

(** What a timer interrupt does to the process [i] that it interrupted. *)
Definition timer_tick (i : nat) : M mem unit :=
  match SCHEDULER with
  | SCHEDULER_MLFQ => let* y := mlfq_tick_handler i in when y yield
  | SCHEDULER_FIFO => setp i (fun p => set_p_rtime (u32 (p_rtime p + 1)) p)
  | SCHEDULER_RR => setp i (fun p => set_p_rtime (u32 (p_rtime p + 1)) p) ;; yield
  end.

(** [(scause == 15 || scause == 13) && vmfault(...) != 0] *)
Definition page_fault (i : nat) : M mem bool :=
  let* scause := r_csr c_scause in
  if ((scause =? 15) || (scause =? 13))%bool then
    let* p := getp i in
    let* stval := r_csr c_stval in
    let* r := mem_op (vmfault (p_pagetable p) (p_sz p) stval (if scause =? 13 then 1 else 0)) in
    ret (negb (r =? 0))
  else ret false.

Definition usertrap (fuel : nat) : M mem Z :=
  let* spp := r_csr c_spp in
  if (spp : bool) then panic "usertrap: not from user mode" else
  w_csr (set_c_stvec sym_kernelvec) ;;
  let* i := curproc in
  let* sepc := r_csr c_sepc in
  mod_tf i (set_epc sepc) ;;
  let* scause := r_csr c_scause in
  let* which_dev :=
    (if scause =? 8 then
       let* k := killed i in
       when (negb (k =? 0)) (kexit (-1)) ;;
       mod_tf i (fun t => set_epc (u64 (epc t + 4)) t) ;;
       intr_on ;;
       syscall fuel ;;
       ret 0
     else
       let* which_dev := devintr in
       if negb (which_dev =? 0) then ret which_dev else
       let* handled := page_fault i in
       if handled then ret 0 else
       let* scause := r_csr c_scause in
       let* p := getp i in
       let* sepc := r_csr c_sepc in
       let* stval := r_csr c_stval in
       printk "usertrap(): unexpected scause 0x%lx pid=%d\n" [PInt scause; PInt (p_pid p)] ;;
       printk "            sepc=0x%lx stval=0x%lx\n" [PInt sepc; PInt stval] ;;
       setkilled i ;;
       ret 0) in
  let* k := killed i in
  when (negb (k =? 0)) (kexit (-1)) ;;
  when (which_dev =? 2) (timer_tick i) ;;
  prepare_return ;;
  let* p := getp i in
  ret (MAKE_SATP (p_pagetable p)).

Definition kerneltrap : M mem unit :=
  let* sepc := r_csr c_sepc in
  let* spp := r_csr c_spp in
  let* spie := r_csr c_spie in
  let* scause := r_csr c_scause in
  let* sie := intr_get in
  if negb spp then panic "kerneltrap: not from supervisor mode" else
  if (sie : bool) then panic "kerneltrap: interrupts enabled" else
  let* which_dev := devintr in
  if which_dev =? 0 then
    let* stval := r_csr c_stval in
    printk "scause=0x%lx sepc=0x%lx stval=0x%lx\n" [PInt scause; PInt sepc; PInt stval] ;;
    panic "kerneltrap"
  else
  let* p := (if which_dev =? 2 then myproc else ret None) in
  match p with
  | Some i => timer_tick i
  | None => ret tt
  end ;;
  w_csr (set_c_sepc sepc) ;;
  w_csr (fun c => set_c_spp spp (set_c_spie spie c)) ;;
  modhw (set_hw_sie sie).

(** [forkret] of [proc.c]; the jump to the trampoline ends the kernel's part,
    with [satp] as its argument. *)
Definition forkret : M mem Z :=
  let* i := curproc in
  release (LProc i) ;;
  let* first := gets k_first in
  when first (
    fsinit ROOTDEV ;;
    modify (set_k_first false) ;;
    let* r := kexec "/init" ["/init"] in
    mod_tf i (set_tf_a0 (u64 r)) ;;
    when (u64 r =? u64 (-1)) (panic "exec")) ;;
  prepare_return ;;
  let* p := getp i in
  ret (MAKE_SATP (p_pagetable p)).

End Trap.
