(* ===== verification/TrapFacts.v ===== *)
(** * What the clock does

    [clockintr] as a function of the process table, how often it boosts, and
    how the boost and the timer handler of the same interrupt combine. *)

From stdpp Require Import base list gmap strings.
From Stdlib Require Import ZArith Lia.
From S2P Require Import Prelude KString KernelBase Proc KernelLoops ProcFacts Sched Syscall Trap.

Open Scope Z_scope.

Section TrapFacts.

Context {mem : Type} {cfg : config} {svc : services mem} {sym : symbols}
        {fc : file_calls mem} {dev : devices mem}.
Implicit Types s : kst mem.

(** Table and counter after the wakeup of [clockintr], and after its boost. *)
Definition clock_sweep (t : Z) (ps : list proc) (g : Z) : list proc * Z :=
  let w := sweep (wake1 ChTicks) ps g in
  if (bool_decide (SCHEDULER = SCHEDULER_MLFQ) && boost_tick t)%bool
  then sweep boost1 (fst w) (snd w) else w.

(** The whole of [clockintr] on hart 0. *)
Definition clock_ticked s : kst mem :=
  let t := u32 (k_ticks s + 1) in
  let r := clock_sweep t (k_procs s) (mlfq_global_seq s) in
  set_k_csr (set_c_stimecmp (u64 (c_time (k_csr s) + 1000000)) (k_csr s))
    (set_k_ticks t (set_k_procs (fst r) (set_mlfq_global_seq (snd r)
      (set_k_hw (hw_cyc (k_hw s)) s)))).

Lemma swept_full f s : length (k_procs s) = NPROC ->
  swept f NPROC s =
  set_k_procs (fst (sweep f (k_procs s) (mlfq_global_seq s)))
    (set_mlfq_global_seq (snd (sweep f (k_procs s) (mlfq_global_seq s))) s).
Proof. intros <-. apply swept_all. Qed.

Lemma wp_wakeup_ticks s (Q : unit -> kst mem -> Prop) : sched_ok s ->
  (let r := sweep (wake1 ChTicks) (k_procs s) (mlfq_global_seq s) in
   Q tt (set_k_procs (fst r) (set_mlfq_global_seq (snd r)
          (set_k_hw (hw_acq LTicks (k_hw s)) s)))) ->
  wp (wakeup ChTicks) (set_k_hw (hw_acq LTicks (k_hw s)) s) Q.
Proof.
  intros [Hlen Hok Hp Hq Ht] HQ. apply wp_wakeup; kred; [done|auto with locks ..|].
  rewrite swept_full by done. kred. rewrite hw_cyc_acq by done. exact HQ.
Qed.

Lemma clockintr_hart0 s : sched_ok s -> hw_hart (k_hw s) = 0%nat ->
  clockintr s = Done tt (clock_ticked s).
Proof.
  intros Hs Hh. pose proof Hs as [Hlen Hok Hp Hq Ht]. apply wp_eq. unfold clockintr.
  apply wp_bind, wp_gets. rewrite Hh. rewrite bool_decide_true by done. simpl when.
  apply wp_bind. do 4 wp_step. apply wp_bind.
  apply (wp_wakeup_ticks (set_k_ticks (u32 (k_ticks s + 1)) s)); [by split|]. kred. cbv zeta.
  wp_step. wp_step. wp_step. wp_step.
  match goal with |- context [when ?b _] =>
    replace b with (bool_decide (SCHEDULER = SCHEDULER_MLFQ) && boost_tick (u32 (k_ticks s + 1)))%bool
      by (unfold boost_tick; destruct SCHEDULER; done) end.
  unfold clock_ticked, clock_sweep. destruct (_ && _)%bool eqn:Eb; simpl when.
  - match goal with |- wp mlfq_boost ?t _ =>
      assert (Hb : sched_ok t) by (split; kred; rewrite ?length_sweep; done);
      pose proof (mlfq_boost_swept t Hb) as He end.
    apply wp_Done. eexists _, _. split; [exact He|]. rewrite swept_full by apply Hb. kred.
    unfold w_csr. wp_step. done.
  - apply wp_ret. unfold w_csr. wp_step. done.
Qed.

(** Every other hart only asks for its next interrupt. *)
Lemma clockintr_other s : hw_hart (k_hw s) <> 0%nat ->
  clockintr s = Done tt (set_k_csr (set_c_stimecmp (u64 (c_time (k_csr s) + 1000000)) (k_csr s)) s).
Proof.
  intros Hh. apply wp_eq. unfold clockintr. apply wp_bind, wp_gets.
  rewrite bool_decide_false by done. done.
Qed.

(** ** How often the boost comes *)

(** A boost tick lies in every window of 48 ticks that does not wrap around,
    and in every window of 64: 2^32 mod 48 = 16. *)
Lemma boost_within t : 0 <= t < 2 ^ 32 ->
  exists n, 0 <= n < 64 /\ (t + 48 < 2 ^ 32 -> n < 48) /\ boost_tick (u32 (t + 1 + n)) = true.
Proof.
  intros Ht. unfold boost_tick, u32.
  set (k := 47 - t mod 48).
  pose proof (Z.mod_pos_bound t 48 ltac:(lia)) as Hm.
  pose proof (Z.div_mod t 48 ltac:(lia)) as Hd.
  destruct (decide (t + 1 + k < 2 ^ 32)) as [Hlt|Hge].
  - exists k. split; [lia|]. split; [lia|]. rewrite Z.mod_small by lia.
    replace (t + 1 + k) with (48 * (t / 48 + 1)) by lia.
    apply andb_true_intro. split; [apply Z.ltb_lt; lia|].
    apply Z.eqb_eq. rewrite Z.mul_comm. apply Z.mod_mul. lia.
  - exists (2 ^ 32 + 48 - t - 1). split; [|split; [lia|]].
    + change (2 ^ 32) with (48 * 89478485 + 16) in *. lia.
    + replace (t + 1 + (2 ^ 32 + 48 - t - 1)) with (48 + 1 * 2 ^ 32) by lia.
      rewrite Z.mod_add by lia. done.
Qed.

(** The boost leaves every live entry at the front level with a fresh slice. *)
Definition fresh (p : proc) : Prop := live p = true -> mlfq_queue p = 0 /\ mlfq_ticks_used p = 0.

Lemma sweep_boost_fresh ps g p : p ∈ fst (sweep boost1 ps g) -> fresh p.
Proof.
  revert g. induction ps as [|q ps IH]; intros g; simpl; [by intros ?%not_elem_of_nil|].
  destruct (boost1 q g) as [q' g1] eqn:E. specialize (IH g1). destruct (sweep boost1 ps g1).
  simpl in *. intros [->|Hin]%elem_of_cons; [|by apply IH].
  unfold boost1 in E. destruct (live q) eqn:El; simplify_eq; [done|].
  intros H. by rewrite H in El.
Qed.

(** [n] clock interrupts. *)
Fixpoint clocks (n : nat) : M mem unit :=
  match n with O => ret tt | S n' => clocks n' ;; clockintr end.

Lemma sched_ok_clock s : sched_ok s -> sched_ok (clock_ticked s).
Proof.
  intros [Hlen Hok Hp Hq Ht]. split; try done. unfold clock_ticked, clock_sweep. kred.
  destruct (_ && _)%bool; by rewrite !length_sweep.
Qed.

Lemma clocks_ok n s : sched_ok s -> hw_hart (k_hw s) = 0%nat -> 0 <= k_ticks s < 2 ^ 32 ->
  exists s', clocks n s = Done tt s' /\ sched_ok s' /\ hw_hart (k_hw s') = 0%nat /\
    k_ticks s' = u32 (k_ticks s + Z.of_nat n).
Proof.
  intros Hs Hh Hr. induction n as [|n (s' & He & Hs' & Hh' & Ht')].
  - exists s. split_and!; try done. simpl. rewrite Z.add_0_r, u32_small; [done|lia].
  - exists (clock_ticked s'). simpl. unfold bind. rewrite He. simpl. rewrite clockintr_hart0 by done.
    split_and!; [done|by apply sched_ok_clock|done|]. unfold clock_ticked. kred. rewrite Ht'.
    unfold u32. rewrite Zplus_mod_idemp_l. f_equal. lia.
Qed.


(** ** The boost and the timer handler of the same interrupt *)

(** On a boost tick the process that was running does not stay in queue
    0: the handler charges the same tick to the slice the boost has just
    renewed, that slice is one tick long, and the process goes on to the tail
    of queue 1. *)
Theorem boost_tick_demotes_running s i p : sched_ok s -> SCHEDULER = SCHEDULER_MLFQ ->
  hw_hart (k_hw s) = 0%nat -> boost_tick (u32 (k_ticks s + 1)) = true ->
  k_procs s !! i = Some p -> p_state p = RUNNING ->
  exists s1 s2 p', clockintr s = Done tt s1 /\ mlfq_tick_handler i s1 = Done true s2 /\
    (forall q, q ∈ k_procs s1 -> fresh q) /\
    k_procs s2 !! i = Some p' /\ p_state p' = RUNNING /\ mlfq_queue p' = 1.
Proof.
  intros Hs Hsch Hh Hb Hi Hst.
  pose proof (ok_len s Hs) as Hlen.
  set (w := sweep (wake1 ChTicks) (k_procs s) (mlfq_global_seq s)).
  assert (Hw : fst w !! i = Some (fst (wake1 ChTicks p (snd (sweep (wake1 ChTicks) (take i (k_procs s)) (mlfq_global_seq s))))))
    by by apply sweep_lookup.
  set (p1 := fst (wake1 ChTicks p _)) in Hw.
  assert (Hst1 : p_state p1 = RUNNING).
  { subst p1. unfold wake1. destruct (bool_decide (p_chan p = ChTicks)); [|done].
    by rewrite bool_decide_false by congruence. }
  assert (Hc : clock_sweep (u32 (k_ticks s + 1)) (k_procs s) (mlfq_global_seq s) =
               sweep boost1 (fst w) (snd w)).
  { unfold clock_sweep. by rewrite Hb, bool_decide_true. }
  set (p2 := fst (boost1 p1 (snd (sweep boost1 (take i (fst w)) (snd w))))).
  assert (Hi2 : k_procs (clock_ticked s) !! i = Some p2).
  { unfold clock_ticked. kred. rewrite Hc. by apply sweep_lookup. }
  assert (Hp2 : mlfq_queue p2 = 0 /\ mlfq_ticks_used p2 = 0 /\ p_state p2 = RUNNING).
  { subst p2. unfold boost1, live. rewrite Hst1. done. }
  destruct Hp2 as (Hq2 & Hu2 & Hst2).
  pose proof (mlfq_tick_handler_eq (clock_ticked s) i p2 1 (sched_ok_clock s Hs) Hi2) as He.
  rewrite Hq2, Hu2 in He. specialize (He eq_refl). simpl in He.
  eexists _, _, _. split_and!; [by apply clockintr_hart0|exact He| | | |].
  - intros q. unfold clock_ticked. kred. rewrite Hc. apply sweep_boost_fresh.
  - unfold ticked. kred. apply list_lookup_insert_eq. by eapply lookup_lt_Some.
  - exact Hst2.
  - unfold demote. simpl. rewrite Hq2. done.
Qed.

End TrapFacts.
