(* ===== verification/FsBase.v ===== *)
(** * Data of the file system layers

    [struct buf], [struct sleeplock], [struct log] and the disk, the state
    [fsst] that holds them, and byte access to the contents of a block.  The disk
    driver ([virtio_disk.c]) is the operation of the class [disk_driver]. *)

From stdpp Require Import base list gmap strings.
From Stdlib Require Import ZArith Lia.
From S2P Require Import Prelude KernelBase Proc.

Open Scope Z_scope.

(** ** Constants of [kernel/param.h] and [kernel/fs.h] *)

Definition MAXOPBLOCKS : Z := 10.

Definition LOGBLOCKS : nat := Z.to_nat (MAXOPBLOCKS * 3).

Definition NBUF : nat := Z.to_nat (MAXOPBLOCKS * 3).

Definition BSIZE : nat := 1024.

Definition NINODE : nat := 50.

Definition NFILE : nat := 100.

(** ** [struct sleeplock], [struct buf], [struct log] *)

(** The spin lock inside is in [hw_locks]; the name is for debugging only. *)
Record sleeplock := mksleeplock { sl_locked : Z; sl_pid : Z }.

(** A [struct buf *] is an index into [bcache.buf]; [NBUF] is [&bcache.head]. *)
Record buf := mkbuf {
  b_valid : Z;
  b_disk : Z;
  b_dev : Z;
  b_blockno : Z;
  b_lock : sleeplock;
  b_refcnt : Z;
  b_prev : nat;
  b_next : nat;
  b_data : list Z
}.

Definition set_b_valid (v : Z) (b : buf) : buf :=
  mkbuf v (b_disk b) (b_dev b) (b_blockno b) (b_lock b) (b_refcnt b) (b_prev b) (b_next b) (b_data b).

Definition set_b_dev (v : Z) (b : buf) : buf :=
  mkbuf (b_valid b) (b_disk b) v (b_blockno b) (b_lock b) (b_refcnt b) (b_prev b) (b_next b) (b_data b).

Definition set_b_blockno (v : Z) (b : buf) : buf :=
  mkbuf (b_valid b) (b_disk b) (b_dev b) v (b_lock b) (b_refcnt b) (b_prev b) (b_next b) (b_data b).

Definition set_b_lock (v : sleeplock) (b : buf) : buf :=
  mkbuf (b_valid b) (b_disk b) (b_dev b) (b_blockno b) v (b_refcnt b) (b_prev b) (b_next b) (b_data b).

Definition set_b_refcnt (v : Z) (b : buf) : buf :=
  mkbuf (b_valid b) (b_disk b) (b_dev b) (b_blockno b) (b_lock b) v (b_prev b) (b_next b) (b_data b).

Definition set_b_prev (v : nat) (b : buf) : buf :=
  mkbuf (b_valid b) (b_disk b) (b_dev b) (b_blockno b) (b_lock b) (b_refcnt b) v (b_next b) (b_data b).

Definition set_b_next (v : nat) (b : buf) : buf :=
  mkbuf (b_valid b) (b_disk b) (b_dev b) (b_blockno b) (b_lock b) (b_refcnt b) (b_prev b) v (b_data b).

Definition set_b_data (v : list Z) (b : buf) : buf :=
  mkbuf (b_valid b) (b_disk b) (b_dev b) (b_blockno b) (b_lock b) (b_refcnt b) (b_prev b) (b_next b) v.

(** [struct log] with its [struct logheader]: [l_n] is [lh.n], [l_block] is
    [lh.block]. *)
Record log_t := mklog {
  l_start : Z;
  l_outstanding : Z;
  l_committing : Z;
  l_dev : Z;
  l_ncommit : Z;
  l_n : Z;
  l_block : list Z
}.

Definition set_l_start (v : Z) (l : log_t) : log_t :=
  mklog v (l_outstanding l) (l_committing l) (l_dev l) (l_ncommit l) (l_n l) (l_block l).

Definition set_l_outstanding (v : Z) (l : log_t) : log_t :=
  mklog (l_start l) v (l_committing l) (l_dev l) (l_ncommit l) (l_n l) (l_block l).

Definition set_l_committing (v : Z) (l : log_t) : log_t :=
  mklog (l_start l) (l_outstanding l) v (l_dev l) (l_ncommit l) (l_n l) (l_block l).

Definition set_l_dev (v : Z) (l : log_t) : log_t :=
  mklog (l_start l) (l_outstanding l) (l_committing l) v (l_ncommit l) (l_n l) (l_block l).

Definition set_l_ncommit (v : Z) (l : log_t) : log_t :=
  mklog (l_start l) (l_outstanding l) (l_committing l) (l_dev l) v (l_n l) (l_block l).

Definition set_l_n (v : Z) (l : log_t) : log_t :=
  mklog (l_start l) (l_outstanding l) (l_committing l) (l_dev l) (l_ncommit l) v (l_block l).

Definition set_l_block (v : list Z) (l : log_t) : log_t :=
  mklog (l_start l) (l_outstanding l) (l_committing l) (l_dev l) (l_ncommit l) (l_n l) v.

(** ** [struct superblock], [struct inode], [struct file] *)

Record superblock := mksuperblock {
  sb_magic : Z;
  sb_size : Z;
  sb_nblocks : Z;
  sb_ninodes : Z;
  sb_nlog : Z;
  sb_logstart : Z;
  sb_inodestart : Z;
  sb_bmapstart : Z
}.

(** A [struct inode *] is an index into [itable.inode] plus one, 0 for a null
    pointer. *)
Record inode := mkinode {
  i_dev : Z;
  i_inum : Z;
  i_ref : Z;
  i_lock : sleeplock;
  i_valid : Z;
  i_type : Z;
  i_major : Z;
  i_minor : Z;
  i_nlink : Z;
  i_size : Z;
  i_addrs : list Z
}.

Definition set_i_dev (v : Z) (ip : inode) : inode :=
  mkinode v (i_inum ip) (i_ref ip) (i_lock ip) (i_valid ip) (i_type ip) (i_major ip) (i_minor ip) (i_nlink ip) (i_size ip) (i_addrs ip).

Definition set_i_inum (v : Z) (ip : inode) : inode :=
  mkinode (i_dev ip) v (i_ref ip) (i_lock ip) (i_valid ip) (i_type ip) (i_major ip) (i_minor ip) (i_nlink ip) (i_size ip) (i_addrs ip).

Definition set_i_ref (v : Z) (ip : inode) : inode :=
  mkinode (i_dev ip) (i_inum ip) v (i_lock ip) (i_valid ip) (i_type ip) (i_major ip) (i_minor ip) (i_nlink ip) (i_size ip) (i_addrs ip).

Definition set_i_lock (v : sleeplock) (ip : inode) : inode :=
  mkinode (i_dev ip) (i_inum ip) (i_ref ip) v (i_valid ip) (i_type ip) (i_major ip) (i_minor ip) (i_nlink ip) (i_size ip) (i_addrs ip).

Definition set_i_valid (v : Z) (ip : inode) : inode :=
  mkinode (i_dev ip) (i_inum ip) (i_ref ip) (i_lock ip) v (i_type ip) (i_major ip) (i_minor ip) (i_nlink ip) (i_size ip) (i_addrs ip).

Definition set_i_type (v : Z) (ip : inode) : inode :=
  mkinode (i_dev ip) (i_inum ip) (i_ref ip) (i_lock ip) (i_valid ip) v (i_major ip) (i_minor ip) (i_nlink ip) (i_size ip) (i_addrs ip).

Definition set_i_major (v : Z) (ip : inode) : inode :=
  mkinode (i_dev ip) (i_inum ip) (i_ref ip) (i_lock ip) (i_valid ip) (i_type ip) v (i_minor ip) (i_nlink ip) (i_size ip) (i_addrs ip).

Definition set_i_minor (v : Z) (ip : inode) : inode :=
  mkinode (i_dev ip) (i_inum ip) (i_ref ip) (i_lock ip) (i_valid ip) (i_type ip) (i_major ip) v (i_nlink ip) (i_size ip) (i_addrs ip).

Definition set_i_nlink (v : Z) (ip : inode) : inode :=
  mkinode (i_dev ip) (i_inum ip) (i_ref ip) (i_lock ip) (i_valid ip) (i_type ip) (i_major ip) (i_minor ip) v (i_size ip) (i_addrs ip).

Definition set_i_size (v : Z) (ip : inode) : inode :=
  mkinode (i_dev ip) (i_inum ip) (i_ref ip) (i_lock ip) (i_valid ip) (i_type ip) (i_major ip) (i_minor ip) (i_nlink ip) v (i_addrs ip).

Definition set_i_addrs (v : list Z) (ip : inode) : inode :=
  mkinode (i_dev ip) (i_inum ip) (i_ref ip) (i_lock ip) (i_valid ip) (i_type ip) (i_major ip) (i_minor ip) (i_nlink ip) (i_size ip) v.

Inductive ftype := FD_NONE | FD_PIPE | FD_INODE | FD_DEVICE.

#[export] Instance ftype_eq : EqDecision ftype.
Proof. solve_decision. Defined.

(** A [struct file *] is an index into [ftable.file] plus one, 0 for a null
    pointer; a pipe is the address of its page. *)
Record file := mkfile {
  f_type : ftype;
  f_ref : Z;
  f_readable : Z;
  f_writable : Z;
  f_pipe : Z;
  f_ip : Z;
  f_off : Z;
  f_major : Z
}.

Definition set_f_type (v : ftype) (f : file) : file :=
  mkfile v (f_ref f) (f_readable f) (f_writable f) (f_pipe f) (f_ip f) (f_off f) (f_major f).

Definition set_f_ref (v : Z) (f : file) : file :=
  mkfile (f_type f) v (f_readable f) (f_writable f) (f_pipe f) (f_ip f) (f_off f) (f_major f).

Definition set_f_readable (v : Z) (f : file) : file :=
  mkfile (f_type f) (f_ref f) v (f_writable f) (f_pipe f) (f_ip f) (f_off f) (f_major f).

Definition set_f_writable (v : Z) (f : file) : file :=
  mkfile (f_type f) (f_ref f) (f_readable f) v (f_pipe f) (f_ip f) (f_off f) (f_major f).

Definition set_f_pipe (v : Z) (f : file) : file :=
  mkfile (f_type f) (f_ref f) (f_readable f) (f_writable f) v (f_ip f) (f_off f) (f_major f).

Definition set_f_ip (v : Z) (f : file) : file :=
  mkfile (f_type f) (f_ref f) (f_readable f) (f_writable f) (f_pipe f) v (f_off f) (f_major f).

Definition set_f_off (v : Z) (f : file) : file :=
  mkfile (f_type f) (f_ref f) (f_readable f) (f_writable f) (f_pipe f) (f_ip f) v (f_major f).

Definition set_f_major (v : Z) (f : file) : file :=
  mkfile (f_type f) (f_ref f) (f_readable f) (f_writable f) (f_pipe f) (f_ip f) (f_off f) v.

(** What these layers keep in memory beside the buffers: [log], [sb], [itable]
    and [ftable]. *)
Record fsmem := mkfsmem {
  m_log : log_t;
  m_sb : superblock;
  m_itable : list inode;
  m_ftable : list file
}.

Definition set_m_log (v : log_t) (m : fsmem) : fsmem :=
  mkfsmem v (m_sb m) (m_itable m) (m_ftable m).

Definition set_m_sb (v : superblock) (m : fsmem) : fsmem :=
  mkfsmem (m_log m) v (m_itable m) (m_ftable m).

Definition set_m_itable (v : list inode) (m : fsmem) : fsmem :=
  mkfsmem (m_log m) (m_sb m) v (m_ftable m).

Definition set_m_ftable (v : list file) (m : fsmem) : fsmem :=
  mkfsmem (m_log m) (m_sb m) (m_itable m) v.

(** The blocks of the disk by number. *)
Definition blocks := Z -> list Z.

Definition upd (D : blocks) (k : Z) (v : list Z) : blocks := fun k' => if k' =? k then v else D k'.

(** [bcache], the rest of the memory and the contents of the disk. *)
Record fsst := mkfsst { f_bufs : list buf; f_mem : fsmem; f_disk : blocks }.

Definition set_f_bufs (v : list buf) (f : fsst) : fsst := mkfsst v (f_mem f) (f_disk f).

Definition set_f_mem (v : fsmem) (f : fsst) : fsst := mkfsst (f_bufs f) v (f_disk f).

Definition set_f_disk (v : blocks) (f : fsst) : fsst := mkfsst (f_bufs f) (f_mem f) v.

Definition f_log (f : fsst) : log_t := m_log (f_mem f).

Definition on_log (g : log_t -> log_t) (m : fsmem) : fsmem := set_m_log (g (m_log m)) m.

(** Nothing but the log differs. *)
Definition only_log (m m' : fsmem) : Prop := m' = set_m_log (m_log m') m.

Lemma only_log_on g m : only_log m (on_log g m).
Proof. done. Qed.

Lemma only_log_trans m1 m2 m3 : only_log m1 m2 -> only_log m2 m3 -> only_log m1 m3.
Proof. unfold only_log. intros H1 H2. rewrite H2, H1. done. Qed.

(** The part of the kernel's memory these layers keep. *)
Class has_fs (mem : Type) := {
  fs_of : mem -> fsst;
  with_fs : fsst -> mem -> mem;
  fs_of_with f m : fs_of (with_fs f m) = f
}.

(** ** Words in a block *)

(** The number the bytes [l] spell, low byte first. *)
Fixpoint le_val (l : list Z) : Z :=
  match l with
  | [] => 0
  | b :: l' => b + 256 * le_val l'
  end.

(** An [int] at byte [off]. *)
Definition get_int (l : list Z) (off : nat) : Z := i32 (le_val (take 4 (drop off l))).

Definition put_int (l : list Z) (off : nat) (v : Z) : list Z :=
  take off l ++ le_bytes 4 v ++ drop (off + 4) l.

(** What a transfer between buffer [b] and the disk leaves. *)
Definition transfer (b : nat) (write : Z) (f : fsst) : fsst :=
  match f_bufs f !! b with
  | Some x =>
      if write =? 0 then set_f_bufs (<[b := set_b_data (f_disk f (b_blockno x)) x]> (f_bufs f)) f
      else set_f_disk (upd (f_disk f) (b_blockno x) (b_data x)) f
  | None => f
  end.

Section Access.

Context {mem : Type} {hfs : has_fs mem}.

Definition getfs {A} (g : fsst -> A) : M mem A := gets (fun s => g (fs_of (k_mem s))).

Definition modfs (g : fsst -> fsst) : M mem unit :=
  modify (fun s => set_k_mem (with_fs (g (fs_of (k_mem s))) (k_mem s)) s).

(** A read or write of the buffer at [b]; [Undefined] outside the array. *)
Definition getb (b : nat) : M mem buf := fun s =>
  match f_bufs (fs_of (k_mem s)) !! b with Some x => Done x s | None => Undefined end.

Definition setb (b : nat) (g : buf -> buf) : M mem unit :=
  let* x := getb b in modfs (fun f => set_f_bufs (<[b := g x]> (f_bufs f)) f).

Definition getl {A} (g : log_t -> A) : M mem A := getfs (fun f => g (f_log f)).

Definition setl (g : log_t -> log_t) : M mem unit := modfs (fun f => set_f_mem (on_log g (f_mem f)) f).

(** A read or write of the inode at [i] of the table. *)
Definition geti (i : nat) : M mem inode := fun s =>
  match m_itable (f_mem (fs_of (k_mem s))) !! i with Some x => Done x s | None => Undefined end.

Definition seti (i : nat) (g : inode -> inode) : M mem unit :=
  let* x := geti i in
  modfs (fun f => set_f_mem (set_m_itable (<[i := g x]> (m_itable (f_mem f))) (f_mem f)) f).

(** A field of [sb]. *)
Definition getsb {A} (g : superblock -> A) : M mem A := getfs (fun f => g (m_sb (f_mem f))).

End Access.

(** ** Facts about words *)

Lemma length_le_bytes n v : length (le_bytes n v) = n.
Proof. revert v. induction n as [|n IH]; intros v; simpl; [done|]. by rewrite IH. Qed.

Lemma le_val_bytes n v : le_val (le_bytes n v) = v mod 256 ^ Z.of_nat n.
Proof.
  revert v. induction n as [|n IH]; intros v; cbn [le_bytes le_val]; [by rewrite Z.mod_1_r|].
  rewrite IH, Nat2Z.inj_succ, Z.pow_succ_r by lia.
  rewrite Z.rem_mul_r by (try apply Z.pow_pos_nonneg; lia). done.
Qed.

Lemma length_put_int l off v : (off + 4 <= length l)%nat -> length (put_int l off v) = length l.
Proof.
  intros H. unfold put_int. rewrite !length_app, length_take, length_drop, length_le_bytes. lia.
Qed.

Lemma get_put_int l off v : (off + 4 <= length l)%nat -> get_int (put_int l off v) off = i32 v.
Proof.
  intros H. unfold get_int, put_int. rewrite drop_app_ge by (rewrite length_take; lia).
  rewrite length_take, Nat.min_l, Nat.sub_diag by lia. rewrite drop_0.
  rewrite take_app_le by (rewrite length_le_bytes; lia).
  rewrite take_ge by (rewrite length_le_bytes; lia). rewrite le_val_bytes.
  unfold i32. change (256 ^ Z.of_nat 4) with (2 ^ 32).
  rewrite <- (Z.add_mod_idemp_l v) by lia. done.
Qed.

Lemma get_put_int_ne l off off' v : (off + 4 <= length l)%nat -> (off' + 4 <= off \/ off + 4 <= off')%nat ->
  get_int (put_int l off v) off' = get_int l off'.
Proof.
  intros H Ho. unfold get_int, put_int. do 2 f_equal.
  apply list_eq. intros i. destruct (decide (i < 4)%nat) as [Hi|Hi].
  2: { rewrite !(lookup_ge_None_2 (take 4 _)) by (rewrite length_take; lia). done. }
  rewrite !lookup_take_lt, !lookup_drop by lia. destruct Ho.
  - rewrite lookup_app_l by (rewrite length_take; lia). rewrite lookup_take_lt by lia. done.
  - rewrite lookup_app_r by (rewrite length_take; lia).
    rewrite lookup_app_r by (rewrite length_take, length_le_bytes; lia).
    rewrite lookup_drop, length_take, length_le_bytes, Nat.min_l by lia. f_equal. lia.
Qed.

Lemma upd_eq D k v : upd D k v k = v.
Proof. unfold upd. by rewrite Z.eqb_refl. Qed.

Lemma upd_ne D k k' v : k' <> k -> upd D k v k' = D k'.
Proof. intros H. unfold upd. by rewrite (proj2 (Z.eqb_neq k' k) H). Qed.
