(* ===== verification/FsLogic.v ===== *)
(** * A program logic for code that sleeps

    [wpr R C Q r]: the run [r] of a thread ends with [Q], whatever the other
    threads do while it is off the hart as long as that is in [R], and whenever
    it leaves the hart the contents of the disk are in [C], what a crash may
    leave behind.  A run that is still waiting when its fuel ends is allowed; a
    panic, a fault or a deadlock is not.

    [fsp] is the triple the file system layers use: it speaks of the file system
    state and of the stack of spin locks the thread holds. *)

From stdpp Require Import base list gmap strings.
From Stdlib Require Import ZArith Lia.
From S2P Require Import Prelude KString KernelBase Proc KernelLoops ProcFacts FsBase.

Open Scope Z_scope.

Section Wpr.

Context {mem : Type} {hfs : has_fs mem}.
Variable R : kst mem -> kst mem -> Prop.
Variable C : blocks -> Prop.

Definition disk_of (s : kst mem) : blocks := f_disk (fs_of (k_mem s)).

Fixpoint wpr {A} (Q : A -> kst mem -> Prop) (r : run mem A) : Prop :=
  match r with
  | Done a s => Q a s
  | Switch s k => C (disk_of s) /\ forall s', R s s' -> wpr Q (k s')
  | OutOfFuel => True
  | _ => False
  end.

Lemma wpr_mono {A} (Q Q' : A -> kst mem -> Prop) r :
  wpr Q r -> (forall a s, Q a s -> Q' a s) -> wpr Q' r.
Proof.
  intros H HQ. induction r as [| | | | |s k IH]; simpl in *; try done; [by apply HQ|].
  destruct H as [H1 H2]. eauto.
Qed.

Lemma wpr_bind {A B} (m : M mem A) (f : A -> M mem B) s Q :
  wpr (fun a s' => wpr Q (f a s')) (m s) -> wpr Q (bind m f s).
Proof.
  unfold bind. generalize (m s). intros r H. induction r as [| | | | |t k IH]; simpl in *; try done.
  destruct H as [H1 H2]. eauto.
Qed.

Lemma wpr_wp {A} (m : M mem A) s Q : wp m s Q -> wpr Q (m s).
Proof. unfold wp. by destruct (m s). Qed.

(** ** The thread *)

Variable me : nat.
Variable pid : Z.

(** The spin locks of the process table and of the file system layers. *)
Definition known (l : lockid) : Prop :=
  match l with
  | LProc i => (i < NPROC)%nat
  | LBuf b => (b < NBUF)%nat
  | LInode i => (i < NINODE)%nat
  | LSeq | LBcache | LLog | LItable | LFtable => True
  | _ => False
  end.

Definition idle (h : hw) : Prop :=
  hw_ok h /\ c_noff (hw_cpu h) = 0 /\ c_proc (hw_cpu h) = Some me /\ forall l, known l -> free h l.

(** The thread of process [me] runs and holds the locks [L], last taken first. *)
Definition ready (L : list lockid) (s : kst mem) : Prop :=
  length (k_procs s) = NPROC /\ (exists p, k_procs s !! me = Some p /\ p_pid p = pid) /\
  NoDup L /\ Forall known L /\ exists h, idle h /\ k_hw s = foldr hw_acq h L.

Definition fsp {A} (m : M mem A) (L : list lockid) (f : fsst) (Q : A -> list lockid -> fsst -> Prop) : Prop :=
  forall s, ready L s -> fs_of (k_mem s) = f ->
    wpr (fun a s' => exists L', ready L' s' /\ Q a L' (fs_of (k_mem s'))) (m s).

Lemma held_ok h L : idle h -> hw_ok (foldr hw_acq h L).
Proof. intros [H _]. induction L; simpl; auto with locks. Qed.

Lemma held_free h L l : idle h -> known l -> l ∉ L -> free (foldr hw_acq h L) l.
Proof.
  intros (_ & _ & _ & H) Hl Hn. induction L as [|l' L IH]; simpl; [auto|].
  apply not_elem_of_cons in Hn as [? ?]. apply free_acq; auto.
Qed.

Lemma held_proc h L : idle h -> c_proc (hw_cpu (foldr hw_acq h L)) = Some me.
Proof. intros (_ & _ & H & _). by induction L. Qed.

Lemma idle_cyc h : idle h -> idle (hw_cyc h).
Proof. intros (H1 & H2 & H3 & H4). split_and!; auto with locks. Qed.

(** A lock cycle at depth [L] leaves the thread as it was. *)
Lemma held_cyc h L : idle h -> exists h', idle h' /\ hw_cyc (foldr hw_acq h L) = foldr hw_acq h' L.
Proof.
  intros H. destruct L as [|l L]; simpl; [eauto using idle_cyc|].
  exists h. split; [done|]. apply hw_cyc_acq. by apply held_ok.
Qed.

Lemma ready_cyc L s : ready L s -> ready L (set_k_hw (hw_cyc (k_hw s)) s).
Proof.
  intros (H1 & H2 & H3 & H4 & h & Hh & Hs). destruct (held_cyc h L Hh) as (h' & Hh' & E).
  split_and!; try done. exists h'. split; [done|]. kred. by rewrite Hs.
Qed.

Lemma ready_mem L s m : ready L s -> ready L (set_k_mem m s).
Proof. done. Qed.

(** ** Rules *)

Lemma fsp_mono {A} (m : M mem A) L f (Q Q' : A -> list lockid -> fsst -> Prop) :
  fsp m L f Q -> (forall a L' f', Q a L' f' -> Q' a L' f') -> fsp m L f Q'.
Proof.
  intros H HQ s Hs Hf. eapply wpr_mono; [by apply H|]. intros a s' (L' & HL & HQ'). eauto.
Qed.

Lemma fsp_bind {A B} (m : M mem A) (k : A -> M mem B) L f Q :
  fsp m L f (fun a L' f' => fsp (k a) L' f' Q) -> fsp (bind m k) L f Q.
Proof.
  intros H s Hs Hf. apply wpr_bind. eapply wpr_mono; [by apply H|].
  intros a s' (L' & HL & HQ). by apply HQ.
Qed.

(** Code that returns without a switch. *)
Lemma fsp_wp {A} (m : M mem A) L f Q :
  (forall s, ready L s -> fs_of (k_mem s) = f ->
     wp m s (fun a s' => exists L', ready L' s' /\ Q a L' (fs_of (k_mem s')))) -> fsp m L f Q.
Proof. intros H s Hs Hf. apply wpr_wp. by apply H. Qed.

Lemma fsp_ret {A} (a : A) L f (Q : A -> list lockid -> fsst -> Prop) : Q a L f -> fsp (ret a) L f Q.
Proof. intros H. apply fsp_wp. intros s Hs <-. apply wp_ret. eauto. Qed.

Lemma fsp_when b m L f (Q : unit -> list lockid -> fsst -> Prop) :
  (b = true -> fsp m L f Q) -> (b = false -> Q tt L f) -> fsp (when b m) L f Q.
Proof. destruct b; intros H1 H2; [by apply H1|]. apply fsp_ret; auto. Qed.

Lemma fsp_getfs {A} (g : fsst -> A) L f (Q : A -> list lockid -> fsst -> Prop) :
  Q (g f) L f -> fsp (getfs g) L f Q.
Proof. intros H. apply fsp_wp. intros s Hs <-. apply wp_gets. eauto. Qed.

Lemma fsp_modfs g L f (Q : unit -> list lockid -> fsst -> Prop) : Q tt L (g f) -> fsp (modfs g) L f Q.
Proof.
  intros H. apply fsp_wp. intros s Hs <-. apply wp_modify. exists L. split; [done|].
  kred. by rewrite fs_of_with.
Qed.

Lemma fsp_getb b x L f (Q : buf -> list lockid -> fsst -> Prop) :
  f_bufs f !! b = Some x -> Q x L f -> fsp (getb b) L f Q.
Proof.
  intros Hb H. apply fsp_wp. intros s Hs <-. unfold wp, getb. rewrite Hb. eauto.
Qed.

Lemma fsp_setb b g x L f (Q : unit -> list lockid -> fsst -> Prop) :
  f_bufs f !! b = Some x -> Q tt L (set_f_bufs (<[b := g x]> (f_bufs f)) f) -> fsp (setb b g) L f Q.
Proof.
  intros Hb H. apply fsp_bind. eapply fsp_getb; [done|]. apply fsp_modfs. done.
Qed.

Lemma fsp_getl {A} (g : log_t -> A) L f (Q : A -> list lockid -> fsst -> Prop) :
  Q (g (f_log f)) L f -> fsp (getl g) L f Q.
Proof. intros H. apply (fsp_getfs (fun f => g (f_log f))). exact H. Qed.

Lemma fsp_setl g L f (Q : unit -> list lockid -> fsst -> Prop) :
  Q tt L (set_f_mem (on_log g (f_mem f)) f) -> fsp (setl g) L f Q.
Proof. intros H. apply (fsp_modfs (fun f => set_f_mem (on_log g (f_mem f)) f)). exact H. Qed.

Lemma fsp_geti i x L f (Q : inode -> list lockid -> fsst -> Prop) :
  m_itable (f_mem f) !! i = Some x -> Q x L f -> fsp (geti i) L f Q.
Proof. intros Hi H. apply fsp_wp. intros s Hs <-. unfold wp, geti. rewrite Hi. eauto. Qed.

Lemma fsp_seti i g x L f (Q : unit -> list lockid -> fsst -> Prop) :
  m_itable (f_mem f) !! i = Some x ->
  Q tt L (set_f_mem (set_m_itable (<[i := g x]> (m_itable (f_mem f))) (f_mem f)) f) -> fsp (seti i g) L f Q.
Proof. intros Hi H. apply fsp_bind. eapply fsp_geti; [done|]. apply fsp_modfs. done. Qed.

Lemma fsp_printk fmt args L f (Q : unit -> list lockid -> fsst -> Prop) :
  Q tt L f -> fsp (printk fmt args) L f Q.
Proof. intros H. apply fsp_wp. intros s Hs <-. apply wp_printk. exists L. by split. Qed.

Lemma fsp_acquire l L f (Q : unit -> list lockid -> fsst -> Prop) :
  known l -> l ∉ L -> Q tt (l :: L) f -> fsp (acquire l) L f Q.
Proof.
  intros Hl Hn H. apply fsp_wp. intros s (H1 & H2 & H3 & H4 & h & Hh & Hs) <-.
  apply wp_acquire; [rewrite Hs; by apply held_free|]. exists (l :: L). split; [|done].
  split_and!; try done; [by apply NoDup_cons|by apply Forall_cons|].
  exists h. split; [done|]. kred. by rewrite Hs.
Qed.

Lemma fsp_release l L f (Q : unit -> list lockid -> fsst -> Prop) : Q tt L f -> fsp (release l) (l :: L) f Q.
Proof.
  intros H. apply fsp_wp. intros s (H1 & H2 & [H3 H3']%NoDup_cons & [H4 H4']%Forall_cons & h & Hh & Hs) <-.
  eapply wp_release; [exact Hs|by apply held_ok|by apply held_free|].
  destruct (held_cyc h L Hh) as (h' & Hh' & E). exists L. split; [|done].
  split_and!; try done. exists h'. split; [done|]. kred. exact E.
Qed.

Lemma fsp_initlock l L f (Q : unit -> list lockid -> fsst -> Prop) :
  known l -> l ∉ L -> Q tt L f -> fsp (initlock l) L f Q.
Proof.
  intros Hl Hn H. apply fsp_wp. intros s Hs <-. pose proof Hs as (H1 & H2 & H3 & H4 & h & Hh & E).
  apply wp_modify. exists L. split; [|done]. assert (Hf := held_free h L l Hh Hl Hn). rewrite <- E in Hf.
  split_and!; try done. exists h. split; [done|]. kred. rewrite <- E. unfold set_hw_locks.
  rewrite (insert_id (hw_locks (k_hw s))) by exact Hf. by destruct (k_hw s).
Qed.

Context {cfg : config} {svc : services mem} {sym : symbols}.

Lemma fsp_curproc L f (Q : nat -> list lockid -> fsst -> Prop) : Q me L f -> fsp curproc L f Q.
Proof.
  intros H. apply fsp_wp. intros s Hs <-. pose proof Hs as (H1 & H2 & H3 & H4 & h & Hh & E).
  apply (wp_curproc me); [rewrite E; by apply held_ok|rewrite E; by apply held_proc|].
  exists L. split; [by apply ready_cyc|done].
Qed.

(** [myproc()->pid] *)
Lemma fsp_mypid L f (Q : Z -> list lockid -> fsst -> Prop) : Q pid L f ->
  fsp (let* i := curproc in let* p := getp i in ret (p_pid p)) L f Q.
Proof.
  intros H. apply fsp_bind, fsp_curproc. apply fsp_wp. intros s Hs <-.
  pose proof Hs as (_ & (p & Hp & <-) & _). apply wp_bind. eapply wp_getp; [done|].
  apply wp_ret. eauto.
Qed.

Lemma wake1_pid ch p g : p_pid (fst (wake1 ch p g)) = p_pid p.
Proof.
  unfold wake1, make_runnable. destruct (bool_decide (p_chan p = ch)); [|done].
  destruct (bool_decide (p_state p = SLEEPING)); [|done]. by destruct SCHEDULER.
Qed.

Lemma sweep_pid ch ps g i p : ps !! i = Some p ->
  exists p', fst (sweep (wake1 ch) ps g) !! i = Some p' /\ p_pid p' = p_pid p.
Proof.
  revert g i. induction ps as [|q ps IH]; intros g i H; [done|]. cbn [sweep].
  destruct (wake1 ch q g) as [q' g1] eqn:E1. destruct (sweep (wake1 ch) ps g1) as [ps1 g2] eqn:E2.
  destruct i as [|i]; simpl in *.
  - simplify_eq. exists q'. split; [done|]. by rewrite <- (wake1_pid ch p g), E1.
  - destruct (IH g1 i H) as (p' & Hp' & ?). rewrite E2 in Hp'. eauto.
Qed.

Lemma fsp_wakeup ch L f (Q : unit -> list lockid -> fsst -> Prop) :
  (forall i, LProc i ∉ L) -> LSeq ∉ L -> Q tt L f -> fsp (wakeup ch) L f Q.
Proof.
  intros HL Hq H. apply fsp_wp. intros s Hs <-. pose proof Hs as (H1 & (p & Hp & Hpid) & H3 & H4 & h & Hh & E).
  unfold wp. rewrite wakeup_spec; [|done|rewrite E; by apply held_ok| |rewrite E; by apply held_free].
  - exists L. split; [|done]. apply ready_cyc in Hs as (_ & _ & _ & _ & Hs).
    split_and!; [kred; by rewrite length_sweep| |done|done|exact Hs]. kred.
    destruct (sweep_pid ch _ (mlfq_global_seq s) me p Hp) as (p' & ? & ?). exists p'. split; congruence.
  - intros i Hi. rewrite E. apply held_free; [done|exact Hi|apply HL].
Qed.

End Wpr.

(** ** The disk driver *)

(** [virtio_disk_rw(b, write)] of [virtio_disk.c]. *)
Class disk_driver (mem : Type) := { virtio_disk_rw : nat -> Z -> M mem unit }.

(** What the callers rely on: a request transfers the block the buffer names
    and then returns; the caller may be off the hart meanwhile, and a crash finds
    the block on the disk as it was or as it will be.  [R] is what the other
    threads and the device do in the meantime. *)
Class driver_ok (mem : Type) {hfs : has_fs mem} {drv : disk_driver mem}
    (R : kst mem -> kst mem -> Prop) : Prop := {
  driver_transfers C me pid b w f x :
    f_bufs f !! b = Some x -> C (f_disk f) -> C (f_disk (transfer b w f)) ->
    fsp R C me pid (virtio_disk_rw b w) [] f (fun _ L f' => L = [] /\ f' = transfer b w f)
}.

(** Symbolic execution. *)
Ltac fs_step :=
  lazymatch goal with
  | |- fsp _ _ _ _ (bind _ _) _ _ _ => apply fsp_bind
  | |- fsp _ _ _ _ (ret _) _ _ _ => apply fsp_ret
  | |- fsp _ _ _ _ (getfs _) _ _ _ => apply fsp_getfs
  | |- fsp _ _ _ _ (modfs _) _ _ _ => apply fsp_modfs
  | |- fsp _ _ _ _ (getl _) _ _ _ => apply fsp_getl
  | |- fsp _ _ _ _ (setl _) _ _ _ => apply fsp_setl
  | |- fsp _ _ _ _ (printk _ _) _ _ _ => apply fsp_printk
  | |- fsp _ _ _ _ (release _) (_ :: _) _ _ => apply fsp_release
  | |- fsp _ _ _ _ (acquire _) _ _ _ => apply fsp_acquire; [done || (simpl; lia)|set_solver|]
  | |- fsp _ _ _ _ (wakeup _) _ _ _ => apply fsp_wakeup; [set_solver|set_solver|]
  end.
