(* ===== verification/Bio.v ===== *)
(** * [kernel/sleeplock.c] and [kernel/bio.c]

    Sleep locks, and the cache of disk blocks: a doubly linked list of the
    buffers in order of last use, with reference counts. *)

From stdpp Require Import base list gmap strings.
From Stdlib Require Import ZArith Lia.
From S2P Require Import Prelude KernelBase Proc FsBase FsLogic.

Open Scope Z_scope.

Definition set_sl_locked (v : Z) (l : sleeplock) : sleeplock := mksleeplock v (sl_pid l).

Definition set_sl_pid (v : Z) (l : sleeplock) : sleeplock := mksleeplock (sl_locked l) v.

(** A [struct sleeplock *]: the spin lock inside, its address as a sleep
    channel, and how its fields are read and written. *)
Record slref (mem : Type) := mkslref {
  sl_lk : lockid;
  sl_chan : chan_t;
  sl_get : M mem sleeplock;
  sl_upd : (sleeplock -> sleeplock) -> M mem unit
}.
Arguments sl_lk {mem}.
Arguments sl_chan {mem}.
Arguments sl_get {mem}.
Arguments sl_upd {mem}.

Section Bio.

Context {mem : Type} {cfg : config} {svc : services mem} {sym : symbols}.
Context {hfs : has_fs mem} {drv : disk_driver mem}.

(** How often a thread that waits is woken before the model gives up. *)
Variable fuel : nat.

(** ** Sleep locks *)

Definition initsleeplock (lk : slref mem) : M mem unit :=
  initlock (sl_lk lk) ;;
  sl_upd lk (set_sl_locked 0) ;;
  sl_upd lk (set_sl_pid 0).

Fixpoint acquiresleep_loop (n : nat) (lk : slref mem) : M mem unit :=
  let* l := sl_get lk in
  if negb (sl_locked l =? 0) then
    match n with
    | O => fun _ => OutOfFuel
    | S n' =>
        sleep_prepare (sl_chan lk) ;;
        release (sl_lk lk) ;;
        sleep ;;
        acquire (sl_lk lk) ;;
        acquiresleep_loop n' lk
    end
  else ret tt.

(** [myproc()->pid] *)
Definition mypid : M mem Z := let* i := curproc in let* p := getp i in ret (p_pid p).

Definition acquiresleep (lk : slref mem) : M mem unit :=
  acquire (sl_lk lk) ;;
  acquiresleep_loop fuel lk ;;
  sl_upd lk (set_sl_locked 1) ;;
  let* pid := mypid in
  sl_upd lk (set_sl_pid pid) ;;
  release (sl_lk lk).

Definition releasesleep (lk : slref mem) : M mem unit :=
  acquire (sl_lk lk) ;;
  sl_upd lk (set_sl_locked 0) ;;
  sl_upd lk (set_sl_pid 0) ;;
  wakeup (sl_chan lk) ;;
  release (sl_lk lk).

(** The second operand of [&&] is evaluated only when the lock is locked. *)
Definition holdingsleep (lk : slref mem) : M mem bool :=
  acquire (sl_lk lk) ;;
  let* l := sl_get lk in
  let* r := (if negb (sl_locked l =? 0) then let* pid := mypid in ret (sl_pid l =? pid) else ret false) in
  release (sl_lk lk) ;;
  ret r.

(** ** The buffer cache *)

(** [&bcache.head] *)
Definition head : nat := NBUF.

(** [&b->lock] *)
Definition buf_lock (b : nat) : slref mem :=
  mkslref mem (LBuf b) (ChBuf b) (let* x := getb b in ret (b_lock x))
    (fun g => setb b (fun x => set_b_lock (g (b_lock x)) x)).

(** Take [b] for the first element after the head. *)
Definition link_first (b : nat) : M mem unit :=
  let* h := getb head in
  setb b (set_b_next (b_next h)) ;;
  setb b (set_b_prev head).

Definition link_back (b : nat) : M mem unit :=
  let* h := getb head in
  setb (b_next h) (set_b_prev b) ;;
  setb head (set_b_next b).

Fixpoint binit_loop (n b : nat) : M mem unit :=
  match n with
  | O => ret tt
  | S n' =>
      link_first b ;;
      initsleeplock (buf_lock b) ;;
      link_back b ;;
      binit_loop n' (S b)
  end.

Definition binit : M mem unit :=
  initlock LBcache ;;
  setb head (set_b_prev head) ;;
  setb head (set_b_next head) ;;
  binit_loop NBUF 0.

(** [for (b = ...; b != &bcache.head; b = b->next or b->prev) if (test) ...]:
    the first hit.  There are [NBUF] buffers on the list. *)
Fixpoint bscan (n : nat) (dir : buf -> nat) (test : buf -> bool) (b : nat) : M mem (option nat) :=
  if (b =? head)%nat then ret None else
  match n with
  | O => fun _ => OutOfFuel
  | S n' =>
      let* x := getb b in
      if test x then ret (Some b) else bscan n' dir test (dir x)
  end.

Definition bget (dev blockno : Z) : M mem nat :=
  acquire LBcache ;;
  let* h := getb head in
  let* r := bscan NBUF b_next (fun x => (b_dev x =? dev) && (b_blockno x =? blockno))%bool (b_next h) in
  match r with
  | Some b =>
      setb b (fun x => set_b_refcnt (u32 (b_refcnt x + 1)) x) ;;
      release LBcache ;;
      acquiresleep (buf_lock b) ;;
      ret b
  | None =>
      let* r := bscan NBUF b_prev (fun x => b_refcnt x =? 0) (b_prev h) in
      match r with
      | Some b =>
          setb b (set_b_dev dev) ;;
          setb b (set_b_blockno blockno) ;;
          setb b (set_b_valid 0) ;;
          setb b (set_b_refcnt 1) ;;
          release LBcache ;;
          acquiresleep (buf_lock b) ;;
          ret b
      | None => panic "bget: no buffers"
      end
  end.

Definition bread (dev blockno : Z) : M mem nat :=
  let* b := bget dev blockno in
  let* x := getb b in
  when (b_valid x =? 0) (
    virtio_disk_rw b 0 ;;
    setb b (set_b_valid 1)) ;;
  ret b.

Definition bwrite (b : nat) : M mem unit :=
  let* h := holdingsleep (buf_lock b) in
  if negb h then panic "bwrite" else
  virtio_disk_rw b 1.

(** Take [b] out of the list. *)
Definition unlink_buf (b : nat) : M mem unit :=
  let* x := getb b in
  setb (b_next x) (set_b_prev (b_prev x)) ;;
  let* x := getb b in
  setb (b_prev x) (set_b_next (b_next x)).

Definition brelse (b : nat) : M mem unit :=
  let* h := holdingsleep (buf_lock b) in
  if negb h then panic "brelse" else
  releasesleep (buf_lock b) ;;
  acquire LBcache ;;
  setb b (fun x => set_b_refcnt (u32 (b_refcnt x - 1)) x) ;;
  let* x := getb b in
  when (b_refcnt x =? 0) (
    unlink_buf b ;;
    link_first b ;;
    link_back b) ;;
  release LBcache.

Definition bpin (b : nat) : M mem unit :=
  acquire LBcache ;;
  setb b (fun x => set_b_refcnt (u32 (b_refcnt x + 1)) x) ;;
  release LBcache.

Definition bunpin (b : nat) : M mem unit :=
  acquire LBcache ;;
  setb b (fun x => set_b_refcnt (u32 (b_refcnt x - 1)) x) ;;
  release LBcache.

End Bio.
