(* ===== verification/BioFacts.v ===== *)
(** * The buffer cache as a store of blocks

    The list of the buffers as a ring of links, the abstract cache [cab] (the
    logical contents of every block, the references and the locks) and what each
    operation of [bio.c] does to it. *)

From stdpp Require Import base list gmap strings.
From Stdlib Require Import ZArith Lia.
From S2P Require Import Prelude KernelBase Proc FsBase FsLogic Bio.

Open Scope Z_scope.

Lemma NBUF_val : NBUF = 30%nat.
Proof. reflexivity. Qed.

(** ** Rings *)

Section Ring.

Implicit Types (nx pv : nat -> nat) (l : list nat).

(** The links from [a] through [l] to [z]. *)
Fixpoint chain nx pv (a : nat) l (z : nat) : Prop :=
  match l with
  | [] => nx a = z /\ pv z = a
  | b :: l' => nx a = b /\ pv b = a /\ chain nx pv b l' z
  end.

Definition fupd (g : nat -> nat) (i v : nat) : nat -> nat := fun j => if decide (j = i) then v else g j.

Lemma fupd_eq g i v : fupd g i v i = v.
Proof. unfold fupd. by rewrite decide_True. Qed.

Lemma fupd_ne g i v j : j <> i -> fupd g i v j = g j.
Proof. intros H. unfold fupd. by rewrite decide_False. Qed.

Lemma chain_nx nx pv i v a l z : i <> a -> i ∉ l -> chain nx pv a l z -> chain (fupd nx i v) pv a l z.
Proof.
  revert a. induction l as [|b l IH]; intros a Ha Hl; cbn [chain]; rewrite fupd_ne by done; [done|].
  apply not_elem_of_cons in Hl as [? ?]. intros (? & ? & ?). auto.
Qed.

Lemma chain_pv nx pv i v a l z : i <> z -> i ∉ l -> chain nx pv a l z -> chain nx (fupd pv i v) a l z.
Proof.
  revert a. induction l as [|b l IH]; intros a Ha Hl; cbn [chain].
  - by rewrite fupd_ne.
  - apply not_elem_of_cons in Hl as [? ?]. rewrite fupd_ne by done. intros (? & ? & ?). auto.
Qed.

Lemma chain_app nx pv a l1 b l2 z :
  chain nx pv a (l1 ++ b :: l2) z <-> chain nx pv a l1 b /\ chain nx pv b l2 z.
Proof. revert a. induction l1 as [|c l1 IH]; intros a; cbn [chain app]; [tauto|]. rewrite IH. tauto. Qed.

Lemma chain_last nx pv a l z : chain nx pv a l z -> pv z ∈ a :: l.
Proof.
  revert a. induction l as [|b l IH]; intros a; cbn [chain].
  - intros [_ ->]. apply list_elem_of_here.
  - intros (_ & _ & H). apply list_elem_of_further. by apply IH.
Qed.

Lemma chain_first nx pv a l z : chain nx pv a l z -> nx a ∈ l ++ [z].
Proof. destruct l; cbn [chain app]; intros [-> _]; apply list_elem_of_here. Qed.

(** [b->next->prev = b->prev; b->prev->next = b->next;] *)
Lemma chain_unlink nx pv a l1 b l2 z :
  NoDup (a :: l1 ++ b :: l2) -> z ∉ l1 ++ b :: l2 ->
  chain nx pv a l1 b -> chain nx pv b l2 z ->
  chain (fupd nx (pv b) (nx b)) (fupd pv (nx b) (pv b)) a (l1 ++ l2) z.
Proof.
  revert a. induction l1 as [|d l1 IH]; intros a Hnd Hz; cbn [chain app] in *.
  - intros [Ha Hb] H. rewrite Hb. destruct l2 as [|c l2]; cbn [chain] in *.
    + destruct H as [-> _]. by rewrite !fupd_eq.
    + destruct H as (-> & _ & H). rewrite !fupd_eq. split_and!; [done..|].
      apply NoDup_cons in Hnd as [Ha' Hnd]. apply NoDup_cons in Hnd as [Hb' Hnd]. apply NoDup_cons in Hnd as [? ?].
      apply chain_nx; [set_solver..|]. apply chain_pv; [set_solver..|done].
  - intros (Ha & Hd & H1) H2. apply NoDup_cons in Hnd as [Ha' Hnd].
    pose proof (chain_last _ _ _ _ _ H1) as Hl. pose proof (chain_first _ _ _ _ _ H2) as Hf.
    rewrite fupd_ne by (intros E; rewrite <- E in Hl; set_solver).
    pose proof Hnd as Hnd'. apply NoDup_cons in Hnd' as [Hd' _].
    rewrite fupd_ne by (intros E; rewrite <- E in Hf; clear Ha Hd H1 H2 IH; set_solver).
    split_and!; [done..|]. apply IH; [done|set_solver|done|done].
Qed.

(** [b->next = head->next; b->prev = head; head->next->prev = b; head->next = b;] *)
Lemma chain_link nx pv h l b :
  b <> h -> b ∉ l -> NoDup (h :: l) -> chain nx pv h l h ->
  chain (fupd (fupd nx b (nx h)) h b) (fupd (fupd pv b h) (nx h) b) h (b :: l) h.
Proof.
  intros Hb Hl Hnd H. cbn [chain]. rewrite fupd_eq. apply NoDup_cons in Hnd as [Hh Hnd].
  destruct l as [|c l]; cbn [chain] in *.
  - destruct H as [-> _]. rewrite !fupd_eq, (fupd_ne _ h b b), !fupd_eq by done.
    split_and!; [done..| |done]. by rewrite fupd_ne, fupd_eq.
  - destruct H as (-> & _ & H). apply NoDup_cons in Hnd as [Hc Hnd].
    rewrite fupd_eq, (fupd_ne _ h b b), fupd_eq by done.
    rewrite (fupd_ne _ c b b), fupd_eq by set_solver. split_and!; [done..|].
    do 2 (apply chain_nx; [set_solver..|]). do 2 (apply chain_pv; [set_solver..|]). done.
Qed.

End Ring.

(** The links of the buffers, and the list [l] they form. *)
Definition nxf (bs : list buf) (i : nat) : nat := match bs !! i with Some x => b_next x | None => i end.

Definition pvf (bs : list buf) (i : nat) : nat := match bs !! i with Some x => b_prev x | None => i end.

Definition ring (bs : list buf) (l : list nat) : Prop :=
  length bs = S NBUF /\ Permutation l (seq 0 NBUF) /\ chain (nxf bs) (pvf bs) head l head.

Lemma chain_ext nx pv nx' pv' a l z :
  (forall i, nx i = nx' i) -> (forall i, pv i = pv' i) -> chain nx pv a l z -> chain nx' pv' a l z.
Proof.
  intros H1 H2. revert a. induction l as [|b l IH]; intros a; cbn [chain]; rewrite H1, H2; [done|].
  intros (? & ? & ?). auto.
Qed.

(** A buffer without its links. *)
Definition core (x : buf) : buf := set_b_prev 0 (set_b_next 0 x).

Lemma nxf_insert bs i x j : (i < length bs)%nat -> nxf (<[i := x]> bs) j = fupd (nxf bs) i (b_next x) j.
Proof.
  intros Hi. unfold nxf, fupd. destruct (decide (j = i)) as [->|Hne].
  - by rewrite list_lookup_insert_eq.
  - by rewrite list_lookup_insert_ne.
Qed.

Lemma pvf_insert bs i x j : (i < length bs)%nat -> pvf (<[i := x]> bs) j = fupd (pvf bs) i (b_prev x) j.
Proof.
  intros Hi. unfold pvf, fupd. destruct (decide (j = i)) as [->|Hne].
  - by rewrite list_lookup_insert_eq.
  - by rewrite list_lookup_insert_ne.
Qed.

Lemma fupd_id g i j : fupd g i (g i) j = g j.
Proof. unfold fupd. by destruct (decide (j = i)) as [->|]. Qed.

(** Changing anything but the links of a buffer keeps the ring. *)
Lemma ring_core bs l i x x' : bs !! i = Some x -> b_next x' = b_next x -> b_prev x' = b_prev x ->
  ring bs l -> ring (<[i := x']> bs) l.
Proof.
  intros Hi Hn Hp (H1 & H2 & H3). pose proof (lookup_lt_Some _ _ _ Hi) as Hlt.
  split_and!; [by rewrite length_insert|done|]. eapply chain_ext; [| |exact H3]; intros j.
  - rewrite nxf_insert, Hn by done. replace (b_next x) with (nxf bs i) by (unfold nxf; by rewrite Hi). by rewrite fupd_id.
  - rewrite pvf_insert, Hp by done. replace (b_prev x) with (pvf bs i) by (unfold pvf; by rewrite Hi). by rewrite fupd_id.
Qed.

Lemma ring_in bs l i : ring bs l -> (i < NBUF)%nat <-> i ∈ l.
Proof. intros (_ & H & _). rewrite H, elem_of_seq. lia. Qed.

Lemma ring_nodup bs l : ring bs l -> NoDup (head :: l).
Proof.
  intros H. pose proof (ring_in bs l head H) as Hh. destruct H as (_ & H & _). apply NoDup_cons.
  split; [intros ?%Hh; unfold head in *; lia|]. rewrite H. apply NoDup_seq.
Qed.

(** The first buffer of [l] that passes the test. *)
Definition pick (bs : list buf) (test : buf -> bool) (l : list nat) : option nat :=
  List.find (fun b => match bs !! b with Some x => test x | None => false end) l.

(** A path along one of the links. *)
Fixpoint path (dir : buf -> nat) (bs : list buf) (x : buf) (l : list nat) (z : nat) : Prop :=
  match l with
  | [] => dir x = z
  | b :: l' => dir x = b /\ exists y, bs !! b = Some y /\ path dir bs y l' z
  end.

Lemma chain_path_next bs a x l z : bs !! a = Some x -> (forall b, b ∈ l -> (b < length bs)%nat) ->
  chain (nxf bs) (pvf bs) a l z -> path b_next bs x l z.
Proof.
  revert a x. induction l as [|b l IH]; intros a x Ha Hl; cbn [chain path]; unfold nxf at 1; rewrite Ha; [by intros [? _]|].
  intros (H1 & _ & H2). split; [done|]. destruct (lookup_lt_is_Some_2 bs b) as [y Hy]; [apply Hl; set_solver|].
  exists y. split; [done|]. eapply IH; [done| |done]. set_solver.
Qed.

Lemma path_snoc dir bs x l b z : path dir bs x l b ->
  (exists y, bs !! b = Some y /\ dir y = z) -> path dir bs x (l ++ [b]) z.
Proof.
  revert x. induction l as [|c l IH]; intros x; cbn [path app]; [eauto|].
  intros (H1 & y & Hy & H2) Hb. eauto.
Qed.

Lemma chain_path_prev bs a l z x : bs !! z = Some x -> (forall b, b ∈ l -> (b < length bs)%nat) ->
  chain (nxf bs) (pvf bs) a l z -> path b_prev bs x (reverse l) a.
Proof.
  revert a. induction l as [|b l IH]; intros a Hz Hl; rewrite ?reverse_cons; cbn [chain].
  - intros [_ H]. unfold pvf in H. by rewrite Hz in H.
  - intros (_ & H1 & H2). destruct (lookup_lt_is_Some_2 bs b) as [y Hy]; [apply Hl; set_solver|].
    apply path_snoc; [apply IH; [done|set_solver|done]|].
    exists y. split; [done|]. unfold pvf in H1. by rewrite Hy in H1.
Qed.

Section Ops.

Context {mem : Type} {cfg : config} {svc : services mem} {sym : symbols}.
Context {hfs : has_fs mem} {drv : disk_driver mem}.
Variable fuel : nat.
Variable R : kst mem -> kst mem -> Prop.
Context {dok : driver_ok mem R}.
Variable C : blocks -> Prop.
Variable me : nat.
Variable pid : Z.
Abbreviation fsp := (fsp R C me pid).

Lemma fsp_bscan n dir test x l L f (Q : option nat -> list lockid -> fsst -> Prop) :
  path dir (f_bufs f) x l head -> head ∉ l -> (length l <= n)%nat ->
  Q (pick (f_bufs f) test l) L f -> fsp (bscan n dir test (dir x)) L f Q.
Proof.
  revert x l. induction n as [|n IH]; intros x l Hp Hh Hn HQ; destruct l as [|b l]; cbn [path length] in *;
    try lia; cbn [bscan].
  1, 2: rewrite Hp, Nat.eqb_refl; by apply fsp_ret.
  destruct Hp as (-> & y & Hy & Hp). apply not_elem_of_cons in Hh as [Hb Hh].
  rewrite (proj2 (Nat.eqb_neq b head)) by congruence. apply fsp_bind. eapply fsp_getb; [done|].
  unfold pick in HQ. cbn [List.find] in HQ. rewrite Hy in HQ.
  destruct (test y); [by apply fsp_ret|]. apply (IH y l); [done|done|lia|exact HQ].
Qed.

Lemma fsp_bscan_next test x l L f (Q : option nat -> list lockid -> fsst -> Prop) :
  ring (f_bufs f) l -> f_bufs f !! head = Some x ->
  Q (pick (f_bufs f) test l) L f -> fsp (bscan NBUF b_next test (b_next x)) L f Q.
Proof.
  intros Hr Hx. pose proof Hr as (H1 & H2 & H3). pose proof (ring_nodup _ _ Hr) as [Hh _]%NoDup_cons.
  apply fsp_bscan; [|done|by rewrite H2, length_seq].
  eapply chain_path_next; [done| |done]. intros b Hb%(ring_in _ _ _ Hr). lia.
Qed.

Lemma fsp_bscan_prev test x l L f (Q : option nat -> list lockid -> fsst -> Prop) :
  ring (f_bufs f) l -> f_bufs f !! head = Some x ->
  Q (pick (f_bufs f) test (reverse l)) L f -> fsp (bscan NBUF b_prev test (b_prev x)) L f Q.
Proof.
  intros Hr Hx. pose proof Hr as (H1 & H2 & H3). pose proof (ring_nodup _ _ Hr) as [Hh _]%NoDup_cons.
  apply fsp_bscan; [|by rewrite elem_of_reverse|by rewrite length_reverse, H2, length_seq].
  eapply chain_path_prev; [done| |done]. intros b Hb%(ring_in _ _ _ Hr). lia.
Qed.

(** *** Relinking *)

(** Only links differ. *)
Definition relinked (f f' : fsst) : Prop :=
  map core (f_bufs f') = map core (f_bufs f) /\ f_mem f' = f_mem f /\ f_disk f' = f_disk f.

Lemma relinked_length f f' : relinked f f' -> length (f_bufs f') = length (f_bufs f).
Proof. intros [H _]. by rewrite <- (length_map core), H, length_map. Qed.

Lemma relinked_insert f i x x' : f_bufs f !! i = Some x -> core x' = core x ->
  relinked f (set_f_bufs (<[i := x']> (f_bufs f)) f).
Proof.
  intros Hi Hc. split_and!; [|done..]. cbn [f_bufs set_f_bufs].
  change (map core) with (fmap (M := list) core). rewrite list_fmap_insert, Hc.
  apply list_insert_id. by rewrite list_lookup_fmap, Hi.
Qed.

Lemma relinked_trans f1 f2 f3 : relinked f1 f2 -> relinked f2 f3 -> relinked f1 f3.
Proof. intros (? & ? & ?) (? & ? & ?). split_and!; congruence. Qed.

Lemma fsp_get_link i L f (Q : buf -> list lockid -> fsst -> Prop) : (i < length (f_bufs f))%nat ->
  (forall x, f_bufs f !! i = Some x -> b_next x = nxf (f_bufs f) i -> b_prev x = pvf (f_bufs f) i -> Q x L f) ->
  fsp (getb i) L f Q.
Proof.
  intros [x Hx]%lookup_lt_is_Some_2 HQ. eapply fsp_getb; [done|].
  apply HQ; [done| |]; unfold nxf, pvf; by rewrite Hx.
Qed.

Lemma fsp_set_next i v L f (Q : unit -> list lockid -> fsst -> Prop) : (i < length (f_bufs f))%nat ->
  (forall f', relinked f f' -> (forall j, nxf (f_bufs f') j = fupd (nxf (f_bufs f)) i v j) ->
     (forall j, pvf (f_bufs f') j = pvf (f_bufs f) j) -> Q tt L f') ->
  fsp (setb i (set_b_next v)) L f Q.
Proof.
  intros Hi HQ. destruct (lookup_lt_is_Some_2 _ _ Hi) as [x Hx]. eapply fsp_setb; [done|].
  apply HQ; [by eapply relinked_insert|intros j; by apply nxf_insert|].
  intros j. cbn [f_bufs set_f_bufs]. rewrite pvf_insert by done. cbn [b_prev set_b_next].
  replace (b_prev x) with (pvf (f_bufs f) i) by (unfold pvf; by rewrite Hx). by rewrite fupd_id.
Qed.

Lemma fsp_set_prev i v L f (Q : unit -> list lockid -> fsst -> Prop) : (i < length (f_bufs f))%nat ->
  (forall f', relinked f f' -> (forall j, nxf (f_bufs f') j = nxf (f_bufs f) j) ->
     (forall j, pvf (f_bufs f') j = fupd (pvf (f_bufs f)) i v j) -> Q tt L f') ->
  fsp (setb i (set_b_prev v)) L f Q.
Proof.
  intros Hi HQ. destruct (lookup_lt_is_Some_2 _ _ Hi) as [x Hx]. eapply fsp_setb; [done|].
  apply HQ; [by eapply relinked_insert| |intros j; by apply pvf_insert].
  intros j. cbn [f_bufs set_f_bufs]. rewrite nxf_insert by done. cbn [b_next set_b_prev].
  replace (b_next x) with (nxf (f_bufs f) i) by (unfold nxf; by rewrite Hx). by rewrite fupd_id.
Qed.

Lemma fsp_unlink b l1 l2 L f (Q : unit -> list lockid -> fsst -> Prop) :
  length (f_bufs f) = S NBUF -> NoDup (head :: l1 ++ b :: l2) ->
  (forall i, i ∈ l1 ++ b :: l2 -> (i < NBUF)%nat) ->
  chain (nxf (f_bufs f)) (pvf (f_bufs f)) head (l1 ++ b :: l2) head ->
  (forall f', relinked f f' -> chain (nxf (f_bufs f')) (pvf (f_bufs f')) head (l1 ++ l2) head -> Q tt L f') ->
  fsp (unlink_buf b) L f Q.
Proof.
  intros Hlen Hnd Hin Hc HQ. pose proof (proj1 (NoDup_cons _ _) Hnd) as [Hh Hnd'].
  assert (Hb : (b < NBUF)%nat) by (apply Hin; set_solver).
  apply chain_app in Hc as [H1 H2].
  pose proof (chain_last _ _ _ _ _ H1) as Hp. pose proof (chain_first _ _ _ _ _ H2) as Hn.
  assert (Hbig : forall i, i ∈ head :: l1 ++ b :: l2 -> (i < length (f_bufs f))%nat).
  { intros i [-> |Hi]%elem_of_cons; [unfold head; lia|]. apply Hin in Hi. lia. }
  unfold unlink_buf. apply fsp_bind, fsp_get_link; [lia|]. intros x Hx -> ->.
  apply fsp_bind, fsp_set_prev; [apply Hbig; clear H1 H2; set_solver|]. intros f1 R1 N1 P1.
  pose proof (relinked_length _ _ R1) as Hl1.
  apply fsp_bind, fsp_get_link; [lia|]. intros x1 Hx1 -> ->. rewrite N1, P1.
  rewrite fupd_ne by (intros E; rewrite <- E in Hn; apply NoDup_app in Hnd' as (_ & _ & [Hb' _]%NoDup_cons);
    clear H1 H2; set_solver).
  apply fsp_set_next; [rewrite Hl1; apply Hbig; clear H1 H2; set_solver|]. intros f2 R2 N2 P2.
  apply HQ; [by eapply relinked_trans|].
  eapply chain_ext; [| |apply (chain_unlink (nxf (f_bufs f)) (pvf (f_bufs f)) head l1 b l2 head); done].
  - intros j. rewrite N2. unfold fupd. by rewrite N1.
  - intros j. rewrite P2. by rewrite P1.
Qed.

Lemma fsp_link b l L f (Q : unit -> list lockid -> fsst -> Prop) :
  length (f_bufs f) = S NBUF -> NoDup (head :: b :: l) -> (forall i, i ∈ b :: l -> (i < NBUF)%nat) ->
  chain (nxf (f_bufs f)) (pvf (f_bufs f)) head l head ->
  (forall f', relinked f f' -> chain (nxf (f_bufs f')) (pvf (f_bufs f')) head (b :: l) head -> Q tt L f') ->
  fsp (link_first b ;; link_back b) L f Q.
Proof.
  intros Hlen Hnd Hin Hc HQ. pose proof (chain_first _ _ _ _ _ Hc) as Hn.
  assert (Hb : (b < NBUF)%nat) by (apply Hin; set_solver).
  assert (Hn' : (nxf (f_bufs f) head <= NBUF)%nat).
  { apply elem_of_app in Hn as [Hn|Hn%list_elem_of_singleton]; [|unfold head in *; lia].
    assert (nxf (f_bufs f) head < NBUF)%nat; [apply Hin; clear Hc; set_solver|lia]. }
  assert (Hhb : b <> head) by (unfold head; lia).
  unfold link_first, link_back. apply fsp_bind, fsp_bind, fsp_get_link; [unfold head; lia|]. intros x Hx -> _.
  apply fsp_bind, fsp_set_next; [lia|]. intros f1 R1 N1 P1. pose proof (relinked_length _ _ R1) as Hl1.
  apply fsp_set_prev; [lia|]. intros f2 R2 N2 P2. pose proof (relinked_length _ _ R2) as Hl2.
  apply fsp_bind, fsp_get_link; [unfold head; lia|]. intros y Hy -> _.
  rewrite N2, N1, fupd_ne by done.
  apply fsp_bind, fsp_set_prev; [lia|]. intros f3 R3 N3 P3. pose proof (relinked_length _ _ R3) as Hl3.
  apply fsp_set_next; [unfold head; lia|]. intros f4 R4 N4 P4.
  apply HQ; [by do 3 (eapply relinked_trans; [done|])|]. rewrite NoDup_cons, NoDup_cons in Hnd.
  eapply chain_ext; [| |apply (chain_link (nxf (f_bufs f)) (pvf (f_bufs f)) head l b); [done|tauto| |done]].
  - intros j. rewrite N4. unfold fupd. rewrite N3, N2, N1. done.
  - intros j. rewrite P4, P3. unfold fupd at 1 3. rewrite P2. unfold fupd. by rewrite P1.
  - apply NoDup_cons. split; [|tauto]. destruct Hnd as [Hnd _]. clear Hc. set_solver.
Qed.

(** A buffer nobody uses any more becomes the most recently used. *)
Lemma fsp_to_front b l L f (Q : unit -> list lockid -> fsst -> Prop) :
  ring (f_bufs f) l -> (b < NBUF)%nat ->
  (forall f' l', relinked f f' -> ring (f_bufs f') (b :: l') -> Permutation l (b :: l') ->
     (exists l1 l2, l = l1 ++ b :: l2 /\ l' = l1 ++ l2) -> Q tt L f') ->
  fsp (unlink_buf b ;; link_first b ;; link_back b) L f Q.
Proof.
  intros Hr Hb HQ. pose proof (ring_nodup _ _ Hr) as Hnd. pose proof Hb as Hbl.
  apply (ring_in _ _ _ Hr) in Hbl as (l1 & l2 & ->)%list_elem_of_split.
  assert (Hin : forall i, i ∈ l1 ++ b :: l2 -> (i < NBUF)%nat) by (intros i; apply (ring_in _ _ _ Hr)).
  destruct Hr as (Hlen & Hp & Hc). apply fsp_bind. eapply fsp_unlink; [done..|]. intros f1 R1 C1.
  assert (Hperm : Permutation (l1 ++ b :: l2) (b :: l1 ++ l2)) by (symmetry; apply Permutation_middle).
  eapply fsp_link; [by rewrite (relinked_length _ _ R1)|by rewrite <- Hperm| |done|].
  { intros i. rewrite <- Hperm. apply Hin. }
  intros f2 R2 C2. assert (R3 := relinked_trans _ _ _ R1 R2).
  apply (HQ f2 (l1 ++ l2)); [done| |done|eauto]. split_and!; [by rewrite (relinked_length _ _ R3)| |done].
  by rewrite <- Hperm.
Qed.

End Ops.
