(* ===== verification/BioCache.v ===== *)
(** * The buffer cache refines a store of blocks

    [cab] is the cache as its clients see it: the logical contents of every
    block, the blocks in use with their buffer and number of references, and the
    blocks the thread has locked.  [cache] relates it to the buffers, and each
    operation of [bio.c] is an update of it. *)

From stdpp Require Import base list gmap strings.
From Stdlib Require Import ZArith Lia.
From S2P Require Import Prelude KernelBase Proc FsBase FsLogic Bio BioFacts.

Open Scope Z_scope.

(** [c_lk !! k = Some v]: this thread has locked block [k], and [v] says that
    the buffer is known to hold its contents. *)
Record cab := mkcab { c_val : blocks; c_refs : gmap Z (nat * nat); c_lk : gmap Z bool }.

Lemma size_list_to_set_le (l : list nat) : (size (list_to_set (C := gset nat) l) <= length l)%nat.
Proof.
  induction l as [|i l IH]; [by rewrite list_to_set_nil, size_empty|]. cbn [length]. rewrite list_to_set_cons, size_union_alt, size_singleton.
  assert (size (list_to_set (C := gset nat) l ∖ {[i]}) <= size (list_to_set (C := gset nat) l))%nat; [|lia].
  apply subseteq_size. set_solver.
Qed.

Section Slots.

Variable dev : Z.
Variable pid : Z.
Implicit Types (D : blocks) (A : cab) (bs : list buf).

(** What buffer [i] may contain. *)
Definition slot_ok D A (i : nat) (x : buf) : Prop :=
  let k := b_blockno x in
  (b_dev x <> dev -> b_refcnt x = 0 /\ sl_locked (b_lock x) = 0) /\
  (b_dev x = dev ->
    (b_valid x <> 0 -> b_data x = c_val A k) /\
    (b_valid x = 0 \/ c_refs A !! k = None -> c_val A k = D k) /\
    match c_refs A !! k with Some (j, n) => j = i /\ b_refcnt x = Z.of_nat n | None => b_refcnt x = 0 end /\
    match c_lk A !! k with
    | Some v => b_lock x = mksleeplock 1 pid /\ (v = true -> b_valid x <> 0)
    | None => sl_locked (b_lock x) = 0
    end).

Definition caches bs (i : nat) (k : Z) : Prop :=
  exists x, bs !! i = Some x /\ b_dev x = dev /\ b_blockno x = k.

Record slots bs D A : Prop := {
  sl_slot i x : (i < NBUF)%nat -> bs !! i = Some x -> slot_ok D A i x;
  sl_uniq i j k : (i < NBUF)%nat -> (j < NBUF)%nat -> caches bs i k -> caches bs j k -> i = j;
  sl_refs k i n : c_refs A !! k = Some (i, n) -> (i < NBUF)%nat /\ 0 < Z.of_nat n < 2 ^ 32 /\ caches bs i k;
  sl_rest k : (forall i, (i < NBUF)%nat -> ~ caches bs i k) -> c_val A k = D k;
  sl_locks k : is_Some (c_lk A !! k) -> is_Some (c_refs A !! k)
}.

#[export] Instance cab_equiv : Equiv cab := fun A A' =>
  (forall k, c_val A k = c_val A' k) /\ c_refs A = c_refs A' /\ c_lk A = c_lk A'.

#[export] Instance cab_equivalence : Equivalence (≡@{cab}).
Proof.
  split.
  - by intros A.
  - intros A A' (H1 & H2 & H3). split_and!; [intros k; by rewrite H1|done..].
  - intros A1 A2 A3 (H1 & H2 & H3) (G1 & G2 & G3). split_and!; [intros k; by rewrite H1|congruence..].
Qed.

#[export] Instance slots_proper bs D : Proper ((≡) ==> iff) (slots bs D).
Proof.
  assert (H : forall A A', A ≡ A' -> slots bs D A -> slots bs D A').
  { intros [v r o] [v' r' o'] (Hv & Hr & Ho) [S1 S2 S3 S4 S5]. simpl in *. subst r' o'. split; simpl in *; try done.
    - intros i x Hi Hx. specialize (S1 i x Hi Hx). unfold slot_ok in *. simpl in *. by rewrite <- Hv.
    - intros k Hk. rewrite <- Hv. auto. }
  intros A A' HA. split; by apply H.
Qed.

(** The new state of block [k]: its contents, its references, its lock. *)
Definition at_block (k : Z) (v : list Z) (r : option (nat * nat)) (o : option bool) A : cab :=
  mkcab (upd (c_val A) k v) (partial_alter (fun _ => r) k (c_refs A)) (partial_alter (fun _ => o) k (c_lk A)).

Lemma at_block_refs k v r o A : c_refs (at_block k v r o A) !! k = r.
Proof. apply lookup_partial_alter_eq. Qed.

Lemma at_block_refs_ne k v r o A j : j <> k -> c_refs (at_block k v r o A) !! j = c_refs A !! j.
Proof. intros H. by apply lookup_partial_alter_ne. Qed.

Lemma at_block_lk k v r o A : c_lk (at_block k v r o A) !! k = o.
Proof. apply lookup_partial_alter_eq. Qed.

Lemma at_block_lk_ne k v r o A j : j <> k -> c_lk (at_block k v r o A) !! j = c_lk A !! j.
Proof. intros H. by apply lookup_partial_alter_ne. Qed.

Lemma at_block_twice k v r o v' r' o' A : at_block k v r o (at_block k v' r' o' A) ≡ at_block k v r o A.
Proof.
  split_and!; cbn [c_val c_refs c_lk at_block].
  - intros j. unfold upd. by destruct (j =? k).
  - apply map_eq. intros j. destruct (decide (j = k)) as [->|];
      by rewrite ?lookup_partial_alter_eq, ?lookup_partial_alter_ne.
  - apply map_eq. intros j. destruct (decide (j = k)) as [->|];
      by rewrite ?lookup_partial_alter_eq, ?lookup_partial_alter_ne.
Qed.

(** A buffer changes, and with it at most what is known of the block it then
    holds; if it held another block, that one was not in use. *)
Lemma slots_upd bs D A i k x x' D' v r o :
  slots bs D A -> (i < NBUF)%nat -> bs !! i = Some x -> b_dev x' = dev -> b_blockno x' = k ->
  (b_dev x = dev /\ b_blockno x = k \/
   (b_dev x <> dev \/ c_refs A !! b_blockno x = None) /\ forall j, (j < NBUF)%nat -> ~ caches bs j k) ->
  (forall j, j <> k -> D' j = D j) ->
  slot_ok D' (at_block k v r o A) i x' ->
  match r with Some (_, n) => 0 < Z.of_nat n < 2 ^ 32 | None => o = None end ->
  slots (<[i := x']> bs) D' (at_block k v r o A).
Proof.
  intros [S1 S2 S3 S4 S5] Hi Hx Hdev <- Hold HD Hok Hr. set (k := b_blockno x') in *.
  pose proof (lookup_lt_Some _ _ _ Hx) as Hlt.
  assert (Hme : caches (<[i := x']> bs) i k) by (exists x'; by rewrite list_lookup_insert_eq).
  assert (Hcne : forall j k', j <> i -> caches (<[i := x']> bs) j k' <-> caches bs j k').
  { intros j k' Hj. unfold caches. by rewrite list_lookup_insert_ne. }
  assert (Hci : forall k', caches (<[i := x']> bs) i k' -> k' = k).
  { intros k' (y & Hy & _ & Hk). rewrite list_lookup_insert_eq in Hy by done. by simplify_eq. }
  assert (Huniq : forall j, (j < NBUF)%nat -> caches bs j k -> j = i).
  { intros j Hj Hc. destruct Hold as [[? ?]|[_ Hold]]; [|by destruct (Hold j)].
    apply (S2 j i k); [done..|]. by exists x. }
  split.
  - intros j y Hj Hy. destruct (decide (j = i)) as [->|Hne].
    { rewrite list_lookup_insert_eq in Hy by done. by simplify_eq. }
    rewrite list_lookup_insert_ne in Hy by done. destruct (S1 j y Hj Hy) as [Hs1 Hs2]. split; [done|].
    intros Hd. destruct (decide (b_blockno y = k)) as [E|E].
    { destruct Hne. apply Huniq; [done|]. by exists y. }
    rewrite at_block_refs_ne, at_block_lk_ne by done. cbn [c_val at_block]. rewrite upd_ne, HD by done. auto.
  - intros j j' k' Hj Hj' Hc Hc'. destruct (decide (j = i)) as [->|H1]; destruct (decide (j' = i)) as [->|H2]; [done| | |].
    + apply Hci in Hc as ->. symmetry. apply Huniq; [done|]. by apply Hcne in Hc'.
    + apply Hci in Hc' as ->. apply Huniq; [done|]. by apply Hcne in Hc.
    + rewrite Hcne in Hc, Hc' by done. by apply (S2 j j' k').
  - intros k' j n Hk'. destruct (decide (k' = k)) as [->|E].
    + rewrite at_block_refs in Hk'. subst r. destruct Hok as [_ Hok]. specialize (Hok Hdev).
      fold k in Hok. rewrite at_block_refs in Hok. destruct Hok as (_ & _ & [-> _] & _). done.
    + rewrite at_block_refs_ne in Hk' by done. destruct (S3 k' j n Hk') as (? & ? & Hc). split; [done|split; [done|]].
      apply Hcne; [|done]. intros ->. destruct Hc as (y & Hy & Hd & Hb). simplify_eq.
      destruct Hold as [[_ ?]|[[?|Hno] _]]; [congruence|done|congruence].
  - intros k' Hno. assert (k' <> k) as E by (intros ->; by apply (Hno i)).
    cbn [c_val at_block]. rewrite upd_ne, HD by done.
    destruct (decide (b_dev x = dev /\ b_blockno x = k')) as [[Hd Hb]|Hnx].
    + destruct Hold as [[_ ?]|[[?|Hnr] _]]; [congruence|done|].
      destruct (S1 i x Hi Hx) as [_ Hs]. destruct (Hs Hd) as (_ & Hs2 & _). rewrite <- Hb. apply Hs2. by right.
    + apply S4. intros j Hj Hc. destruct (decide (j = i)) as [->|Hne].
      * destruct Hc as (y & Hy & Hd & Hb). simplify_eq. by apply Hnx.
      * apply (Hno j Hj). by apply Hcne.
  - intros k' Hk'. destruct (decide (k' = k)) as [->|E].
    + rewrite at_block_lk in Hk'. rewrite at_block_refs. destruct r; [done|]. by rewrite Hr in Hk'.
    + rewrite at_block_lk_ne in Hk' by done. rewrite at_block_refs_ne by done. auto.
Qed.

(** Links do not matter. *)
Lemma slots_core bs bs' D A : map core bs' = map core bs -> slots bs D A -> slots bs' D A.
Proof.
  intros E [S1 S2 S3 S4 S5].
  assert (Hl : forall bs bs', map core bs' = map core bs -> forall i x', bs' !! i = Some x' ->
                 exists x, bs !! i = Some x /\ core x' = core x).
  { clear. intros bs bs' E i x' Hx. assert (H : map core bs' !! i = map core bs !! i) by (by rewrite E).
    change (map core) with (fmap (M := list) core) in H.
    rewrite !list_lookup_fmap, Hx in H. destruct (bs !! i) as [x|]; [|done]. exists x. split; [done|]. by apply (inj Some) in H. }
  assert (Hc : forall bs bs' i k, map core bs' = map core bs -> caches bs' i k -> caches bs i k).
  { clear -Hl. intros bs bs' i k E (x' & Hx & Hd & Hb). destruct (Hl _ _ E _ _ Hx) as (x & ? & Hcore).
    exists x. split; [done|]. destruct x, x'. unfold core in Hcore. simpl in *. by simplify_eq. }
  split.
  - intros i x' Hi Hx. destruct (Hl _ _ E _ _ Hx) as (x & Hx0 & Hcore). specialize (S1 i x Hi Hx0).
    destruct x, x'. unfold core in Hcore. unfold slot_ok in *. simpl in *. by simplify_eq.
  - intros i j k Hi Hj H1 H2. apply (S2 i j k); [done..| |]; by eapply Hc.
  - intros k i n Hk. destruct (S3 k i n Hk) as (? & ? & ?). split; [done|split; [done|]]. by eapply Hc.
  - intros k Hk. apply S4. intros i Hi Hcc. apply (Hk i Hi). by eapply Hc.
  - done.
Qed.

(** A referenced block is in its buffer. *)
Lemma slots_at bs D A k i n : slots bs D A -> c_refs A !! k = Some (i, n) ->
  exists x, bs !! i = Some x /\ (i < NBUF)%nat /\ b_dev x = dev /\ b_blockno x = k /\
    b_refcnt x = Z.of_nat n /\ 0 < Z.of_nat n < 2 ^ 32 /\ slot_ok D A i x.
Proof.
  intros H Hk. destruct (sl_refs _ _ _ H k i n Hk) as (Hi & Hn & x & Hx & Hd & Hb).
  exists x. pose proof (sl_slot _ _ _ H i x Hi Hx) as [Hs1 Hs2].
  split_and!; try done; [|apply Hn|apply Hn]. destruct (Hs2 Hd) as (_ & _ & Hr & _). rewrite Hb, Hk in Hr. tauto.
Qed.

(** There is an unused buffer when fewer than [NBUF] blocks are in use. *)
Lemma slots_unused bs D A : length bs = S NBUF -> slots bs D A -> (size (c_refs A) < NBUF)%nat ->
  exists i x, (i < NBUF)%nat /\ bs !! i = Some x /\ b_refcnt x = 0.
Proof.
  intros Hlen H Hsz.
  set (used := list_to_set (C := gset nat) ((fun r : Z * (nat * nat) => r.2.1) <$> map_to_list (c_refs A))).
  assert (Hu : (size used <= size (c_refs A))%nat).
  { unfold used. etrans; [apply size_list_to_set_le|]. by rewrite length_fmap, length_map_to_list. }
  set (all := list_to_set (C := gset nat) (seq 0 NBUF)).
  assert (Ha : size all = NBUF) by (unfold all; rewrite size_list_to_set by apply NoDup_seq; apply length_seq).
  destruct (set_choose_or_empty (all ∖ used)) as [[i Hi]|He].
  - apply elem_of_difference in Hi as [Hi Hnu]. apply elem_of_list_to_set, elem_of_seq in Hi.
    destruct (lookup_lt_is_Some_2 bs i) as [x Hx]; [lia|]. exists i, x. split_and!; [lia|done|].
    destruct (sl_slot _ _ _ H i x) as [Hs1 Hs2]; [lia|done|].
    destruct (decide (b_dev x = dev)) as [Hd|Hd]; [|by destruct (Hs1 Hd)].
    destruct (Hs2 Hd) as (_ & _ & Hr & _). destruct (c_refs A !! b_blockno x) as [[j n]|] eqn:E; [|done].
    destruct Hr as [-> _]. destruct Hnu. apply elem_of_list_to_set, list_elem_of_fmap.
    exists (b_blockno x, (i, n)). split; [done|]. by apply elem_of_map_to_list.
  - apply empty_difference_subseteq in He as Hsub. apply subseteq_size in Hsub. lia.
Qed.

End Slots.
