(* ===== verification/BioSpecs.v ===== *)
(** * What the operations of [bio.c] do

    Each operation as an update of the abstract cache, for a thread that finds
    the sleep locks it takes free. *)

From stdpp Require Import base list gmap strings.
From Stdlib Require Import ZArith Lia.
From S2P Require Import Prelude KernelBase Proc FsBase FsLogic Bio BioFacts BioCache.

Open Scope Z_scope.

Section Specs.

Context {mem : Type} {cfg : config} {svc : services mem} {sym : symbols}.
Context {hfs : has_fs mem} {drv : disk_driver mem}.
Variable fuel : nat.
Variable R : kst mem -> kst mem -> Prop.
Context {dok : driver_ok mem R}.
Variable C : blocks -> Prop.
Variable me : nat.
Variable dev pid : Z.
Abbreviation fsp := (fsp R C me pid).
Abbreviation slots := (slots dev pid).
Abbreviation slot_ok := (slot_ok dev pid).
Abbreviation caches := (caches dev).

(** ** Sleep locks *)

(** Buffer [b] replaced by [x]. *)
Definition put_buf (b : nat) (x : buf) (f : fsst) : fsst := set_f_bufs (<[b := x]> (f_bufs f)) f.

Lemma put_buf_twice b x y f : put_buf b x (put_buf b y f) = put_buf b x f.
Proof. unfold put_buf. simpl. by rewrite list_insert_insert_eq. Qed.

Lemma put_buf_lookup b x y f : f_bufs f !! b = Some y -> f_bufs (put_buf b x f) !! b = Some x.
Proof. intros H. apply list_lookup_insert_eq. by eapply lookup_lt_Some. Qed.

Lemma fsp_upd_buf b g x L f (Q : unit -> list lockid -> fsst -> Prop) :
  f_bufs f !! b = Some x -> Q tt L (put_buf b (g x) f) -> fsp (setb b g) L f Q.
Proof. apply fsp_setb. Qed.

Lemma fsp_acquiresleep b x f (Q : unit -> list lockid -> fsst -> Prop) :
  (b < NBUF)%nat -> f_bufs f !! b = Some x -> sl_locked (b_lock x) = 0 ->
  Q tt [] (put_buf b (set_b_lock (mksleeplock 1 pid) x) f) -> fsp (acquiresleep fuel (buf_lock b)) [] f Q.
Proof.
  intros Hb Hx Hl HQ. unfold acquiresleep, buf_lock. cbn [sl_lk sl_get sl_upd sl_chan].
  do 2 fs_step. fs_step. destruct fuel as [|n]; cbn [acquiresleep_loop sl_get];
    (fs_step; fs_step; eapply fsp_getb; [done|]; fs_step; rewrite Hl; cbn [Z.eqb negb]; fs_step).
  all: fs_step; eapply fsp_upd_buf; [done|]; fs_step; apply fsp_mypid;
    fs_step; eapply fsp_upd_buf; [by eapply put_buf_lookup|]; rewrite put_buf_twice; fs_step; exact HQ.
Qed.

Lemma fsp_releasesleep b x f (Q : unit -> list lockid -> fsst -> Prop) :
  (b < NBUF)%nat -> f_bufs f !! b = Some x ->
  Q tt [] (put_buf b (set_b_lock (mksleeplock 0 0) x) f) -> fsp (releasesleep (buf_lock b)) [] f Q.
Proof.
  intros Hb Hx HQ. unfold releasesleep, buf_lock. cbn [sl_lk sl_get sl_upd sl_chan].
  do 3 fs_step. eapply fsp_upd_buf; [done|]. fs_step. eapply fsp_upd_buf; [by eapply put_buf_lookup|].
  rewrite put_buf_twice. do 3 fs_step. exact HQ.
Qed.

Lemma fsp_holdingsleep b x f (Q : bool -> list lockid -> fsst -> Prop) :
  (b < NBUF)%nat -> f_bufs f !! b = Some x -> b_lock x = mksleeplock 1 pid ->
  Q true [] f -> fsp (holdingsleep (buf_lock b)) [] f Q.
Proof.
  intros Hb Hx Hl HQ. unfold holdingsleep, buf_lock. cbn [sl_lk sl_get sl_upd sl_chan].
  do 4 fs_step. eapply fsp_getb; [done|]. fs_step. rewrite Hl. cbn [sl_locked Z.eqb negb sl_pid].
  fs_step. fs_step. apply fsp_mypid. fs_step. rewrite Z.eqb_refl. do 3 fs_step. exact HQ.
Qed.

(** ** The cache *)

(** [l] lists the buffers from the most to the least recently used. *)
Definition cache (l : list nat) (f : fsst) (A : cab) : Prop :=
  ring (f_bufs f) l /\ slots (f_bufs f) (f_disk f) A.

#[export] Instance cache_proper l f : Proper ((≡) ==> iff) (cache l f).
Proof. intros A A' HA. unfold cache. by rewrite HA. Qed.

Lemma slot_at D A b k x v r o : b_dev x = dev -> b_blockno x = k ->
  (b_valid x <> 0 -> b_data x = v) -> (b_valid x = 0 \/ r = None -> v = D k) ->
  match r with Some (j, n) => j = b /\ b_refcnt x = Z.of_nat n | None => b_refcnt x = 0 end ->
  match o with
  | Some u => b_lock x = mksleeplock 1 pid /\ (u = true -> b_valid x <> 0)
  | None => sl_locked (b_lock x) = 0
  end -> slot_ok D (at_block k v r o A) b x.
Proof.
  intros Hd <- H1 H2 H3 H4. split; [done|]. intros _. rewrite at_block_refs, at_block_lk.
  cbn [c_val at_block]. rewrite upd_eq. by split_and!.
Qed.

(** A buffer and the block it then holds change. *)
Lemma cache_set l f A b k x x' v r o :
  cache l f A -> (b < NBUF)%nat -> f_bufs f !! b = Some x ->
  b_next x' = b_next x -> b_prev x' = b_prev x -> b_dev x' = dev -> b_blockno x' = k ->
  (b_dev x = dev /\ b_blockno x = k \/
   (b_dev x <> dev \/ c_refs A !! b_blockno x = None) /\ forall j, (j < NBUF)%nat -> ~ caches (f_bufs f) j k) ->
  slot_ok (f_disk f) (at_block k v r o A) b x' ->
  match r with Some (_, n) => 0 < Z.of_nat n < 2 ^ 32 | None => o = None end ->
  cache l (put_buf b x' f) (at_block k v r o A).
Proof.
  intros [Hr Hs] Hb Hx Hn Hp Hd Hk Hold Hok Hro. split; [by eapply ring_core|].
  eapply slots_upd; done.
Qed.

Lemma set_disk_id f : set_f_disk (f_disk f) f = f.
Proof. by destruct f. Qed.

Lemma pick_Some bs test l b : pick bs test l = Some b -> b ∈ l /\ exists x, bs !! b = Some x /\ test x = true.
Proof.
  unfold pick. intros [H1 H2]%List.find_some. split; [by apply list_elem_of_In|].
  destruct (bs !! b) as [x|]; [eauto|done].
Qed.

Lemma pick_None bs test l b x : pick bs test l = None -> b ∈ l -> bs !! b = Some x -> test x = false.
Proof.
  unfold pick. intros H Hb Hx. apply list_elem_of_In in Hb. pose proof (List.find_none _ _ H b Hb) as H0.
  simpl in H0. by rewrite Hx in H0.
Qed.

(** The number of references to [k], and the buffer it is in. *)
Definition refs_of (A : cab) (k : Z) : nat := match c_refs A !! k with Some (_, n) => n | None => 0 end.

(** Block [k] taken once more, in buffer [b]. *)
Definition taken (k : Z) (b : nat) (known : bool) (A : cab) : cab :=
  at_block k (c_val A k) (Some (b, S (refs_of A k))) (Some known) A.

Lemma upd_self D k j : upd D k (D k) j = D j.
Proof. unfold upd. destruct (Z.eqb_spec j k); congruence. Qed.

(** The buffer [bget] chooses: the one that has the block, or else the one
    that was used least recently among those nobody uses. *)
Definition chosen (bs : list buf) (l : list nat) (k : Z) (b : nat) : Prop :=
  caches bs b k \/ (forall i, (i < NBUF)%nat -> ~ caches bs i k) /\
                   pick bs (fun x => b_refcnt x =? 0) (reverse l) = Some b.

Lemma fsp_bget l f A k (Q : nat -> list lockid -> fsst -> Prop) :
  cache l f A -> c_lk A !! k = None -> Z.of_nat (refs_of A k) + 1 < 2 ^ 32 ->
  (is_Some (c_refs A !! k) \/ (size (c_refs A) < NBUF)%nat) ->
  (forall b f', f_mem f' = f_mem f -> f_disk f' = f_disk f -> chosen (f_bufs f) l k b ->
     (forall j n, c_refs A !! k = Some (j, n) -> j = b) ->
     cache l f' (taken k b false A) -> Q b [] f') ->
  fsp (bget fuel dev k) [] f Q.
Proof.
  intros [Hr Hs] Hlk Hn Hroom HQ. pose proof Hr as (Hlen & _). unfold bget. do 2 fs_step. fs_step.
  destruct (lookup_lt_is_Some_2 (f_bufs f) head) as [h Hh]; [unfold head; lia|].
  eapply fsp_getb; [done|]. fs_step. eapply fsp_bscan_next; [done..|].
  destruct (pick _ _ l) as [b|] eqn:E1.
  - apply pick_Some in E1 as (Hb%(ring_in _ _ _ Hr) & x & Hx & [Hd Hk]%andb_true_iff). bool_to_prop.
    destruct (sl_slot _ _ _ _ _ Hs b x Hb Hx) as [_ Hok]. destruct (Hok Hd) as (O1 & O2 & O3 & O4).
    rewrite Hk in *. rewrite Hlk in O4.
    assert (Href : b_refcnt x = Z.of_nat (refs_of A k) /\ forall j n, c_refs A !! k = Some (j, n) -> j = b).
    { unfold refs_of. destruct (c_refs A !! k) as [[j n]|]; [|done]. destruct O3. split; [done|]. congruence. }
    destruct Href as [Href Hj].
    fs_step. eapply fsp_upd_buf; [done|]. do 2 fs_step. fs_step.
    eapply fsp_acquiresleep; [done|by eapply put_buf_lookup|done|]. fs_step. rewrite put_buf_twice.
    apply HQ; [done|done|left; by exists x|done|].
    eapply cache_set; [done|done|done|done|done|done|done|by left| |lia]. apply slot_at; try done.
    + intros [Hv|?]; [|done]. by apply O2; left.
    + simpl. rewrite Href, u32_small; [split; [done|]|]; lia.
  - assert (Hnc : forall i, (i < NBUF)%nat -> ~ caches (f_bufs f) i k).
    { intros i Hi (x & Hx & Hd & Hk). assert (Hf := pick_None _ _ _ i x E1 (proj1 (ring_in _ _ _ Hr) Hi) Hx).
      simpl in Hf. by rewrite (proj2 (Z.eqb_eq _ _) Hd), (proj2 (Z.eqb_eq _ _) Hk) in Hf. }
    assert (Hnr : c_refs A !! k = None).
    { destruct (c_refs A !! k) as [[j n]|] eqn:E; [|done].
      destruct (sl_refs _ _ _ _ _ Hs k j n E) as (Hj & _ & Hc). by destruct (Hnc j Hj). }
    fs_step. eapply fsp_bscan_prev; [done..|].
    destruct (pick _ _ (reverse l)) as [b|] eqn:E2.
    + pose proof E2 as E2'. apply pick_Some in E2' as (Hb & x & Hx & H0).
      rewrite elem_of_reverse in Hb. apply (ring_in _ _ _ Hr) in Hb. bool_to_prop.
      assert (Hfree : sl_locked (b_lock x) = 0 /\ (b_dev x <> dev \/ c_refs A !! b_blockno x = None)).
      { destruct (sl_slot _ _ _ _ _ Hs b x Hb Hx) as [Ok1 Ok2].
        destruct (decide (b_dev x = dev)) as [Hd|Hd]; [|destruct (Ok1 Hd); auto].
        destruct (Ok2 Hd) as (_ & _ & O3 & O4).
        destruct (c_refs A !! b_blockno x) as [[j n]|] eqn:E.
        - destruct (sl_refs _ _ _ _ _ Hs _ j n E) as (_ & ? & _). lia.
        - destruct (c_lk A !! b_blockno x) eqn:E'; [|auto].
          destruct (sl_locks _ _ _ _ _ Hs (b_blockno x)) as [? ?]; [by rewrite E'|congruence]. }
      destruct Hfree as [Hl0 Hold].
      do 4 (fs_step; eapply fsp_upd_buf; [first [done|by eapply put_buf_lookup]|]; rewrite ?put_buf_twice).
      do 2 fs_step. fs_step. eapply fsp_acquiresleep; [done|by eapply put_buf_lookup|done|].
      fs_step. rewrite put_buf_twice. apply HQ; [done|done|by right|by rewrite Hnr|].
      eapply cache_set; [done|done|done|done|done|done|done|by right| |lia]. apply slot_at; try done.
      * intros _. by apply (sl_rest _ _ _ _ _ Hs).
      * unfold refs_of. by rewrite Hnr.
    + destruct Hroom as [[? ?]|Hroom]; [congruence|].
      destruct (slots_unused _ _ _ _ _ Hlen Hs Hroom) as (i & x & Hi & Hx & H0).
      assert (Hf := pick_None _ _ _ i x E2 ltac:(rewrite elem_of_reverse; by apply (ring_in _ _ _ Hr)) Hx).
      simpl in Hf. by rewrite H0 in Hf.
Qed.

Lemma put_buf_id b x f : f_bufs f !! b = Some x -> put_buf b x f = f.
Proof. intros H. unfold put_buf. rewrite list_insert_id by done. by destruct f. Qed.

(** The buffer of a referenced block changes. *)
Lemma cache_held l f A b n k x x' v r o :
  cache l f A -> c_refs A !! k = Some (b, n) -> f_bufs f !! b = Some x ->
  b_next x' = b_next x -> b_prev x' = b_prev x -> b_dev x' = b_dev x -> b_blockno x' = b_blockno x ->
  slot_ok (f_disk f) (at_block k v r o A) b x' ->
  match r with Some (_, n) => 0 < Z.of_nat n < 2 ^ 32 | None => o = None end ->
  cache l (put_buf b x' f) (at_block k v r o A).
Proof.
  intros Hc Hk Hx Hn Hp Hd Hb Hok Hro. pose proof Hc as [_ Hs].
  destruct (slots_at _ _ _ _ _ _ _ _ Hs Hk) as (y & Hy & Hlt & Hyd & Hyb & _).
  assert (y = x) as -> by congruence. eapply cache_set; try done; [congruence..|by left].
Qed.

Lemma fsp_driver b w x f (Q : unit -> list lockid -> fsst -> Prop) :
  f_bufs f !! b = Some x -> C (f_disk f) -> C (f_disk (transfer b w f)) ->
  Q tt [] (transfer b w f) -> fsp (virtio_disk_rw b w) [] f Q.
Proof.
  intros Hx H1 H2 HQ. eapply fsp_mono; [by eapply driver_transfers|]. by intros [] ? ? [-> ->].
Qed.

Lemma fsp_bread l f A k (Q : nat -> list lockid -> fsst -> Prop) :
  cache l f A -> C (f_disk f) -> c_lk A !! k = None -> Z.of_nat (refs_of A k) + 1 < 2 ^ 32 ->
  (is_Some (c_refs A !! k) \/ (size (c_refs A) < NBUF)%nat) ->
  (forall b f', f_mem f' = f_mem f -> f_disk f' = f_disk f -> chosen (f_bufs f) l k b ->
     (forall j n, c_refs A !! k = Some (j, n) -> j = b) ->
     cache l f' (taken k b true A) -> Q b [] f') ->
  fsp (bread fuel dev k) [] f Q.
Proof.
  intros Hc HC Hlk Hn Hroom HQ. unfold bread. fs_step. eapply fsp_bget; [done..|].
  intros b f1 Hlog Hdisk Hch Hj Hc1. pose proof Hc1 as [_ Hs1].
  assert (Hk : c_refs (taken k b false A) !! k = Some (b, S (refs_of A k))) by apply at_block_refs.
  destruct (slots_at _ _ _ _ _ _ _ _ Hs1 Hk) as (x & Hx & Hb & Hd & Hbk & Hrc & Hn0 & [_ Hok]).
  destruct (Hok Hd) as (O1 & O2 & _ & O4). rewrite Hbk in *. unfold taken in O4, O1, O2.
  rewrite at_block_lk in O4. destruct O4 as [O4 _]. cbn [c_val at_block] in O1, O2. rewrite upd_eq in O1, O2.
  assert (Hfin : forall x' v, b_next x' = b_next x -> b_prev x' = b_prev x -> b_dev x' = b_dev x -> b_blockno x' = b_blockno x ->
            b_refcnt x' = b_refcnt x -> b_lock x' = b_lock x -> b_valid x' <> 0 -> b_data x' = v -> v = c_val A k ->
            cache l (put_buf b x' f1) (taken k b true A)).
  { intros x' v E1 E2 E3 E4 E5 E6 E7 E8 ->. unfold taken. rewrite <- at_block_twice.
    eapply cache_held; [exact Hc1|done|done|done|done|done|done| |lia].
    apply slot_at; try done; [congruence..|intros [?|?]; done|split; congruence|split; [congruence|done]]. }
  fs_step. eapply fsp_getb; [done|]. fs_step. apply fsp_when; intros Hv.
  - bool_to_prop. fs_step. assert (Ht : transfer b 0 f1 = put_buf b (set_b_data (f_disk f1 k) x) f1)
      by (unfold transfer; by rewrite Hx, Hbk).
    eapply fsp_driver; [done|by rewrite Hdisk|rewrite Ht; cbn [f_disk put_buf set_f_bufs]; by rewrite Hdisk|].
    rewrite Ht. eapply fsp_upd_buf; [by eapply put_buf_lookup|]. rewrite put_buf_twice. fs_step.
    apply HQ; [done..|]. eapply Hfin; try done. simpl. symmetry. auto.
  - bool_to_prop. fs_step. apply HQ; [done..|]. rewrite <- (put_buf_id b x f1) by done. eapply Hfin; try done. auto.
Qed.

(** The buffer of a block this thread has locked, with its contents. *)
Lemma locked_buf l f A k b n : cache l f A -> c_refs A !! k = Some (b, n) -> c_lk A !! k = Some true ->
  exists x, f_bufs f !! b = Some x /\ (b < NBUF)%nat /\ b_dev x = dev /\ b_blockno x = k /\ b_valid x <> 0 /\
    b_data x = c_val A k /\ b_lock x = mksleeplock 1 pid /\ b_refcnt x = Z.of_nat n /\ 0 < Z.of_nat n < 2 ^ 32.
Proof.
  intros [_ Hs] Hk Hlk. destruct (slots_at _ _ _ _ _ _ _ _ Hs Hk) as (x & Hx & Hb & Hd & Hbk & Hrc & Hn0 & [_ Hok]).
  destruct (Hok Hd) as (O1 & _ & _ & O4). rewrite Hbk, Hlk in O4. destruct O4 as [O4 O5].
  exists x. rewrite Hbk in O1. split_and!; try done; [auto|auto|lia|lia].
Qed.

(** Block [k] with new contents. *)
Definition stored (k : Z) (v : list Z) (A : cab) : cab := at_block k v (c_refs A !! k) (c_lk A !! k) A.

(** The caller changes the data of a buffer it has locked. *)
Lemma fsp_set_data l f A k b n g L (Q : unit -> list lockid -> fsst -> Prop) :
  cache l f A -> c_refs A !! k = Some (b, n) -> c_lk A !! k = Some true ->
  (forall f', f_mem f' = f_mem f -> f_disk f' = f_disk f -> cache l f' (stored k (g (c_val A k)) A) -> Q tt L f') ->
  fsp (setb b (fun x => set_b_data (g (b_data x)) x)) L f Q.
Proof.
  intros Hc Hk Hlk HQ. destruct (locked_buf _ _ _ _ _ _ Hc Hk Hlk) as (x & Hx & Hb & Hd & Hbk & Hv & Hdat & Hl & Hr & Hn).
  eapply fsp_upd_buf; [done|]. apply HQ; [done..|]. unfold stored. rewrite Hk, Hlk.
  eapply cache_held; try done. apply slot_at; try done; [simpl; congruence|by intros [?|?]].
Qed.

Lemma fsp_read_data l f A k b n L (Q : buf -> list lockid -> fsst -> Prop) :
  cache l f A -> c_refs A !! k = Some (b, n) -> c_lk A !! k = Some true ->
  (forall x, b_data x = c_val A k -> b_blockno x = k -> Q x L f) -> fsp (getb b) L f Q.
Proof.
  intros Hc Hk Hlk HQ. destruct (locked_buf _ _ _ _ _ _ Hc Hk Hlk) as (x & Hx & _ & _ & Hbk & _ & Hdat & _).
  eapply fsp_getb; [done|]. by apply HQ.
Qed.

Lemma fsp_bwrite l f A k b n (Q : unit -> list lockid -> fsst -> Prop) :
  cache l f A -> c_refs A !! k = Some (b, n) -> c_lk A !! k = Some true ->
  C (f_disk f) -> C (upd (f_disk f) k (c_val A k)) ->
  (forall f', f_mem f' = f_mem f -> f_disk f' = upd (f_disk f) k (c_val A k) -> cache l f' A -> Q tt [] f') ->
  fsp (bwrite b) [] f Q.
Proof.
  intros Hc Hk Hlk HC1 HC2 HQ.
  destruct (locked_buf _ _ _ _ _ _ Hc Hk Hlk) as (x & Hx & Hb & Hd & Hbk & Hv & Hdat & Hl & Hr & Hn).
  unfold bwrite. fs_step. eapply fsp_holdingsleep; [done..|]. cbn [negb].
  assert (Ht : transfer b 1 f = set_f_disk (upd (f_disk f) k (c_val A k)) f)
    by (unfold transfer; by rewrite Hx, Hbk, Hdat).
  eapply fsp_driver; [done|done|by rewrite Ht|]. rewrite Ht. apply HQ; [done..|].
  destruct Hc as [Hrg Hs]. split; [done|]. cbn [f_bufs set_f_disk f_disk].
  assert (Hid : at_block k (c_val A k) (c_refs A !! k) (c_lk A !! k) A ≡ A).
  { split_and!; cbn [c_val c_refs c_lk at_block]; [apply upd_self| |]; apply map_eq; intros j;
      (destruct (decide (j = k)) as [->|]; by rewrite ?lookup_partial_alter_eq, ?lookup_partial_alter_ne). }
  rewrite Hk, Hlk in Hid. refine (proj1 (slots_proper _ _ _ _ _ _ Hid) _).
  rewrite <- (list_insert_id (f_bufs f) b x) by done.
  eapply slots_upd; try done; [by left|intros j Hj; by apply upd_ne|].
  apply slot_at; try done. intros _. by rewrite upd_eq.
Qed.

(** One reference less to block [k], and its lock given up or kept. *)
Definition dropped (k : Z) (b n : nat) (o : option bool) (A : cab) : cab :=
  at_block k (c_val A k) (match n with O => None | S _ => Some (b, n) end) o A.

(** When the last reference goes, the buffer becomes the most recently used. *)
Definition used_last (b n : nat) (l l' : list nat) : Prop :=
  match n with
  | O => exists l1 l2, l = l1 ++ b :: l2 /\ l' = b :: l1 ++ l2
  | S _ => l' = l
  end.

Lemma fsp_brelse l f A k b n (Q : unit -> list lockid -> fsst -> Prop) :
  cache l f A -> c_refs A !! k = Some (b, S n) -> c_lk A !! k = Some true ->
  (n = 0%nat -> c_val A k = f_disk f k) ->
  (forall f' l', f_mem f' = f_mem f -> f_disk f' = f_disk f -> used_last b n l l' ->
     cache l' f' (dropped k b n None A) -> Q tt [] f') ->
  fsp (brelse b) [] f Q.
Proof.
  intros Hc Hk Hlk Hcl HQ.
  destruct (locked_buf _ _ _ _ _ _ Hc Hk Hlk) as (x & Hx & Hb & Hd & Hbk & Hv & Hdat & Hl & Hr & Hn).
  unfold brelse. fs_step. eapply fsp_holdingsleep; [done..|]. cbn [negb].
  fs_step. eapply fsp_releasesleep; [done..|]. do 2 fs_step. fs_step.
  eapply fsp_upd_buf; [by eapply put_buf_lookup|]. rewrite put_buf_twice.
  fs_step. eapply fsp_getb; [by eapply put_buf_lookup|]. cbn [b_refcnt set_b_refcnt set_b_lock].
  rewrite Hr, u32_small by lia. replace (Z.of_nat (S n) - 1) with (Z.of_nat n) by lia.
  set (x' := set_b_refcnt (Z.of_nat n) (set_b_lock (mksleeplock 0 0) x)).
  assert (Hc' : cache l (put_buf b x' f) (dropped k b n None A)).
  { eapply cache_held; [done|done|done|done|done|done|done| |destruct n; [done|lia]].
    apply slot_at; try done; [|by destruct n]. destruct n; [auto|]. by intros [?|?]. }
  fs_step. apply fsp_when; intros H0; bool_to_prop.
  - assert (n = 0%nat) as -> by lia. destruct Hc' as [Hr' Hs'].
    eapply (fsp_to_front R C me pid b l); [exact Hr'|done|].
    intros f' l' (Hcore & Hlog & Hdisk) Hr2 _ (l1 & l2 & -> & ->). fs_step.
    apply (HQ f' (b :: l1 ++ l2)); [done|done|by exists l1, l2|].
    split; [done|]. rewrite Hdisk. by eapply slots_core.
  - fs_step. apply (HQ _ l); [done|done| |done]. destruct n; [done|]. done.
Qed.

Lemma fsp_bpin l f A k b n L (Q : unit -> list lockid -> fsst -> Prop) :
  cache l f A -> c_refs A !! k = Some (b, n) -> c_lk A !! k = Some true -> Z.of_nat n + 1 < 2 ^ 32 -> LBcache ∉ L ->
  (forall f', f_mem f' = f_mem f -> f_disk f' = f_disk f -> cache l f' (taken k b true A) -> Q tt L f') ->
  fsp (bpin b) L f Q.
Proof.
  intros Hc Hk Hlk Hb2 HL HQ.
  destruct (locked_buf _ _ _ _ _ _ Hc Hk Hlk) as (x & Hx & Hb & Hd & Hbk & Hv & Hdat & Hl & Hr & Hn).
  unfold bpin. do 3 fs_step. eapply fsp_upd_buf; [done|]. fs_step. apply HQ; [done..|].
  assert (Hrn : refs_of A k = n) by (unfold refs_of; by rewrite Hk).
  eapply cache_held; [done|done|done|done|done|done|done| |lia].
  apply slot_at; try done; [by intros [?|?]|]. split; [done|]. simpl. rewrite Hr, Hrn, u32_small; lia.
Qed.

Lemma fsp_bunpin l f A k b n (Q : unit -> list lockid -> fsst -> Prop) :
  cache l f A -> c_refs A !! k = Some (b, S n) -> c_lk A !! k = Some true -> (0 < n)%nat ->
  (forall f', f_mem f' = f_mem f -> f_disk f' = f_disk f -> cache l f' (dropped k b n (Some true) A) -> Q tt [] f') ->
  fsp (bunpin b) [] f Q.
Proof.
  intros Hc Hk Hlk Hn0 HQ.
  destruct (locked_buf _ _ _ _ _ _ Hc Hk Hlk) as (x & Hx & Hb & Hd & Hbk & Hv & Hdat & Hl & Hr & Hn).
  unfold bunpin. do 3 fs_step. eapply fsp_upd_buf; [done|]. fs_step. apply HQ; [done..|].
  destruct n as [|n]; [lia|]. eapply cache_held; [done|done|done|done|done|done|done| |lia].
  apply slot_at; try done; [by intros [?|?]|]. split; [done|]. simpl. rewrite Hr, u32_small; lia.
Qed.

(** C15.  [bread] refines reading a store of blocks: it returns a buffer,
    locked for the caller, that holds block [k] and its contents, whether they
    came from the cache or the disk. The buffer is the one that already has
    the block, or else the least recently used of those nobody uses; all other
    blocks read as before, the references and locks of the others are kept,
    and at most one buffer holds a block. *)
Theorem bread_gives_block l f A k :
  cache l f A -> C (f_disk f) -> c_lk A !! k = None -> Z.of_nat (refs_of A k) + 1 < 2 ^ 32 ->
  (is_Some (c_refs A !! k) \/ (size (c_refs A) < NBUF)%nat) ->
  fsp (bread fuel dev k) [] f (fun b L f' => L = [] /\ f_disk f' = f_disk f /\
    chosen (f_bufs f) l k b /\ cache l f' (taken k b true A) /\
    exists x, f_bufs f' !! b = Some x /\ b_dev x = dev /\ b_blockno x = k /\ b_data x = c_val A k /\
              b_lock x = mksleeplock 1 pid).
Proof.
  intros Hc HC Hlk Hn Hroom. eapply fsp_bread; [done..|]. intros b f' Hlog Hdisk Hch Hj Hc'.
  split_and!; try done.
  destruct (locked_buf l f' (taken k b true A) k b (S (refs_of A k))) as (x & Hx & _ & Hd & Hk & _ & Hdat & Hl & _);
    [done|apply at_block_refs|apply at_block_lk|].
  exists x. split_and!; try done. rewrite Hdat. cbn [c_val taken at_block]. by rewrite upd_self.
Qed.

End Specs.
