(* ===== verification/Log.v ===== *)
(** * [kernel/log.c]: the write-ahead log

    All functions of [log.c], on the buffer cache of [Bio.v]. *)

From stdpp Require Import base list gmap strings.
From Stdlib Require Import ZArith Lia.
From S2P Require Import Prelude KernelBase Proc FsBase FsLogic Bio.

Open Scope Z_scope.

(** [sizeof(struct logheader)] *)
Definition logheader_size : nat := 4 * (1 + LOGBLOCKS).

Section Log.

Context {mem : Type} {cfg : config} {svc : services mem} {sym : symbols}.
Context {hfs : has_fs mem} {drv : disk_driver mem}.
Variable fuel : nat.

(** [log.lh.block[i]]; outside the array the behaviour is undefined. *)
Definition get_block (i : nat) : M mem Z :=
  let* bl := getl l_block in
  match bl !! i with Some k => ret k | None => undefined end.

Definition set_block (i : nat) (k : Z) : M mem unit :=
  let* bl := getl l_block in
  match bl !! i with Some _ => setl (set_l_block (<[i := k]> bl)) | None => undefined end.

(** [bread(log.dev, log.start + tail + 1)] *)
Definition bread_log (tail : nat) : M mem nat :=
  let* dev := getl l_dev in
  let* start := getl l_start in
  bread fuel (u32 dev) (u32 (start + Z.of_nat tail + 1)).

(** [bread(log.dev, log.lh.block[tail])] *)
Definition bread_home (tail : nat) : M mem nat :=
  let* dev := getl l_dev in
  let* k := get_block tail in
  bread fuel (u32 dev) (u32 k).

(** [memmove(dst->data, src->data, BSIZE)] *)
Definition copy_data (dst src : nat) : M mem unit :=
  let* x := getb src in
  setb dst (fun y => set_b_data (b_data x) y).

(** [for (tail = 0; tail < log.lh.n; tail++)]; the body runs into the end of
    [log.lh.block] after [LOGBLOCKS] rounds, so one more bounds the loop. *)
Fixpoint tail_loop (n tail : nat) (body : nat -> M mem unit) : M mem unit :=
  let* lhn := getl l_n in
  if Z.of_nat tail <? lhn then
    match n with
    | O => fun _ => OutOfFuel
    | S n' => body tail ;; tail_loop n' (S tail) body
    end
  else ret tt.

Definition install_copy (recovering : Z) (tail : nat) : M mem unit :=
  let* lbuf := bread_log tail in
  let* dbuf := bread_home tail in
  copy_data dbuf lbuf ;;
  bwrite dbuf ;;
  when (recovering =? 0) (bunpin dbuf) ;;
  brelse lbuf ;;
  brelse dbuf.

Definition install_block (recovering : Z) (tail : nat) : M mem unit :=
  when (negb (recovering =? 0)) (
    let* k := get_block tail in
    printk "recovering tail %d dst %d\n" [PInt (Z.of_nat tail); PInt k]) ;;
  install_copy recovering tail.

Definition install_trans (recovering : Z) : M mem unit :=
  tail_loop (S LOGBLOCKS) 0 (install_block recovering).

(** [log.lh.block[i] = lh->block[i]] *)
Definition read_head_block (buf : nat) (i : nat) : M mem unit :=
  let* x := getb buf in
  set_block i (get_int (b_data x) (4 + 4 * i)).

Definition bread_head : M mem nat :=
  let* dev := getl l_dev in
  let* start := getl l_start in
  bread fuel (u32 dev) (u32 start).

Definition read_head : M mem unit :=
  let* buf := bread_head in
  let* x := getb buf in
  setl (set_l_n (get_int (b_data x) 0)) ;;
  tail_loop (S LOGBLOCKS) 0 (read_head_block buf) ;;
  brelse buf.

(** [hb->block[i] = log.lh.block[i]] *)
Definition write_head_block (buf : nat) (i : nat) : M mem unit :=
  let* k := get_block i in
  setb buf (fun x => set_b_data (put_int (b_data x) (4 + 4 * i) k) x).

Definition write_head : M mem unit :=
  let* buf := bread_head in
  let* n := getl l_n in
  setb buf (fun x => set_b_data (put_int (b_data x) 0 n) x) ;;
  tail_loop (S LOGBLOCKS) 0 (write_head_block buf) ;;
  bwrite buf ;;
  brelse buf.

Definition recover_from_log : M mem unit :=
  read_head ;;
  install_trans 1 ;;
  setl (set_l_n 0) ;;
  write_head.

Definition initlog (dev logstart : Z) : M mem unit :=
  if (BSIZE <=? logheader_size)%nat then panic "initlog: too big logheader" else
  initlock LLog ;;
  setl (set_l_start (i32 logstart)) ;;
  setl (set_l_dev dev) ;;
  recover_from_log.

(** [sleep_prepare(&log); release(&log.lock); sleep(); acquire(&log.lock);] *)
Definition wait_log : M mem unit :=
  sleep_prepare ChLog ;;
  release LLog ;;
  sleep ;;
  acquire LLog.

Fixpoint begin_op_loop (n : nat) : M mem unit :=
  let again := match n with O => fun _ => OutOfFuel | S n' => wait_log ;; begin_op_loop n' end in
  let* committing := getl l_committing in
  if negb (committing =? 0) then again else
  let* lhn := getl l_n in
  let* outstanding := getl l_outstanding in
  if Z.of_nat LOGBLOCKS <? lhn + (outstanding + 1) * MAXOPBLOCKS then again else
  setl (set_l_outstanding (outstanding + 1)) ;;
  release LLog.

Definition begin_op : M mem unit :=
  acquire LLog ;;
  begin_op_loop fuel.

Definition write_log_block (tail : nat) : M mem unit :=
  let* to := bread_log tail in
  let* from := bread_home tail in
  copy_data to from ;;
  bwrite to ;;
  brelse from ;;
  brelse to.

Definition write_log : M mem unit := tail_loop (S LOGBLOCKS) 0 write_log_block.

Definition commit : M mem unit :=
  let* n := getl l_n in
  when (0 <? n) (
    write_log ;;
    write_head ;;
    install_trans 0 ;;
    setl (set_l_n 0) ;;
    write_head).

Definition end_op : M mem unit :=
  acquire LLog ;;
  setl (fun l => set_l_outstanding (l_outstanding l - 1) l) ;;
  let* committing := getl l_committing in
  if negb (committing =? 0) then panic "log.committing" else
  let* outstanding := getl l_outstanding in
  let do_commit := outstanding =? 0 in
  (if do_commit then setl (set_l_committing 1) else wakeup ChLog) ;;
  release LLog ;;
  when do_commit (
    commit ;;
    acquire LLog ;;
    setl (set_l_committing 0) ;;
    setl (fun l => set_l_ncommit (l_ncommit l + 1) l) ;;
    wakeup ChLog ;;
    release LLog).

(** [for (i = 0; i < log.lh.n; i++) if (log.lh.block[i] == b->blockno) break;] *)
Fixpoint absorb_loop (n i : nat) (blockno : Z) : M mem nat :=
  let* lhn := getl l_n in
  if Z.of_nat i <? lhn then
    match n with
    | O => fun _ => OutOfFuel
    | S n' =>
        let* k := get_block i in
        if u32 k =? blockno then ret i else absorb_loop n' (S i) blockno
    end
  else ret i.

Definition log_write (b : nat) : M mem unit :=
  acquire LLog ;;
  let* n := getl l_n in
  if Z.of_nat LOGBLOCKS <=? n then panic "too big a transaction" else
  let* outstanding := getl l_outstanding in
  if outstanding <? 1 then panic "log_write outside of trans" else
  let* x := getb b in
  let* i := absorb_loop (S LOGBLOCKS) 0 (b_blockno x) in
  set_block i (i32 (b_blockno x)) ;;
  let* n := getl l_n in
  when (Z.of_nat i =? n) (
    bpin b ;;
    setl (fun l => set_l_n (l_n l + 1) l)) ;;
  release LLog.

Fixpoint sync_loop (m : nat) (n : Z) : M mem unit :=
  let* ncommit := getl l_ncommit in
  if ncommit <? n then
    match m with
    | O => fun _ => OutOfFuel
    | S m' => wait_log ;; sync_loop m' n
    end
  else ret tt.

Definition sys_sync : M mem Z :=
  acquire LLog ;;
  let* committing := getl l_committing in
  let* outstanding := getl l_outstanding in
  when (negb (committing =? 0) || (0 <? outstanding))%bool (
    let* c := getl l_ncommit in
    sync_loop fuel (c + 1)) ;;
  release LLog ;;
  ret 0.

End Log.
