(* ===== verification/LogFacts.v ===== *)
(** * The log on the abstract cache

    [view V D P K lg f]: the blocks read as [V], the disk holds [D], [P] are the
    references and [K] the locks of the thread, and [lg] is the rest of the memory.
    The steps of [log.c] on it, and what recovery makes of a disk. *)

From stdpp Require Import base list gmap strings.
From Stdlib Require Import ZArith Lia.
From S2P Require Import Prelude KernelBase Proc FsBase FsLogic Bio BioFacts BioCache BioSpecs Log.

Open Scope Z_scope.

Section View.

Context {mem : Type} {cfg : config} {svc : services mem} {sym : symbols}.
Context {hfs : has_fs mem} {drv : disk_driver mem}.
Variable fuel : nat.
Variable R : kst mem -> kst mem -> Prop.
Context {dok : driver_ok mem R}.
Variable C : blocks -> Prop.
Variable me : nat.
Variable dev pid : Z.
Abbreviation fsp := (fsp R C me pid).
Implicit Types (V D : blocks) (P : gmap Z (nat * nat)) (K : gmap Z bool) (lg : fsmem).

Definition view V D P K lg (f : fsst) : Prop :=
  f_disk f = D /\ f_mem f = lg /\
  exists l A, cache dev pid l f A /\ (forall k, c_val A k = V k) /\ c_refs A = P /\ c_lk A = K.

Lemma view_val V V' D P K lg f : (forall k, V k = V' k) -> view V D P K lg f -> view V' D P K lg f.
Proof.
  intros HV (H1 & H2 & l & A & H3 & H4 & H5 & H6). split_and!; [done..|].
  exists l, A. split_and!; try done. intros k. by rewrite H4.
Qed.

Lemma view_log V D P K lg f g : view V D P K lg f -> view V D P K (on_log g lg) (set_f_mem (on_log g (f_mem f)) f).
Proof. intros (H1 & <- & H3). done. Qed.

(** With nothing in use, the blocks read as they are on disk. *)
Lemma view_clean V D K lg f : view V D ∅ K lg f -> view D D ∅ K lg f.
Proof.
  intros (HD & Hlg & l & A & Hc & HV & HP & HK). split_and!; [done..|]. exists l, A. split_and!; try done.
  intros k. destruct Hc as [[Hlen _] Hs]. rewrite HD in Hs.
  destruct (decide (Exists (fun x => b_dev x = dev /\ b_blockno x = k) (take NBUF (f_bufs f))))
    as [(x & Hin & Hd & Hk)%Exists_exists|Hno].
  - apply list_elem_of_lookup_1 in Hin as [i Hx]. pose proof (lookup_lt_Some _ _ _ Hx) as Hi. rewrite length_take in Hi.
    rewrite lookup_take_lt in Hx by lia. assert (i < NBUF)%nat as Hi' by lia. clear Hi. rename Hi' into Hi.
    destruct (sl_slot _ _ _ _ _ Hs i x Hi Hx) as [_ Hok]. destruct (Hok Hd) as (_ & H & _).
    rewrite Hk in H. apply H. right. by rewrite HP, lookup_empty.
  - apply (sl_rest _ _ _ _ _ Hs). intros i Hi (x & Hx & Hx'). apply Hno, Exists_exists. exists x. split; [|done].
    apply list_elem_of_lookup_2 with i. by rewrite lookup_take_lt.
Qed.

(** The number of references of [k] in [P]. *)
Definition refs P (k : Z) : nat := match P !! k with Some (_, n) => n | None => 0 end.

Lemma partial_alter_some {X} (m : gmap Z X) k x : partial_alter (fun _ => Some x) k m = <[k := x]> m.
Proof. done. Qed.

Lemma partial_alter_none {X} (m : gmap Z X) k : partial_alter (fun _ => None) k m = delete k m.
Proof. done. Qed.

Lemma v_bread V D P K lg f k (Q : nat -> list lockid -> fsst -> Prop) :
  view V D P K lg f -> C D -> K !! k = None -> Z.of_nat (refs P k) + 1 < 2 ^ 32 ->
  (is_Some (P !! k) \/ (size P < NBUF)%nat) ->
  (forall b f', (forall j n, P !! k = Some (j, n) -> j = b) ->
     view V D (<[k := (b, S (refs P k))]> P) (<[k := true]> K) lg f' -> Q b [] f') ->
  fsp (bread fuel dev k) [] f Q.
Proof.
  intros (HD & Hlg & l & A & Hc & HV & <- & <-) HC HK Hn Hroom HQ.
  eapply (fsp_bread fuel R C); [done|by rewrite HD|done..|]. intros b f' E1 E2 _ Hj Hc'.
  apply HQ; [done|]. split_and!; [congruence..|]. exists l, (taken k b true A). split_and!; [done| |done|done].
  intros j. cbn [c_val taken at_block]. by rewrite upd_self.
Qed.

Lemma v_set_data V D P K lg f k b n g L (Q : unit -> list lockid -> fsst -> Prop) :
  view V D P K lg f -> P !! k = Some (b, n) -> K !! k = Some true ->
  (forall f', view (upd V k (g (V k))) D P K lg f' -> Q tt L f') ->
  fsp (setb b (fun x => set_b_data (g (b_data x)) x)) L f Q.
Proof.
  intros (HD & Hlg & l & A & Hc & HV & <- & <-) HP HK HQ.
  eapply fsp_set_data; [done..|]. intros f' E1 E2 Hc'. apply HQ. split_and!; [congruence..|].
  exists l, (stored k (g (c_val A k)) A). split_and!; [done| | |].
  - intros j. cbn [c_val stored at_block]. rewrite HV. unfold upd. by destruct (j =? k).
  - cbn [c_refs stored at_block]. rewrite HP, partial_alter_some. by apply insert_id.
  - cbn [c_lk stored at_block]. rewrite HK, partial_alter_some. by apply insert_id.
Qed.

Lemma v_data V D P K lg f k b n L (Q : buf -> list lockid -> fsst -> Prop) :
  view V D P K lg f -> P !! k = Some (b, n) -> K !! k = Some true ->
  (forall x, b_data x = V k -> b_blockno x = k -> Q x L f) -> fsp (getb b) L f Q.
Proof.
  intros (HD & Hlg & l & A & Hc & HV & <- & <-) HP HK HQ.
  eapply fsp_read_data; [done..|]. intros x Hx Hb. apply HQ; congruence.
Qed.

Lemma v_bwrite V D P K lg f k b n (Q : unit -> list lockid -> fsst -> Prop) :
  view V D P K lg f -> P !! k = Some (b, n) -> K !! k = Some true -> C D -> C (upd D k (V k)) ->
  (forall f', view V (upd D k (V k)) P K lg f' -> Q tt [] f') -> fsp (bwrite b) [] f Q.
Proof.
  intros (<- & Hlg & l & A & Hc & HV & <- & <-) HP HK H1 H2 HQ.
  eapply (fsp_bwrite R C); [done..|by rewrite HV|]. intros f' E1 E2 Hc'. apply HQ.
  split_and!; [by rewrite E2, HV|congruence|]. by exists l, A.
Qed.

Lemma v_brelse V D P K lg f k b n (Q : unit -> list lockid -> fsst -> Prop) :
  view V D P K lg f -> P !! k = Some (b, S n) -> K !! k = Some true -> (n = 0%nat -> V k = D k) ->
  (forall f', view V D (match n with O => delete k P | S _ => <[k := (b, n)]> P end) (delete k K) lg f' -> Q tt [] f') ->
  fsp (brelse b) [] f Q.
Proof.
  intros (<- & Hlg & l & A & Hc & HV & <- & <-) HP HK H0 HQ.
  eapply fsp_brelse; [done..|by rewrite HV|]. intros f' l' E1 E2 _ Hc'. apply HQ.
  split_and!; [done|congruence|]. exists l', (dropped k b n None A).
  split_and!; [done| |by destruct n|done]. intros j. cbn [c_val dropped at_block]. by rewrite upd_self.
Qed.

Lemma v_bunpin V D P K lg f k b n (Q : unit -> list lockid -> fsst -> Prop) :
  view V D P K lg f -> P !! k = Some (b, S n) -> K !! k = Some true -> (0 < n)%nat ->
  (forall f', view V D (<[k := (b, n)]> P) K lg f' -> Q tt [] f') -> fsp (bunpin b) [] f Q.
Proof.
  intros (<- & Hlg & l & A & Hc & HV & <- & <-) HP HK H0 HQ.
  eapply fsp_bunpin; [done..|]. intros f' E1 E2 Hc'. apply HQ.
  split_and!; [done|congruence|]. exists l, (dropped k b n (Some true) A).
  split_and!; [done| | |].
  - intros j. cbn [c_val dropped at_block]. by rewrite upd_self.
  - cbn [c_refs dropped at_block]. by destruct n; [lia|].
  - cbn [c_lk dropped at_block]. rewrite partial_alter_some. by apply insert_id.
Qed.

Lemma v_bpin V D P K lg f k b n L (Q : unit -> list lockid -> fsst -> Prop) :
  view V D P K lg f -> P !! k = Some (b, n) -> K !! k = Some true -> Z.of_nat n + 1 < 2 ^ 32 -> LBcache ∉ L ->
  (forall f', view V D (<[k := (b, S n)]> P) K lg f' -> Q tt L f') -> fsp (bpin b) L f Q.
Proof.
  intros (<- & Hlg & l & A & Hc & HV & <- & <-) HP HK H0 HL HQ.
  eapply fsp_bpin; [done..|]. intros f' E1 E2 Hc'. apply HQ.
  split_and!; [done|congruence|]. exists l, (taken k b true A). split_and!; [done| | |].
  - intros j. cbn [c_val taken at_block]. by rewrite upd_self.
  - cbn [c_refs taken at_block]. unfold refs_of. by rewrite HP.
  - cbn [c_lk taken at_block]. rewrite partial_alter_some. by apply insert_id.
Qed.

(** The log in memory. *)
Lemma v_getl {A} V D P K lg f (g : log_t -> A) L (Q : A -> list lockid -> fsst -> Prop) :
  view V D P K lg f -> Q (g (m_log lg)) L f -> fsp (getl g) L f Q.
Proof. intros (_ & <- & _) HQ. by apply fsp_getl. Qed.

Lemma v_setl V D P K lg f g L (Q : unit -> list lockid -> fsst -> Prop) :
  view V D P K lg f -> (forall f', view V D P K (on_log g lg) f' -> Q tt L f') -> fsp (setl g) L f Q.
Proof. intros Hv HQ. apply fsp_setl, HQ. by apply view_log. Qed.

Lemma v_get_block V D P K lg f i k L (Q : Z -> list lockid -> fsst -> Prop) :
  view V D P K lg f -> l_block (m_log lg) !! i = Some k -> Q k L f -> fsp (get_block i) L f Q.
Proof.
  intros Hv Hk HQ. unfold get_block. fs_step. eapply v_getl; [done|]. rewrite Hk. by apply fsp_ret.
Qed.

Lemma v_set_block V D P K lg f i k k0 L (Q : unit -> list lockid -> fsst -> Prop) :
  view V D P K lg f -> l_block (m_log lg) !! i = Some k0 ->
  (forall f', view V D P K (on_log (set_l_block (<[i := k]> (l_block (m_log lg)))) lg) f' -> Q tt L f') ->
  fsp (set_block i k) L f Q.
Proof.
  intros Hv Hk HQ. unfold set_block. fs_step. eapply v_getl; [done|]. rewrite Hk. by eapply v_setl.
Qed.

(** The loop over the logged blocks. *)
Lemma fsp_tail_loop (I : nat -> fsst -> Prop) N n0 tail body f (Q : unit -> list lockid -> fsst -> Prop) :
  (forall i f, I i f -> l_n (m_log (f_mem f)) = Z.of_nat N) ->
  (tail <= N)%nat -> (N <= tail + n0)%nat -> I tail f ->
  (forall i f, (tail <= i < N)%nat -> I i f -> fsp (body i) [] f (fun _ L f' => L = [] /\ I (S i) f')) ->
  (forall f', I N f' -> Q tt [] f') -> fsp (tail_loop n0 tail body) [] f Q.
Proof.
  intros HN. revert tail f. induction n0 as [|n0 IH]; intros tail f H1 H2 HI Hb HQ; cbn [tail_loop];
    fs_step; eapply fsp_getl; unfold f_log; rewrite (HN _ _ HI).
  - rewrite (proj2 (Z.ltb_ge _ _)) by lia. fs_step. assert (tail = N) as <- by lia. auto.
  - destruct (Z.ltb_spec (Z.of_nat tail) (Z.of_nat N)).
    + fs_step. eapply fsp_mono; [apply Hb; [lia|done]|]. intros [] L' f' [-> HI'].
      apply IH; [lia|lia|done| |done]. intros i g Hi. apply Hb. lia.
    + fs_step. assert (tail = N) as <- by lia. auto.
Qed.

End View.

(** Two views with the same references and locks, written differently. *)
Ltac case_key j :=
  match goal with
  | |- context [<[?k := _]> _ !! j] => destruct (decide (j = k)) as [->|?]; simplify_map_eq
  | |- context [delete ?k _ !! j] => destruct (decide (j = k)) as [->|?]; simplify_map_eq
  end.

Ltac same_map :=
  apply map_eq; let j := fresh "j" in intros j; repeat case_key j; by simplify_map_eq.

Ltac eqmap H :=
  match type of H with view ?dev ?pid ?V ?D ?P ?K ?lg ?f =>
    match goal with |- view _ _ _ _ ?P' ?K' _ _ =>
      let EP := fresh in let EK := fresh in
      assert (EP : P = P') by same_map;
      assert (EK : K = K') by same_map;
      rewrite EP, EK in H; exact H
    end
  end.
