(* ===== verification/LogTheorems.v ===== *)
(** * Commit and recovery

    What the functions of [log.c] do to the disk, block by block, and the two
    theorems that make the log a log: a commit is atomic under crashes, and
    recovery completes what was committed, however often it is interrupted. *)

From stdpp Require Import base list gmap strings.
From Stdlib Require Import ZArith Lia.
From S2P Require Import Prelude KernelBase Proc FsBase FsLogic Bio BioFacts BioCache BioSpecs Log LogFacts.

Open Scope Z_scope.

Lemma LOGBLOCKS_val : LOGBLOCKS = 30%nat.
Proof. reflexivity. Qed.

(** ** The log on disk *)

(** The home block numbers in a header block. *)
Definition header_blocks (d : list Z) : list Z :=
  map (fun i => u32 (get_int d (4 + 4 * i))) (seq 0 (Z.to_nat (get_int d 0))).

(** What recovery makes of the blocks outside the log: a block that is in the
    header comes from the log. *)
Definition recovered (start : Z) (D : blocks) (k : Z) : list Z :=
  match list_find (fun k' => k' = k) (header_blocks (D start)) with
  | Some (i, _) => D (start + Z.of_nat i + 1)
  | None => D k
  end.

(** The blocks of the log on disk. *)
Definition in_log (start k : Z) : Prop := start <= k <= start + Z.of_nat LOGBLOCKS.

Lemma recovered_at start D i k : header_blocks (D start) !! i = Some k -> NoDup (header_blocks (D start)) ->
  recovered start D k = D (start + Z.of_nat i + 1).
Proof.
  intros Hi Hnd. unfold recovered.
  destruct (list_find_elem_of (fun k' => k' = k) (header_blocks (D start)) k) as [[j k'] E];
    [by eapply list_elem_of_lookup_2|done|].
  rewrite E. apply list_find_Some in E as (Hj & -> & _). by rewrite (NoDup_lookup _ _ _ _ Hnd Hi Hj).
Qed.

Lemma recovered_out start D k : k ∉ header_blocks (D start) -> recovered start D k = D k.
Proof.
  intros H. unfold recovered. destruct (list_find _ _) as [[j k']|] eqn:E; [|done].
  apply list_find_Some in E as (Hj & -> & _). destruct H. by eapply list_elem_of_lookup_2.
Qed.

Lemma recovered_empty start D k : get_int (D start) 0 = 0 -> recovered start D k = D k.
Proof. intros H. apply recovered_out. unfold header_blocks. rewrite H. apply not_elem_of_nil. Qed.

Section LogSteps.

Context {mem : Type} {cfg : config} {svc : services mem} {sym : symbols}.
Context {hfs : has_fs mem} {drv : disk_driver mem}.
Variable fuel : nat.
Variable R : kst mem -> kst mem -> Prop.
Context {dok : driver_ok mem R}.
Variable C : blocks -> Prop.
Variable me : nat.
Variable pid : Z.
Variable start dev : Z.
Hypothesis Hstart : 0 <= start /\ start + Z.of_nat LOGBLOCKS < 2 ^ 31.
Abbreviation fsp := (fsp R C me pid).
Abbreviation view := (view dev pid).
Implicit Types (V D : blocks) (P : gmap Z (nat * nat)) (lg : fsmem).

(** The log is where [start] and [dev] say, and lists the blocks [ks]. *)
Record log_ok (lg : fsmem) (ks : list Z) : Prop := {
  lo_start : l_start (m_log lg) = start;
  lo_dev : u32 (l_dev (m_log lg)) = dev;
  lo_n : l_n (m_log lg) = Z.of_nat (length ks);
  lo_len : length (l_block (m_log lg)) = LOGBLOCKS;
  lo_max : (length ks <= LOGBLOCKS)%nat;
  lo_blocks i k : ks !! i = Some k -> l_block (m_log lg) !! i = Some (i32 k);
  lo_u32 : Forall (fun k => 0 <= k < 2 ^ 32) ks;
  lo_home : Forall (fun k => ~ in_log start k) ks;
  lo_nodup : NoDup ks
}.

Lemma u32_i32 k : 0 <= k < 2 ^ 32 -> u32 (i32 k) = k.
Proof.
  intros Hk. unfold u32, i32. rewrite Zminus_mod_idemp_l.
  replace (k + 2 ^ 31 - 2 ^ 31) with k by lia. by apply Z.mod_small.
Qed.

Lemma log_block_no i : (i < LOGBLOCKS)%nat -> u32 (start + Z.of_nat i + 1) = start + Z.of_nat i + 1.
Proof. intros Hi. apply u32_small. lia. Qed.

Lemma in_log_block i : (i < LOGBLOCKS)%nat -> in_log start (start + Z.of_nat i + 1).
Proof. intros Hi. unfold in_log. lia. Qed.

Lemma v_bread_log V D P K lg ks f i (Q : nat -> list lockid -> fsst -> Prop) :
  let k := start + Z.of_nat i + 1 in
  view V D P K lg f -> log_ok lg ks -> (i < length ks)%nat -> C D -> K !! k = None ->
  P !! k = None -> (size P < NBUF)%nat ->
  (forall b f', view V D (<[k := (b, 1%nat)]> P) (<[k := true]> K) lg f' -> Q b [] f') ->
  fsp (bread_log fuel i) [] f Q.
Proof.
  intros k Hv Hlo Hi HC HK HP Hsz HQ. pose proof (lo_max _ _ Hlo). unfold bread_log.
  fs_step. eapply v_getl; [done|]. fs_step. eapply v_getl; [done|].
  rewrite (lo_start _ _ Hlo), (lo_dev _ _ Hlo), log_block_no by lia. fold k.
  assert (refs P k = 0%nat) as Hr by (unfold refs; by rewrite HP).
  eapply (v_bread fuel R C); [done|done|done|rewrite Hr; lia|by right|].
  intros b f' _ Hv'. rewrite Hr in Hv'. by apply HQ.
Qed.

Lemma v_bread_home V D P K lg ks f i k (Q : nat -> list lockid -> fsst -> Prop) :
  view V D P K lg f -> log_ok lg ks -> ks !! i = Some k -> C D -> K !! k = None ->
  Z.of_nat (refs P k) + 1 < 2 ^ 32 -> (is_Some (P !! k) \/ (size P < NBUF)%nat) ->
  (forall b f', (forall j n, P !! k = Some (j, n) -> j = b) ->
     view V D (<[k := (b, S (refs P k))]> P) (<[k := true]> K) lg f' -> Q b [] f') ->
  fsp (bread_home fuel i) [] f Q.
Proof.
  intros Hv Hlo Hi HC HK Hr Hsz HQ. unfold bread_home.
  fs_step. eapply v_getl; [done|]. fs_step. eapply v_get_block; [done|by apply (lo_blocks _ _ Hlo)|].
  pose proof (proj1 (Forall_lookup _ _) (lo_u32 _ _ Hlo) _ _ Hi) as Hk. cbv beta in Hk.
  rewrite (lo_dev _ _ Hlo), u32_i32 by done. by eapply (v_bread fuel R C).
Qed.

Lemma v_copy V D P K lg f kd ks bd bs nd ns L (Q : unit -> list lockid -> fsst -> Prop) :
  view V D P K lg f -> P !! kd = Some (bd, nd) -> K !! kd = Some true ->
  P !! ks = Some (bs, ns) -> K !! ks = Some true ->
  (forall f', view (upd V kd (V ks)) D P K lg f' -> Q tt L f') -> fsp (copy_data bd bs) L f Q.
Proof.
  intros Hv H1 H2 H3 H4 HQ. unfold copy_data. fs_step. eapply v_data; [done..|]. intros x Hx _.
  eapply (v_set_data R C me dev pid V D P K lg f kd bd nd (fun _ => b_data x)); [done..|].
  rewrite Hx. done.
Qed.

Lemma home_ne lg ks i j k : log_ok lg ks -> ks !! i = Some k -> (j < LOGBLOCKS)%nat -> k <> start + Z.of_nat j + 1.
Proof.
  intros Hlo Hi Hj ->. pose proof (proj1 (Forall_lookup _ _) (lo_home _ _ Hlo) _ _ Hi) as Hh. apply Hh.
  by apply in_log_block.
Qed.

(** One round of [write_log]: a pinned block goes to the log on disk. *)
Lemma v_write_log_block V D P lg ks f i k b n (Q : unit -> list lockid -> fsst -> Prop) :
  let kl := start + Z.of_nat i + 1 in
  view V D P ∅ lg f -> log_ok lg ks -> ks !! i = Some k -> P !! k = Some (b, S n) -> Z.of_nat n < 2 ^ 31 ->
  P !! kl = None -> (size P < NBUF)%nat -> C D -> C (upd D kl (V k)) ->
  (forall f', view (upd V kl (V k)) (upd D kl (V k)) P ∅ lg f' -> Q tt [] f') ->
  fsp (write_log_block fuel i) [] f Q.
Proof.
  intros kl Hv Hlo Hi HP Hn HPl Hsz HC HC' HQ.
  pose proof (lookup_lt_Some _ _ _ Hi) as Hlt. pose proof (lo_max _ _ Hlo) as Hmax.
  assert (Hne : k <> kl) by (eapply home_ne; [done..|lia]).
  unfold write_log_block. fs_step. eapply v_bread_log; [done|done|done|done|apply lookup_empty|done|done|].
  fold kl. intros b1 f1 Hv1. assert (Hr : refs (<[kl := (b1, 1%nat)]> P) k = S n) by (unfold refs; by simplify_map_eq).
  fs_step. eapply v_bread_home; [done|done|done|done|by simplify_map_eq|rewrite Hr; lia|left; by simplify_map_eq|].
  rewrite Hr. intros b2 f2 Hb2 Hv2. assert (b2 = b) as -> by (symmetry; eapply Hb2; by simplify_map_eq).
  fs_step. eapply (v_copy _ _ _ _ _ _ kl k); [exact Hv2|by simplify_map_eq..|]. intros f3 Hv3.
  fs_step. eapply (v_bwrite R C me dev pid _ _ _ _ _ _ kl b1); [exact Hv3|by simplify_map_eq|by simplify_map_eq|done|by rewrite upd_eq|].
  rewrite upd_eq. intros f4 Hv4.
  fs_step. eapply (v_brelse R C me dev pid _ _ _ _ _ _ k b (S n)); [exact Hv4|by simplify_map_eq|by simplify_map_eq|done|].
  intros f5 Hv5. eapply (v_brelse R C me dev pid _ _ _ _ _ _ kl b1 0); [exact Hv5|by simplify_map_eq|by simplify_map_eq| |].
  { intros _. by rewrite !upd_eq. }
  intros f6 Hv6. apply HQ. eqmap Hv6.
Qed.

(** One round of [install_trans]: a block goes from the log to its home, and a
    block pinned for the log is unpinned. *)
Lemma v_install_copy r V D P lg ks f i k (Q : unit -> list lockid -> fsst -> Prop) :
  let kl := start + Z.of_nat i + 1 in
  view V D P ∅ lg f -> log_ok lg ks -> ks !! i = Some k ->
  (r = 0 /\ (exists b, P !! k = Some (b, 1%nat)) \/ r <> 0 /\ P !! k = None /\ (S (size P) < NBUF)%nat) ->
  P !! kl = None -> (size P < NBUF)%nat -> V kl = D kl -> C D -> C (upd D k (V kl)) ->
  (forall f', view (upd V k (V kl)) (upd D k (V kl)) (delete k P) ∅ lg f' -> Q tt [] f') ->
  fsp (install_copy fuel r i) [] f Q.
Proof.
  intros kl Hv Hlo Hi HP HPl Hsz Hcl HC HC' HQ.
  pose proof (lookup_lt_Some _ _ _ Hi) as Hlt. pose proof (lo_max _ _ Hlo) as Hmax.
  assert (Hne : k <> kl) by (eapply home_ne; [done..|lia]).
  assert (Hr : refs P k = if r =? 0 then 1%nat else 0%nat).
  { unfold refs. destruct HP as [[-> [b ->]]|(Hr & -> & _)]; [done|]. by rewrite (proj2 (Z.eqb_neq _ _) Hr). }
  unfold install_copy. fs_step. eapply v_bread_log; [done|done|done|done|apply lookup_empty|done|done|].
  fold kl. intros b1 f1 Hv1. clearbody kl.
  assert (Hr1 : refs (<[kl := (b1, 1%nat)]> P) k = refs P k) by (unfold refs; by simplify_map_eq).
  fs_step. eapply v_bread_home; [done|done|done|done|by simplify_map_eq|rewrite Hr1, Hr; destruct (r =? 0); lia| |].
  { destruct HP as [[_ [b Hb]]|(_ & _ & Hs)]; [left; by simplify_map_eq|right]. by rewrite map_size_insert_None. }
  rewrite Hr1, Hr. intros b2 f2 _ Hv2.
  fs_step. eapply (v_copy _ _ _ _ _ _ k kl); [exact Hv2|by simplify_map_eq..|]. intros f3 Hv3.
  fs_step. eapply (v_bwrite R C me dev pid _ _ _ _ _ _ k b2); [exact Hv3|by simplify_map_eq|by simplify_map_eq|done|by rewrite upd_eq|].
  rewrite upd_eq. intros f4 Hv4.
  assert (Hend : forall P1 f, P1 = <[k := (b2, 1%nat)]> (<[kl := (b1, 1%nat)]> P) ->
            view (upd V k (V kl)) (upd D k (V kl)) P1 (<[k := true]> (<[kl := true]> ∅)) lg f ->
            fsp (brelse b1 ;; brelse b2) [] f Q).
  { intros P1 g -> Hg. fs_step.
    eapply (v_brelse R C me dev pid _ _ _ _ _ _ kl b1 0); [exact Hg|by simplify_map_eq|by simplify_map_eq| |].
    { intros _. by rewrite !upd_ne. }
    intros f5 Hv5. eapply (v_brelse R C me dev pid _ _ _ _ _ _ k b2 0); [exact Hv5|by simplify_map_eq|by simplify_map_eq| |].
    { intros _. by rewrite !upd_eq. }
    intros f6 Hv6. apply HQ. eqmap Hv6. }
  fs_step. apply fsp_when; intros Hz; rewrite Hz in Hv4.
  - eapply (v_bunpin R C me dev pid _ _ _ _ _ _ k b2 1); [exact Hv4|by simplify_map_eq|by simplify_map_eq|lia|].
    intros f5 Hv5. eapply Hend; [|exact Hv5]. by rewrite insert_insert_eq.
  - by eapply Hend.
Qed.

Lemma v_install_block r V D P lg ks f i k (Q : unit -> list lockid -> fsst -> Prop) :
  view V D P ∅ lg f -> log_ok lg ks -> ks !! i = Some k ->
  fsp (install_copy fuel r i) [] f Q -> fsp (install_block fuel r i) [] f Q.
Proof.
  intros Hv Hlo Hi HQ. unfold install_block. fs_step. apply fsp_when; intros _; [|done]. fs_step.
  eapply v_get_block; [done|by apply (lo_blocks _ _ Hlo)|]. by fs_step.
Qed.

(** ** The header *)

Lemma i32_i32 z : i32 (i32 z) = i32 z.
Proof. apply i32_small, i32_range. Qed.

Lemma i32_u32 z : i32 (u32 z) = i32 z.
Proof. unfold i32, u32. by rewrite Zplus_mod_idemp_l. Qed.

Lemma get_int_i32 d o : i32 (get_int d o) = get_int d o.
Proof. apply i32_i32. Qed.

Lemma header_blocks_eq d ks : get_int d 0 = Z.of_nat (length ks) ->
  (forall j k, ks !! j = Some k -> get_int d (4 + 4 * j) = i32 k) -> Forall (fun k => 0 <= k < 2 ^ 32) ks ->
  header_blocks d = ks.
Proof.
  intros Hn Hb Hk. unfold header_blocks. rewrite Hn, Nat2Z.id. apply list_eq_same_length with (length ks); [done| |].
  { by rewrite length_map, length_seq. }
  intros j x y Hj Hx Hy. change (map ?g) with (fmap (M := list) g) in Hx.
  rewrite list_lookup_fmap, lookup_seq_lt in Hx by done.
  change (Some (u32 (get_int d (4 + 4 * j))) = Some x) in Hx. apply (inj Some) in Hx as <-.
  rewrite (Hb j y Hy), u32_i32; [done|]. by apply (proj1 (Forall_lookup _ _) Hk j).
Qed.

Lemma header_blocks_lookup d j : (j < length (header_blocks d))%nat ->
  header_blocks d !! j = Some (u32 (get_int d (4 + 4 * j))).
Proof.
  unfold header_blocks. rewrite length_map, length_seq. intros Hj.
  change (map ?g) with (fmap (M := list) g). by rewrite list_lookup_fmap, lookup_seq_lt.
Qed.

Lemma v_bread_head V D P lg f (Q : nat -> list lockid -> fsst -> Prop) :
  view V D P ∅ lg f -> l_start (m_log lg) = start -> u32 (l_dev (m_log lg)) = dev -> C D -> P !! start = None -> (size P < NBUF)%nat ->
  (forall b f', view V D (<[start := (b, 1%nat)]> P) {[start := true]} lg f' -> Q b [] f') ->
  fsp (bread_head fuel) [] f Q.
Proof.
  intros Hv Hs Hd HC HP Hsz HQ. unfold bread_head. fs_step. eapply v_getl; [done|]. fs_step. eapply v_getl; [done|].
  rewrite Hs, Hd, u32_small by lia. assert (Hr : refs P start = 0%nat) by (unfold refs; by rewrite HP).
  eapply (v_bread fuel R C); [done|done|apply lookup_empty|rewrite Hr; lia|by right|].
  intros b f' _ Hv'. rewrite Hr in Hv'. by apply HQ.
Qed.

Lemma v_write_head V D P lg ks f (Q : unit -> list lockid -> fsst -> Prop) :
  view V D P ∅ lg f -> log_ok lg ks -> P !! start = None -> (size P < NBUF)%nat -> length (V start) = BSIZE ->
  C D ->
  (forall d, length d = BSIZE -> get_int d 0 = Z.of_nat (length ks) -> header_blocks d = ks ->
     C (upd D start d) /\ forall f', view (upd V start d) (upd D start d) P ∅ lg f' -> Q tt [] f') ->
  fsp (write_head fuel) [] f Q.
Proof.
  intros Hv Hlo HP Hsz Hlen HC HQ. pose proof (lo_max _ _ Hlo) as Hmax. rewrite LOGBLOCKS_val in Hmax.
  assert (HB : BSIZE = 1024%nat) by done.
  unfold write_head. fs_step. eapply v_bread_head; [done|apply (lo_start _ _ Hlo)|apply (lo_dev _ _ Hlo)|done..|].
  intros b f1 Hv1. fs_step. eapply v_getl; [done|]. rewrite (lo_n _ _ Hlo).
  fs_step. eapply (v_set_data R C me dev pid _ _ _ _ _ _ start b 1 (fun d => put_int d 0 (Z.of_nat (length ks))));
    [exact Hv1|by simplify_map_eq|by simplify_map_eq|]. intros f2 Hv2. fs_step.
  set (I := fun (i : nat) f => exists d,
    view (upd V start d) D (<[start := (b, 1%nat)]> P) {[start := true]} lg f /\ length d = BSIZE /\
    get_int d 0 = Z.of_nat (length ks) /\
    forall j k, (j < i)%nat -> ks !! j = Some k -> get_int d (4 + 4 * j) = i32 k).
  apply (fsp_tail_loop R C me pid I (length ks)).
  - intros i g (d & (_ & -> & _) & _). apply (lo_n _ _ Hlo).
  - lia.
  - rewrite LOGBLOCKS_val. lia.
  - exists (put_int (V start) 0 (Z.of_nat (length ks))).
    rewrite length_put_int, get_put_int, i32_small by lia. split_and!; [done|done|done|lia].
  - intros i g Hi (d & Hd & Hl & Hn & Hb). destruct (lookup_lt_is_Some_2 ks i) as [k Hk]; [lia|].
    unfold write_head_block. fs_step. eapply v_get_block; [done|by apply (lo_blocks _ _ Hlo)|].
    eapply (v_set_data R C me dev pid _ _ _ _ _ _ start b 1 (fun d => put_int d (4 + 4 * i) (i32 k)));
      [exact Hd|by simplify_map_eq|by simplify_map_eq|]. intros f3 Hv3. split; [done|].
    rewrite upd_eq in Hv3. exists (put_int d (4 + 4 * i) (i32 k)). rewrite length_put_int by lia. split_and!; [|done| |].
    + eapply view_val; [|exact Hv3]. intros j. unfold upd. by destruct (j =? start).
    + by rewrite get_put_int_ne by lia.
    + intros j k' Hj Hk'. destruct (decide (j = i)) as [->|Hne].
      * rewrite get_put_int by lia. simplify_eq. apply i32_i32.
      * rewrite get_put_int_ne by lia. apply Hb; [lia|done].
  - intros g (d & Hd & Hl & Hn & Hb).
    assert (Hhb : header_blocks d = ks).
    { apply header_blocks_eq; [done| |apply (lo_u32 _ _ Hlo)]. intros j k Hk. apply Hb; [|done]. by eapply lookup_lt_Some. }
    destruct (HQ d Hl Hn Hhb) as [HC' HQ'].
    fs_step. eapply (v_bwrite R C me dev pid _ _ _ _ _ _ start b); [exact Hd|by simplify_map_eq|by simplify_map_eq|done|by rewrite upd_eq|].
    rewrite upd_eq. intros f4 Hv4.
    eapply (v_brelse R C me dev pid _ _ _ _ _ _ start b 0); [exact Hv4|by simplify_map_eq|by simplify_map_eq| |].
    { intros _. by rewrite !upd_eq. }
    intros f5 Hv5. apply HQ'. eqmap Hv5.
Qed.

Lemma v_read_head V D lg f (Q : unit -> list lockid -> fsst -> Prop) :
  let ks := header_blocks (V start) in
  view V D ∅ ∅ lg f -> l_start (m_log lg) = start -> u32 (l_dev (m_log lg)) = dev -> length (l_block (m_log lg)) = LOGBLOCKS ->
  0 <= get_int (V start) 0 <= Z.of_nat LOGBLOCKS -> Forall (fun k => ~ in_log start k) ks -> NoDup ks ->
  V start = D start -> C D ->
  (forall lg' f', log_ok lg' ks -> only_log lg lg' -> view V D ∅ ∅ lg' f' -> Q tt [] f') ->
  fsp (read_head fuel) [] f Q.
Proof.
  intros ks Hv Hs Hd Hlb Hn Hhome Hnd Hcl HC HQ.
  assert (Hlen : Z.of_nat (length ks) = get_int (V start) 0).
  { unfold ks, header_blocks. rewrite length_map, length_seq. lia. }
  unfold read_head. fs_step. eapply v_bread_head; [done|done|done|done|apply lookup_empty|rewrite map_size_empty, NBUF_val; lia|].
  intros b f1 Hv1. fs_step. eapply v_data; [exact Hv1|by simplify_map_eq|by simplify_map_eq|]. intros x -> _.
  fs_step. eapply v_setl; [done|]. intros f2 Hv2. fs_step.
  set (I := fun (i : nat) f => exists lg',
    view V D (<[start := (b, 1%nat)]> ∅) {[start := true]} lg' f /\ only_log lg lg' /\ l_start (m_log lg') = start /\ u32 (l_dev (m_log lg')) = dev /\
    l_n (m_log lg') = Z.of_nat (length ks) /\ length (l_block (m_log lg')) = LOGBLOCKS /\
    forall j, (j < i)%nat -> l_block (m_log lg') !! j = Some (get_int (V start) (4 + 4 * j))).
  apply (fsp_tail_loop R C me pid I (length ks)).
  - intros i g (lg' & (_ & -> & _) & _ & _ & _ & E & _). done.
  - lia.
  - lia.
  - exists (on_log (set_l_n (get_int (V start) 0)) lg). split_and!; [exact Hv2|done|done|done|by rewrite Hlen|done|lia].
  - intros i g Hi (lg' & Hg & E0 & E1 & E2 & E3 & E4 & E5).
    destruct (lookup_lt_is_Some_2 (l_block (m_log lg')) i) as [k0 Hk0]; [rewrite E4; lia|].
    unfold read_head_block. fs_step. eapply v_data; [exact Hg|by simplify_map_eq|by simplify_map_eq|]. intros y -> _.
    eapply v_set_block; [done..|]. intros g' Hg'. split; [done|]. eexists. split; [exact Hg'|].
    split; [by eapply only_log_trans|].
    cbn [m_log on_log set_m_log l_start l_dev l_n l_block set_l_block]. rewrite length_insert. split_and!; try done.
    intros j Hj. destruct (decide (j = i)) as [->|Hne].
    + apply list_lookup_insert_eq. rewrite E4. lia.
    + rewrite list_lookup_insert_ne by done. apply E5. lia.
  - intros g (lg' & Hg & E0 & E1 & E2 & E3 & E4 & E5).
    eapply (v_brelse R C me dev pid _ _ _ _ _ _ start b 0); [exact Hg|by simplify_map_eq|by simplify_map_eq|done|].
    intros f5 Hv5. apply (HQ lg').
    + split; try done; [lia| |].
      * intros i k Hk. pose proof (lookup_lt_Some _ _ _ Hk) as Hi. unfold ks in Hk. rewrite header_blocks_lookup in Hk by done.
        rewrite (E5 i Hi). simplify_eq. by rewrite i32_u32, get_int_i32.
      * apply Forall_lookup. intros i k Hk. pose proof (lookup_lt_Some _ _ _ Hk) as Hi.
        unfold ks in Hk. rewrite header_blocks_lookup in Hk by done. simplify_eq. apply u32_range.
    + done.
    + eqmap Hv5.
Qed.

(** ** Writing the log *)

(** The first [i] blocks of the log hold the new contents [W]; nothing else
    differs from [V0] and [D0]. *)
Definition writing (W V0 D0 : blocks) (ks : list Z) (i : nat) V D : Prop :=
  (forall k, ~ in_log start k \/ k = start -> V k = V0 k /\ D k = D0 k) /\
  (forall j k, (j < i)%nat -> ks !! j = Some k -> V (start + Z.of_nat j + 1) = W k /\ D (start + Z.of_nat j + 1) = W k).

Lemma v_write_log V D P lg ks f (Q : unit -> list lockid -> fsst -> Prop) :
  view V D P ∅ lg f -> log_ok lg ks -> (size P < NBUF)%nat ->
  (forall k, in_log start k -> P !! k = None) -> (forall k, k ∈ ks -> exists b, P !! k = Some (b, 1%nat)) ->
  (forall i V' D', writing V V D ks i V' D' -> C D') ->
  (forall V' D' f', writing V V D ks (length ks) V' D' -> view V' D' P ∅ lg f' -> Q tt [] f') ->
  fsp (write_log fuel) [] f Q.
Proof.
  intros Hv Hlo Hsz HPl HP HC HQ. pose proof (lo_max _ _ Hlo) as Hmax. unfold write_log.
  apply (fsp_tail_loop R C me pid (fun i f => exists V' D', writing V V D ks i V' D' /\ view V' D' P ∅ lg f) (length ks)).
  - intros i g (V' & D' & _ & _ & -> & _). apply (lo_n _ _ Hlo).
  - lia.
  - lia.
  - exists V, D. split; [split; [done|lia]|done].
  - intros i g Hi (V' & D' & Hw & Hg). pose proof Hw as [Hw1 Hw2].
    destruct (lookup_lt_is_Some_2 ks i) as [k Hk]; [lia|].
    destruct (HP k) as [b Hb]; [by eapply list_elem_of_lookup_2|].
    pose proof (proj1 (Forall_lookup _ _) (lo_home _ _ Hlo) _ _ Hk) as Hh. cbv beta in Hh.
    assert (HVk : V' k = V k) by (apply Hw1; by left).
    assert (Hw' : writing V V D ks (S i) (upd V' (start + Z.of_nat i + 1) (V k)) (upd D' (start + Z.of_nat i + 1) (V k))).
    { split.
      - intros j Hj. rewrite !upd_ne; [by apply Hw1| |]; intros ->;
          (destruct Hj as [Hj|Hj]; [apply Hj, in_log_block; lia|lia]).
      - intros j k' Hj Hk'. destruct (decide (j = i)) as [->|Hne]; [rewrite !upd_eq; by simplify_eq|].
        rewrite !upd_ne by lia. apply Hw2; [lia|done]. }
    rewrite <- HVk in Hw'.
    eapply v_write_log_block; [done|done|done|done|lia|apply HPl, in_log_block; lia|done|by eapply HC|by eapply HC|].
    intros g' Hg'. eauto.
  - intros g (V' & D' & Hw & Hg). eauto.
Qed.

(** ** Installing *)

(** The first [i] of the blocks are at home; the log still has them all. *)
Record installing (r : Z) (W : blocks) (P0 : gmap Z (nat * nat)) (ks : list Z) (i : nat) V D P : Prop := {
  in_logged j k : ks !! j = Some k -> V (start + Z.of_nat j + 1) = W k /\ D (start + Z.of_nat j + 1) = W k;
  in_home k : ~ in_log start k -> k ∉ ks \/ k ∈ take i ks -> V k = W k /\ D k = W k;
  in_header : header_blocks (D start) = ks /\ get_int (D start) 0 = Z.of_nat (length ks);
  in_start : V start = D start /\ length (V start) = BSIZE;
  in_room : (size P < NBUF)%nat;
  in_free k : in_log start k -> P !! k = None;
  in_pins : r = 0 -> forall k, k ∈ ks -> exists b, P0 !! k = Some (b, 1%nat);
  in_fresh : r <> 0 -> P0 = ∅;
  in_refs k : P !! k = if decide (k ∈ take i ks) then None else P0 !! k
}.

(** A disk whose header lists [ks] and whose log has their new contents. *)
Lemma recovered_logged W ks D : header_blocks (D start) = ks -> NoDup ks ->
  (forall j k, ks !! j = Some k -> D (start + Z.of_nat j + 1) = W k) ->
  (forall k, ~ in_log start k -> k ∉ ks -> D k = W k) ->
  forall k, ~ in_log start k -> recovered start D k = W k.
Proof.
  intros Hh Hnd Hl Ho k Hk. destruct (decide (k ∈ ks)) as [[j Hj]%list_elem_of_lookup_1|Hn].
  - rewrite (recovered_at start D j k); [by apply Hl|by rewrite Hh|by rewrite Hh].
  - rewrite recovered_out by (by rewrite Hh). by apply Ho.
Qed.

Lemma installing_recovered r W P0 ks i V D P : NoDup ks -> installing r W P0 ks i V D P ->
  forall k, ~ in_log start k -> recovered start D k = W k.
Proof.
  intros Hnd H. apply (recovered_logged W ks); [apply (in_header _ _ _ _ _ _ _ _ H)|done| |].
  - intros j k Hj. by apply (in_logged _ _ _ _ _ _ _ _ H).
  - intros k Hk Hn. apply (in_home _ _ _ _ _ _ _ _ H); auto.
Qed.

Lemma installing_next r W P0 ks lg i k V D P : log_ok lg ks -> ks !! i = Some k -> installing r W P0 ks i V D P ->
  installing r W P0 ks (S i) (upd V k (V (start + Z.of_nat i + 1))) (upd D k (V (start + Z.of_nat i + 1))) (delete k P).
Proof.
  intros Hlo Hk H. pose proof (lo_max _ _ Hlo) as Hmax. pose proof (lookup_lt_Some _ _ _ Hk) as Hi.
  pose proof (proj1 (Forall_lookup _ _) (lo_home _ _ Hlo) _ _ Hk) as Hh. cbv beta in Hh.
  assert (Hks : k <> start) by (intros ->; apply Hh; unfold in_log; lia).
  destruct (in_logged _ _ _ _ _ _ _ _ H i k Hk) as [Hw _]. rewrite Hw. destruct H. split; try done.
  - intros j k' Hj. pose proof (lookup_lt_Some _ _ _ Hj). rewrite !upd_ne; [by apply in_logged0| |];
      apply not_eq_sym; (eapply home_ne; [done..|lia]).
  - intros k' Hk' Hor. destruct (decide (k' = k)) as [->|Hne]; [by rewrite !upd_eq|]. rewrite !upd_ne by done.
    apply in_home0; [done|]. destruct Hor as [?|Ht]; [by left|right].
    rewrite (take_S_r _ _ _ Hk) in Ht. set_solver.
  - by rewrite upd_ne.
  - by rewrite !upd_ne.
  - eapply Nat.le_lt_trans; [|exact in_room0]. destruct (P !! k) eqn:E.
    + rewrite (map_size_delete_Some _ _ ltac:(by rewrite E)). lia.
    + by rewrite delete_id.
  - intros k' Hk'. rewrite lookup_delete_ne by (intros ->; done). by apply in_free0.
  - intros k'. rewrite (take_S_r _ _ _ Hk). destruct (decide (k' = k)) as [->|Hne].
    + rewrite lookup_delete_eq, decide_True; [done|set_solver].
    + rewrite lookup_delete_ne, in_refs0 by done. destruct (decide (k' ∈ take i ks)), (decide (k' ∈ take i ks ++ [k])); set_solver.
Qed.

Lemma v_install_trans r W P0 V D P lg ks f (Q : unit -> list lockid -> fsst -> Prop) :
  view V D P ∅ lg f -> log_ok lg ks -> installing r W P0 ks 0 V D P ->
  (forall i V' D' P', installing r W P0 ks i V' D' P' -> C D') ->
  (forall V' D' P' f', installing r W P0 ks (length ks) V' D' P' -> view V' D' P' ∅ lg f' -> Q tt [] f') ->
  fsp (install_trans fuel r) [] f Q.
Proof.
  intros Hv Hlo Hin HC HQ. pose proof (lo_max _ _ Hlo) as Hmax. unfold install_trans.
  apply (fsp_tail_loop R C me pid
    (fun i f => exists V' D' P', installing r W P0 ks i V' D' P' /\ view V' D' P' ∅ lg f) (length ks)).
  - intros i g (V' & D' & P' & _ & _ & -> & _). apply (lo_n _ _ Hlo).
  - lia.
  - lia.
  - eauto.
  - intros i g Hi (V' & D' & P' & Hw & Hg). destruct (lookup_lt_is_Some_2 ks i) as [k Hk]; [lia|].
    pose proof (installing_next _ _ _ _ _ _ _ _ _ _ Hlo Hk Hw) as Hw'.
    eapply v_install_block; [done..|]. pose proof Hw as [I1 I2 I3 I4 I5 I6 I7 I8 I9].
    eapply v_install_copy; [done|done|done| |apply I6, in_log_block; lia|done| |by eapply HC|by eapply HC|].
    + assert (Hnt : k ∉ take i ks).
      { intros [j Hj]%list_elem_of_lookup_1. pose proof (lookup_lt_Some _ _ _ Hj) as Hlt. rewrite length_take in Hlt.
        rewrite lookup_take_lt in Hj by lia. pose proof (NoDup_lookup _ _ _ _ (lo_nodup _ _ Hlo) Hj Hk). lia. }
      rewrite I9, decide_False by done. destruct (decide (r = 0)) as [->|Hr]; [left|right].
      * split; [done|]. apply I7; [done|]. by eapply list_elem_of_lookup_2.
      * rewrite I8 by done. split_and!; [done|done|]. assert (P' = ∅) as ->.
        { apply map_eq. intros j. rewrite I9, I8 by done. by destruct (decide _). }
        rewrite map_size_empty, NBUF_val. lia.
    + destruct (I1 i k Hk) as [-> ->]. done.
    + intros g' Hg'. split; [done|]. do 3 eexists. by split.
  - intros g (V' & D' & P' & Hw & Hg). eauto.
Qed.

End LogSteps.

(** ** The theorems *)

(** A header recovery can use. *)
Definition header_ok (start : Z) (D : blocks) : Prop :=
  0 <= get_int (D start) 0 <= Z.of_nat LOGBLOCKS /\ length (D start) = BSIZE /\
  Forall (fun k => ~ in_log start k) (header_blocks (D start)) /\ NoDup (header_blocks (D start)).

(** Recovery from [D'] gives the blocks outside the log the contents [W]. *)
Definition recovers (start : Z) (W D' : blocks) : Prop :=
  header_ok start D' /\ forall k, ~ in_log start k -> recovered start D' k = W k.

Lemma header_ok_empty start D : get_int (D start) 0 = 0 -> length (D start) = BSIZE -> header_ok start D.
Proof.
  intros H1 H2. assert (E : header_blocks (D start) = []) by (unfold header_blocks; by rewrite H1).
  split_and!; rewrite ?H1, ?E; [lia|lia|done|by apply Forall_nil|by apply NoDup_nil].
Qed.

Lemma header_ok_log start dev lg ks D : log_ok start dev lg ks -> get_int (D start) 0 = Z.of_nat (length ks) ->
  header_blocks (D start) = ks -> length (D start) = BSIZE -> header_ok start D.
Proof.
  intros Hlo H1 H2 H3. pose proof (lo_max _ _ _ _ Hlo). split_and!; rewrite ?H1, ?H2; try lia; [apply (lo_home _ _ _ _ Hlo)|apply (lo_nodup _ _ _ _ Hlo)].
Qed.

Lemma log_ok_clear start dev lg ks : log_ok start dev lg ks -> log_ok start dev (on_log (set_l_n 0) lg) [].
Proof. intros []. split; try done; [simpl; lia|by apply NoDup_nil]. Qed.

Section LogTheorems.

Context {mem : Type} {cfg : config} {svc : services mem} {sym : symbols}.
Context {hfs : has_fs mem} {drv : disk_driver mem}.
Variable fuel : nat.
Variable R : kst mem -> kst mem -> Prop.
Context {dok : driver_ok mem R}.
Variable me : nat.
Variable pid : Z.
Variable start dev : Z.
Hypothesis Hstart : 0 <= start /\ start + Z.of_nat LOGBLOCKS < 2 ^ 31.
Implicit Types (V D : blocks) (P : gmap Z (nat * nat)) (lg : fsmem).

(** The end of a transaction: the log is erased on disk. *)
Lemma v_erase C r W P0 V D P lg ks f (Q : unit -> list lockid -> fsst -> Prop) :
  view dev pid V D P ∅ lg f -> log_ok start dev lg ks -> installing start r W P0 ks (length ks) V D P ->
  (forall D', recovers start W D' -> C D') ->
  (forall V' D' f', view dev pid V' D' P ∅ (on_log (set_l_n 0) lg) f' ->
     (forall k, ~ in_log start k -> V' k = W k /\ D' k = W k) ->
     get_int (D' start) 0 = 0 -> length (D' start) = BSIZE -> Q tt [] f') ->
  fsp R C me pid (setl (set_l_n 0) ;; write_head fuel) [] f Q.
Proof.
  intros Hv Hlo Hin HC HQ. pose proof Hin as [I1 I2 [I3 I3'] [I4 I4'] I5 I6 I7 I8 I9].
  assert (Hst : in_log start start) by (unfold in_log; lia).
  assert (Hall : forall k, ~ in_log start k -> V k = W k /\ D k = W k).
  { intros k Hk. apply I2; [done|]. rewrite take_ge by lia. destruct (decide (k ∈ ks)); auto. }
  assert (Hrec : recovers start W D).
  { split; [|by eapply installing_recovered; [apply Hlo|]]. eapply header_ok_log; [done|done|done|congruence]. }
  fs_step. eapply v_setl; [done|]. intros f1 Hv1.
  eapply (v_write_head fuel R C me pid start dev Hstart _ _ _ _ []); [exact Hv1|by eapply log_ok_clear|by apply I6|done|done|by apply HC|].
  intros d Hd1 Hd2 Hd3. split.
  - apply HC. split; [apply header_ok_empty; by rewrite upd_eq|]. intros k Hk.
    rewrite recovered_empty by (by rewrite upd_eq). rewrite upd_ne by (intros ->; done). by apply Hall.
  - intros f' Hv'. eapply HQ; [exact Hv'| |by rewrite upd_eq|by rewrite upd_eq].
    intros k Hk. rewrite !upd_ne by (intros ->; done). by apply Hall.
Qed.

(** A commit is atomic.  Let [V] be what the running system calls have made
    of the blocks, the changed ones being the logged and pinned ones, and [D] the
    disk, with an empty log.  At every point at which the machine may stop, what
    recovery makes of the disk is either all of [D] or all of [V]; and [commit]
    ends with [V] on the disk, the log empty in memory and on disk, and every
    block unpinned. *)
Lemma commit_spec V D P lg ks f :
  view dev pid V D P ∅ lg f -> log_ok start dev lg ks ->
  (forall k, k ∉ ks -> V k = D k) -> (forall k, k ∈ ks -> exists b, P !! k = Some (b, 1%nat)) ->
  (forall k, in_log start k -> P !! k = None) -> (size P < NBUF)%nat ->
  get_int (D start) 0 = 0 -> length (D start) = BSIZE ->
  fsp R (fun D' => recovers start D D' \/ recovers start V D') me pid (commit fuel) [] f
    (fun _ L f' => L = [] /\ exists V' P', view dev pid V' (f_disk f') P' ∅ (on_log (set_l_n 0) lg) f' /\
       (forall k, ~ in_log start k -> V' k = V k /\ f_disk f' k = V k) /\
       get_int (f_disk f' start) 0 = 0 /\ length (f_disk f' start) = BSIZE /\
       forall k, P' !! k = if decide (k ∈ ks) then None else P !! k).
Proof.
  intros Hv Hlo Hcl Hpin HPl Hsz Hh Hlen. pose proof (lo_max _ _ _ _ Hlo) as Hmax.
  assert (Hst : in_log start start) by (unfold in_log; lia).
  assert (Hns : start ∉ ks).
  { intros Hin. pose proof (proj1 (Forall_forall _ _) (lo_home _ _ _ _ Hlo) _ Hin) as H. by apply H. }
  set (C := fun D' => recovers start D D' \/ recovers start V D').
  unfold commit. fs_step. eapply v_getl; [done|]. rewrite (lo_n _ _ _ _ Hlo). apply fsp_when; intros Hn; bool_to_prop.
  2: { destruct ks; [|simpl in Hn; lia]. split; [done|]. exists V, P. pose proof Hv as (-> & _).
       replace (on_log (set_l_n 0) lg) with lg by (destruct lg as [[] ? ? ?]; pose proof (lo_n _ _ _ _ Hlo); simpl in *; by subst).
       split_and!; [done| |done|done|done]. intros k _. split; [done|]. symmetry. apply Hcl. set_solver. }
  assert (Hw0 : forall i V' D', writing start V V D ks i V' D' -> C D').
  { intros i V' D' [Hw _]. left. destruct (Hw start) as [_ E]; [by right|]. split; [apply header_ok_empty; by rewrite E|].
    intros k Hk. rewrite recovered_empty by (by rewrite E). apply Hw. by left. }
  fs_step. eapply (v_write_log fuel R C me pid start dev Hstart); [done|done|done|done|done|exact Hw0|]. intros V1 D1 f1 Hw1 Hv1. pose proof Hw1 as [Wa Wb].
  destruct (Wa start) as [HV1 HD1]; [by right|].
  fs_step. eapply (v_write_head fuel R C me pid start dev Hstart); [exact Hv1|done|by apply HPl|done|by rewrite HV1, Hcl|by eapply Hw0|].
  intros d Hd1 Hd2 Hd3.
  assert (Hin : installing start 0 V P ks 0 (upd V1 start d) (upd D1 start d) P).
  { split; try done.
    - intros j k Hj. pose proof (lookup_lt_Some _ _ _ Hj). rewrite !upd_ne by lia. by apply Wb.
    - intros k Hk Hor. rewrite !upd_ne by (intros ->; done). destruct (Wa k) as [-> ->]; [by left|]. split; [done|].
      symmetry. apply Hcl. destruct Hor; [done|]. set_solver.
    - by rewrite upd_eq.
    - by rewrite !upd_eq. }
  assert (Hrec : forall i V' D' P', installing start 0 V P ks i V' D' P' -> recovers start V D').
  { intros i V' D' P' H'. pose proof H' as [_ _ [H1 H2] [H3 H4] _ _ _ _ _]. split.
    - eapply header_ok_log; [done|done|done|congruence].
    - eapply installing_recovered; [apply Hlo|done]. }
  split; [right; by eapply Hrec|]. intros f2 Hv2.
  fs_step. eapply (v_install_trans fuel R C me pid start dev Hstart 0 V P);
    [exact Hv2|done|exact Hin|intros; right; by eapply Hrec|]. intros V3 D3 P3 f3 Hin3 Hv3.
  eapply v_erase; [exact Hv3|done|exact Hin3|intros; by right|].
  intros V4 D4 f4 Hv4 Hall H0 H1. split; [done|]. pose proof Hv4 as (-> & _). exists V4, P3. split_and!; [done|done|done|done|].
  intros k. rewrite (in_refs _ _ _ _ _ _ _ _ _ Hin3). by rewrite take_ge.
Qed.

(** C14.  Recovery at boot: from a disk [D] a crash may have left, [initlog]
    ends with the committed blocks at home, the log empty in memory and on
    disk, and nothing else changed; and when it is itself interrupted, at any
    point, the disk it leaves recovers to the same contents. *)
Theorem initlog_recovers logstart d D lg f :
  view dev pid D D ∅ ∅ lg f -> length (l_block (m_log lg)) = LOGBLOCKS -> header_ok start D ->
  i32 logstart = start -> u32 d = dev ->
  fsp R (recovers start (recovered start D)) me pid (initlog fuel d logstart) [] f
    (fun _ L f' => L = [] /\ exists V' lg', view dev pid V' (f_disk f') ∅ ∅ lg' f' /\ log_ok start dev lg' [] /\ only_log lg lg' /\
       (forall k, ~ in_log start k -> V' k = recovered start D k /\ f_disk f' k = recovered start D k) /\
       get_int (f_disk f' start) 0 = 0 /\ length (f_disk f' start) = BSIZE).
Proof.
  intros Hv Hlb Hho Hls Hd. pose proof Hho as (Hn & Hlen & Hhome & Hnd).
  assert (HC0 : recovers start (recovered start D) D) by done.
  unfold initlog. change (BSIZE <=? logheader_size)%nat with false. cbv iota.
  fs_step. apply fsp_initlock; [done|apply not_elem_of_nil|].
  fs_step. eapply v_setl; [done|]. intros f1 Hv1. fs_step. eapply v_setl; [done|]. intros f2 Hv2.
  unfold recover_from_log. fs_step.
  eapply (v_read_head fuel R _ me pid start dev Hstart); [exact Hv2|done|done|done|done|done|done|done|done|].
  intros lg1 f3 Hlo Hol Hv3. set (ks := header_blocks (D start)) in *.
  assert (Hin : installing start 1 (recovered start D) ∅ ks 0 D D ∅).
  { split; try done.
    - intros j k Hj. by rewrite (recovered_at start D j k).
    - intros k Hk Hor. rewrite recovered_out; [done|]. destruct Hor; [done|]. set_solver.
    - split; [done|]. unfold ks, header_blocks. rewrite length_map, length_seq. lia.
    - rewrite map_size_empty, NBUF_val. lia. }
  assert (Hrec : forall i V' D' P', installing start 1 (recovered start D) ∅ ks i V' D' P' -> recovers start (recovered start D) D').
  { intros i V' D' P' H'. pose proof H' as [_ _ [H1 H2] [H3 H4] _ _ _ _ _]. split.
    - eapply header_ok_log; [done|done|done|congruence].
    - eapply installing_recovered; [apply Hlo|done]. }
  fs_step. eapply (v_install_trans fuel R _ me pid start dev Hstart 1 (recovered start D) ∅);
    [exact Hv3|done|exact Hin|intros; by eapply Hrec|]. intros V4 D4 P4 f4 Hin4 Hv4.
  assert (P4 = ∅) as ->. { apply map_eq. intros k. rewrite (in_refs _ _ _ _ _ _ _ _ _ Hin4). by destruct (decide _). }
  eapply v_erase; [exact Hv4|done|exact Hin4|done|].
  intros V5 D5 f5 Hv5 Hall H0 H1. split; [done|]. pose proof Hv5 as (-> & _). exists V5, (on_log (set_l_n 0) lg1).
  split_and!; [done|by eapply log_ok_clear|by eapply only_log_trans|done|done|done].
Qed.

End LogTheorems.
