(* ===== verification/LogTx.v ===== *)
(** * Transactions

    [begin_op], [log_write] and [end_op], and what a system call gets from them:
    its changes to blocks reach the disk all or not at all. *)

From stdpp Require Import base list gmap strings.
From Stdlib Require Import ZArith Lia.
From S2P Require Import Prelude KernelBase Proc FsBase FsLogic Bio BioFacts BioCache BioSpecs Log LogFacts LogTheorems.

Open Scope Z_scope.

(** The blocks in the log after block [k] was written. *)
Definition log_add (k : Z) (ks : list Z) : list Z := if decide (k ∈ ks) then ks else ks ++ [k].

Lemma log_add_in k ks j : j ∈ log_add k ks <-> j ∈ ks \/ j = k.
Proof. unfold log_add. destruct (decide (k ∈ ks)); set_solver. Qed.

(** Writing a block changes neither the number of running operations nor that
    of commits. *)
Definition same_ops (lg lg' : fsmem) : Prop :=
  l_outstanding (m_log lg') = l_outstanding (m_log lg) /\ l_committing (m_log lg') = l_committing (m_log lg) /\ l_ncommit (m_log lg') = l_ncommit (m_log lg) /\
  only_log lg lg'.

Section LogTx.

Context {mem : Type} {cfg : config} {svc : services mem} {sym : symbols}.
Context {hfs : has_fs mem} {drv : disk_driver mem}.
Variable fuel : nat.
Variable R : kst mem -> kst mem -> Prop.
Context {dok : driver_ok mem R}.
Variable C : blocks -> Prop.
Variable me : nat.
Variable pid : Z.
Variable start dev : Z.
Hypothesis Hstart : 0 <= start /\ start + Z.of_nat LOGBLOCKS < 2 ^ 31.
Abbreviation fsp := (fsp R C me pid).
Abbreviation view := (view dev pid).
Abbreviation log_ok := (log_ok start dev).
Implicit Types (V D : blocks) (P : gmap Z (nat * nat)) (K : gmap Z bool) (lg : fsmem).

Lemma v_begin_op V D P K lg f (Q : unit -> list lockid -> fsst -> Prop) :
  view V D P K lg f -> l_committing (m_log lg) = 0 ->
  l_n (m_log lg) + (l_outstanding (m_log lg) + 1) * MAXOPBLOCKS <= Z.of_nat LOGBLOCKS ->
  (forall f', view V D P K (on_log (set_l_outstanding (l_outstanding (m_log lg) + 1)) lg) f' -> Q tt [] f') ->
  fsp (begin_op fuel) [] f Q.
Proof.
  intros Hv Hc Hroom HQ. unfold begin_op. do 2 fs_step.
  destruct fuel; cbn [begin_op_loop]; (fs_step; eapply v_getl; [done|]; rewrite Hc; cbn [Z.eqb negb];
    fs_step; eapply v_getl; [done|]; fs_step; eapply v_getl; [done|];
    rewrite (proj2 (Z.ltb_ge _ _)) by lia; fs_step; eapply v_setl; [done|]; intros f1 Hv1; fs_step; by apply HQ).
Qed.

Lemma v_absorb V D P K lg ks f k n i L (Q : nat -> list lockid -> fsst -> Prop) :
  view V D P K lg f -> log_ok lg ks -> (length ks <= i + n)%nat -> (i <= length ks)%nat -> k ∉ take i ks ->
  (forall j, (ks !! j = Some k \/ k ∉ ks /\ j = length ks) -> Q j L f) -> fsp (absorb_loop n i k) L f Q.
Proof.
  intros Hv Hlo. revert i. induction n as [|n IH]; intros i Hn Hi Hk HQ; cbn [absorb_loop];
    fs_step; (eapply v_getl; [done|]); rewrite (lo_n _ _ _ _ Hlo).
  - rewrite (proj2 (Z.ltb_ge _ _)) by lia. fs_step. apply HQ. right. rewrite take_ge in Hk by lia. split; [done|lia].
  - destruct (Z.ltb_spec (Z.of_nat i) (Z.of_nat (length ks))).
    + destruct (lookup_lt_is_Some_2 ks i) as [k' Hk']; [lia|].
      fs_step. eapply v_get_block; [done|by apply (lo_blocks _ _ _ _ Hlo)|].
      pose proof (proj1 (Forall_lookup _ _) (lo_u32 _ _ _ _ Hlo) _ _ Hk') as Hr. cbv beta in Hr.
      rewrite u32_i32 by done. destruct (Z.eqb_spec k' k) as [->|Hne]; [fs_step; auto|].
      apply IH; [lia|lia| |done]. rewrite (take_S_r _ _ _ Hk'). set_solver.
    + fs_step. apply HQ. right. rewrite take_ge in Hk by lia. split; [done|lia].
Qed.

(** [log_write] notes the block once, and pins its buffer when it is new. *)
Lemma v_log_write V D P K lg ks f k b n (Q : unit -> list lockid -> fsst -> Prop) :
  view V D P K lg f -> log_ok lg ks -> P !! k = Some (b, n) -> K !! k = Some true -> Z.of_nat n + 1 < 2 ^ 32 ->
  0 <= k < 2 ^ 32 -> ~ in_log start k -> (length ks < LOGBLOCKS)%nat -> 1 <= l_outstanding (m_log lg) ->
  (forall lg' f', log_ok lg' (log_add k ks) -> same_ops lg lg' ->
     view V D (if decide (k ∈ ks) then P else <[k := (b, S n)]> P) K lg' f' -> Q tt [] f') ->
  fsp (log_write b) [] f Q.
Proof.
  intros Hv Hlo HP HK Hn Hk Hh Hlen Hout HQ. unfold log_write. do 2 fs_step.
  fs_step. eapply v_getl; [done|]. rewrite (lo_n _ _ _ _ Hlo), (proj2 (Z.leb_gt _ _)) by lia.
  fs_step. eapply v_getl; [done|]. rewrite (proj2 (Z.ltb_ge _ _)) by lia.
  fs_step. eapply v_data; [done..|]. intros x _ Hx. rewrite Hx.
  fs_step. eapply v_absorb; [done|done|lia|lia|apply not_elem_of_nil|]. intros i Hi.
  assert (Hilt : (i < LOGBLOCKS)%nat).
  { destruct Hi as [Hi|[_ ->]]; [|done]. apply lookup_lt_Some in Hi. lia. }
  destruct (lookup_lt_is_Some_2 (l_block (m_log lg)) i) as [k0 Hk0]; [by rewrite (lo_len _ _ _ _ Hlo)|].
  fs_step. eapply v_set_block; [done..|]. intros f1 Hv1.
  fs_step. eapply v_getl; [done|]. cbn [l_n set_l_block m_log on_log set_m_log]. rewrite (lo_n _ _ _ _ Hlo). fs_step.
  destruct Hi as [Hi|[Hnk ->]].
  - assert (Hin : k ∈ ks) by (by eapply list_elem_of_lookup_2). pose proof (lookup_lt_Some _ _ _ Hi).
    rewrite (proj2 (Z.eqb_neq _ _)) by lia. cbn [when]. fs_step. fs_step.
    rewrite (list_insert_id (l_block (m_log lg))) in Hv1 by (by apply (lo_blocks _ _ _ _ Hlo)).
    apply (HQ lg); [unfold log_add; by rewrite decide_True|by destruct lg|rewrite decide_True by done].
    by destruct lg as [[] ? ? ?].
  - rewrite Z.eqb_refl. cbn [when]. fs_step.
    eapply (v_bpin R C me dev pid _ _ _ _ _ _ k b n); [exact Hv1|done|done|done|set_solver|]. intros f2 Hv2.
    eapply v_setl; [done|]. intros f3 Hv3. fs_step.
    eapply HQ; [| |rewrite decide_False by done; exact Hv3]; [|done].
    unfold log_add. rewrite decide_False by done. destruct Hlo as [L1 L2 L3 L4 L5 L6 L7 L8 L9].
    split; cbn [l_start l_dev l_n l_block set_l_n set_l_block m_log on_log set_m_log]; try done.
    + rewrite L3, length_app. simpl. lia.
    + by rewrite length_insert.
    + rewrite length_app. simpl. lia.
    + intros j k' Hj. destruct (decide (j = length ks)) as [->|Hne].
      * rewrite list_lookup_insert_eq by lia. rewrite lookup_app_r, Nat.sub_diag in Hj by lia. by injection Hj as <-.
      * pose proof (lookup_lt_Some _ _ _ Hj) as Hlt. rewrite length_app in Hlt. simpl in Hlt.
        rewrite list_lookup_insert_ne by done. apply L6. by rewrite lookup_app_l in Hj by lia.
    + apply Forall_app. split; [done|]. by apply Forall_singleton.
    + apply Forall_app. split; [done|]. by apply Forall_singleton.
    + apply NoDup_app. split_and!; [done|set_solver|]. apply NoDup_singleton.
Qed.

(** A change to one block as the comment of [log_write] describes it:
    [bp = bread(...); modify bp->data[]; log_write(bp); brelse(bp)]. *)
Definition write_block (k : Z) (g : list Z -> list Z) : M mem unit :=
  let* bp := bread fuel dev k in
  setb bp (fun x => set_b_data (g (b_data x)) x) ;;
  log_write bp ;;
  brelse bp.

Fixpoint write_blocks (ws : list (Z * (list Z -> list Z))) : M mem unit :=
  match ws with
  | [] => ret tt
  | w :: ws' => write_block w.1 w.2 ;; write_blocks ws'
  end.

Definition transaction (ws : list (Z * (list Z -> list Z))) : M mem unit :=
  begin_op fuel ;;
  write_blocks ws ;;
  end_op fuel.

(** The blocks after the changes. *)
Definition apply_writes (ws : list (Z * (list Z -> list Z))) (V : blocks) : blocks :=
  fold_left (fun V w => upd V w.1 (w.2 (V w.1))) ws V.

(** Every logged block is pinned, and nothing else is in use. *)
Definition pinned P (ks : list Z) : Prop :=
  size P = length ks /\ forall k, (k ∈ ks -> exists b, P !! k = Some (b, 1%nat)) /\ (k ∉ ks -> P !! k = None).

Lemma v_write_block V D P lg ks f k g (Q : unit -> list lockid -> fsst -> Prop) :
  view V D P ∅ lg f -> log_ok lg ks -> pinned P ks -> C D ->
  0 <= k < 2 ^ 32 -> ~ in_log start k -> (S (length ks) < LOGBLOCKS)%nat -> 1 <= l_outstanding (m_log lg) ->
  (forall P' lg' f', log_ok lg' (log_add k ks) -> same_ops lg lg' ->
     pinned P' (log_add k ks) -> view (upd V k (g (V k))) D P' ∅ lg' f' -> Q tt [] f') ->
  fsp (write_block k g) [] f Q.
Proof.
  intros Hv Hlo [Hsz Hpin] HC Hk Hh Hlen Hout HQ. destruct (Hpin k) as [Hin Hno].
  assert (HB : NBUF = LOGBLOCKS) by done.
  unfold write_block. fs_step. assert (Hr : refs P k = if decide (k ∈ ks) then 1%nat else 0%nat).
  { unfold refs. destruct (decide (k ∈ ks)) as [E|E]; [destruct (Hin E) as [b ->]; done|by rewrite (Hno E)]. }
  eapply (v_bread fuel R C); [done|done|apply lookup_empty|rewrite Hr; destruct (decide _); lia|right; lia|].
  rewrite Hr. intros b f1 Hb Hv1.
  fs_step. eapply (v_set_data R C me dev pid _ _ _ _ _ _ k b); [exact Hv1|by simplify_map_eq|by simplify_map_eq|].
  intros f2 Hv2. fs_step.
  eapply (v_log_write _ _ _ _ _ ks _ k b); [exact Hv2|done|by simplify_map_eq|by simplify_map_eq|destruct (decide _); lia|done|done|lia|done|].
  intros lg' f3 Hlo3 Ho3 Hv3.
  assert (Hv3' : view (upd V k (g (V k))) D (<[k := (b, 2%nat)]> P) (<[k := true]> ∅) lg' f3).
  { destruct (decide (k ∈ ks)); [done|]. by rewrite insert_insert_eq in Hv3. }
  eapply (v_brelse R C me dev pid _ _ _ _ _ _ k b 1); [exact Hv3'|by simplify_map_eq|by simplify_map_eq|done|].
  intros f4 Hv4. apply (HQ (<[k := (b, 1%nat)]> P) lg'); [done|done| |eqmap Hv4].
  split.
  - unfold log_add. destruct (decide (k ∈ ks)) as [E|E].
    + destruct (Hin E) as [b' Hb']. rewrite map_size_insert_Some; [done|by rewrite Hb'].
    + rewrite map_size_insert_None, length_app by (by apply Hno). simpl. lia.
  - intros j. rewrite log_add_in. destruct (decide (j = k)) as [->|Hne].
    + rewrite lookup_insert_eq. split; [eauto|]. intros H. destruct H. by right.
    + rewrite lookup_insert_ne by done. destruct (Hpin j) as [H1 H2]. split; [intros [?|?]; [auto|done]|].
      intros H. apply H2. tauto.
Qed.

Definition writable (ws : list (Z * (list Z -> list Z))) : Prop :=
  Forall (fun w => 0 <= w.1 < 2 ^ 32 /\ ~ in_log start w.1) ws.

Lemma v_write_blocks V D P lg ks f ws (Q : unit -> list lockid -> fsst -> Prop) :
  view V D P ∅ lg f -> log_ok lg ks -> pinned P ks -> C D ->
  writable ws -> (length ks + length ws < LOGBLOCKS)%nat -> 1 <= l_outstanding (m_log lg) ->
  (forall P' lg' ks' f', log_ok lg' ks' -> (forall k, k ∈ ks' <-> k ∈ ks \/ k ∈ map fst ws) ->
     same_ops lg lg' ->
     pinned P' ks' -> view (apply_writes ws V) D P' ∅ lg' f' -> Q tt [] f') ->
  fsp (write_blocks ws) [] f Q.
Proof.
  revert V P lg ks f. induction ws as [|[k g] ws IH]; intros V P lg ks f Hv Hlo Hp HC Hw Hlen Hout HQ; cbn [write_blocks].
  - fs_step. apply (HQ P lg ks); try done; [set_solver|by destruct lg].
  - apply Forall_cons in Hw as [[Hk Hh] Hw]. cbn [length fst snd] in Hlen, Hk, Hh.
    fs_step. eapply v_write_block; [done|done|done|done|done|done|lia|done|].
    intros P1 lg1 f1 Hlo1 (Ho1 & Hc1 & Hn1 & Hx1) Hp1 Hv1. eapply IH; [exact Hv1|exact Hlo1|done|done|done| |by rewrite Ho1|].
    { unfold log_add. cbn [fst]. destruct (decide (k ∈ ks)); rewrite ?length_app; cbn [length]; lia. }
    intros P2 lg2 ks2 f2 Hlo2 Hks2 (Ho2 & Hc2 & Hn2 & Hx2) Hp2 Hv2. apply (HQ P2 lg2 ks2); try done; [|split_and!; [congruence..|by eapply only_log_trans]].
    intros j. rewrite Hks2, log_add_in. simpl. set_solver.
Qed.

End LogTx.

Section Transaction.

Context {mem : Type} {cfg : config} {svc : services mem} {sym : symbols}.
Context {hfs : has_fs mem} {drv : disk_driver mem}.
Variable fuel : nat.
Variable R : kst mem -> kst mem -> Prop.
Context {dok : driver_ok mem R}.
Variable me : nat.
Variable pid : Z.
Variable start dev : Z.
Hypothesis Hstart : 0 <= start /\ start + Z.of_nat LOGBLOCKS < 2 ^ 31.
Implicit Types (V D : blocks) (P : gmap Z (nat * nat)) (lg : fsmem).

(** The system between two transactions, with [D] on the disk. *)
Definition quiet (D : blocks) (lg : fsmem) (f : fsst) : Prop :=
  view dev pid D D ∅ ∅ lg f /\ log_ok start dev lg [] /\ l_outstanding (m_log lg) = 0 /\ l_committing (m_log lg) = 0 /\
  get_int (D start) 0 = 0 /\ length (D start) = BSIZE.

Lemma apply_writes_out ws V k : k ∉ map fst ws -> apply_writes ws V k = V k.
Proof.
  revert V. induction ws as [|[j g] ws IH]; intros V Hk; [done|]. cbn [apply_writes fold_left fst snd] in *.
  apply not_elem_of_cons in Hk as [Hne Hk]. etrans; [apply (IH _ Hk)|]. by apply upd_ne.
Qed.

(** The last [end_op] commits. *)
Lemma v_end_op V D P lg ks f :
  let C := fun D' => recovers start D D' \/ recovers start V D' in
  view dev pid V D P ∅ lg f -> log_ok start dev lg ks -> pinned P ks -> (length ks < LOGBLOCKS)%nat ->
  (forall k, k ∉ ks -> V k = D k) -> l_outstanding (m_log lg) = 1 -> l_committing (m_log lg) = 0 ->
  get_int (D start) 0 = 0 -> length (D start) = BSIZE ->
  fsp R C me pid (end_op fuel) [] f (fun _ L f' => L = [] /\ exists D' lg', quiet D' lg' f' /\
    l_ncommit (m_log lg') = l_ncommit (m_log lg) + 1 /\ only_log lg lg' /\ forall k, ~ in_log start k -> D' k = V k).
Proof.
  intros C Hv Hlo [Hsz Hpin] Hlen Hcl Hout Hcom Hh0 Hl0. assert (HB : NBUF = LOGBLOCKS) by done.
  assert (Hlog : forall k, in_log start k -> P !! k = None).
  { intros k Hk. apply Hpin. intros Hin. pose proof (proj1 (Forall_forall _ _) (lo_home _ _ _ _ Hlo) _ Hin) as H. by apply H. }
  unfold end_op. do 3 fs_step. eapply v_setl; [done|]. intros f1 Hv1. fs_step. eapply v_getl; [done|].
  cbn [l_committing set_l_outstanding m_log on_log set_m_log]. rewrite Hcom. cbn [Z.eqb negb]. fs_step. eapply v_getl; [done|].
  assert (E0 : l_outstanding (m_log (on_log (set_l_outstanding (l_outstanding (m_log lg) - 1)) lg)) =? 0 = true) by (simpl; by rewrite Hout).
  cbn [m_log on_log set_m_log] in E0 |- *. rewrite E0. cbn [when].
  fs_step. eapply v_setl; [done|]. intros f2 Hv2. do 2 fs_step. fs_step.
  set (lg2 := on_log (set_l_committing 1) (on_log (set_l_outstanding (l_outstanding (m_log lg) - 1)) lg)) in *.
  eapply fsp_mono.
  { eapply (commit_spec fuel R me pid start dev Hstart V D P lg2 ks); [exact Hv2|by destruct Hlo|done| |done|lia|done|done].
    intros k Hk. by apply Hpin. }
  intros [] L f3 (-> & V3 & P3 & Hv3 & Hall & Hh3 & Hl3 & HP3).
  assert (P3 = ∅) as ->.
  { apply map_eq. intros k. rewrite HP3, lookup_empty. destruct (decide (k ∈ ks)); [done|]. by apply Hpin. }
  do 2 fs_step. fs_step. eapply v_setl; [done|]. intros f4 Hv4. fs_step. eapply v_setl; [done|]. intros f5 Hv5.
  do 2 fs_step. fs_step. split; [done|]. apply view_clean in Hv5.
  exists (f_disk f3). eexists. split; [split_and!; [exact Hv5|by destruct (log_ok_clear _ _ _ _ Hlo); split|simpl; lia|done|done|done]|].
  split; [done|]. split; [done|]. intros k Hk. by apply Hall.
Qed.

(** C8.  A transaction is atomic. A system call that changes up to
    [MAXOPBLOCKS] blocks between [begin_op] and [end_op] takes the disk from
    [D] to [D] with all its changes; at every point at which the machine may
    stop in between, recovery gives the blocks outside the log either all
    their old or all their new contents. At the end the log is empty again and
    no buffer is in use, so the next transaction starts as this one did. *)
Theorem transaction_atomic D lg f ws :
  quiet D lg f -> writable start ws -> Z.of_nat (length ws) <= MAXOPBLOCKS ->
  let W := apply_writes ws D in
  fsp R (fun D' => recovers start D D' \/ recovers start W D') me pid (transaction fuel dev ws) [] f
    (fun _ L f' => L = [] /\ exists D' lg', quiet D' lg' f' /\
       l_ncommit (m_log lg') = l_ncommit (m_log lg) + 1 /\ forall k, ~ in_log start k -> D' k = W k).
Proof.
  intros (Hv & Hlo & Hout & Hcom & Hh & Hl) Hw Hlen W. unfold MAXOPBLOCKS in Hlen.
  set (C := fun D' => recovers start D D' \/ recovers start W D').
  assert (HCD : C D).
  { left. split; [by apply header_ok_empty|]. intros k _. by apply recovered_empty. }
  unfold transaction. fs_step. eapply (v_begin_op fuel R C me pid start dev Hstart); [done|done| |].
  { rewrite (lo_n _ _ _ _ Hlo), Hout, LOGBLOCKS_val. unfold MAXOPBLOCKS. simpl. lia. }
  intros f1 Hv1. fs_step. eapply (v_write_blocks fuel R C me pid start dev Hstart);
    [exact Hv1|by destruct Hlo| |done|done|rewrite LOGBLOCKS_val; simpl; lia|simpl; lia|].
  { split; [done|]. intros k. split; [set_solver|done]. }
  intros P2 lg2 ks f2 Hlo2 Hks (Ho2 & Hc2 & Hn2 & Hx2) Hp2 Hv2. fold W in Hv2.
  assert (Hsz : (length ks < LOGBLOCKS)%nat).
  { eapply Nat.le_lt_trans with (length (map (fun w : Z * (list Z -> list Z) => w.1) ws));
      [|rewrite length_map, LOGBLOCKS_val; lia].
    apply submseteq_length, NoDup_submseteq; [apply Hlo2|]. intros k Hk%Hks. set_solver. }
  eapply fsp_mono.
  { apply (v_end_op W D P2 lg2 ks f2); try done; [|by rewrite Ho2; simpl; lia|by rewrite Hc2].
    intros k Hk. apply apply_writes_out. rewrite Hks in Hk. set_solver. }
  intros [] L f3 (-> & D' & lg' & Hq & Hn & _ & HD). split; [done|]. exists D', lg'. split_and!; try done.
  by rewrite Hn, Hn2.
Qed.

End Transaction.
