(* ===== verification/Pipe.v ===== *)
(** * [kernel/pipe.c]: pipes

    A pipe lives in a page of its own: the code reads and writes its fields in
    physical memory.  [LAddr pi] is its spin lock, [ChAddr a] the sleep channel
    that is the address [a].  [pipealloc] is with the file table it takes its
    files from ([File.v]). *)

From stdpp Require Import base list gmap strings.
From Stdlib Require Import ZArith Lia.
From S2P Require Import Prelude KernelBase PhysMem Kalloc Proc.

Open Scope Z_scope.

Definition PIPESIZE : Z := 512.

(** ** [struct pipe]

    Offsets: the spin lock takes 24 bytes, an [int], a name and a pointer. *)

Definition pi_data (pi : Z) : Z := pi + 24.

Definition pi_nread (pi : Z) : Z := pi_data pi + PIPESIZE.

Definition pi_nwrite (pi : Z) : Z := pi_nread pi + 4.

Definition pi_readopen (pi : Z) : Z := pi_nwrite pi + 4.

Definition pi_writeopen (pi : Z) : Z := pi_readopen pi + 4.

Section Pipe.

Context {mem : Type} {cfg : config} {svc : services mem} {sym : symbols} {hpm : has_pmem mem}.

Definition pipeclose (pi writable : Z) : M mem unit :=
  acquire (LAddr pi) ;;
  (if negb (writable =? 0) then
     run_mm (store32 (pi_writeopen pi) 0) ;;
     wakeup (ChAddr (pi_nread pi))
   else
     run_mm (store32 (pi_readopen pi) 0) ;;
     wakeup (ChAddr (pi_nwrite pi))) ;;
  let* readopen := run_mm (load32 (pi_readopen pi)) in
  let* writeopen := run_mm (load32 (pi_writeopen pi)) in
  if ((readopen =? 0) && (writeopen =? 0))%bool then
    release (LAddr pi) ;;
    mem_do (kfree pi)
  else release (LAddr pi).

(** The loop of [pipewrite] from byte [i] on, [fuel] rounds of it: [inl] is an
    early return, the lock released, [inr] the value of [i] after the loop. *)
Fixpoint pipewrite_loop (fuel : nat) (pi : Z) (pr : nat) (addr n i : Z) : M mem (Z + Z) :=
  if i <? n then
    match fuel with
    | O => fun _ => OutOfFuel
    | S fuel' =>
        let* readopen := run_mm (load32 (pi_readopen pi)) in
        let* stop := (if readopen =? 0 then ret true else let* k := killed pr in ret (negb (k =? 0))) in
        if stop then
          release (LAddr pi) ;;
          ret (inl (-1))
        else
        let* nwrite := run_mm (load32 (pi_nwrite pi)) in
        let* nread := run_mm (load32 (pi_nread pi)) in
        if nwrite =? u32 (nread + PIPESIZE) then
          wakeup (ChAddr (pi_nread pi)) ;;
          sleep_prepare (ChAddr (pi_nwrite pi)) ;;
          release (LAddr pi) ;;
          sleep ;;
          acquire (LAddr pi) ;;
          pipewrite_loop fuel' pi pr addr n i
        else
          let* p := getp pr in
          let* r := mem_op (copyin (p_pagetable p) (p_sz p) (u64 (addr + i)) 1) in
          if r.1 =? -1 then ret (inr (if i =? 0 then -1 else i)) else
          match r.2 with
          | ch :: _ =>
              let* nwrite := run_mm (load32 (pi_nwrite pi)) in
              run_mm (store8 (pi_data pi + nwrite mod PIPESIZE) ch) ;;
              run_mm (store32 (pi_nwrite pi) (u32 (nwrite + 1))) ;;
              pipewrite_loop fuel' pi pr addr n (i + 1)
          | [] => undefined
          end
    end
  else ret (inr i).

(** [fuel] bounds how often the writer waits. *)
Definition pipewrite (fuel : nat) (pi addr n : Z) : M mem Z :=
  let* pr := curproc in
  acquire (LAddr pi) ;;
  let* r := pipewrite_loop (fuel + Z.to_nat n) pi pr addr n 0 in
  match r with
  | inl r => ret r
  | inr i =>
      wakeup (ChAddr (pi_nread pi)) ;;
      release (LAddr pi) ;;
      ret i
  end.

(** The first loop of [piperead]; [false] is the early return. *)
Fixpoint piperead_wait (fuel : nat) (pi : Z) (pr : nat) : M mem bool :=
  let* nread := run_mm (load32 (pi_nread pi)) in
  let* nwrite := run_mm (load32 (pi_nwrite pi)) in
  let* empty := (if nread =? nwrite then let* w := run_mm (load32 (pi_writeopen pi)) in ret (negb (w =? 0)) else ret false) in
  if (empty : bool) then
    match fuel with
    | O => fun _ => OutOfFuel
    | S fuel' =>
        let* k := killed pr in
        if negb (k =? 0) then
          release (LAddr pi) ;;
          ret false
        else
        sleep_prepare (ChAddr (pi_nread pi)) ;;
        release (LAddr pi) ;;
        sleep ;;
        acquire (LAddr pi) ;;
        piperead_wait fuel' pi pr
    end
  else ret true.

(** The second; [k] is the number of rounds left, [n - i]. *)
Fixpoint piperead_copy (k : nat) (pi : Z) (pr : nat) (addr i : Z) : M mem Z :=
  match k with
  | O => ret i
  | S k' =>
      let* nread := run_mm (load32 (pi_nread pi)) in
      let* nwrite := run_mm (load32 (pi_nwrite pi)) in
      if nread =? nwrite then ret i else
      let* ch := run_mm (load8 (pi_data pi + nread mod PIPESIZE)) in
      let* p := getp pr in
      let* r := mem_op (copyout (p_pagetable p) (p_sz p) (u64 (addr + i)) [ch]) in
      if r =? -1 then ret (if i =? 0 then -1 else i) else
      let* nread := run_mm (load32 (pi_nread pi)) in
      run_mm (store32 (pi_nread pi) (u32 (nread + 1))) ;;
      piperead_copy k' pi pr addr (i + 1)
  end.

Definition piperead (fuel : nat) (pi addr n : Z) : M mem Z :=
  let* pr := curproc in
  acquire (LAddr pi) ;;
  let* go := piperead_wait fuel pi pr in
  if go then
    let* i := piperead_copy (Z.to_nat n) pi pr addr 0 in
    wakeup (ChAddr (pi_nwrite pi)) ;;
    release (LAddr pi) ;;
    ret i
  else ret (-1).

End Pipe.
