(* ===== verification/PipeFacts.v ===== *)
(** * Pipes are bounded queues

    The ring buffer of [pipe.c] as a queue of bytes, and what [pipewrite] and
    [piperead] do to it while other processes read and write it. *)

From stdpp Require Import base list gmap strings.
From Stdlib Require Import ZArith Lia.
From S2P Require Import Prelude KernelBase PhysMem Kalloc Vm VmFacts VmMaps VmUser VmCopy Proc VmServices KernelLoops ProcFacts Pipe.

Open Scope Z_scope.

(** ** The ring *)

(** The pipe at [pi] holds the bytes [q]; its ends are open when [ro] and [wo]
    are not 0. *)
Record pipe_at (r : bytes) (pi : Z) (q : list Z) (ro wo : Z) : Prop := {
  pa_nread : 0 <= ldn 4 r (pi_nread pi) < 2 ^ 32;
  pa_nwrite : ldn 4 r (pi_nwrite pi) = u32 (ldn 4 r (pi_nread pi) + Z.of_nat (length q));
  pa_room : Z.of_nat (length q) <= PIPESIZE;
  pa_data k b : q !! k = Some b -> r (pi_data pi + (ldn 4 r (pi_nread pi) + Z.of_nat k) mod PIPESIZE) = b;
  pa_ro : ldn 4 r (pi_readopen pi) = ro;
  pa_wo : ldn 4 r (pi_writeopen pi) = wo
}.

(** [r'] agrees with [r] on the [struct pipe] at [pi]. *)
Definition same_pipe (pi : Z) (r r' : bytes) : Prop := forall a, pi <= a < pi + 552 -> r' a = r a.

Lemma ring_index n k : u32 (n + k) mod PIPESIZE = (n + k) mod PIPESIZE.
Proof. apply Z.mod_mod_divide. by exists (2 ^ 23). Qed.

Lemma ring_apart n k l : 0 <= k < l -> l < k + PIPESIZE -> (n + k) mod PIPESIZE <> (n + l) mod PIPESIZE.
Proof.
  unfold PIPESIZE. intros Hk Hl E. pose proof (Z.div_mod (n + k) 512 ltac:(lia)). pose proof (Z.div_mod (n + l) 512 ltac:(lia)). lia.
Qed.

Lemma data_range pi k : pi + 24 <= pi_data pi + k mod PIPESIZE < pi + 536.
Proof. unfold pi_data. pose proof (Z.mod_pos_bound k PIPESIZE ltac:(done)). unfold PIPESIZE in *. lia. Qed.

Lemma put32_ne r a b v : b + 4 <= a \/ a + 4 <= b -> ldn 4 (put r a 4 (byte_of v)) b = ldn 4 r b.
Proof. intros H. apply ldn_ext. intros x Hx. apply put_out. lia. Qed.

Lemma put32_eq r a v : 0 <= v < 2 ^ 32 -> ldn 4 (put r a 4 (byte_of v)) a = v.
Proof.
  intros H. rewrite (ldn_bytes 4 v); [by apply Z.mod_small|]. intros x Hx. by rewrite put_in by lia.
Qed.

Lemma put8_word r a v b : a < b \/ b + 4 <= a -> ldn 4 (put r a 1 (fun _ => v)) b = ldn 4 r b.
Proof. intros H. apply ldn_ext. intros x Hx. apply put_out. lia. Qed.

Lemma pipe_at_same r r' pi q ro wo : same_pipe pi r r' -> pipe_at r pi q ro wo -> pipe_at r' pi q ro wo.
Proof.
  intros Hs [H1 H2 H3 H4 H5 H6]. unfold pi_writeopen, pi_readopen, pi_nwrite, pi_nread, pi_data, PIPESIZE in *.
  assert (Hw : forall a, pi + 536 <= a <= pi + 548 -> ldn 4 r' a = ldn 4 r a).
  { intros a Ha. apply ldn_ext. intros x Hx. apply Hs. lia. }
  split; unfold pi_writeopen, pi_readopen, pi_nwrite, pi_nread, pi_data, PIPESIZE; rewrite ?Hw by lia; try done.
  intros k b Hk. rewrite Hs; [by apply H4|].
  pose proof (data_range pi (ldn 4 r (pi + 24 + 512) + Z.of_nat k)) as Hd. unfold pi_writeopen, pi_readopen, pi_nwrite, pi_nread, pi_data, PIPESIZE in Hd. lia.
Qed.

(** The tests of the code. *)
Lemma pipe_empty r pi q ro wo : pipe_at r pi q ro wo ->
  (ldn 4 r (pi_nread pi) =? ldn 4 r (pi_nwrite pi)) = bool_decide (q = []).
Proof.
  intros [H1 H2 H3 _ _ _]. rewrite H2. unfold u32, PIPESIZE in *. destruct q as [|b q].
  - rewrite bool_decide_true by done. rewrite Z.add_0_r, Z.mod_small by done. apply Z.eqb_refl.
  - rewrite bool_decide_false by done. apply Z.eqb_neq. cbn [length] in *. intros E.
    pose proof (Z.div_mod (ldn 4 r (pi_nread pi) + Z.of_nat (S (length q))) (2 ^ 32) ltac:(lia)). lia.
Qed.

Lemma pipe_full r pi q ro wo : pipe_at r pi q ro wo ->
  (ldn 4 r (pi_nwrite pi) =? u32 (ldn 4 r (pi_nread pi) + PIPESIZE)) = (Z.of_nat (length q) =? PIPESIZE).
Proof.
  intros [H1 H2 H3 _ _ _]. rewrite H2. destruct (Z.eqb_spec (Z.of_nat (length q)) PIPESIZE) as [E|E]; [rewrite E; apply Z.eqb_refl|].
  apply Z.eqb_neq. unfold u32, PIPESIZE in *. intros E'.
  pose proof (Z.div_mod (ldn 4 r (pi_nread pi) + Z.of_nat (length q)) (2 ^ 32) ltac:(lia)).
  pose proof (Z.div_mod (ldn 4 r (pi_nread pi) + 512) (2 ^ 32) ltac:(lia)). lia.
Qed.

(** A byte is stored behind the last one. *)
Definition pushed (r : bytes) (pi b : Z) : bytes :=
  let nwrite := ldn 4 r (pi_nwrite pi) in
  put (put r (pi_data pi + nwrite mod PIPESIZE) 1 (fun _ => b)) (pi_nwrite pi) 4 (byte_of (u32 (nwrite + 1))).

Lemma pipe_push r pi q ro wo b : pipe_at r pi q ro wo -> Z.of_nat (length q) < PIPESIZE ->
  pipe_at (pushed r pi b) pi (q ++ [b]) ro wo.
Proof.
  intros [H1 H2 H3 H4 H5 H6] Hlt. unfold pushed. set (nw := ldn 4 r (pi_nwrite pi)) in *. set (nr := ldn 4 r (pi_nread pi)) in *.
  pose proof (data_range pi nw) as Hd. pose proof (u32_range (nw + 1)) as Hu.
  set (d := pi_data pi + nw mod PIPESIZE) in *.
  assert (Hw : forall a, pi + 536 <= a -> a <> pi_nwrite pi -> (a + 4 <= pi_nwrite pi \/ pi_nwrite pi + 4 <= a) ->
    ldn 4 (put (put r d 1 (fun _ => b)) (pi_nwrite pi) 4 (byte_of (u32 (nw + 1)))) a = ldn 4 r a).
  { intros a Ha _ Hap. rewrite put32_ne by lia. apply put8_word. lia. }
  assert (Hnr : ldn 4 (put (put r d 1 (fun _ => b)) (pi_nwrite pi) 4 (byte_of (u32 (nw + 1)))) (pi_nread pi) = nr).
  { apply Hw; unfold pi_writeopen, pi_readopen, pi_nwrite, pi_nread, pi_data, PIPESIZE; lia. }
  split; rewrite ?Hnr; rewrite ?length_app; cbn [length].
  - done.
  - rewrite put32_eq by done. rewrite H2. unfold u32. rewrite Z.add_mod_idemp_l by lia. f_equal. lia.
  - lia.
  - intros k c Hk. pose proof (data_range pi (nr + Z.of_nat k)) as Hdk.
    rewrite put_out by (unfold pi_writeopen, pi_readopen, pi_nwrite, pi_nread, pi_data, PIPESIZE in *; lia).
    destruct (decide (k < length q)%nat) as [Hkl|Hkl].
    + rewrite lookup_app_l in Hk by done. rewrite put_out; [by apply H4|]. unfold d. rewrite H2, ring_index.
      pose proof (ring_apart nr (Z.of_nat k) (Z.of_nat (length q)) ltac:(lia) ltac:(lia)). lia.
    + assert (k = length q) as ->.
      { apply lookup_lt_Some in Hk. rewrite length_app in Hk. simpl in Hk. lia. }
      rewrite lookup_app_r, Nat.sub_diag in Hk by lia. injection Hk as <-. rewrite put_in; [done|].
      unfold d. rewrite H2, ring_index. lia.
  - rewrite Hw; [done|unfold pi_writeopen, pi_readopen, pi_nwrite, pi_nread, pi_data, PIPESIZE; lia..].
  - rewrite Hw; [done|unfold pi_writeopen, pi_readopen, pi_nwrite, pi_nread, pi_data, PIPESIZE; lia..].
Qed.

(** The first byte is taken. *)
Lemma pipe_front r pi b q ro wo : pipe_at r pi (b :: q) ro wo -> r (pi_data pi + ldn 4 r (pi_nread pi) mod PIPESIZE) = b.
Proof. intros [_ _ _ H4 _ _]. specialize (H4 0%nat b eq_refl). by rewrite Z.add_0_r in H4. Qed.

Definition popped (r : bytes) (pi : Z) : bytes := put r (pi_nread pi) 4 (byte_of (u32 (ldn 4 r (pi_nread pi) + 1))).

Lemma pipe_pop r pi b q ro wo : pipe_at r pi (b :: q) ro wo -> pipe_at (popped r pi) pi q ro wo.
Proof.
  intros [H1 H2 H3 H4 H5 H6]. unfold popped. set (nr := ldn 4 r (pi_nread pi)) in *. pose proof (u32_range (nr + 1)) as Hu.
  assert (Hnr : ldn 4 (put r (pi_nread pi) 4 (byte_of (u32 (nr + 1)))) (pi_nread pi) = u32 (nr + 1)) by (by apply put32_eq).
  cbn [length] in *. split; rewrite ?Hnr.
  - done.
  - rewrite put32_ne by (unfold pi_nwrite; lia). rewrite H2. unfold u32. rewrite Z.add_mod_idemp_l by lia. f_equal. lia.
  - lia.
  - intros k c Hk. replace ((u32 (nr + 1) + Z.of_nat k) mod PIPESIZE) with ((nr + 1 + Z.of_nat k) mod PIPESIZE)
      by (symmetry; rewrite <- (Z.add_mod_idemp_l (u32 (nr + 1))), ring_index, Z.add_mod_idemp_l by done; done).
    pose proof (data_range pi (nr + 1 + Z.of_nat k)) as Hd.
    rewrite put_out by (unfold pi_writeopen, pi_readopen, pi_nwrite, pi_nread, pi_data, PIPESIZE in *; lia).
    specialize (H4 (S k) c Hk). rewrite <- H4. do 3 f_equal. lia.
  - by rewrite put32_ne by (unfold pi_writeopen, pi_readopen, pi_nwrite, pi_nread, pi_data, PIPESIZE; lia).
  - by rewrite put32_ne by (unfold pi_writeopen, pi_readopen, pi_nwrite, pi_nread, pi_data, PIPESIZE; lia).
Qed.

(** ** The memory of a process beside a pipe *)

Section User.

Context {lay : layout}.

(** The process with page table [root] sees the bytes [u]; the page [pi] belongs
    neither to it nor to the free pages. *)
Definition umem (m : pmem) (root pi : Z) (u : Z -> Z) : Prop :=
  page_ok pi /\ exists T D l, aspace m root T D l /\ (forall va, view m D va = u va) /\ ~ part T D l pi.

Lemma page_pipe pi a : page_ok pi -> pi <= a < pi + 552 -> PGROUNDDOWN a = pi.
Proof. intros [H _] Ha. apply PGROUNDDOWN_unique; [done|]. rewrite PGSIZE_val. lia. Qed.

Lemma touches_pipe T D l pi r r' : page_ok pi -> ~ part T D l pi -> touches (part T D l) r r' -> same_pipe pi r r'.
Proof. intros Hp Hn Ht a Ha. apply Ht. by rewrite (page_pipe pi a). Qed.

Lemma umem_copyin m root pi u psz va :
  umem m root pi u -> psz <= TRAPFRAME -> 0 <= va ->
  mwp (Vm.copyin root psz va 1) m (fun r m' => umem m' root pi u /\ same_pipe pi (ram m) (ram m') /\
    (r = (0, [u va]) \/ r.1 = -1)).
Proof.
  intros (Hp & T & D & l & Has & Hv & Hn) Hpsz Hva.
  eapply mwp_mono; [apply (copyin_loop_spec _ root psz Hpsz m T D l va 1 [] Has Hva); done|].
  intros r m' (T' & D' & l' & Has' & Hus & Hview & Hr). split_and!.
  - split; [done|]. exists T', D', l'. split_and!; [done|intros a; by rewrite Hview|]. by rewrite <- (us_pages _ _ _ _ _ _ _ _ Hus pi).
  - eapply touches_pipe; [done|exact Hn|apply Hus].
  - destruct Hr as [->|(Hr & _)]; [left|by right]. simpl. by rewrite Hv.
Qed.

Lemma umem_copyout m root pi u psz va b :
  umem m root pi u -> psz <= TRAPFRAME -> 0 <= va ->
  mwp (Vm.copyout root psz va [b]) m (fun r m' => same_pipe pi (ram m) (ram m') /\
    ((r = 0 /\ umem m' root pi (wr u va [b])) \/ (r = -1 /\ umem m' root pi u))).
Proof.
  intros (Hp & T & D & l & Has & Hv & Hn) Hpsz Hva.
  eapply mwp_mono; [apply (copyout_loop_spec _ root psz Hpsz m T D l va [b] Has Hva); done|].
  intros r m' (T' & D' & l' & k & Has' & Hus & Hview & Hr). split; [eapply touches_pipe; [done|exact Hn|apply Hus]|].
  assert (Hu : umem m' root pi (wr u va (take k [b]))).
  { split; [done|]. exists T', D', l'. split_and!; [done| |by rewrite <- (us_pages _ _ _ _ _ _ _ _ Hus pi)].
    intros a. rewrite Hview. by apply wr_ext. }
  destruct Hr as [(-> & -> & _)|(-> & Hk & _)]; [by left|right]. split; [done|].
  destruct k as [|k]; [|simpl in Hk; lia]. destruct Hu as (_ & T2 & D2 & l2 & H1 & H2 & H3). split; [done|].
  exists T2, D2, l2. split_and!; [done|intros a; by rewrite H2, wr_nil|done].
Qed.

Lemma umem_write m root pi u r' : umem m root pi u -> touches (eq pi) (ram m) r' -> umem (set_ram r' m) root pi u.
Proof.
  intros (Hp & T & D & l & Has & Hv & Hn) Ht. split; [done|]. exists T, D, l. split_and!; [|intros va|done].
  - eapply aspace_touches; [done|exact Ht|]. intros p Hpt ->. apply Hn. unfold part. tauto.
  - rewrite <- Hv. unfold view. destruct (D !! vpn va) as [p|] eqn:E; [|done].
    destruct (asp_leaf _ _ _ _ (as_asp _ _ _ _ _ Has) _ _ E) as (_ & _ & [Hpp _]). pose proof (off_range va).
    eapply (touches_page (eq pi)); [exact Ht|exact Hpp| |lia]. intros ->. apply Hn. right. right. by eexists.
Qed.

Lemma touches_put_pipe pi r a n f : page_ok pi -> pi <= a -> a + n <= pi + 552 -> touches (eq pi) r (put r a n f).
Proof.
  intros Hp H1 H2 x Hx. apply put_out. intros Hax. apply Hx. symmetry. apply page_pipe; [done|lia].
Qed.

End User.

(** ** A logic for code that waits

    [wpg w H Q r]: the run [r] of a thread returns with [Q], or leaves the hart
    in a state in [P] and goes on so after whatever the others do in [R].  [R]
    and [Q] speak of the bytes the others have moved: [H] are those so far.  The
    run is followed up to the [w]-th time it leaves the hart; until then it
    neither panics, faults, deadlocks nor runs out of fuel. *)

Section Wpg.

Context {mem : Type}.
Variable P : kst mem -> Prop.
Variable R : list Z -> kst mem -> kst mem -> Prop.

Fixpoint wpg {A} (w : nat) (H : list Z) (Q : list Z -> A -> kst mem -> Prop) (r : run mem A) {struct r} : Prop :=
  match r with
  | Done a s => Q H a s
  | Switch s k => P s /\ match w with O => True | S w' => forall t s', R t s s' -> wpg w' (H ++ t) Q (k s') end
  | _ => False
  end.

Lemma wpg_wp {A} w H Q (m : M mem A) s : wp m s (Q H) -> wpg w H Q (m s).
Proof. unfold wp. by destruct (m s). Qed.

(** A step that returns, and then the rest. *)
Lemma wpg_step {A B} w H Q (m : M mem A) (k : A -> M mem B) s :
  wp m s (fun a s' => wpg w H Q (k a s')) -> wpg w H Q (bind m k s).
Proof. unfold wp, bind. by destruct (m s). Qed.

Lemma wpg_assoc {A B C} w H Q (m : M mem A) (f : A -> M mem B) (g : B -> M mem C) s :
  wpg w H Q (bind m (fun a => bind (f a) g) s) -> wpg w H Q (bind (bind m f) g s).
Proof.
  unfold bind. generalize (m s). intros r. revert w H. induction r as [a t| | | | |t k IH]; intros w H Hr; [exact Hr|done..|].
  simpl in *. destruct Hr as [H1 H2]. split; [done|]. destruct w as [|w]; [done|]. intros u t' Ht. by apply IH, H2.
Qed.

Lemma wpg_mono {A} w H (Q Q' : list Z -> A -> kst mem -> Prop) r :
  wpg w H Q r -> (forall H a s, Q H a s -> Q' H a s) -> wpg w H Q' r.
Proof.
  intros Hr HQ. revert w H Hr. induction r as [a t| | | | |t k IH]; intros w H Hr; try done; [by apply HQ|].
  simpl in *. destruct Hr as [H1 H2]. split; [done|]. destruct w as [|w]; [done|]. intros u t' Ht. by apply IH, H2.
Qed.

End Wpg.

(** ** A thread at a pipe *)

(** What the pipe holds, its two ends, and the memory of the process. *)
Record pview := mkpview { v_q : list Z; v_ro : Z; v_wo : Z; v_user : Z -> Z }.

Section Thread.

Context {lay : layout} {mem : Type} {cfg : config} {sym : symbols} {hpm : has_pmem mem} {fsv : file_services mem}.
Variable me : nat.
Variable pi root psz : Z.
Hypothesis Hpsz : psz <= TRAPFRAME.
Implicit Types (s : kst mem) (x : pview).

Definition ram_of s : bytes := ram (pm_of (k_mem s)).

Record thread x s : Prop := {
  th_len : length (k_procs s) = NPROC;
  th_me : exists p, k_procs s !! me = Some p /\ p_pagetable p = root /\ p_sz p = psz;
  th_pipe : pipe_at (ram_of s) pi (v_q x) (v_ro x) (v_wo x);
  th_user : umem (pm_of (k_mem s)) root pi (v_user x)
}.

(** No lock of the process table or of the pipe is held. *)
Definition calm (h : hw) : Prop :=
  hw_ok h /\ c_noff (hw_cpu h) = 0 /\ c_proc (hw_cpu h) = Some me /\ procs_free h /\ free h LSeq /\ free h (LAddr pi).

(** The thread runs; it holds the lock of the pipe, or no lock. *)
Definition locked x s : Prop := thread x s /\ exists h, calm h /\ k_hw s = hw_acq (LAddr pi) h.

Definition unlocked_at x s : Prop := thread x s /\ calm (k_hw s).

(** It comes back after the others took the step [step]. *)
Definition resumed (step : list Z -> pview -> pview -> Prop) (t : list Z) s s' : Prop :=
  forall x, thread x s -> exists x', thread x' s' /\ step t x x' /\ exists h, k_hw s' = hw_acq (LProc me) h /\ calm h.

Lemma me_lt x s : thread x s -> (me < NPROC)%nat.
Proof. intros [Hl (p & Hp & _) _ _]. rewrite <- Hl. by eapply lookup_lt_Some. Qed.

Lemma calm_cyc h : calm h -> calm (hw_cyc h).
Proof. intros (H1 & H2 & H3 & H4 & H5 & H6). split_and!; auto with locks. Qed.

Lemma locked_cyc x s : locked x s -> set_k_hw (hw_cyc (k_hw s)) s = s.
Proof. intros (_ & h & Hh & E). rewrite E, hw_cyc_acq, <- E by apply Hh. apply set_hw_id. Qed.

Lemma locked_free x s l : locked x s -> (exists i, l = LProc i /\ (i < NPROC)%nat) \/ l = LSeq -> free (k_hw s) l.
Proof.
  intros (_ & h & (_ & _ & _ & H4 & H5 & _) & ->) [(i & -> & Hi)| ->]; apply free_acq; try done. by apply H4.
Qed.

Lemma locked_ok x s : locked x s -> hw_ok (k_hw s) /\ c_proc (hw_cpu (k_hw s)) = Some me.
Proof. intros (_ & h & Hh & ->). split; [apply hw_ok_acq, Hh|apply Hh]. Qed.

(** The thread after a change of memory. *)
Lemma thread_mem x x' s m : thread x s -> pipe_at (ram m) pi (v_q x') (v_ro x') (v_wo x') -> umem m root pi (v_user x') ->
  thread x' (set_k_mem (with_pm m (k_mem s)) s).
Proof. intros [H1 H2 _ _] Hp Hu. split; unfold ram_of; kred; rewrite ?pm_of_with; done. Qed.

Lemma thread_id s : set_k_mem (with_pm (pm_of (k_mem s)) (k_mem s)) s = s.
Proof. rewrite with_pm_of. by destruct s. Qed.

Lemma field_in_ram x s a n : thread x s -> pi <= a -> a + n <= pi + 552 -> in_ram a n = true.
Proof. intros [_ _ _ [Hp _]] H1 H2. eapply page_in_ram; [exact Hp|done|]. rewrite PGSIZE_val. lia. Qed.

Lemma wp_run {A} (c : MM A) s (Q : A -> kst mem -> Prop) :
  mwp c (pm_of (k_mem s)) (fun a m => Q a (set_k_mem (with_pm m (k_mem s)) s)) -> wp (run_mm c) s Q.
Proof. intros (a & m & E & HQ)%mwp_Ok. unfold wp, run_mm. by rewrite E. Qed.

Lemma wp_ld32 x s a (Q : Z -> kst mem -> Prop) : thread x s -> pi <= a -> a + 4 <= pi + 552 ->
  Q (ldn 4 (ram_of s) a) s -> wp (run_mm (load32 a)) s Q.
Proof.
  intros Ht H1 H2 HQ. apply wp_run, mwp_load32; [by eapply field_in_ram|]. by rewrite thread_id.
Qed.

Lemma wp_killed i p s (Q : Z -> kst mem -> Prop) :
  k_procs s !! i = Some p -> hw_ok (k_hw s) -> free (k_hw s) (LProc i) ->
  Q (p_killed p) (set_k_hw (hw_cyc (k_hw s)) s) -> wp (killed i) s Q.
Proof. intros Hp Hok Hf HQ. unfold killed. wp_run. exact HQ. Qed.

Lemma wp_killed_me x s (Q : Z -> kst mem -> Prop) : locked x s -> (forall k, Q k s) -> wp (killed me) s Q.
Proof.
  intros Hl HQ. pose proof Hl as [Ht _]. destruct (th_me _ _ Ht) as (p & Hp & _). pose proof (locked_ok _ _ Hl) as [Hok _].
  eapply wp_killed; [done|done|eapply locked_free; [done|left; exists me; split; [done|by eapply me_lt]]|].
  rewrite (locked_cyc x) by done. apply HQ.
Qed.

(** [pi->readopen == 0 || killed(pr)] *)
Lemma wp_stop x s c (Q : bool -> kst mem -> Prop) : locked x s -> (forall b, Q b s) ->
  wp (if (c : bool) then ret true else let* k := killed me in ret (negb (k =? 0))) s Q.
Proof.
  intros Hl HQ. destruct c; [apply wp_ret, HQ|]. apply wp_bind. eapply wp_killed_me; [exact Hl|]. intros k. apply wp_ret, HQ.
Qed.

(** What a wakeup leaves of an entry. *)
Lemma wake1_keeps ch p g : p_pagetable (fst (wake1 ch p g)) = p_pagetable p /\ p_sz (fst (wake1 ch p g)) = p_sz p /\
  (ch <> ChNull -> p_chan (fst (wake1 ch p g)) <> ch).
Proof.
  unfold wake1, make_runnable. destruct (bool_decide_reflect (p_chan p = ch)) as [|Hne]; [|done].
  destruct (bool_decide (p_state p = SLEEPING)); [destruct SCHEDULER|]; (split_and!; [done|done|intros Hch; simpl; congruence]).
Qed.

(** After [wakeup] nobody waits on the channel. *)
Lemma wp_wakeup_locked ch x s (Q : unit -> kst mem -> Prop) : locked x s -> ch <> ChNull ->
  (forall s', locked x s' -> k_mem s' = k_mem s -> (forall i p, k_procs s' !! i = Some p -> p_chan p <> ch) -> Q tt s') ->
  wp (wakeup ch) s Q.
Proof.
  intros Hl Hch HQ. pose proof Hl as [Ht (h & Hh & E)]. pose proof (locked_ok _ _ Hl) as [Hok _].
  unfold wp. rewrite wakeup_spec; [|apply Ht|done| |eapply locked_free; [done|by right]].
  2: { intros i Hi. eapply locked_free; [done|]. left. eauto. }
  rewrite (locked_cyc x) by done. apply HQ; [| kred; done |].
  - split; [|exists h; done]. destruct Ht as [H1 (p & Hp & Hpt & Hsz) H3 H4]. split; kred; [by rewrite length_sweep| |exact H3|exact H4].
    rewrite (sweep_lookup _ _ _ me p Hp). eexists. split; [done|]. rewrite <- Hpt, <- Hsz.
    split; apply wake1_keeps.
  - intros i p. kred. destruct (k_procs s !! i) as [q|] eqn:Ei.
    + rewrite (sweep_lookup _ _ _ i q Ei). intros [= <-]. by apply wake1_keeps.
    + rewrite lookup_ge_None_2; [done|]. rewrite length_sweep. by apply lookup_ge_None_1.
Qed.

(** [sleep_prepare(ch); release(&pi->lock); sleep(); acquire(&pi->lock);] *)
Lemma wpg_park {A} (P : kst mem -> Prop) step w H (Q : list Z -> A -> kst mem -> Prop) ch x s (k : unit -> M mem A) :
  locked x s -> ch <> ChNull ->
  (forall s1, thread x s1 -> (forall i p, k_procs s1 !! i = Some p -> p_chan p = ch \/ k_procs s !! i = Some p) -> P s1) ->
  (forall w' t x' s', w = S w' -> locked x' s' -> step t x x' -> wpg P (resumed step) w' (H ++ t) Q (k tt s')) ->
  wpg P (resumed step) w H Q
    (bind (sleep_prepare ch) (fun _ => bind (release (LAddr pi)) (fun _ => bind sleep (fun _ => bind (acquire (LAddr pi)) k))) s).
Proof.
  intros Hl Hch HP HQ. pose proof Hl as [Ht (h & Hh & E)]. pose proof (locked_ok _ _ Hl) as [Hok Hc].
  pose proof (me_lt _ _ Ht) as Hme. destruct (th_me _ _ Ht) as (p & Hp & Hpt & Hsz).
  pose proof Hh as (Ho & Hn & Hcp & Hpf & Hsq & Hfl).
  apply wpg_step. unfold wp at 1. rewrite (sleep_prepare_spec me p) by (done || (eapply locked_free; [done|left; eauto])).
  rewrite (locked_cyc x) by done. set (s1 := set_k_procs _ s).
  assert (Ht1 : thread x s1).
  { destruct Ht as [H1 H2 H3 H4]. split; unfold s1; kred; [by rewrite length_insert| |exact H3|exact H4].
    exists (set_p_chan ch p). split; [by apply list_lookup_insert_eq; rewrite H1|done]. }
  apply wpg_step. eapply (wp_release _ h); [exact E|done|done|].
  set (s2 := set_k_hw (hw_cyc h) s1). assert (Ht2 : thread x s2) by (by destruct Ht1).
  destruct (sleep_switches me (set_p_chan ch p) s2) as (c & Es & Hback).
  { unfold s2, s1. kred. apply list_lookup_insert_eq. by rewrite (th_len _ _ Ht). }
  { split_and!; [done|by apply Hpf|done|done]. }
  { done. }
  unfold bind at 1. rewrite Es. cbn [run_bind wpg].
  assert (Ht3 : thread x (left_hart me (asleep (set_p_chan ch p)) s2)).
  { destruct Ht2 as [H1 _ H3 H4]. unfold left_hart, asleep. split; kred; [by rewrite length_insert| |exact H3|exact H4].
    eexists. split; [apply list_lookup_insert_eq; rewrite H1; done|]. by destruct SCHEDULER. }
  split.
  - apply HP; [done|]. intros i q. unfold left_hart, s2, s1. kred. rewrite list_insert_insert_eq.
    destruct (decide (i = me)) as [->|Hne]; [|rewrite list_lookup_insert_ne by done; by right].
    rewrite list_lookup_insert_eq by (by rewrite (th_len _ _ Ht)). intros [= <-]. left. unfold asleep. by destruct SCHEDULER.
  - destruct w as [|w]; [done|]. intros t s' Hres. destruct (Hres _ Ht3) as (x' & Ht' & Hst & h' & E' & Hh').
    pose proof Hh' as (Ho' & Hn' & Hcp' & Hpf' & Hsq' & Hfl').
    rewrite (Hback h' s' E' Ho' ltac:(by apply Hpf') Hn'). cbn [run_bind].
    apply wpg_step, wp_acquire; [done|]. eapply HQ; [done| |exact Hst]. split; [by destruct Ht'|].
    eexists. split; [|by kred]. by split_and!.
Qed.

(** ** Writing *)

(** The [k] bytes the process has at [addr]. *)
Definition ubytes (u : Z -> Z) (addr : Z) (k : nat) : list Z := map (fun j => u (u64 (addr + Z.of_nat j))) (seq 0 k).

Lemma ubytes_S u addr k : ubytes u addr (S k) = ubytes u addr k ++ [u (u64 (addr + Z.of_nat k))].
Proof. unfold ubytes. by rewrite seq_S, map_app. Qed.

(** While a writer waits, others take bytes from the front; it waits only when
    the pipe is full, and has woken the readers. *)
Definition taking (t : list Z) x x' : Prop := v_q x = t ++ v_q x' /\ v_user x' = v_user x.

Definition writer_waits s : Prop := exists x, thread x s /\ Z.of_nat (length (v_q x)) = PIPESIZE /\
  forall i p, k_procs s !! i = Some p -> p_chan p <> ChAddr (pi_nread pi).

Lemma wp_copyin1 x s va (Q : Z * list Z -> kst mem -> Prop) : locked x s -> 0 <= va ->
  (forall r s', locked x s' -> (r = (0, [v_user x va]) \/ r.1 = -1) -> Q r s') ->
  wp (mem_op (Proc.copyin root psz va 1)) s Q.
Proof.
  intros [Ht Hh] Hva HQ. rewrite (st_id s). apply wp_mm. eapply mwp_mono; [by eapply umem_copyin; [apply Ht| |]|].
  intros r m' (Hu & Hsame & Hr). apply HQ; [|done]. split; [|exact Hh].
  eapply thread_mem; [exact Ht| |exact Hu]. eapply pipe_at_same; [exact Hsame|apply Ht].
Qed.

(** The page of the pipe is changed to [r']. *)
Lemma locked_ram x x' s r' : locked x s -> touches (eq pi) (ram_of s) r' -> v_user x' = v_user x ->
  pipe_at r' pi (v_q x') (v_ro x') (v_wo x') ->
  locked x' (set_k_mem (with_pm (set_ram r' (pm_of (k_mem s))) (k_mem s)) s).
Proof.
  intros [Ht Hh] Htch Eu Hp. split; [|exact Hh]. eapply thread_mem; [exact Ht|exact Hp|]. rewrite Eu. apply umem_write; [apply Ht|done].
Qed.

Definition with_q (q : list Z) x : pview := mkpview q (v_ro x) (v_wo x) (v_user x).

(** [pi->data[pi->nwrite++ % PIPESIZE] = ch] *)
Lemma wpg_push {A} P R w H (Q : list Z -> A -> kst mem -> Prop) x s ch (k : unit -> M mem A) :
  locked x s -> Z.of_nat (length (v_q x)) < PIPESIZE ->
  (forall s', locked (with_q (v_q x ++ [ch]) x) s' -> wpg P R w H Q (k tt s')) ->
  wpg P R w H Q (bind (run_mm (load32 (pi_nwrite pi))) (fun nwrite =>
    bind (run_mm (store8 (pi_data pi + nwrite mod PIPESIZE) ch)) (fun _ =>
    bind (run_mm (store32 (pi_nwrite pi) (u32 (nwrite + 1)))) k)) s).
Proof.
  intros Hl Hlt HQ. pose proof Hl as [Ht Hh]. assert (Hpok : page_ok pi) by apply (th_user _ _ Ht).
  assert (Ho : pi_nwrite pi = pi + 540) by (unfold pi_nwrite, pi_nread, pi_data, PIPESIZE; lia).
  apply wpg_step. eapply wp_ld32; [exact Ht|lia|lia|].
  set (nw := ldn 4 (ram_of s) (pi_nwrite pi)). pose proof (data_range pi nw) as Hd.
  apply wpg_step, wp_run, mwp_store8; [eapply (field_in_ram _ _ _ _ Ht); lia|].
  apply wpg_step, wp_run, mwp_store32; [eapply (field_in_ram _ _ _ _ Ht); lia|]. kred. rewrite pm_of_with, with_with_pm. apply HQ.
  lazymatch goal with |- locked _ (set_k_mem (with_pm ?m _) _) => change m with (set_ram (pushed (ram_of s) pi ch) (pm_of (k_mem s))) end.
  eapply (locked_ram x (with_q _ x) s); [done| |done|by apply pipe_push; [apply Ht|]].
  unfold pushed. fold nw. eapply (touches_trans (eq pi) (eq pi) (eq pi) _ (put (ram_of s) (pi_data pi + nw mod PIPESIZE) 1 (fun _ => ch))); [apply (touches_put_pipe pi); [done|lia|lia]|apply (touches_put_pipe pi); [done|lia|lia]|done|done].
Qed.

(** [pi->nread++] *)
Lemma wpg_pop {A} P R w H (Q : list Z -> A -> kst mem -> Prop) x s b q (k : unit -> M mem A) :
  locked x s -> v_q x = b :: q ->
  (forall s', locked (with_q q x) s' -> wpg P R w H Q (k tt s')) ->
  wpg P R w H Q (bind (run_mm (load32 (pi_nread pi))) (fun nread =>
    bind (run_mm (store32 (pi_nread pi) (u32 (nread + 1)))) k) s).
Proof.
  intros Hl Hq HQ. pose proof Hl as [Ht Hh]. assert (Hpok : page_ok pi) by apply (th_user _ _ Ht).
  assert (Ho : pi_nread pi = pi + 536) by (unfold pi_nread, pi_data, PIPESIZE; lia).
  apply wpg_step. eapply wp_ld32; [exact Ht|lia|lia|].
  apply wpg_step, wp_run, mwp_store32; [eapply (field_in_ram _ _ _ _ Ht); lia|]. apply HQ.
  lazymatch goal with |- locked _ (set_k_mem (with_pm ?m _) _) => change m with (set_ram (popped (ram_of s) pi) (pm_of (k_mem s))) end.
  eapply (locked_ram x (with_q _ x) s); [done| |done|].
  2: { apply (pipe_pop _ _ b q). rewrite <- Hq. apply Ht. }
  apply (touches_put_pipe pi); [done|lia|lia].
Qed.

(** The state of a writer that has written [i] bytes: what the others took in
    the meantime and what is in the pipe is what was there and these bytes. *)
Definition writing (x0 : pview) (addr : Z) (i : nat) (H : list Z) x : Prop :=
  v_user x = v_user x0 /\ v_q x0 ++ ubytes (v_user x0) addr i = H ++ v_q x.

Lemma wpg_pipewrite_loop x0 addr n fuel w H i x s (Q : list Z -> Z + Z -> kst mem -> Prop) :
  0 <= n -> (i <= Z.to_nat n)%nat -> (w + (Z.to_nat n - i) <= fuel)%nat ->
  locked x s -> writing x0 addr i H x ->
  (forall H i x s, (i < Z.to_nat n)%nat -> unlocked_at x s -> writing x0 addr i H x -> Q H (inl (-1)) s) ->
  (forall H i x s, (i < Z.to_nat n)%nat -> locked x s -> writing x0 addr i H x -> Q H (inr (if Z.of_nat i =? 0 then -1 else Z.of_nat i)) s) ->
  (forall H x s, locked x s -> writing x0 addr (Z.to_nat n) H x -> Q H (inr n) s) ->
  wpg writer_waits (resumed taking) w H Q (pipewrite_loop fuel pi me addr n (Z.of_nat i) s).
Proof.
  intros Hn. revert w H i x s. induction fuel as [|fuel IH]; intros w H i x s Hi Hf Hl Hw HE HF HD; cbn [pipewrite_loop].
  { destruct (Z.ltb_spec (Z.of_nat i) n) as [Hlt|Hge]; [lia|]. apply wpg_wp, wp_ret.
    replace (Z.of_nat i) with n by lia. replace i with (Z.to_nat n) in Hw by lia. by apply (HD _ x). }
  destruct (Z.ltb_spec (Z.of_nat i) n) as [Hlt|Hge].
  2: { apply wpg_wp, wp_ret. replace (Z.of_nat i) with n by lia. replace i with (Z.to_nat n) in Hw by lia. by apply (HD _ x). }
  pose proof Hl as [Ht Hh].
  assert (Ho : pi_readopen pi = pi + 544 /\ pi_nwrite pi = pi + 540 /\ pi_nread pi = pi + 536)
    by (unfold pi_readopen, pi_nwrite, pi_nread, pi_data, PIPESIZE; lia).
  apply wpg_step. eapply wp_ld32; [exact Ht|lia|lia|]. apply wpg_step.
  eapply wp_stop; [exact Hl|].
  intros [|].
  { destruct Hh as (h & Hh & E). apply wpg_step. eapply (wp_release _ h); [exact E|apply Hh|apply Hh|].
    apply wpg_wp, wp_ret. apply (HE _ i x); [lia| |done]. split; [by destruct Ht|]. by apply calm_cyc. }
  apply wpg_step. eapply wp_ld32; [exact Ht|lia|lia|]. apply wpg_step. eapply wp_ld32; [exact Ht|lia|lia|].
  rewrite (pipe_full _ _ _ _ _ (th_pipe _ _ Ht)). destruct (Z.eqb_spec (Z.of_nat (length (v_q x))) PIPESIZE) as [Efull|Efull].
  - apply wpg_step. eapply wp_wakeup_locked; [exact Hl|done|]. intros s1 Hl1 _ Hno.
    eapply wpg_park; [exact Hl1|done| |].
    + intros s2 Ht2 Hk. exists x. split_and!; [done|done|]. intros j p Hj. destruct (Hk j p Hj) as [->|Hj']; [|by eapply Hno].
      intros [= ?]. lia.
    + intros w' t x' s' -> Hl' [Hq Hu]. apply (IH w' _ i x'); try done; [lia|]. destruct Hw as [Hw1 Hw2].
      split; [congruence|]. by rewrite Hw2, Hq, app_assoc.
  - destruct (th_me _ _ Ht) as (p & Hp & Hpt & Hsz). apply wpg_step. eapply wp_getp; [done|]. rewrite Hpt, Hsz.
    apply wpg_step. eapply wp_copyin1; [exact Hl|apply u64_range|]. intros r s1 Hl1 Hr.
    destruct Hr as [-> | ->]; cbn [fst snd].
    + change (0 =? -1) with false. cbn iota. eapply wpg_push; [exact Hl1|pose proof (pa_room _ _ _ _ _ (th_pipe _ _ Ht)); lia|].
      intros s2 Hl2. replace (Z.of_nat i + 1) with (Z.of_nat (S i)) by lia. eapply (IH w H (S i)); try done; [lia|lia|].
      destruct Hw as [Hw1 Hw2]. split; [done|]. cbn [v_q with_q]. by rewrite ubytes_S, app_assoc, Hw2, <- app_assoc, Hw1.
    + rewrite Z.eqb_refl. apply wpg_wp, wp_ret. by apply (HF _ i x); [lia| |].
Qed.

(** [struct proc *pr = myproc(); acquire(&pi->lock);] *)
Lemma wpg_enter {A} P R w H (Q : list Z -> A -> kst mem -> Prop) x s (k : nat -> M mem A) :
  unlocked_at x s -> (forall s', locked x s' -> wpg P R w H Q (k me s')) ->
  wpg P R w H Q (bind curproc (fun pr => bind (acquire (LAddr pi)) (fun _ => k pr)) s).
Proof.
  intros [Ht Hh] HQ. pose proof Hh as (Ho & _ & Hc & _). apply wpg_step, (wp_curproc me); [done|done|].
  apply wpg_step, wp_acquire; [by apply calm_cyc in Hh as (_ & _ & _ & _ & _ & Hf)|]. apply HQ.
  split; [by destruct Ht|]. eexists. split; [apply (calm_cyc _ Hh)|]. by kred.
Qed.

(** [wakeup(ch); release(&pi->lock); return r;] *)
Lemma wpg_leave {A} P R w H (Q : list Z -> A -> kst mem -> Prop) x s ch (r : A) :
  locked x s -> ch <> ChNull ->
  (forall s', unlocked_at x s' -> (forall i p, k_procs s' !! i = Some p -> p_chan p <> ch) -> Q H r s') ->
  wpg P R w H Q (bind (wakeup ch) (fun _ => bind (release (LAddr pi)) (fun _ => ret r)) s).
Proof.
  intros Hl Hch HQ. apply wpg_step. eapply wp_wakeup_locked; [exact Hl|done|]. intros s1 [Ht (h & Hh & E)] _ Hno.
  apply wpg_step. eapply (wp_release _ h); [exact E|apply Hh|apply Hh|]. apply wpg_wp, wp_ret, HQ; [|exact Hno].
  split; [by destruct Ht|by apply calm_cyc].
Qed.

(** Continuing after a call. *)
Lemma wpg_bind {A B} P R w H (Q : list Z -> B -> kst mem -> Prop) (m : M mem A) (k : A -> M mem B) s :
  wpg P R w H (fun H' a s' => forall w', wpg P R w' H' Q (k a s')) (m s) -> wpg P R w H Q (bind m k s).
Proof.
  unfold bind. generalize (m s). intros r. revert w H. induction r as [a t| | | | |t c IH]; intros w H Hr; [by apply Hr|done..|].
  simpl in *. destruct Hr as [H1 H2]. split; [done|]. destruct w as [|w]; [done|]. intros u t' Ht. by apply IH, H2.
Qed.

(** C0.  [pipewrite] appends. While the process waits for room, other
    processes take bytes out of the pipe, in any portions and as often as it
    has to wait. When the call returns, what they took, followed by what is
    then in the pipe, is what the pipe held before followed by the first [i]
    bytes at [addr] of the process: all [n] when it returns [n], the first [r]
    when it returns [r], which is when the process has no byte there, and fewer
    than [n] when it returns -1. It waits only while the pipe is full and after
    it has woken the readers, leaves the memory of the process alone, holds no
    lock at the end, and neither panics nor runs out of rounds before it has
    waited [w] times. *)
Theorem pipewrite_appends fuel w addr n x0 s :
  unlocked_at x0 s -> 0 <= n -> (w <= fuel)%nat ->
  wpg writer_waits (resumed taking) w [] (fun H r s' => exists x i, unlocked_at x s' /\ writing x0 addr i H x /\
      (r <> -1 -> forall j p, k_procs s' !! j = Some p -> p_chan p <> ChAddr (pi_nread pi)) /\
      ((r = n /\ i = Z.to_nat n) \/ (0 < r < n /\ i = Z.to_nat r) \/ (r = -1 /\ (i < Z.to_nat n)%nat)))
    (pipewrite fuel pi addr n s).
Proof.
  intros Hu Hn Hw. unfold pipewrite. eapply wpg_enter; [exact Hu|]. intros s1 Hl. apply wpg_bind.
  apply (wpg_pipewrite_loop x0 addr n _ w [] 0 x0); try done; [lia|lia|by split; [|rewrite app_nil_r]| | |].
  - intros H i x s2 Hi Hu2 Hwr w'. apply wpg_wp, wp_ret. exists x, i. split_and!; try done. auto.
  - intros H i x s2 Hi Hl2 Hwr w'. eapply wpg_leave; [exact Hl2|done|]. intros s3 Hu3 Hno. exists x, i. split_and!; try done.
    right. destruct (Z.eqb_spec (Z.of_nat i) 0); [right|left]; split; lia.
  - intros H x s2 Hl2 Hwr w'. eapply wpg_leave; [exact Hl2|done|]. intros s3 Hu3 Hno. exists x, (Z.to_nat n). split_and!; try done. auto.
Qed.

End Thread.
