(* ===== verification/Fs.v ===== *)
(** * [kernel/fs.c]: blocks, inodes, directories and paths

    All functions of [fs.c] on the log of [Log.v], with the on-disk formats of
    [kernel/fs.h], and [either_copyout] and [either_copyin] of [kernel/proc.c].

    A [struct inode *] is an index into [itable.inode] plus one; 0 is the null
    pointer.  A path or a name is the list of the bytes from the pointer to the end
    of the array it points into. *)

From stdpp Require Import base list gmap strings.
From Stdlib Require Import ZArith Lia.
From S2P Require Import Prelude KString KernelBase Proc FsBase FsLogic Bio Log.

Open Scope Z_scope.

(** ** The formats of [fs.h] *)

Definition ROOTINO : Z := 1.

Definition FSMAGIC : Z := 0x10203040.

Definition NDIRECT : Z := 12.

Definition NINDIRECT : Z := Z.of_nat BSIZE / 4.

Definition MAXFILE : Z := NDIRECT + NINDIRECT.

Definition T_DIR : Z := 1.

Definition T_FILE : Z := 2.

Definition T_DEVICE : Z := 3.

(** [sizeof(struct dinode)] *)
Definition dinode_size : Z := 64.

Definition IPB : Z := Z.of_nat BSIZE / dinode_size.

Definition IBLOCK (i inodestart : Z) : Z := u32 (i / IPB + inodestart).

Definition BPB : Z := Z.of_nat BSIZE * 8.

Definition BBLOCK (b bmapstart : Z) : Z := u32 (b / BPB + bmapstart).

Definition DIRSIZ : nat := 14.

(** [sizeof(struct dirent)] *)
Definition dirent_size : Z := 16.

(** The value of a 16-bit signed integer. *)
Definition i16 (z : Z) : Z := (z + 2 ^ 15) mod 2 ^ 16 - 2 ^ 15.

(** Integers in the bytes of a block. *)
Definition get_uint (l : list Z) (off : nat) : Z := u32 (le_val (take 4 (drop off l))).

Definition get_ushort (l : list Z) (off : nat) : Z := le_val (take 2 (drop off l)) mod 2 ^ 16.

Definition get_short (l : list Z) (off : nat) : Z := i16 (le_val (take 2 (drop off l))).

(** [struct dinode] *)
Record dinode := mkdinode {
  d_type : Z;
  d_major : Z;
  d_minor : Z;
  d_nlink : Z;
  d_size : Z;
  d_addrs : list Z
}.

(** The byte of [(struct dinode * )bp->data + inum % IPB]. *)
Definition dinode_off (inum : Z) : nat := Z.to_nat (inum mod IPB * dinode_size).

(** The [struct dinode] at byte [o] of a block. *)
Definition get_dinode (l : list Z) (o : nat) : dinode :=
  mkdinode (get_short l o) (get_short l (o + 2)) (get_short l (o + 4)) (get_short l (o + 6)) (get_uint l (o + 8))
    (map (fun j => get_uint l (o + 12 + 4 * j)) (seq 0 13)).

(** Its bytes when all fields are assigned. *)
Definition dinode_bytes (d : dinode) : list Z :=
  le_bytes 2 (d_type d) ++ le_bytes 2 (d_major d) ++ le_bytes 2 (d_minor d) ++ le_bytes 2 (d_nlink d) ++
  le_bytes 4 (d_size d) ++ flat_map (le_bytes 4) (d_addrs d).

(** [struct superblock] at the start of a block. *)
Definition get_superblock (l : list Z) : superblock :=
  mksuperblock (get_uint l 0) (get_uint l 4) (get_uint l 8) (get_uint l 12) (get_uint l 16) (get_uint l 20)
    (get_uint l 24) (get_uint l 28).

(** [struct dirent] *)
Definition de_inum (de : list Z) : Z := get_ushort de 0.

Definition de_name (de : list Z) : list Z := drop 2 de.

(** [struct stat] *)
Record stat := mkstat { st_dev : Z; st_ino : Z; st_type : Z; st_nlink : Z; st_size : Z }.

(** ** Names and paths *)

Definition namecmp (s t : list Z) : option Z := strncmp (s ++ t) 0 (length s) DIRSIZ.

(** ['/'] *)
Definition slash : Z := 47.

(** [while ( *path == '/') path++]; [None] past the end of the array. *)
Fixpoint skip_slashes (path : list Z) : option (list Z) :=
  match path with
  | [] => None
  | c :: path' => if c =? slash then skip_slashes path' else Some path
  end.

(** [while ( *path != '/' && *path != 0) path++]: how far, and the rest. *)
Fixpoint skip_name (path : list Z) (len : nat) : option (nat * list Z) :=
  match path with
  | [] => None
  | c :: path' => if (negb (c =? slash) && negb (c =? 0))%bool then skip_name path' (S len) else Some (len, path)
  end.

(** The result is the returned pointer and [name] afterwards; [Some None] is a
    null pointer. *)
Definition skipelem (path name : list Z) : option (option (list Z * list Z)) :=
  path ← skip_slashes path;
  c ← path !! 0%nat;
  if c =? 0 then Some None else
  let s := path in
  '(len, path) ← skip_name path 0;
  let name := if (DIRSIZ <=? len)%nat then splice name 0 (take DIRSIZ s)
              else splice name 0 (take len s ++ [0]) in
  path ← skip_slashes path;
  Some (Some (path, name)).

Section Fs.

Context {mem : Type} {cfg : config} {svc : services mem} {sym : symbols}.
Context {hfs : has_fs mem} {drv : disk_driver mem}.
Variable fuel : nat.

(** Changing the contents of a locked buffer. *)
Definition setdata (bp : nat) (g : list Z -> list Z) : M mem unit :=
  setb bp (fun x => set_b_data (g (b_data x)) x).

Definition getdata (bp : nat) : M mem (list Z) := let* x := getb bp in ret (b_data x).

Definition of_opt {A} (o : option A) : M mem A := match o with Some a => ret a | None => undefined end.

(** ** [either_copyout] and [either_copyin] *)

(** [src] are the bytes to copy.  [kb] is the kernel object [dst] is an offset
    into when [user_dst] is 0; the result has the object afterwards. *)
Definition either_copyout (kb : list Z) (user_dst dst : Z) (src : list Z) : M mem (Z * list Z) :=
  let* i := curproc in
  let* p := getp i in
  if negb (user_dst =? 0) then
    let* r := mem_op (copyout (p_pagetable p) (p_sz p) dst src) in
    ret (r, kb)
  else if (Z.to_nat dst + length src <=? length kb)%nat then ret (0, splice kb (Z.to_nat dst) src)
  else undefined.

(** The result has the bytes that were stored at the destination. *)
Definition either_copyin (kb : list Z) (user_src src len : Z) : M mem (Z * list Z) :=
  let* i := curproc in
  let* p := getp i in
  if negb (user_src =? 0) then mem_op (copyin (p_pagetable p) (p_sz p) src len)
  else if (Z.to_nat src + Z.to_nat len <=? length kb)%nat then ret (0, take (Z.to_nat len) (drop (Z.to_nat src) kb))
  else undefined.

(** ** Blocks *)

Definition readsb (dev : Z) : M mem unit :=
  let* bp := bread fuel (u32 dev) 1 in
  let* data := getdata bp in
  modfs (fun f => set_f_mem (set_m_sb (get_superblock data) (f_mem f)) f) ;;
  brelse bp.

Definition bzero (dev bno : Z) : M mem unit :=
  let* bp := bread fuel (u32 dev) (u32 bno) in
  setdata bp (fun _ => replicate BSIZE 0) ;;
  log_write bp ;;
  brelse bp.

(** The inner loop of [balloc]: the first clear bit from [bi] on is set. *)
Fixpoint balloc_bits (n bp : nat) (b bi : Z) : M mem (option Z) :=
  let* size := getsb sb_size in
  if ((bi <? BPB) && (u32 (b + bi) <? size))%bool then
    match n with
    | O => fun _ => OutOfFuel
    | S n' =>
        let m := Z.shiftl 1 (bi mod 8) in
        let* data := getdata bp in
        let* v := of_opt (data !! Z.to_nat (bi / 8)) in
        if Z.land v m =? 0 then
          setdata bp <[Z.to_nat (bi / 8) := Z.lor v m]> ;;
          ret (Some bi)
        else balloc_bits n' bp b (bi + 1)
    end
  else ret None.

Fixpoint balloc_loop (n : nat) (dev b : Z) : M mem Z :=
  let* size := getsb sb_size in
  if u32 b <? size then
    match n with
    | O => fun _ => OutOfFuel
    | S n' =>
        let* bmapstart := getsb sb_bmapstart in
        let* bp := bread fuel dev (BBLOCK b bmapstart) in
        let* r := balloc_bits (Z.to_nat BPB) bp b 0 in
        match r with
        | Some bi =>
            log_write bp ;;
            brelse bp ;;
            bzero dev (b + bi) ;;
            ret (u32 (b + bi))
        | None =>
            brelse bp ;;
            balloc_loop n' dev (b + BPB)
        end
    end
  else
    printk "balloc: out of blocks" [] ;;
    ret 0.

(** There are [size / BPB] whole bitmap blocks and one more. *)
Definition balloc (dev : Z) : M mem Z :=
  let* size := getsb sb_size in
  balloc_loop (Z.to_nat (size / BPB) + 1) dev 0.

Definition bfree (dev b : Z) : M mem unit :=
  let* bmapstart := getsb sb_bmapstart in
  let* bp := bread fuel (u32 dev) (BBLOCK b bmapstart) in
  let bi := b mod BPB in
  let m := Z.shiftl 1 (bi mod 8) in
  let* data := getdata bp in
  let* v := of_opt (data !! Z.to_nat (bi / 8)) in
  if Z.land v m =? 0 then panic "freeing free block" else
  setdata bp <[Z.to_nat (bi / 8) := Z.ldiff v m]> ;;
  log_write bp ;;
  brelse bp.

(** ** Inodes *)

(** Access through a [struct inode *]. *)
Definition iptr (i : nat) : Z := Z.of_nat i + 1.

Definition iidx (ip : Z) : nat := Z.to_nat (ip - 1).

Definition rdi (ip : Z) : M mem inode := if ip =? 0 then undefined else geti (iidx ip).

Definition wri (ip : Z) (g : inode -> inode) : M mem unit := if ip =? 0 then undefined else seti (iidx ip) g.

(** [&itable.inode[i].lock] *)
Definition inode_lock (i : nat) : slref mem :=
  mkslref mem (LInode i) (ChInode i) (let* x := geti i in ret (i_lock x))
    (fun g => seti i (fun x => set_i_lock (g (i_lock x)) x)).

(** [&ip->lock] *)
Definition ip_lock (ip : Z) : slref mem := inode_lock (iidx ip).

Fixpoint iinit_loop (n i : nat) : M mem unit :=
  match n with
  | O => ret tt
  | S n' => initsleeplock (inode_lock i) ;; iinit_loop n' (S i)
  end.

Definition iinit : M mem unit :=
  initlock LItable ;;
  iinit_loop NINODE 0.

(** The loop of [iget]: the entry of the inode, or the first empty one. *)
Fixpoint iget_scan (n i : nat) (dev inum : Z) (empty : option nat) : M mem (nat + option nat) :=
  match n with
  | O => ret (inr empty)
  | S n' =>
      let* x := geti i in
      if ((0 <? i_ref x) && (i_dev x =? dev) && (i_inum x =? inum))%bool then ret (inl i) else
      iget_scan n' (S i) dev inum
        (match empty with Some _ => empty | None => if i_ref x =? 0 then Some i else None end)
  end.

Definition iget (dev inum : Z) : M mem Z :=
  acquire LItable ;;
  let* r := iget_scan NINODE 0 dev inum None in
  match r with
  | inl i =>
      seti i (fun x => set_i_ref (i_ref x + 1) x) ;;
      release LItable ;;
      ret (iptr i)
  | inr None => panic "iget: no inodes"
  | inr (Some i) =>
      seti i (set_i_dev dev) ;;
      seti i (set_i_inum inum) ;;
      seti i (set_i_ref 1) ;;
      seti i (set_i_valid 0) ;;
      release LItable ;;
      ret (iptr i)
  end.

(** [bread(dev, IBLOCK(inum, sb))] *)
Definition bread_inode (dev inum : Z) : M mem nat :=
  let* inodestart := getsb sb_inodestart in
  bread fuel dev (IBLOCK inum inodestart).

Fixpoint ialloc_loop (n : nat) (dev type inum : Z) : M mem Z :=
  let* ninodes := getsb sb_ninodes in
  if u32 inum <? ninodes then
    match n with
    | O => fun _ => OutOfFuel
    | S n' =>
        let* bp := bread_inode dev inum in
        let o := dinode_off inum in
        let* data := getdata bp in
        if get_short data o =? 0 then
          setdata bp (fun l => splice l o (replicate (Z.to_nat dinode_size) 0)) ;;
          setdata bp (fun l => splice l o (le_bytes 2 type)) ;;
          log_write bp ;;
          brelse bp ;;
          iget dev inum
        else
          brelse bp ;;
          ialloc_loop n' dev type (inum + 1)
    end
  else
    printk "ialloc: no inodes" [] ;;
    ret 0.

Definition ialloc (dev type : Z) : M mem Z :=
  let* ninodes := getsb sb_ninodes in
  ialloc_loop (Z.to_nat ninodes) dev type 1.

(** The fields of an inode that live on disk. *)
Definition dinode_of (x : inode) : dinode :=
  mkdinode (i_type x) (i_major x) (i_minor x) (i_nlink x) (i_size x) (i_addrs x).

Definition iupdate (ip : Z) : M mem unit :=
  let* x := rdi ip in
  let* bp := bread_inode (i_dev x) (i_inum x) in
  setdata bp (fun l => splice l (dinode_off (i_inum x)) (dinode_bytes (dinode_of x))) ;;
  log_write bp ;;
  brelse bp.

Definition idup (ip : Z) : M mem Z :=
  acquire LItable ;;
  wri ip (fun x => set_i_ref (i_ref x + 1) x) ;;
  release LItable ;;
  ret ip.

(** The assignments of [ilock] from [dip]. *)
Definition load_dinode (d : dinode) (x : inode) : inode :=
  set_i_addrs (d_addrs d) (set_i_size (d_size d) (set_i_nlink (d_nlink d) (set_i_minor (d_minor d)
    (set_i_major (d_major d) (set_i_type (d_type d) x))))).

Definition ilock (ip : Z) : M mem unit :=
  if ip =? 0 then panic "ilock" else
  let* x := rdi ip in
  if i_ref x <? 1 then panic "ilock" else
  acquiresleep fuel (ip_lock ip) ;;
  let* x := rdi ip in
  when (i_valid x =? 0) (
    let* bp := bread_inode (i_dev x) (i_inum x) in
    let* data := getdata bp in
    wri ip (load_dinode (get_dinode data (dinode_off (i_inum x)))) ;;
    brelse bp ;;
    wri ip (set_i_valid 1) ;;
    let* x := rdi ip in
    when (i_type x =? 0) (panic "ilock: no type")).

Definition iunlock (ip : Z) : M mem unit :=
  if ip =? 0 then panic "iunlock" else
  let* h := holdingsleep (ip_lock ip) in
  if negb h then panic "iunlock" else
  let* x := rdi ip in
  if i_ref x <? 1 then panic "iunlock" else
  releasesleep (ip_lock ip).

Definition ifree (dev inum : Z) : M mem unit :=
  let* bp := bread_inode dev inum in
  setdata bp (fun l => splice l (dinode_off inum) (le_bytes 2 0)) ;;
  log_write bp ;;
  brelse bp.

(** ** Inode content *)

(** [ip->addrs[n]] *)
Definition get_addr (ip n : Z) : M mem Z :=
  let* x := rdi ip in of_opt (i_addrs x !! Z.to_nat n).

Definition set_addr (ip n a : Z) : M mem unit :=
  wri ip (fun x => set_i_addrs (<[Z.to_nat n := a]> (i_addrs x)) x).

(** [if ((addr = ip->addrs[n]) == 0) { addr = balloc(ip->dev); ... }] *)
Definition bmap_slot (ip n : Z) : M mem Z :=
  let* addr := get_addr ip n in
  if addr =? 0 then
    let* x := rdi ip in
    let* addr := balloc (i_dev x) in
    if addr =? 0 then ret 0 else
    set_addr ip n addr ;;
    ret addr
  else ret addr.

(** Entry [bn] of the indirect block [addr], allocated if necessary. *)
Definition bmap_entry (ip addr bn : Z) : M mem Z :=
  let* x := rdi ip in
  let* bp := bread fuel (i_dev x) addr in
  let* data := getdata bp in
  let addr := get_uint data (4 * Z.to_nat bn) in
  let* addr :=
    (if addr =? 0 then
       let* x := rdi ip in
       let* addr := balloc (i_dev x) in
       when (negb (addr =? 0)) (
         setdata bp (fun l => splice l (4 * Z.to_nat bn) (le_bytes 4 addr)) ;;
         log_write bp) ;;
       ret addr
     else ret addr) in
  brelse bp ;;
  ret addr.

Definition bmap (ip bn : Z) : M mem Z :=
  if bn <? NDIRECT then bmap_slot ip bn else
  let bn := bn - NDIRECT in
  if bn <? NINDIRECT then
    let* addr := bmap_slot ip NDIRECT in
    if addr =? 0 then ret 0 else
    bmap_entry ip addr bn
  else panic "bmap: out of range".

(** The loop over the direct blocks. *)
Fixpoint itrunc_direct (n : nat) (ip i : Z) : M mem unit :=
  match n with
  | O => ret tt
  | S n' =>
      let* a := get_addr ip i in
      when (negb (a =? 0)) (
        let* x := rdi ip in
        bfree (i_dev x) a ;;
        set_addr ip i 0) ;;
      itrunc_direct n' ip (i + 1)
  end.

(** The loop over the block numbers in the indirect block [bp]. *)
Fixpoint itrunc_indirect (n : nat) (ip : Z) (bp j : nat) : M mem unit :=
  match n with
  | O => ret tt
  | S n' =>
      let* data := getdata bp in
      let a := get_uint data (4 * j) in
      when (negb (a =? 0)) (
        let* x := rdi ip in
        bfree (i_dev x) a) ;;
      itrunc_indirect n' ip bp (S j)
  end.

Definition itrunc (ip : Z) : M mem unit :=
  itrunc_direct (Z.to_nat NDIRECT) ip 0 ;;
  let* a := get_addr ip NDIRECT in
  when (negb (a =? 0)) (
    let* x := rdi ip in
    let* bp := bread fuel (i_dev x) a in
    itrunc_indirect (Z.to_nat NINDIRECT) ip bp 0 ;;
    brelse bp ;;
    let* a := get_addr ip NDIRECT in
    bfree (i_dev x) a ;;
    set_addr ip NDIRECT 0) ;;
  wri ip (set_i_size 0) ;;
  iupdate ip.

Definition iput (ip : Z) : M mem unit :=
  acquire LItable ;;
  let* x := rdi ip in
  let last := ((i_ref x =? 1) && negb (i_valid x =? 0) && (i_nlink x =? 0))%bool in
  let dev := i_dev x in
  let inum := i_inum x in
  when last (
    acquiresleep fuel (ip_lock ip) ;;
    release LItable ;;
    itrunc ip ;;
    wri ip (set_i_valid 0) ;;
    releasesleep (ip_lock ip) ;;
    acquire LItable) ;;
  wri ip (fun x => set_i_ref (i_ref x - 1) x) ;;
  release LItable ;;
  when last (ifree dev inum).

Definition iunlockput (ip : Z) : M mem unit :=
  iunlock ip ;;
  iput ip.

Fixpoint ireclaim_loop (n : nat) (dev inum : Z) : M mem unit :=
  let* ninodes := getsb sb_ninodes in
  if u32 inum <? ninodes then
    match n with
    | O => fun _ => OutOfFuel
    | S n' =>
        let* bp := bread_inode (u32 dev) inum in
        let* data := getdata bp in
        let d := get_dinode data (dinode_off inum) in
        let* ip :=
          (if (negb (d_type d =? 0) && (d_nlink d =? 0))%bool then
             printk "ireclaim: orphaned inode %d" [PInt inum] ;;
             iget (u32 dev) inum
           else ret 0) in
        brelse bp ;;
        when (negb (ip =? 0)) (
          begin_op fuel ;;
          ilock ip ;;
          iunlock ip ;;
          iput ip ;;
          end_op fuel) ;;
        ireclaim_loop n' dev (inum + 1)
    end
  else ret tt.

Definition ireclaim (dev : Z) : M mem unit :=
  let* ninodes := getsb sb_ninodes in
  ireclaim_loop (Z.to_nat ninodes) dev 1.

Definition fsinit (dev : Z) : M mem unit :=
  readsb dev ;;
  let* magic := getsb sb_magic in
  if negb (magic =? FSMAGIC) then panic "invalid file system" else
  let* logstart := getsb sb_logstart in
  initlog fuel dev logstart ;;
  ireclaim dev.

Definition stati (ip : Z) : M mem stat :=
  let* x := rdi ip in
  ret (mkstat (i32 (i_dev x)) (i_inum x) (i_type x) (i_nlink x) (i_size x)).

(** The loop of [readi]: each round copies the bytes of one block. *)
Fixpoint readi_loop (k : nat) (kb : list Z) (ip user_dst dst off n tot : Z) : M mem (Z * list Z) :=
  if tot <? n then
    match k with
    | O => fun _ => OutOfFuel
    | S k' =>
        let* addr := bmap ip (off / Z.of_nat BSIZE) in
        if addr =? 0 then ret (i32 tot, kb) else
        let* x := rdi ip in
        let* bp := bread fuel (i_dev x) addr in
        let m := Z.min (n - tot) (Z.of_nat BSIZE - off mod Z.of_nat BSIZE) in
        let* data := getdata bp in
        let* r := either_copyout kb user_dst dst (take (Z.to_nat m) (drop (Z.to_nat (off mod Z.of_nat BSIZE)) data)) in
        brelse bp ;;
        if r.1 =? -1 then ret (-1, r.2) else
        readi_loop k' r.2 ip user_dst (u64 (dst + m)) (u32 (off + m)) n (tot + m)
    end
  else ret (i32 tot, kb).

(** [n] bytes lie in at most [n / BSIZE + 2] blocks. *)
Definition rounds (n : Z) : nat := Z.to_nat (n / Z.of_nat BSIZE + 2).

Definition readi (kb : list Z) (ip user_dst dst off n : Z) : M mem (Z * list Z) :=
  let* x := rdi ip in
  if ((i_size x <? off) || (u32 (off + n) <? off))%bool then ret (0, kb) else
  let n := if i_size x <? u32 (off + n) then i_size x - off else n in
  readi_loop (rounds n) kb ip user_dst dst off n 0.

(** The loop of [writei]; the result is [tot] and [off] at its end. *)
Fixpoint writei_loop (k : nat) (kb : list Z) (ip user_src src off n tot : Z) : M mem (Z * Z) :=
  if tot <? n then
    match k with
    | O => fun _ => OutOfFuel
    | S k' =>
        let* addr := bmap ip (off / Z.of_nat BSIZE) in
        if addr =? 0 then ret (tot, off) else
        let* x := rdi ip in
        let* bp := bread fuel (i_dev x) addr in
        let m := Z.min (n - tot) (Z.of_nat BSIZE - off mod Z.of_nat BSIZE) in
        let* r := either_copyin kb user_src src m in
        setdata bp (fun l => splice l (Z.to_nat (off mod Z.of_nat BSIZE)) r.2) ;;
        log_write bp ;;
        brelse bp ;;
        if r.1 =? -1 then ret (tot, off) else
        writei_loop k' kb ip user_src (u64 (src + m)) (u32 (off + m)) n (tot + m)
    end
  else ret (tot, off).

Definition writei (kb : list Z) (ip user_src src off n : Z) : M mem Z :=
  let* x := rdi ip in
  if ((i_size x <? off) || (u32 (off + n) <? off))%bool then ret (-1) else
  if MAXFILE * Z.of_nat BSIZE <? u32 (off + n) then ret (-1) else
  let* r := writei_loop (rounds n) kb ip user_src src off n 0 in
  let* x := rdi ip in
  when (i_size x <? r.2) (wri ip (set_i_size r.2)) ;;
  iupdate ip ;;
  ret (i32 r.1).

(** ** Directories *)

(** [readi(dp, 0, &de, off, sizeof(de))]; [de] is read only after it was
    overwritten. *)
Definition read_dirent (dp off : Z) : M mem (Z * list Z) :=
  readi (replicate (Z.to_nat dirent_size) 0) dp 0 0 off dirent_size.

(** The result is the returned pointer and [*poff]. *)
Fixpoint dirlookup_loop (n : nat) (dp : Z) (name : list Z) (off : Z) : M mem (Z * Z) :=
  let* d := rdi dp in
  if off <? i_size d then
    match n with
    | O => fun _ => OutOfFuel
    | S n' =>
        let* r := read_dirent dp off in
        if negb (r.1 =? dirent_size) then panic "dirlookup read" else
        if de_inum r.2 =? 0 then dirlookup_loop n' dp name (u32 (off + dirent_size)) else
        let* c := of_opt (namecmp name (de_name r.2)) in
        if c =? 0 then
          let* d := rdi dp in
          let* ip := iget (i_dev d) (de_inum r.2) in
          ret (ip, off)
        else dirlookup_loop n' dp name (u32 (off + dirent_size))
    end
  else ret (0, 0).

Definition dirents (size : Z) : nat := Z.to_nat (size / dirent_size + 1).

Definition dirlookup (dp : Z) (name : list Z) : M mem (Z * Z) :=
  let* d := rdi dp in
  if negb (i_type d =? T_DIR) then panic "dirlookup not DIR" else
  dirlookup_loop (dirents (i_size d)) dp name 0.

(** The loop of [dirlink]: the offset of the first empty entry or the end. *)
Fixpoint dirlink_loop (n : nat) (dp off : Z) : M mem Z :=
  let* d := rdi dp in
  if u32 off <? i_size d then
    match n with
    | O => fun _ => OutOfFuel
    | S n' =>
        let* r := read_dirent dp (u32 off) in
        if negb (r.1 =? dirent_size) then panic "dirlink read" else
        if de_inum r.2 =? 0 then ret off else dirlink_loop n' dp (off + dirent_size)
    end
  else ret off.

Definition dirlink (dp : Z) (name : list Z) (inum : Z) : M mem Z :=
  let* ip := dirlookup dp name in
  if negb (ip.1 =? 0) then
    iput ip.1 ;;
    ret (-1)
  else
  let* d := rdi dp in
  let* off := dirlink_loop (dirents (i_size d)) dp 0 in
  let* nm := of_opt (strncpy (replicate DIRSIZ 0) name (Z.of_nat DIRSIZ)) in
  let* r := writei (le_bytes 2 inum ++ nm) dp 0 0 (u32 off) dirent_size in
  if negb (r =? dirent_size) then ret (-1) else
  ret 0.

(** ** Paths *)

(** The loop of [namex]; every round but the last takes a byte from the path. *)
Fixpoint namex_loop (n : nat) (path : list Z) (nameiparent : bool) (name : list Z) (ip : Z) : M mem (Z * list Z) :=
  let* e := of_opt (skipelem path name) in
  match e with
  | None =>
      if nameiparent then
        iput ip ;;
        ret (0, name)
      else ret (ip, name)
  | Some (path, name) =>
      match n with
      | O => fun _ => OutOfFuel
      | S n' =>
          ilock ip ;;
          let* x := rdi ip in
          if negb (i_type x =? T_DIR) then
            iunlockput ip ;;
            ret (0, name)
          else if i_nlink x =? 0 then
            iunlockput ip ;;
            ret (0, name)
          else
          let* c := of_opt (path !! 0%nat) in
          if (nameiparent && (c =? 0))%bool then
            iunlock ip ;;
            ret (ip, name)
          else
          let* next := dirlookup ip name in
          if next.1 =? 0 then
            iunlockput ip ;;
            ret (0, name)
          else
          iunlockput ip ;;
          namex_loop n' path nameiparent name next.1
      end
  end.

Definition namex (path : list Z) (nameiparent : bool) (name : list Z) : M mem (Z * list Z) :=
  let* c := of_opt (path !! 0%nat) in
  let* ip :=
    (if c =? slash then iget ROOTDEV ROOTINO
     else
       let* i := curproc in
       let* p := getp i in
       idup (p_cwd p)) in
  namex_loop (length path) path nameiparent name ip.

Definition namei (path : list Z) : M mem Z :=
  let* r := namex path false (replicate DIRSIZ 0) in
  ret r.1.

Definition nameiparent (path name : list Z) : M mem (Z * list Z) := namex path true name.

End Fs.
