(* ===== verification/File.v ===== *)
(** * [kernel/file.c]: open files

    A pointer to an entry of [ftable] is its index plus one, 0 the null
    pointer.  [pipealloc] of [pipe.c] is here as well.  The functions in [devsw]
    are the operations of the class [devsw_t]; [None] is a null pointer. *)

From stdpp Require Import base list gmap strings.
From Stdlib Require Import ZArith Lia.
From S2P Require Import Prelude KString KernelBase PhysMem Kalloc Proc FsBase FsLogic Bio Log Pipe Fs.

Open Scope Z_scope.

Definition NDEV : Z := 10.

(** [devsw[major].read] and [devsw[major].write]. *)
Class devsw_t (mem : Type) := {
  devsw_read : Z -> option (Z -> Z -> Z -> M mem Z);
  devsw_write : Z -> option (Z -> Z -> Z -> M mem Z)
}.

(** [struct stat] in memory: four bytes of padding before the size. *)
Definition stat_bytes (st : stat) : list Z :=
  le_bytes 4 (st_dev st) ++ le_bytes 4 (st_ino st) ++ le_bytes 2 (st_type st) ++ le_bytes 2 (st_nlink st) ++
  replicate 4 0 ++ le_bytes 8 (st_size st).

Section File.

Context {mem : Type} {cfg : config} {svc : services mem} {sym : symbols}.
Context {hfs : has_fs mem} {hpm : has_pmem mem} {drv : disk_driver mem} {dsw : devsw_t mem}.
Variable fuel : nat.

Definition fptr (i : nat) : Z := Z.of_nat i + 1.

Definition fidx (f : Z) : nat := Z.to_nat (f - 1).

(** A read or write of the entry [f] points to. *)
Definition rdf (f : Z) : M mem file :=
  if f =? 0 then undefined else
  let* t := getfs (fun x => m_ftable (f_mem x)) in of_opt (t !! fidx f).

Definition wrf (f : Z) (g : file -> file) : M mem unit :=
  let* x := rdf f in
  modfs (fun y => set_f_mem (set_m_ftable (<[fidx f := g x]> (m_ftable (f_mem y))) (f_mem y)) y).

Definition fileinit : M mem unit := initlock LFtable.

(** The loop of [filealloc] over the last [n] entries. *)
Fixpoint filealloc_loop (n i : nat) : M mem Z :=
  match n with
  | O =>
      release LFtable ;;
      ret 0
  | S n' =>
      let* x := rdf (fptr i) in
      if f_ref x =? 0 then
        wrf (fptr i) (set_f_ref 1) ;;
        release LFtable ;;
        ret (fptr i)
      else filealloc_loop n' (S i)
  end.

Definition filealloc : M mem Z :=
  acquire LFtable ;;
  filealloc_loop NFILE 0.

Definition filedup (f : Z) : M mem Z :=
  acquire LFtable ;;
  let* x := rdf f in
  if f_ref x <? 1 then panic "filedup" else
  wrf f (set_f_ref (f_ref x + 1)) ;;
  release LFtable ;;
  ret f.

Definition fileclose (f : Z) : M mem unit :=
  acquire LFtable ;;
  let* x := rdf f in
  if f_ref x <? 1 then panic "fileclose" else
  wrf f (set_f_ref (f_ref x - 1)) ;;
  if 0 <? f_ref x - 1 then release LFtable else
  let* ff := rdf f in
  wrf f (set_f_ref 0) ;;
  wrf f (set_f_type FD_NONE) ;;
  release LFtable ;;
  match f_type ff with
  | FD_PIPE => pipeclose (f_pipe ff) (f_writable ff)
  | FD_INODE | FD_DEVICE =>
      Log.begin_op fuel ;;
      Fs.iput fuel (f_ip ff) ;;
      Log.end_op fuel
  | FD_NONE => ret tt
  end.

Definition filestat (f addr : Z) : M mem Z :=
  let* p := curproc in
  let* x := rdf f in
  match f_type x with
  | FD_INODE | FD_DEVICE =>
      ilock fuel (f_ip x) ;;
      let* st := stati (f_ip x) in
      iunlock (f_ip x) ;;
      let* q := getp p in
      let* r := mem_op (copyout (p_pagetable q) (p_sz q) addr (stat_bytes st)) in
      if r <? 0 then ret (-1) else ret 0
  | _ => ret (-1)
  end.

Definition fileread (f addr n : Z) : M mem Z :=
  let* x := rdf f in
  if ((f_readable x =? 0) || (n <? 0))%bool then ret (-1) else
  match f_type x with
  | FD_PIPE => piperead fuel (f_pipe x) addr n
  | FD_DEVICE =>
      if ((f_major x <? 0) || (NDEV <=? f_major x))%bool then ret (-1) else
      match devsw_read (f_major x) with
      | None => ret (-1)
      | Some read => read 1 addr n
      end
  | FD_INODE =>
      ilock fuel (f_ip x) ;;
      let* x := rdf f in
      let* r := readi fuel [] (f_ip x) 1 addr (f_off x) n in
      when (0 <? r.1) (wrf f (fun x => set_f_off (u32 (f_off x + r.1)) x)) ;;
      iunlock (f_ip x) ;;
      ret r.1
  | FD_NONE => panic "fileread"
  end.

(** At most this much is written in one transaction. *)
Definition filewrite_max : Z := (MAXOPBLOCKS - 1 - 1 - 2) / 2 * Z.of_nat BSIZE.

(** The loop of [filewrite]: the value of [i] after it. *)
Fixpoint filewrite_loop (k : nat) (f addr n i : Z) : M mem Z :=
  if i <? n then
    match k with
    | O => fun _ => OutOfFuel
    | S k' =>
        let n1 := Z.min (n - i) filewrite_max in
        Log.begin_op fuel ;;
        let* x := rdf f in
        ilock fuel (f_ip x) ;;
        let* x := rdf f in
        let* r := writei fuel [] (f_ip x) 1 (u64 (addr + i)) (f_off x) n1 in
        when (0 <? r) (wrf f (fun x => set_f_off (u32 (f_off x + r)) x)) ;;
        iunlock (f_ip x) ;;
        Log.end_op fuel ;;
        if negb (r =? n1) then ret i else
        filewrite_loop k' f addr n (i + r)
    end
  else ret i.

(** A round writes [filewrite_max] bytes, or is the last one. *)
Definition filewrite (f addr n : Z) : M mem Z :=
  let* x := rdf f in
  if ((f_writable x =? 0) || (n <? 0))%bool then ret (-1) else
  match f_type x with
  | FD_PIPE => pipewrite fuel (f_pipe x) addr n
  | FD_DEVICE =>
      if ((f_major x <? 0) || (NDEV <=? f_major x))%bool then ret (-1) else
      match devsw_write (f_major x) with
      | None => ret (-1)
      | Some write => write 1 addr n
      end
  | FD_INODE =>
      let* i := filewrite_loop (Z.to_nat (n / filewrite_max + 1)) f addr n 0 in
      ret (if i =? n then n else -1)
  | FD_NONE => panic "filewrite"
  end.

(** ** [pipealloc] of [kernel/pipe.c] *)

(** The label [bad], where [pi] is still null. *)
Definition pipealloc_bad (f0 f1 : Z) : M mem (Z * Z * Z) :=
  when (negb (f0 =? 0)) (fileclose f0) ;;
  when (negb (f1 =? 0)) (fileclose f1) ;;
  ret (-1, f0, f1).

(** The result is the returned value with what was stored to [*f0] and [*f1]. *)
Definition pipealloc : M mem (Z * Z * Z) :=
  let* f0 := filealloc in
  if f0 =? 0 then pipealloc_bad f0 0 else
  let* f1 := filealloc in
  if f1 =? 0 then pipealloc_bad f0 f1 else
  let* pi := mem_op (fun m => Some (kalloc m)) in
  if pi =? 0 then pipealloc_bad f0 f1 else
  run_mm (store32 (pi_readopen pi) 1) ;;
  run_mm (store32 (pi_writeopen pi) 1) ;;
  run_mm (store32 (pi_nwrite pi) 0) ;;
  run_mm (store32 (pi_nread pi) 0) ;;
  initlock (LAddr pi) ;;
  wrf f0 (set_f_type FD_PIPE) ;;
  wrf f0 (set_f_readable 1) ;;
  wrf f0 (set_f_writable 0) ;;
  wrf f0 (set_f_pipe pi) ;;
  wrf f1 (set_f_type FD_PIPE) ;;
  wrf f1 (set_f_readable 0) ;;
  wrf f1 (set_f_writable 1) ;;
  wrf f1 (set_f_pipe pi) ;;
  ret (0, f0, f1).

End File.
