(* ===== verification/Exec.v ===== *)
(** * [kernel/exec.c]: running a program

    [kexec] with the format of [kernel/elf.h].  The strings of [argv] are byte
    lists with their terminator; the null pointer that ends [argv] is the end
    of the list.  A [goto bad] is a call of [kexec_bad]. *)

From stdpp Require Import base list gmap strings.
From Stdlib Require Import ZArith Lia.
From S2P Require Import Prelude KString KernelBase PhysMem Kalloc Vm Proc FsBase FsLogic Bio Log Fs.

Open Scope Z_scope.

Definition MAXARG : nat := 32.

Definition USERSTACK : Z := 1.

(** ** [kernel/elf.h] *)

Definition ELF_MAGIC : Z := 0x464C457F.

Definition ELF_PROG_LOAD : Z := 1.

(** The [n] bytes at [off], low byte first. *)
Definition get_le (n off : nat) (l : list Z) : Z := le_val (take n (drop off l)).

(** The fields that are used. *)
Record elfhdr := mkelfhdr { elf_magic : Z; elf_entry : Z; elf_phoff : Z; elf_phnum : Z }.

Definition elfhdr_size : Z := 64.

Definition get_elfhdr (l : list Z) : elfhdr := mkelfhdr (get_le 4 0 l) (get_le 8 24 l) (get_le 8 32 l) (get_le 2 56 l).

Record proghdr := mkproghdr {
  ph_type : Z;
  ph_flags : Z;
  ph_off : Z;
  ph_vaddr : Z;
  ph_filesz : Z;
  ph_memsz : Z
}.

Definition proghdr_size : Z := 56.

Definition get_proghdr (l : list Z) : proghdr :=
  mkproghdr (get_le 4 0 l) (get_le 4 4 l) (get_le 8 8 l) (get_le 8 16 l) (get_le 8 32 l) (get_le 8 40 l).

(** ** [kernel/exec.c] *)

Definition flags2perm (flags : Z) : Z :=
  let perm := if negb (Z.land flags 1 =? 0) then PTE_X else 0 in
  if negb (Z.land flags 2 =? 0) then Z.lor perm PTE_W else perm.

(** [for (last = s = path; *s; s++) if ( *s == '/') last = s + 1;] *)
Fixpoint last_elem (last s : list Z) : list Z :=
  match s with
  | [] => last
  | c :: s' => if c =? 0 then last else last_elem (if c =? slash then s' else last) s'
  end.

Section Exec.

Context {lay : layout} {mem : Type} {cfg : config} {svc : services mem} {sym : symbols}.
Context {hfs : has_fs mem} {hpm : has_pmem mem} {drv : disk_driver mem}.
Variable fuel : nat.

(** [readi(ip, 0, pa, off, n)] where [pa] is the address of a page. *)
Definition readi_page (ip pa off n : Z) : M mem Z :=
  let* old := run_mm (mem_read pa n) in
  let* r := readi fuel old ip 0 0 off n in
  run_mm (mem_write pa r.2) ;;
  ret r.1.

(** The loop of [loadseg], [k] rounds of it. *)
Fixpoint loadseg_loop (k : nat) (pagetable va ip offset sz i : Z) : M mem Z :=
  if i <? sz then
    match k with
    | O => fun _ => OutOfFuel
    | S k' =>
        let* pa := run_mm (walkaddr pagetable (u64 (va + i))) in
        if pa =? 0 then panic "loadseg: address should exist" else
        let n := if sz - i <? PGSIZE then sz - i else PGSIZE in
        let* r := readi_page ip pa (u32 (offset + i)) n in
        if negb (u32 r =? n) then ret (-1) else
        loadseg_loop k' pagetable va ip offset sz (u32 (i + PGSIZE))
    end
  else ret 0.

Definition loadseg (pagetable va ip offset sz : Z) : M mem Z :=
  loadseg_loop (Z.to_nat (sz / PGSIZE + 1)) pagetable va ip offset sz 0.

(** The label [bad]. *)
Definition kexec_bad (pagetable sz ip : Z) : M mem Z :=
  when (negb (pagetable =? 0)) (proc_freepagetable pagetable sz) ;;
  when (negb (ip =? 0)) (
    iunlockput fuel ip ;;
    Log.end_op fuel) ;;
  ret (-1).

(** One segment: [inl] is the value of [sz] at a [goto bad], [inr] after it. *)
Definition load_segment (pagetable ip sz : Z) (ph : proghdr) : M mem (Z + Z) :=
  if ph_memsz ph <? ph_filesz ph then ret (inl sz) else
  if u64 (ph_vaddr ph + ph_memsz ph) <? ph_vaddr ph then ret (inl sz) else
  if negb (ph_vaddr ph mod PGSIZE =? 0) then ret (inl sz) else
  let* sz1 := mem_op (uvmalloc pagetable sz (u64 (ph_vaddr ph + ph_memsz ph)) (flags2perm (ph_flags ph))) in
  if sz1 =? 0 then ret (inl sz) else
  let* r := loadseg pagetable (ph_vaddr ph) ip (u32 (ph_off ph)) (u32 (ph_filesz ph)) in
  if r <? 0 then ret (inl sz1) else
  ret (inr sz1).

(** The loop over the program headers, [k] of which are left. *)
Fixpoint load_program (k : nat) (pagetable ip off sz : Z) : M mem (Z + Z) :=
  match k with
  | O => ret (inr sz)
  | S k' =>
      let* r := readi fuel (replicate (Z.to_nat proghdr_size) 0) ip 0 0 (u32 off) proghdr_size in
      if negb (r.1 =? proghdr_size) then ret (inl sz) else
      let ph := get_proghdr r.2 in
      if negb (ph_type ph =? ELF_PROG_LOAD) then load_program k' pagetable ip (i32 (off + proghdr_size)) sz else
      let* s := load_segment pagetable ip sz ph in
      match s with
      | inl sz => ret (inl sz)
      | inr sz => load_program k' pagetable ip (i32 (off + proghdr_size)) sz
      end
  end.

(** The loop that copies the strings; the result is [ustack] and [sp], [None] a
    [goto bad].  [ustack] has room for [MAXARG] words. *)
Fixpoint push_args (argv : list (list Z)) (pagetable sz stackbase sp : Z) (ustack : list Z) : M mem (option (list Z * Z)) :=
  if (length ustack <? MAXARG)%nat then
    match argv with
    | [] => ret (Some (ustack ++ [0], sp))
    | arg :: argv' =>
        let* len := of_opt (strlen arg 0) in
        let sp := u64 (sp - (Z.of_nat len + 1)) in
        let sp := sp - sp mod 16 in
        if sp <? stackbase then ret None else
        let* r := mem_op (copyout pagetable sz sp (take (len + 1) arg)) in
        if r <? 0 then ret None else
        push_args argv' pagetable sz stackbase sp (ustack ++ [sp])
    end
  else undefined.

(** From the allocation of the stack to the end of the function. *)
Definition kexec_stack (path : list Z) (argv : list (list Z)) (elf : elfhdr) (pagetable sz : Z) : M mem Z :=
  let* i := curproc in
  let* p := getp i in
  let oldsz := p_sz p in
  let sz := PGROUNDUP sz in
  let* sz1 := mem_op (uvmalloc pagetable sz (u64 (sz + (USERSTACK + 1) * PGSIZE)) PTE_W) in
  if sz1 =? 0 then kexec_bad pagetable sz 0 else
  let sz := sz1 in
  run_mm (uvmclear pagetable (u64 (sz - (USERSTACK + 1) * PGSIZE))) ;;
  let stackbase := u64 (sz - USERSTACK * PGSIZE) in
  let* a := push_args argv pagetable sz stackbase sz [] in
  match a with
  | None => kexec_bad pagetable sz 0
  | Some (ustack, sp) =>
      let argc := Z.of_nat (length ustack) - 1 in
      let sp := u64 (sp - (argc + 1) * 8) in
      let sp := sp - sp mod 16 in
      if sp <? stackbase then kexec_bad pagetable sz 0 else
      let* r := mem_op (copyout pagetable sz sp (concat (map (le_bytes 8) ustack))) in
      if r <? 0 then kexec_bad pagetable sz 0 else
      let* p := getp i in
      let* t := get_tf (p_trapframe p) in
      put_tf (p_trapframe p) (set_tf_a1 sp t) ;;
      let* name := of_opt (safestrcpy (p_name p) (last_elem path path) 16) in
      setp i (set_p_name name) ;;
      let oldpagetable := p_pagetable p in
      setp i (set_p_pagetable pagetable) ;;
      setp i (set_p_sz sz) ;;
      let* t := get_tf (p_trapframe p) in
      put_tf (p_trapframe p) (set_tf_sp sp (set_epc (elf_entry elf) t)) ;;
      proc_freepagetable oldpagetable oldsz ;;
      ret (i32 argc)
  end.

Definition kexec (path : list Z) (argv : list (list Z)) : M mem Z :=
  let* i := curproc in
  Log.begin_op fuel ;;
  let* ip := Fs.namei fuel path in
  if ip =? 0 then
    Log.end_op fuel ;;
    ret (-1)
  else
  ilock fuel ip ;;
  let* r := readi fuel (replicate (Z.to_nat elfhdr_size) 0) ip 0 0 0 elfhdr_size in
  if negb (r.1 =? elfhdr_size) then kexec_bad 0 0 ip else
  let elf := get_elfhdr r.2 in
  if negb (elf_magic elf =? ELF_MAGIC) then kexec_bad 0 0 ip else
  let* pagetable := proc_pagetable i in
  if pagetable =? 0 then kexec_bad 0 0 ip else
  let* s := load_program (Z.to_nat (elf_phnum elf)) pagetable ip (i32 (elf_phoff elf)) 0 in
  match s with
  | inl sz => kexec_bad pagetable sz ip
  | inr sz =>
      iunlockput fuel ip ;;
      Log.end_op fuel ;;
      kexec_stack path argv elf pagetable sz
  end.

End Exec.
