(* ===== verification/SysFile.v ===== *)
(** * [kernel/sysfile.c]: the system calls on files

    Every function of the file.  The operations of the class [file_calls], through
    which [syscall] reaches them, get these definitions in [Kernel.v]. *)

From stdpp Require Import base list gmap strings.
From Stdlib Require Import ZArith Lia.
From S2P Require Import Prelude KString KernelBase PhysMem Kalloc Vm Proc Syscall FsBase FsLogic Bio Log Pipe Fs File Exec.

Open Scope Z_scope.

Definition MAXPATH : Z := 128.

Definition NLINK_MAX : Z := 32767.

(** [kernel/fcntl.h] *)
Definition O_RDONLY : Z := 0.

Definition O_WRONLY : Z := 0x001.

Definition O_RDWR : Z := 0x002.

Definition O_CREATE : Z := 0x200.

Definition O_TRUNC : Z := 0x400.

(** A flag is set. *)
Definition flag (omode f : Z) : bool := negb (Z.land omode f =? 0).

(** ["."] and [".."] *)
Definition dot : list Z := [46; 0].

Definition dotdot : list Z := [46; 46; 0].

Section SysFile.

Context {lay : layout} {mem : Type} {cfg : config} {svc : services mem} {sym : symbols}.
Context {hfs : has_fs mem} {hpm : has_pmem mem} {drv : disk_driver mem} {dsw : devsw_t mem}.
Variable fuel : nat.

(** ** Descriptors *)

(** The result is the descriptor and the file, [None] for -1. *)
Definition argfd (n : Z) : M mem (option (Z * Z)) :=
  let* fd := argint n in
  if ((fd <? 0) || (Z.of_nat NOFILE <=? fd))%bool then ret None else
  let* i := curproc in
  let* p := getp i in
  let* f := of_opt (p_ofile p !! Z.to_nat fd) in
  ret (if f =? 0 then None else Some (fd, f)).

(** The loop of [fdalloc] over the last [n] descriptors. *)
Fixpoint fdalloc_loop (n : nat) (i fd : nat) (f : Z) : M mem Z :=
  match n with
  | O => ret (-1)
  | S n' =>
      let* p := getp i in
      let* g := of_opt (p_ofile p !! fd) in
      if g =? 0 then
        setp i (fun p => set_p_ofile (<[fd := f]> (p_ofile p)) p) ;;
        ret (Z.of_nat fd)
      else fdalloc_loop n' i (S fd) f
  end.

Definition fdalloc (f : Z) : M mem Z :=
  let* i := curproc in
  fdalloc_loop NOFILE i 0 f.

(** [p->ofile[fd] = 0] *)
Definition clear_fd (i : nat) (fd : Z) : M mem unit :=
  setp i (fun p => set_p_ofile (<[Z.to_nat fd := 0]> (p_ofile p)) p).

Definition sys_dup : M mem Z :=
  let* a := argfd 0 in
  match a with
  | None => ret (-1)
  | Some (_, f) =>
      let* fd := fdalloc f in
      if fd <? 0 then ret (-1) else
      let* _ := filedup f in
      ret fd
  end.

Definition sys_read : M mem Z :=
  let* p := argaddr 1 in
  let* n := argint 2 in
  let* a := argfd 0 in
  match a with
  | None => ret (-1)
  | Some (_, f) => fileread fuel f p n
  end.

Definition sys_write : M mem Z :=
  let* p := argaddr 1 in
  let* n := argint 2 in
  let* a := argfd 0 in
  match a with
  | None => ret (-1)
  | Some (_, f) => filewrite fuel f p n
  end.

Definition sys_close : M mem Z :=
  let* a := argfd 0 in
  match a with
  | None => ret (-1)
  | Some (fd, f) =>
      let* i := curproc in
      clear_fd i fd ;;
      fileclose fuel f ;;
      ret 0
  end.

Definition sys_fstat : M mem Z :=
  let* st := argaddr 1 in
  let* a := argfd 0 in
  match a with
  | None => ret (-1)
  | Some (_, f) => filestat fuel f st
  end.

(** ** Links *)

(** [end_op(); return -1;] *)
Definition fail_op : M mem Z :=
  Log.end_op fuel ;;
  ret (-1).

(** [iunlockput(ip); end_op(); return -1;] *)
Definition fail_with (ip : Z) : M mem Z :=
  iunlockput fuel ip ;;
  fail_op.

(** The label [bad] of [sys_link]. *)
Definition link_bad (ip : Z) : M mem Z :=
  ilock fuel ip ;;
  wri ip (fun x => set_i_nlink (i16 (i_nlink x - 1)) x) ;;
  iupdate fuel ip ;;
  fail_with ip.

Definition sys_link : M mem Z :=
  let* old := argstr 0 MAXPATH in
  if old.1 <? 0 then ret (-1) else
  let* new := argstr 1 MAXPATH in
  if new.1 <? 0 then ret (-1) else
  Log.begin_op fuel ;;
  let* ip := Fs.namei fuel old.2 in
  if ip =? 0 then fail_op else
  ilock fuel ip ;;
  let* x := rdi ip in
  if i_type x =? T_DIR then fail_with ip else
  if NLINK_MAX <=? i_nlink x then fail_with ip else
  wri ip (fun x => set_i_nlink (i16 (i_nlink x + 1)) x) ;;
  iupdate fuel ip ;;
  iunlock ip ;;
  let* d := nameiparent fuel new.2 (replicate DIRSIZ 0) in
  let dp := d.1 in
  if dp =? 0 then link_bad ip else
  ilock fuel dp ;;
  let* y := rdi dp in
  if i_nlink y =? 0 then
    iunlockput fuel dp ;;
    link_bad ip
  else
  let* x := rdi ip in
  let* bad := (if negb (i_dev y =? i_dev x) then ret true
               else let* r := dirlink fuel dp d.2 (i_inum x) in ret (r <? 0)) in
  if (bad : bool) then
    iunlockput fuel dp ;;
    link_bad ip
  else
  iunlockput fuel dp ;;
  Fs.iput fuel ip ;;
  Log.end_op fuel ;;
  ret 0.

(** The loop of [isdirempty], [n] rounds of it. *)
Fixpoint isdirempty_loop (n : nat) (dp off : Z) : M mem bool :=
  let* d := rdi dp in
  if u32 off <? i_size d then
    match n with
    | O => fun _ => OutOfFuel
    | S n' =>
        let* r := read_dirent fuel dp (u32 off) in
        if negb (r.1 =? dirent_size) then panic "isdirempty: readi" else
        if negb (de_inum r.2 =? 0) then ret false else
        isdirempty_loop n' dp (i32 (off + dirent_size))
    end
  else ret true.

Definition isdirempty (dp : Z) : M mem bool :=
  let* d := rdi dp in
  isdirempty_loop (dirents (i_size d)) dp (2 * dirent_size).

(** From [ilock(ip)] on: [ip] is the inode found at [off]. *)
Definition unlink_inode (dp ip off : Z) : M mem Z :=
  ilock fuel ip ;;
  let* x := rdi ip in
  if i_nlink x <? 1 then panic "unlink: nlink < 1" else
  let* busy := (if i_type x =? T_DIR then let* e := isdirempty ip in ret (negb e) else ret false) in
  if (busy : bool) then
    iunlockput fuel ip ;;
    fail_with dp
  else
  let* r := writei fuel (replicate (Z.to_nat dirent_size) 0) dp 0 0 off dirent_size in
  if negb (r =? dirent_size) then panic "unlink: writei" else
  let* x := rdi ip in
  when (i_type x =? T_DIR) (
    wri dp (fun y => set_i_nlink (i16 (i_nlink y - 1)) y) ;;
    iupdate fuel dp) ;;
  iunlockput fuel dp ;;
  wri ip (fun x => set_i_nlink (i16 (i_nlink x - 1)) x) ;;
  iupdate fuel ip ;;
  iunlockput fuel ip ;;
  Log.end_op fuel ;;
  ret 0.

Definition sys_unlink : M mem Z :=
  let* path := argstr 0 MAXPATH in
  if path.1 <? 0 then ret (-1) else
  Log.begin_op fuel ;;
  let* d := nameiparent fuel path.2 (replicate DIRSIZ 0) in
  let dp := d.1 in
  if dp =? 0 then fail_op else
  ilock fuel dp ;;
  let* c1 := of_opt (namecmp d.2 dot) in
  let* c2 := of_opt (namecmp d.2 dotdot) in
  if ((c1 =? 0) || (c2 =? 0))%bool then fail_with dp else
  let* r := dirlookup fuel dp d.2 in
  if r.1 =? 0 then fail_with dp else
  unlink_inode dp r.1 r.2.

(** ** Creation *)

(** The label [fail] of [create]. *)
Definition create_fail (dp ip : Z) : M mem Z :=
  wri ip (set_i_nlink 0) ;;
  iupdate fuel ip ;;
  iunlockput fuel ip ;;
  iunlockput fuel dp ;;
  ret 0.

(** From [ilock(ip)] of a new inode on. *)
Definition create_inode (dp ip : Z) (name : list Z) (type major minor : Z) : M mem Z :=
  ilock fuel ip ;;
  wri ip (set_i_major major) ;;
  wri ip (set_i_minor minor) ;;
  wri ip (set_i_nlink 1) ;;
  iupdate fuel ip ;;
  let* x := rdi ip in
  let* y := rdi dp in
  let* failed := (if type =? T_DIR then
                    let* r := dirlink fuel ip dot (i_inum x) in
                    if r <? 0 then ret true else
                    let* r := dirlink fuel ip dotdot (i_inum y) in
                    ret (r <? 0)
                  else ret false) in
  if (failed : bool) then create_fail dp ip else
  let* r := dirlink fuel dp name (i_inum x) in
  if r <? 0 then create_fail dp ip else
  when (type =? T_DIR) (
    wri dp (fun y => set_i_nlink (i16 (i_nlink y + 1)) y) ;;
    iupdate fuel dp) ;;
  iunlockput fuel dp ;;
  ret ip.

Definition create (path : list Z) (type major minor : Z) : M mem Z :=
  let* d := nameiparent fuel path (replicate DIRSIZ 0) in
  let dp := d.1 in
  if dp =? 0 then ret 0 else
  ilock fuel dp ;;
  let* y := rdi dp in
  if i_nlink y =? 0 then
    iunlockput fuel dp ;;
    ret 0
  else if ((type =? T_DIR) && (NLINK_MAX <=? i_nlink y))%bool then
    iunlockput fuel dp ;;
    ret 0
  else
  let* r := dirlookup fuel dp d.2 in
  let ip := r.1 in
  if negb (ip =? 0) then
    iunlockput fuel dp ;;
    ilock fuel ip ;;
    let* x := rdi ip in
    if ((type =? T_FILE) && ((i_type x =? T_FILE) || (i_type x =? T_DEVICE)))%bool then ret ip else
    iunlockput fuel ip ;;
    ret 0
  else
  let* y := rdi dp in
  let* ip := ialloc fuel (i_dev y) type in
  if ip =? 0 then
    iunlockput fuel dp ;;
    ret 0
  else create_inode dp ip d.2 type major minor.

(** [f->...] for the descriptor of an open file, and the rest of [sys_open]. *)
Definition open_inode (ip f fd omode : Z) : M mem Z :=
  let* x := rdi ip in
  (if i_type x =? T_DEVICE then
     wrf f (set_f_type FD_DEVICE) ;;
     wrf f (set_f_major (i_major x))
   else
     wrf f (set_f_type FD_INODE) ;;
     wrf f (set_f_off 0)) ;;
  wrf f (set_f_ip ip) ;;
  wrf f (set_f_readable (if flag omode O_WRONLY then 0 else 1)) ;;
  wrf f (set_f_writable (if (flag omode O_WRONLY || flag omode O_RDWR)%bool then 1 else 0)) ;;
  when (flag omode O_TRUNC && (i_type x =? T_FILE))%bool (itrunc fuel ip) ;;
  iunlock ip ;;
  Log.end_op fuel ;;
  ret fd.

(** The descriptor of a locked inode. *)
Definition open_locked (ip omode : Z) : M mem Z :=
  let* x := rdi ip in
  if ((i_type x =? T_DEVICE) && ((i_major x <? 0) || (NDEV <=? i_major x)))%bool then fail_with ip else
  let* f := filealloc in
  if f =? 0 then fail_with ip else
  let* fd := fdalloc f in
  if fd <? 0 then
    fileclose fuel f ;;
    fail_with ip
  else open_inode ip f fd omode.

Definition sys_open : M mem Z :=
  let* omode := argint 1 in
  let* path := argstr 0 MAXPATH in
  if path.1 <? 0 then ret (-1) else
  Log.begin_op fuel ;;
  if flag omode O_CREATE then
    let* ip := create path.2 T_FILE 0 0 in
    if ip =? 0 then fail_op else open_locked ip omode
  else
    let* ip := Fs.namei fuel path.2 in
    if ip =? 0 then fail_op else
    ilock fuel ip ;;
    let* x := rdi ip in
    if ((i_type x =? T_DIR) && negb (omode =? O_RDONLY))%bool then fail_with ip else
    open_locked ip omode.

Definition sys_mkdir : M mem Z :=
  Log.begin_op fuel ;;
  let* path := argstr 0 MAXPATH in
  if path.1 <? 0 then fail_op else
  let* ip := create path.2 T_DIR 0 0 in
  if ip =? 0 then fail_op else
  iunlockput fuel ip ;;
  Log.end_op fuel ;;
  ret 0.

Definition sys_mknod : M mem Z :=
  Log.begin_op fuel ;;
  let* major := argint 1 in
  let* minor := argint 2 in
  let* path := argstr 0 MAXPATH in
  if path.1 <? 0 then fail_op else
  let* ip := create path.2 T_DEVICE (i16 major) (i16 minor) in
  if ip =? 0 then fail_op else
  iunlockput fuel ip ;;
  Log.end_op fuel ;;
  ret 0.

Definition sys_chdir : M mem Z :=
  let* i := curproc in
  Log.begin_op fuel ;;
  let* path := argstr 0 MAXPATH in
  if path.1 <? 0 then fail_op else
  let* ip := Fs.namei fuel path.2 in
  if ip =? 0 then fail_op else
  ilock fuel ip ;;
  let* x := rdi ip in
  if negb (i_type x =? T_DIR) then fail_with ip else
  iunlock ip ;;
  let* p := getp i in
  Fs.iput fuel (p_cwd p) ;;
  Log.end_op fuel ;;
  setp i (set_p_cwd ip) ;;
  ret 0.

(** ** [sys_exec] *)

(** The loop that fetches the arguments, [k] entries of [argv] being left: the
    pages with the strings in them, and whether all were fetched. *)
Fixpoint exec_args (k : nat) (uargv i : Z) (argv : list (Z * list Z)) : M mem (bool * list (Z * list Z)) :=
  match k with
  | O => ret (false, argv)
  | S k' =>
      let* a := fetchaddr (u64 (uargv + 8 * i)) in
      if a.1 <? 0 then ret (false, argv) else
      if a.2 =? 0 then ret (true, argv) else
      let* page := mem_op (fun m => Some (kalloc m)) in
      if page =? 0 then ret (false, argv) else
      let* s := fetchstr a.2 PGSIZE in
      if s.1 <? 0 then ret (false, argv ++ [(page, [])]) else
      run_mm (mem_write page s.2) ;;
      exec_args k' uargv (i + 1) (argv ++ [(page, s.2)])
  end.

(** [for (...) kfree(argv[i])] *)
Fixpoint free_args (argv : list (Z * list Z)) : M mem unit :=
  match argv with
  | [] => ret tt
  | (page, _) :: argv' =>
      mem_do (kfree page) ;;
      free_args argv'
  end.

Definition sys_exec : M mem Z :=
  let* uargv := argaddr 1 in
  let* path := argstr 0 MAXPATH in
  if path.1 <? 0 then ret (-1) else
  let* a := exec_args MAXARG uargv 0 [] in
  if a.1 then
    let* r := kexec fuel path.2 (map snd a.2) in
    free_args a.2 ;;
    ret r
  else
    free_args a.2 ;;
    ret (-1).

(** ** [sys_pipe] *)

Definition sys_pipe : M mem Z :=
  let* i := curproc in
  let* fdarray := argaddr 0 in
  let* r := pipealloc fuel in
  let '(ok, rf, wf) := r in
  if ok <? 0 then ret (-1) else
  let close2 :=
    fileclose fuel rf ;;
    fileclose fuel wf ;;
    ret (-1) in
  let* fd0 := fdalloc rf in
  if fd0 <? 0 then close2 else
  let* fd1 := fdalloc wf in
  if fd1 <? 0 then
    clear_fd i fd0 ;;
    close2
  else
  let undo :=
    clear_fd i fd0 ;;
    clear_fd i fd1 ;;
    close2 in
  let* p := getp i in
  let* r := mem_op (copyout (p_pagetable p) (p_sz p) fdarray (le_bytes 4 fd0)) in
  if r <? 0 then undo else
  let* r := mem_op (copyout (p_pagetable p) (p_sz p) (u64 (fdarray + 4)) (le_bytes 4 fd1)) in
  if r <? 0 then undo else
  ret 0.

End SysFile.
