(* ===== verification/FsTx.v ===== *)
(** * The state of an operation of the file system

    [tx V ks H m f]: in the middle of an operation that began with [D] on the
    disk, the blocks read as [V], the log lists the blocks [ks], the thread has the
    blocks of [H] locked in the buffers it names, and [m] is the memory beside
    buffers and log.  The rules for the steps of [fs.c] on it. *)

From stdpp Require Import base list gmap strings.
From Stdlib Require Import ZArith Lia.
From S2P Require Import Prelude KString KernelBase Proc FsBase FsLogic Bio BioFacts BioCache BioSpecs Log LogFacts LogTheorems LogTx Fs.

Open Scope Z_scope.

(** The blocks in the log after the blocks [js] were written. *)
Definition log_adds (js ks : list Z) : list Z := fold_left (fun ks j => log_add j ks) js ks.

Lemma log_adds_in js ks k : k ∈ log_adds js ks <-> k ∈ ks \/ k ∈ js.
Proof.
  unfold log_adds. revert ks. induction js as [|j js IH]; intros ks; cbn [fold_left]; [set_solver|].
  rewrite IH, log_add_in. set_solver.
Qed.

Lemma length_log_add j ks : (length (log_add j ks) <= length ks + 1)%nat.
Proof. unfold log_add. destruct (decide _); rewrite ?length_app; simpl; lia. Qed.

Lemma log_add_incl j ks k : k ∈ ks -> k ∈ log_add j ks.
Proof. rewrite log_add_in. auto. Qed.

Lemma log_add_self j ks : j ∈ log_add j ks.
Proof. rewrite log_add_in. auto. Qed.

#[export] Hint Resolve log_add_incl log_add_self : fs.

(** The references the operation has to block [k]. *)
Definition uses (ks : list Z) (H : gmap Z nat) (k : Z) : nat :=
  (if decide (k ∈ ks) then 1 else 0) + (match H !! k with Some _ => 1 | None => 0 end).

Definition uses_ok (P : gmap Z (nat * nat)) (ks : list Z) (H : gmap Z nat) : Prop := forall k,
  match P !! k with
  | Some (b, n) => n = uses ks H k /\ (0 < n)%nat /\ (forall b', H !! k = Some b' -> b' = b)
  | None => uses ks H k = 0%nat
  end.

Lemma uses_in ks H k : k ∈ ks -> uses ks H k = S (match H !! k with Some _ => 1 | None => 0 end).
Proof. intros Hk. unfold uses. by rewrite decide_True. Qed.

Lemma uses_le ks H k : (uses ks H k <= 2)%nat.
Proof. unfold uses. destruct (decide _), (H !! k); lia. Qed.

Lemma size_list_le (ks : list Z) : (size (list_to_set ks : gset Z) <= length ks)%nat.
Proof.
  induction ks as [|k ks IH]; simpl; [done|]. rewrite size_union_alt, size_singleton.
  assert (size (list_to_set ks ∖ {[k]} : gset Z) <= size (list_to_set ks : gset Z))%nat; [|lia]. apply subseteq_size. set_solver.
Qed.

Lemma uses_size P ks H : uses_ok P ks H -> (size P <= length ks + size H)%nat.
Proof.
  intros HP. rewrite <- (size_dom P). transitivity (size (list_to_set ks ∪ dom H : gset Z)).
  - apply subseteq_size. intros k [[b n] Hk]%elem_of_dom. specialize (HP k). rewrite Hk in HP.
    destruct HP as (-> & Hn & _). rewrite elem_of_union, elem_of_list_to_set, elem_of_dom.
    unfold uses in Hn. destruct (decide (k ∈ ks)); [by left|right]. destruct (H !! k); [eauto|lia].
  - rewrite size_union_alt, <- (size_dom H). pose proof (size_list_le ks).
    assert (size (dom H ∖ list_to_set ks) <= size (dom H))%nat; [|lia]. apply subseteq_size. set_solver.
Qed.

Section Tx.

Context {mem : Type} {cfg : config} {svc : services mem} {sym : symbols}.
Context {hfs : has_fs mem} {drv : disk_driver mem}.
Variable fuel : nat.
Variable R : kst mem -> kst mem -> Prop.
Context {dok : driver_ok mem R}.
Variable C : blocks -> Prop.
Variable me : nat.
Variable pid : Z.
Variable start dev : Z.
Hypothesis Hstart : 0 <= start /\ start + Z.of_nat LOGBLOCKS < 2 ^ 31.
Variable D : blocks.
Variable out ncom : Z.
Abbreviation fsp := (fsp R C me pid).
Implicit Types (V : blocks) (H : gmap Z nat) (ks : list Z) (m : fsmem).

Definition tx V ks H m (f : fsst) : Prop := exists P lg,
  view dev pid V D P ((fun _ => true) <$> H) (set_m_log lg m) f /\
  log_ok start dev (set_m_log lg m) ks /\
  (l_outstanding lg = out /\ l_committing lg = 0 /\ l_ncommit lg = ncom) /\
  uses_ok P ks H /\
  (forall k, V k = D k \/ k ∈ ks \/ is_Some (H !! k)).

#[export] Instance tx_proper : Proper (pointwise_relation Z eq ==> eq ==> eq ==> eq ==> eq ==> iff) tx.
Proof.
  assert (HP : forall V V' ks H m f, (forall k, V k = V' k) -> tx V ks H m f -> tx V' ks H m f).
  { intros V V' ks H m f HV (P & lg & Hv & Hlo & Ho & Hu & HD). exists P, lg. split_and!;
      [by eapply view_val|exact Hlo|apply Ho..|exact Hu|]. intros k. rewrite <- HV. apply HD. }
  intros V V' HV ks ? <- H ? <- m ? <- f ? <-. split; apply HP; intros k; [|symmetry]; apply HV.
Qed.

Lemma tx_mem V ks H m f : tx V ks H m f -> exists lg, f_mem f = set_m_log lg m.
Proof. intros (P & lg & (_ & Hm & _) & _). eauto. Qed.

(** A block nobody has locked is in the log or as it is on disk. *)
Lemma tx_clean V ks H m f k : tx V ks H m f -> H !! k = None -> k ∈ ks \/ V k = D k.
Proof. intros (P & lg & _ & _ & _ & _ & HD) HH. destruct (HD k) as [|[|[b Hb]]]; auto. congruence. Qed.

(** The memory of the inodes and of [sb] may be changed at will. *)
Lemma tx_set_mem V ks H m f (g : fsmem -> fsmem) : tx V ks H m f ->
  (forall lg m, g (set_m_log lg m) = set_m_log lg (g m)) -> tx V ks H (g m) (set_f_mem (g (f_mem f)) f).
Proof.
  intros (P & lg & (H1 & H2 & H3) & Hlo & Ho & Hu & HD) Hg. exists P, lg.
  split_and!; [|by destruct Hlo; split|apply Ho..|done|done].
  split_and!; [done| |done]. cbn [f_mem set_f_mem]. by rewrite H2, Hg.
Qed.

Lemma tx_getsb {A} V ks H m f (g : superblock -> A) L (Q : A -> list lockid -> fsst -> Prop) :
  tx V ks H m f -> Q (g (m_sb m)) L f -> fsp (getsb g) L f Q.
Proof. intros (lg & E)%tx_mem HQ. unfold getsb. fs_step. by rewrite E. Qed.

Lemma tx_geti V ks H m f i x L (Q : inode -> list lockid -> fsst -> Prop) :
  tx V ks H m f -> m_itable m !! i = Some x -> Q x L f -> fsp (geti i) L f Q.
Proof. intros (lg & E)%tx_mem Hi HQ. eapply fsp_geti; [by rewrite E|done]. Qed.

(** The inode at [i] replaced by [x]. *)
Definition put_inode (i : nat) (x : inode) (m : fsmem) : fsmem := set_m_itable (<[i := x]> (m_itable m)) m.

Lemma tx_seti V ks H m f i g x L (Q : unit -> list lockid -> fsst -> Prop) :
  tx V ks H m f -> m_itable m !! i = Some x ->
  (forall f', tx V ks H (put_inode i (g x) m) f' -> Q tt L f') -> fsp (seti i g) L f Q.
Proof.
  intros Ht Hi HQ. destruct (tx_mem _ _ _ _ _ Ht) as (lg & E). eapply fsp_seti; [by rewrite E|].
  apply HQ. by apply (tx_set_mem V ks H m f (put_inode i (g x))).
Qed.

(** Two states of the references: one block taken or dropped. *)
Lemma uses_take P ks H k b n : uses_ok P ks H -> H !! k = None -> n = uses ks H k ->
  (forall j n, P !! k = Some (j, n) -> j = b) -> uses_ok (<[k := (b, S n)]> P) ks (<[k := b]> H).
Proof.
  intros HP HH -> Hj k'. destruct (decide (k' = k)) as [->|Hne].
  - rewrite lookup_insert_eq. unfold uses. rewrite lookup_insert_eq, HH. split_and!; [lia|lia|congruence].
  - specialize (HP k'). unfold uses in *. by rewrite !lookup_insert_ne by done.
Qed.

Lemma uses_drop P ks H k b n : uses_ok P ks H -> P !! k = Some (b, S n) -> H !! k = Some b ->
  uses_ok (match n with O => delete k P | S _ => <[k := (b, n)]> P end) ks (delete k H).
Proof.
  intros HP HPk HH k'. pose proof (HP k) as Hk. rewrite HPk in Hk. destruct Hk as (Hn & _ & _).
  unfold uses in Hn. rewrite HH in Hn. specialize (HP k'). unfold uses in *. destruct (decide (k' = k)) as [->|Hne].
  - rewrite lookup_delete_eq. destruct n; [rewrite lookup_delete_eq; lia|].
    rewrite lookup_insert_eq. split_and!; [lia|lia|done].
  - rewrite lookup_delete_ne by done. destruct n; [by rewrite lookup_delete_ne|by rewrite lookup_insert_ne].
Qed.

Lemma uses_refs P ks H k : uses_ok P ks H -> refs P k = uses ks H k.
Proof. intros HP. specialize (HP k). unfold refs. destruct (P !! k) as [[b n]|]; [by destruct HP|done]. Qed.

Lemma uses_held P ks H k b : uses_ok P ks H -> H !! k = Some b ->
  exists n, P !! k = Some (b, S n) /\ S n = uses ks H k /\ ((fun _ : nat => true) <$> H) !! k = Some true.
Proof.
  intros HP HH. specialize (HP k). assert (Hu : (0 < uses ks H k)%nat) by (unfold uses; rewrite HH; lia).
  destruct (P !! k) as [[b' n]|]; [|lia]. destruct HP as (-> & Hn & Hb). rewrite (Hb b HH).
  destruct (uses ks H k) as [|n] eqn:E; [lia|]. exists n. by rewrite lookup_fmap, HH.
Qed.

Lemma tx_bread V ks H m f k (Q : nat -> list lockid -> fsst -> Prop) :
  tx V ks H m f -> C D -> H !! k = None -> (length ks + size H < NBUF)%nat ->
  (forall b f', tx V ks (<[k := b]> H) m f' -> Q b [] f') -> fsp (bread fuel dev k) [] f Q.
Proof.
  intros (P & lg & Hv & Hlo & Ho & Hu & HD) HC HH Hroom HQ. pose proof (uses_size _ _ _ Hu).
  pose proof (uses_le ks H k). pose proof (uses_refs _ _ _ k Hu) as Hr.
  eapply (v_bread fuel R C); [done|done|by rewrite lookup_fmap, HH|rewrite Hr; lia|right; lia|].
  intros b f' Hj Hv'. apply HQ. eexists _, lg. split_and!; [|exact Hlo|apply Ho..| |].
  - rewrite fmap_insert. exact Hv'.
  - apply uses_take; done.
  - intros k'. destruct (HD k') as [?|[?|[b' Hb']]]; [auto|auto|]. right; right. destruct (decide (k' = k)) as [->|?].
    + congruence.
    + rewrite lookup_insert_ne by done. eauto.
Qed.

Lemma tx_getdata V ks H m f k b L (Q : list Z -> list lockid -> fsst -> Prop) :
  tx V ks H m f -> H !! k = Some b -> Q (V k) L f -> fsp (getdata b) L f Q.
Proof.
  intros (P & lg & Hv & Hlo & Ho & Hu & HD) HH HQ. destruct (uses_held _ _ _ _ _ Hu HH) as (n & HP & _ & HK).
  unfold getdata. fs_step. eapply v_data; [exact Hv|exact HP|exact HK|]. intros x Hx _. fs_step. by rewrite Hx.
Qed.

Lemma tx_setdata V ks H m f k b g L (Q : unit -> list lockid -> fsst -> Prop) :
  tx V ks H m f -> H !! k = Some b -> (forall f', tx (upd V k (g (V k))) ks H m f' -> Q tt L f') ->
  fsp (setdata b g) L f Q.
Proof.
  intros (P & lg & Hv & Hlo & Ho & Hu & HD) HH HQ. destruct (uses_held _ _ _ _ _ Hu HH) as (n & HP & _ & HK).
  unfold setdata. eapply v_set_data; [exact Hv|exact HP|exact HK|]. intros f' Hv'. apply HQ. exists P, lg.
  split_and!; [exact Hv'|exact Hlo|apply Ho..|exact Hu|]. intros k'. destruct (decide (k' = k)) as [->|?]; [eauto|].
  rewrite upd_ne by done. auto.
Qed.

Lemma uses_log P ks H k b n : uses_ok P ks H -> P !! k = Some (b, n) -> H !! k = Some b ->
  uses_ok (if decide (k ∈ ks) then P else <[k := (b, S n)]> P) (log_add k ks) H.
Proof.
  intros HP HPk HH. unfold log_add. destruct (decide (k ∈ ks)) as [Hin|Hin]; [done|].
  pose proof (HP k) as Hk. rewrite HPk in Hk. destruct Hk as (Hn & _ & _). unfold uses in Hn.
  rewrite HH, decide_False in Hn by done. intros k'. destruct (decide (k' = k)) as [->|Hne].
  - rewrite lookup_insert_eq. unfold uses. rewrite HH, decide_True by set_solver. split_and!; [lia|lia|congruence].
  - specialize (HP k'). rewrite lookup_insert_ne by done. unfold uses in *.
    destruct (decide (k' ∈ ks)), (decide (k' ∈ ks ++ [k])); try done; set_solver.
Qed.

Lemma tx_log_write V ks H m f k b (Q : unit -> list lockid -> fsst -> Prop) :
  tx V ks H m f -> H !! k = Some b -> 0 <= k < 2 ^ 32 -> ~ in_log start k -> (length ks < LOGBLOCKS)%nat -> 1 <= out ->
  (forall f', tx V (log_add k ks) H m f' -> Q tt [] f') -> fsp (log_write b) [] f Q.
Proof.
  intros (P & lg & Hv & Hlo & (Ho & Hc & Hn) & Hu & HD) HH Hk Hl Hroom Hout HQ.
  destruct (uses_held _ _ _ _ _ Hu HH) as (n & HP & En & HK). pose proof (uses_le ks H k).
  eapply (v_log_write R C me pid start dev Hstart V D P _ (set_m_log lg m) ks f k b (S n));
    [exact Hv|exact Hlo|exact HP|exact HK|lia|done|done|done|cbn [m_log set_m_log]; lia|].
  intros lg' f' Hlo' (Ho' & Hc' & Hn' & Hx) Hv'. apply HQ. unfold only_log in Hx.
  eexists _, (m_log lg'). change (set_m_log (m_log lg') m) with (set_m_log (m_log lg') (set_m_log lg m)). rewrite <- Hx.
  split_and!; [exact Hv'|exact Hlo'|cbn [m_log set_m_log] in *; congruence..|by apply uses_log|].
  intros k'. destruct (HD k') as [?|[?|?]]; auto with fs.
Qed.

Lemma tx_brelse V ks H m f k b (Q : unit -> list lockid -> fsst -> Prop) :
  tx V ks H m f -> H !! k = Some b -> (k ∈ ks \/ V k = D k) ->
  (forall f', tx V ks (delete k H) m f' -> Q tt [] f') -> fsp (brelse b) [] f Q.
Proof.
  intros (P & lg & Hv & Hlo & Ho & Hu & HD) HH Hk HQ. destruct (uses_held _ _ _ _ _ Hu HH) as (n & HP & En & HK).
  eapply (v_brelse R C me dev pid _ _ _ _ _ _ k b n); [exact Hv|exact HP|exact HK| |].
  { intros ->. destruct Hk as [Hk|Hk]; [|done]. rewrite (uses_in ks H k Hk), HH in En. lia. }
  intros f' Hv'. apply HQ. eexists _, lg. split_and!; [|exact Hlo|apply Ho..|by apply uses_drop|].
  - rewrite fmap_delete. exact Hv'.
  - intros k'. destruct (decide (k' = k)) as [->|?]; [destruct Hk; auto|]. rewrite lookup_delete_ne by done. auto.
Qed.

End Tx.
