(* ===== verification/FsAlloc.v ===== *)
(** * The block allocator of [fs.c]

    The bitmap as a set of used blocks, and what [balloc] and [bfree] do to it. *)

From stdpp Require Import base list gmap strings.
From Stdlib Require Import ZArith Lia.
From S2P Require Import Prelude KString KernelBase Proc FsBase FsLogic Bio BioFacts BioCache BioSpecs Log LogFacts LogTheorems LogTx Fs FsTx.

Open Scope Z_scope.

(** ** Blocks and bits *)

(** What the bytes of a disk block are. *)
Definition block_ok (l : list Z) : Prop := length l = BSIZE /\ Forall (fun v => 0 <= v < 256) l.

Definition blocks_ok (V : blocks) : Prop := forall k, block_ok (V k).

Lemma blocks_ok_upd V k l : blocks_ok V -> block_ok l -> blocks_ok (upd V k l).
Proof. intros HV Hl j. unfold upd. by destruct (j =? k). Qed.

Lemma block_ok_zero : block_ok (replicate BSIZE 0).
Proof. split; [apply length_replicate|]. apply Forall_replicate. lia. Qed.

#[export] Hint Resolve blocks_ok_upd block_ok_zero : fs.

Lemma BSIZE_val : BSIZE = 1024%nat.
Proof. done. Qed.

Lemma BPB_val : BPB = 8192.
Proof. done. Qed.

Lemma IPB_val : IPB = 16.
Proof. done. Qed.

(** Bit [i] of the bytes [l]. *)
Definition bit (l : list Z) (i : Z) : bool := Z.testbit (default 0 (l !! Z.to_nat (i / 8))) (i mod 8).

Definition set_bit (i : Z) (l : list Z) : list Z :=
  <[Z.to_nat (i / 8) := Z.lor (default 0 (l !! Z.to_nat (i / 8))) (Z.shiftl 1 (i mod 8))]> l.

Definition clear_bit (i : Z) (l : list Z) : list Z :=
  <[Z.to_nat (i / 8) := Z.ldiff (default 0 (l !! Z.to_nat (i / 8))) (Z.shiftl 1 (i mod 8))]> l.

Lemma testbit_pow i j : 0 <= i -> 0 <= j -> Z.testbit (Z.shiftl 1 i) j = (i =? j).
Proof. intros Hi Hj. rewrite Z.shiftl_1_l. apply Z.pow2_bits_eqb; lia. Qed.

Lemma land_bit v i : 0 <= i -> (Z.land v (Z.shiftl 1 i) =? 0) = negb (Z.testbit v i).
Proof.
  intros Hi. destruct (Z.testbit v i) eqn:E; simpl.
  - apply Z.eqb_neq. intros H0. assert (H1 := f_equal (fun z => Z.testbit z i) H0). cbv beta in H1.
    rewrite Z.land_spec, E, testbit_pow, Z.eqb_refl, Z.bits_0 in H1 by lia. done.
  - apply Z.eqb_eq, Z.bits_inj_0. intros j. rewrite Z.land_spec. destruct (Z.ltb_spec j 0); [by rewrite !Z.testbit_neg_r|].
    rewrite testbit_pow by lia. destruct (Z.eqb_spec i j) as [->|]; [by rewrite E|by rewrite andb_false_r].
Qed.

(** Two bits are in the same place only if they are the same. *)
Lemma bit_place i j : 0 <= i -> 0 <= j -> Z.to_nat (i / 8) = Z.to_nat (j / 8) -> i mod 8 = j mod 8 -> i = j.
Proof.
  intros Hi Hj H1 H2. pose proof (Z.div_pos i 8 Hi ltac:(lia)). pose proof (Z.div_pos j 8 Hj ltac:(lia)).
  rewrite (Z.div_mod i 8), (Z.div_mod j 8) by lia. assert (i / 8 = j / 8) as -> by lia. by rewrite H2.
Qed.

(** A change to one bit of a byte is a change to one bit of the block. *)
Lemma bit_insert l i j w : 0 <= i < Z.of_nat (length l) * 8 -> 0 <= j ->
  (forall r, 0 <= r -> r <> i mod 8 -> Z.testbit w r = Z.testbit (default 0 (l !! Z.to_nat (i / 8))) r) ->
  bit (<[Z.to_nat (i / 8) := w]> l) j = if i =? j then Z.testbit w (i mod 8) else bit l j.
Proof.
  intros Hi Hj Hw. unfold bit. pose proof (Z.mod_pos_bound j 8 ltac:(lia)).
  assert (Hlt : (Z.to_nat (i / 8) < length l)%nat).
  { pose proof (Z.div_lt_upper_bound i 8 (Z.of_nat (length l))). pose proof (Z.div_pos i 8). lia. }
  destruct (decide (Z.to_nat (i / 8) = Z.to_nat (j / 8))) as [E|E].
  - rewrite <- E, list_lookup_insert_eq by done. cbn [default]. destruct (Z.eqb_spec i j) as [->|Hne]; [done|].
    apply Hw; [lia|]. intros E'. apply Hne, bit_place; auto; lia.
  - rewrite list_lookup_insert_ne by done. destruct (Z.eqb_spec i j) as [->|]; done.
Qed.

Lemma bit_set l i j : 0 <= i < Z.of_nat (length l) * 8 -> 0 <= j -> bit (set_bit i l) j = ((i =? j) || bit l j)%bool.
Proof.
  intros Hi Hj. pose proof (Z.mod_pos_bound i 8 ltac:(lia)). unfold set_bit. rewrite bit_insert; [|done|done|].
  - destruct (i =? j); [|done]. rewrite Z.lor_spec, testbit_pow, Z.eqb_refl by lia. by rewrite orb_true_r.
  - intros r Hr Hne. rewrite Z.lor_spec, testbit_pow by lia. rewrite (proj2 (Z.eqb_neq _ _)) by lia. apply orb_false_r.
Qed.

Lemma bit_clear l i j : 0 <= i < Z.of_nat (length l) * 8 -> 0 <= j -> bit (clear_bit i l) j = (negb (i =? j) && bit l j)%bool.
Proof.
  intros Hi Hj. pose proof (Z.mod_pos_bound i 8 ltac:(lia)). unfold clear_bit. rewrite bit_insert; [|done|done|].
  - destruct (i =? j); [|done]. rewrite Z.ldiff_spec, testbit_pow, Z.eqb_refl by lia. by rewrite andb_false_r.
  - intros r Hr Hne. rewrite Z.ldiff_spec, testbit_pow by lia. rewrite (proj2 (Z.eqb_neq _ _)) by lia. apply andb_true_r.
Qed.

Lemma byte_lookup l i : Forall (fun v => 0 <= v < 256) l -> 0 <= default 0 (l !! i) < 256.
Proof. intros Hl. destruct (l !! i) eqn:E; simpl; [|lia]. by apply (proj1 (Forall_lookup _ _) Hl i). Qed.

Lemma byte_bits v : 0 <= v < 256 <-> 0 <= v /\ forall j, 8 <= j -> Z.testbit v j = false.
Proof.
  split.
  - intros Hv. split; [lia|]. intros j Hj. destruct (decide (v = 0)) as [->|Hv0]; [apply Z.bits_0|].
    apply Z.bits_above_log2; [lia|]. assert (Z.log2 v < 8); [|lia]. apply Z.log2_lt_pow2; lia.
  - intros [Hv Hb]. split; [done|]. destruct (decide (v = 0)) as [->|Hv0]; [lia|].
    change 256 with (2 ^ 8). apply Z.log2_lt_pow2; [lia|].
    destruct (Z.lt_ge_cases (Z.log2 v) 8) as [|Hge]; [done|]. specialize (Hb _ Hge).
    by rewrite Z.bit_log2 in Hb by lia.
Qed.

Lemma lor_byte v i : 0 <= v < 256 -> 0 <= i < 8 -> 0 <= Z.lor v (Z.shiftl 1 i) < 256.
Proof.
  intros [Hv Hb]%byte_bits Hi. apply byte_bits. split.
  - apply Z.lor_nonneg. split; [done|]. by apply Z.shiftl_nonneg.
  - intros j Hj. rewrite Z.lor_spec, Hb, testbit_pow by lia. apply Z.eqb_neq. lia.
Qed.

Lemma ldiff_byte v m : 0 <= v < 256 -> 0 <= Z.ldiff v m < 256.
Proof.
  intros [Hv Hb]%byte_bits. apply byte_bits. split; [apply Z.ldiff_nonneg; by left|].
  intros j Hj. rewrite Z.ldiff_spec, Hb by lia. done.
Qed.

Lemma block_ok_insert l i v : block_ok l -> 0 <= v < 256 -> block_ok (<[i := v]> l).
Proof. intros [H1 H2] Hv. split; [by rewrite length_insert|]. by apply Forall_insert. Qed.

Lemma block_ok_set i l : block_ok l -> block_ok (set_bit i l).
Proof.
  intros Hl. apply block_ok_insert; [done|]. apply lor_byte; [apply byte_lookup, Hl|apply Z.mod_pos_bound; lia].
Qed.

Lemma block_ok_clear i l : block_ok l -> block_ok (clear_bit i l).
Proof. intros Hl. apply block_ok_insert; [done|]. apply ldiff_byte, byte_lookup, Hl. Qed.

#[export] Hint Resolve block_ok_set block_ok_clear : fs.

(** ** The layout of the disk *)

(** The log, the inodes and the bitmap follow each other, and the bitmap ends
    before the end of the disk. *)
Record geometry (start : Z) (sb : superblock) : Prop := {
  g_start : 0 <= start;
  g_log : start + Z.of_nat LOGBLOCKS < sb_inodestart sb;
  g_ninodes : 0 <= sb_ninodes sb < 2 ^ 31;
  g_inodes : sb_inodestart sb + sb_ninodes sb / IPB < sb_bmapstart sb;
  g_bmap : sb_bmapstart sb + sb_size sb / BPB < sb_size sb;
  g_size : sb_size sb < 2 ^ 31
}.

(** The first block after the bitmap. *)
Definition meta_end (sb : superblock) : Z := sb_bmapstart sb + sb_size sb / BPB + 1.

(** Block [b] is marked in use. *)
Definition used (sb : superblock) (V : blocks) (b : Z) : bool := bit (V (BBLOCK b (sb_bmapstart sb))) (b mod BPB).

(** The blocks before the data blocks are marked in use. *)
Definition meta_used (sb : superblock) (V : blocks) : Prop := forall b, 0 <= b < meta_end sb -> used sb V b = true.

Section Layout.

Variable start : Z.
Variable sb : superblock.
Hypothesis Hg : geometry start sb.
Implicit Types (V : blocks) (b k : Z).

Lemma g_pos : 0 < sb_inodestart sb /\ 0 < sb_bmapstart sb /\ 0 < sb_size sb /\ 0 <= sb_size sb / BPB /\ 0 <= sb_ninodes sb / IPB.
Proof.
  destruct Hg. assert (0 <= sb_ninodes sb / IPB) by (apply Z.div_pos; rewrite ?IPB_val; lia).
  destruct (Z.lt_ge_cases (sb_size sb) 0) as [Hs|Hs].
  - pose proof (Z.div_mod (sb_size sb) BPB) as E. pose proof (Z.mod_pos_bound (sb_size sb) BPB). rewrite BPB_val in *. lia.
  - assert (0 <= sb_size sb / BPB) by (apply Z.div_pos; rewrite ?BPB_val; lia). lia.
Qed.

Lemma BBLOCK_eq b : 0 <= b < sb_size sb -> BBLOCK b (sb_bmapstart sb) = b / BPB + sb_bmapstart sb.
Proof.
  intros Hb. pose proof g_pos. destruct Hg. assert (0 <= b / BPB <= sb_size sb / BPB).
  { split; [apply Z.div_pos|apply Z.div_le_mono]; rewrite ?BPB_val; lia. }
  apply Z.mod_small. lia.
Qed.

Lemma BBLOCK_range b : 0 <= b < sb_size sb ->
  sb_bmapstart sb <= BBLOCK b (sb_bmapstart sb) < meta_end sb.
Proof.
  intros Hb. rewrite BBLOCK_eq by done. unfold meta_end. pose proof g_pos.
  assert (0 <= b / BPB <= sb_size sb / BPB); [|lia].
  split; [apply Z.div_pos|apply Z.div_le_mono]; rewrite ?BPB_val; lia.
Qed.

Lemma past_log k : sb_inodestart sb <= k -> ~ in_log start k.
Proof. destruct Hg. unfold in_log. lia. Qed.

Lemma BBLOCK_writable b : 0 <= b < sb_size sb ->
  0 <= BBLOCK b (sb_bmapstart sb) < 2 ^ 32 /\ ~ in_log start (BBLOCK b (sb_bmapstart sb)).
Proof.
  intros Hb. pose proof (BBLOCK_range b Hb) as Hr. pose proof g_pos. unfold meta_end in Hr. destruct Hg.
  split; [lia|]. apply past_log. lia.
Qed.

(** Blocks are told apart by their bitmap block and their bit in it. *)
Lemma bit_block b b' : 0 <= b < sb_size sb -> 0 <= b' < sb_size sb ->
  BBLOCK b (sb_bmapstart sb) = BBLOCK b' (sb_bmapstart sb) -> b mod BPB = b' mod BPB -> b = b'.
Proof.
  intros Hb Hb' H1 H2. rewrite !BBLOCK_eq in H1 by done. rewrite (Z.div_mod b BPB), (Z.div_mod b' BPB), H2 by done. lia.
Qed.

(** The bitmap after a change to the bit of block [b]. *)
Lemma used_upd V b b' l : blocks_ok V -> 0 <= b < sb_size sb -> 0 <= b' < sb_size sb ->
  used sb (upd V (BBLOCK b (sb_bmapstart sb)) l) b' =
  if BBLOCK b' (sb_bmapstart sb) =? BBLOCK b (sb_bmapstart sb) then bit l (b' mod BPB) else used sb V b'.
Proof. intros HV Hb Hb'. unfold used, upd. by destruct (_ =? _). Qed.

Lemma bit_range V b : blocks_ok V -> 0 <= b mod BPB < Z.of_nat (length (V (BBLOCK b (sb_bmapstart sb)))) * 8.
Proof. intros HV. destruct (HV (BBLOCK b (sb_bmapstart sb))) as [-> _]. apply Z.mod_pos_bound. done. Qed.

Lemma used_set V b b' : blocks_ok V -> 0 <= b < sb_size sb -> 0 <= b' < sb_size sb ->
  used sb (upd V (BBLOCK b (sb_bmapstart sb)) (set_bit (b mod BPB) (V (BBLOCK b (sb_bmapstart sb))))) b' = ((b =? b') || used sb V b')%bool.
Proof.
  intros HV Hb Hb'. rewrite used_upd by done. pose proof (bit_range V b HV).
  pose proof (Z.mod_pos_bound b' BPB ltac:(done)). destruct (Z.eqb_spec (BBLOCK b' (sb_bmapstart sb)) (BBLOCK b (sb_bmapstart sb))) as [E|E].
  - rewrite bit_set by lia. unfold used. rewrite E. f_equal.
    destruct (Z.eqb_spec b b') as [->|Hne]; [by rewrite Z.eqb_refl|].
    apply Z.eqb_neq. intros E'. by apply Hne, bit_block.
  - destruct (Z.eqb_spec b b') as [->|Hne]; [congruence|done].
Qed.

Lemma used_clear V b b' : blocks_ok V -> 0 <= b < sb_size sb -> 0 <= b' < sb_size sb ->
  used sb (upd V (BBLOCK b (sb_bmapstart sb)) (clear_bit (b mod BPB) (V (BBLOCK b (sb_bmapstart sb))))) b' = (negb (b =? b') && used sb V b')%bool.
Proof.
  intros HV Hb Hb'. rewrite used_upd by done. pose proof (bit_range V b HV).
  pose proof (Z.mod_pos_bound b' BPB ltac:(done)). destruct (Z.eqb_spec (BBLOCK b' (sb_bmapstart sb)) (BBLOCK b (sb_bmapstart sb))) as [E|E].
  - rewrite bit_clear by lia. unfold used. rewrite E. f_equal.
    destruct (Z.eqb_spec b b') as [->|Hne]; [by rewrite Z.eqb_refl|].
    f_equal. apply Z.eqb_neq. intros E'. by apply Hne, bit_block.
  - destruct (Z.eqb_spec b b') as [->|Hne]; [congruence|done].
Qed.

(** A block that is not part of the bitmap does not matter. *)
Lemma used_data V k l b : 0 <= b < sb_size sb -> meta_end sb <= k \/ k < sb_bmapstart sb -> used sb (upd V k l) b = used sb V b.
Proof. intros Hb Hk. unfold used. pose proof (BBLOCK_range b Hb). rewrite upd_ne by lia. done. Qed.

(** The blocks after [balloc] took block [b]. *)
Definition allocated V b : blocks :=
  upd (upd V (BBLOCK b (sb_bmapstart sb)) (set_bit (b mod BPB) (V (BBLOCK b (sb_bmapstart sb))))) b (replicate BSIZE 0).

(** The blocks after [bfree] of block [b]. *)
Definition freed V b : blocks :=
  upd V (BBLOCK b (sb_bmapstart sb)) (clear_bit (b mod BPB) (V (BBLOCK b (sb_bmapstart sb)))).

Lemma used_allocated V b b' : blocks_ok V -> meta_end sb <= b < sb_size sb -> 0 <= b' < sb_size sb ->
  used sb (allocated V b) b' = ((b =? b') || used sb V b')%bool.
Proof.
  intros HV Hb Hb'. assert (0 <= b). { pose proof g_pos. unfold meta_end in Hb. lia. }
  unfold allocated. rewrite used_data by lia. apply used_set; [done|lia|done].
Qed.

Lemma allocated_other V b k : k <> b -> k <> BBLOCK b (sb_bmapstart sb) -> allocated V b k = V k.
Proof. intros H1 H2. unfold allocated. by rewrite !upd_ne. Qed.

Lemma allocated_ok V b : blocks_ok V -> blocks_ok (allocated V b).
Proof. unfold allocated. auto with fs. Qed.

Lemma freed_ok V b : blocks_ok V -> blocks_ok (freed V b).
Proof. unfold freed. auto with fs. Qed.

Lemma meta_allocated V b : blocks_ok V -> meta_end sb <= b < sb_size sb -> meta_used sb V -> meta_used sb (allocated V b).
Proof.
  intros HV Hb Hm b' Hb'. rewrite used_allocated by (unfold meta_end in *; destruct Hg; lia || done).
  rewrite Hm by done. apply orb_true_r.
Qed.

End Layout.

(** ** [balloc] and [bfree] *)

Section Alloc.

Context {mem : Type} {cfg : config} {svc : services mem} {sym : symbols}.
Context {hfs : has_fs mem} {drv : disk_driver mem}.
Variable fuel : nat.
Variable R : kst mem -> kst mem -> Prop.
Context {dok : driver_ok mem R}.
Variable C : blocks -> Prop.
Variable me : nat.
Variable pid : Z.
Variable start dev : Z.
Hypothesis Hstart : 0 <= start /\ start + Z.of_nat LOGBLOCKS < 2 ^ 31.
Variable D : blocks.
Hypothesis HC : C D.
Variable out ncom : Z.
Hypothesis Hout : 1 <= out.
Abbreviation fsp := (fsp R C me pid).
Abbreviation tx := (tx pid start dev D out ncom).
Implicit Types (V : blocks) (H : gmap Z nat) (ks : list Z) (m : fsmem).

Lemma tx_dev V ks H m f : tx V ks H m f -> u32 dev = dev.
Proof.
  intros (P & lg & _ & Hlo & _). rewrite <- (lo_dev _ _ _ _ Hlo). apply Z.mod_mod. lia.
Qed.

(** [bread]; a change; [log_write]; [brelse]. *)
Lemma tx_update V ks H m f k g (Q : unit -> list lockid -> fsst -> Prop) :
  tx V ks H m f -> H !! k = None -> 0 <= k < 2 ^ 32 -> ~ in_log start k -> (length ks + size H < NBUF)%nat ->
  (forall f', tx (upd V k (g (V k))) (log_add k ks) H m f' -> Q tt [] f') ->
  fsp (bread fuel dev k) [] f (fun bp L f1 => fsp (setdata bp g ;; log_write bp ;; brelse bp) L f1 Q).
Proof.
  intros Ht HH Hk Hl Hroom HQ. eapply (tx_bread fuel R C); [exact Ht|done|done|done|]. intros b f1 Ht1.
  fs_step. eapply (tx_setdata R C me pid start dev D out ncom _ _ _ _ _ k b); [exact Ht1|by simplify_map_eq|]. intros f2 Ht2.
  fs_step. assert (NBUF = LOGBLOCKS) by done.
  eapply (tx_log_write R C me pid start dev Hstart D out ncom _ _ _ _ _ k b); [exact Ht2|by simplify_map_eq|done|done|lia|done|].
  intros f3 Ht3.
  eapply (tx_brelse R C me pid start dev D out ncom _ _ _ _ _ k b); [exact Ht3|by simplify_map_eq|left; auto with fs|].
  intros f4 Ht4. apply HQ. by rewrite delete_insert_id in Ht4.
Qed.

Lemma tx_bzero V ks H m f k (Q : unit -> list lockid -> fsst -> Prop) :
  tx V ks H m f -> H !! k = None -> 0 <= k < 2 ^ 32 -> ~ in_log start k -> (length ks + size H < NBUF)%nat ->
  (forall f', tx (upd V k (replicate BSIZE 0)) (log_add k ks) H m f' -> Q tt [] f') -> fsp (bzero fuel dev k) [] f Q.
Proof.
  intros Ht HH Hk. unfold bzero. rewrite (tx_dev _ _ _ _ _ Ht). unfold u32. rewrite Z.mod_small by done.
  intros. fs_step. by apply (tx_update V ks H m f k (fun _ => replicate BSIZE 0)).
Qed.

Lemma tx_balloc_bits n bp b bi V ks H m f k L (Q : option Z -> list lockid -> fsst -> Prop) :
  tx V ks H m f -> H !! k = Some bp -> block_ok (V k) -> 0 <= bi -> BPB - bi <= Z.of_nat n ->
  0 <= b -> b + BPB < 2 ^ 32 ->
  (forall i f', bi <= i < BPB -> b + i < sb_size (m_sb m) -> bit (V k) i = false ->
     (forall j, bi <= j < i -> bit (V k) j = true) -> tx (upd V k (set_bit i (V k))) ks H m f' -> Q (Some i) L f') ->
  ((forall j, bi <= j < BPB -> b + j < sb_size (m_sb m) -> bit (V k) j = true) -> Q None L f) ->
  fsp (balloc_bits n bp b bi) L f Q.
Proof.
  intros Ht HH Hok. revert bi. induction n as [|n IH]; intros bi Hbi Hn Hb HbB HS HN; cbn [balloc_bits];
    fs_step; (eapply (tx_getsb R C); [exact Ht|]).
  { rewrite (proj2 (Z.ltb_ge bi BPB)) by lia. cbn [andb]. fs_step. apply HN. intros j Hj. lia. }
  destruct (Z.ltb_spec bi BPB) as [Hlt|Hge]; cbn [andb]; [|fs_step; apply HN; intros j Hj; lia].
  unfold u32. rewrite Z.mod_small by lia.
  destruct (Z.ltb_spec (b + bi) (sb_size (m_sb m))) as [Hs|Hs]; [|fs_step; apply HN; intros j Hj; lia].
  fs_step. eapply (tx_getdata R C me pid start dev D out ncom _ _ _ _ _ k bp); [exact Ht|done|].
  destruct (lookup_lt_is_Some_2 (V k) (Z.to_nat (bi / 8))) as [v Hv].
  { destruct Hok as [-> _]. pose proof (Z.div_lt_upper_bound bi 8 (Z.of_nat BSIZE)). rewrite BPB_val, BSIZE_val in *. lia. }
  fs_step. rewrite Hv. cbn [of_opt]. fs_step. rewrite land_bit by (apply Z.mod_pos_bound; lia).
  assert (Eb : bit (V k) bi = Z.testbit v (bi mod 8)) by (unfold bit; by rewrite Hv). rewrite <- Eb.
  destruct (bit (V k) bi) eqn:E; cbn [negb].
  - apply IH; [lia|lia|done|done| |].
    + intros i f' Hi Hsi Hbit Hbefore Ht'. apply (HS i f'); [lia|done|done| |done].
      intros j Hj. destruct (decide (j = bi)) as [->|]; [done|apply Hbefore; lia].
    + intros Hall. apply HN. intros j Hj Hsj. destruct (decide (j = bi)) as [->|]; [done|apply Hall; lia].
  - fs_step. eapply (tx_setdata R C me pid start dev D out ncom _ _ _ _ _ k bp); [exact Ht|done|]. intros f' Ht'. fs_step.
    apply HS; [lia|done|done|intros j Hj; lia|]. unfold set_bit. by rewrite Hv.
Qed.

(** The bits of one bitmap block. *)
Lemma bitmap_block sb V b i : geometry start sb -> 0 <= b -> b mod BPB = 0 -> 0 <= i < BPB -> b + i < sb_size sb ->
  BBLOCK (b + i) (sb_bmapstart sb) = BBLOCK b (sb_bmapstart sb) /\ used sb V (b + i) = bit (V (BBLOCK b (sb_bmapstart sb))) i /\
  (b + i) mod BPB = i.
Proof.
  intros Hg Hb Hm Hi Hs. pose proof (Z.div_mod b BPB ltac:(done)) as E. rewrite Hm in E.
  assert (E1 : (b + i) / BPB = b / BPB) by (symmetry; apply Z.div_unique with i; lia).
  assert (E2 : (b + i) mod BPB = i) by (symmetry; apply Z.mod_unique with (b / BPB); lia).
  assert (E3 : BBLOCK (b + i) (sb_bmapstart sb) = BBLOCK b (sb_bmapstart sb)) by (unfold BBLOCK; by rewrite E1).
  split_and!; [done| |done]. unfold used. by rewrite E3, E2.
Qed.

(** What [balloc] needs of the blocks and of the buffers in use. *)
Record alloc_pre V H m : Prop := {
  ap_geo : geometry start (m_sb m);
  ap_ok : blocks_ok V;
  ap_meta : meta_used (m_sb m) V;
  ap_bmap k : sb_bmapstart (m_sb m) <= k < meta_end (m_sb m) -> H !! k = None;
  ap_free b : 0 <= b < sb_size (m_sb m) -> used (m_sb m) V b = false -> H !! b = None
}.

Lemma tx_balloc_loop n b V ks H m f (Q : Z -> list lockid -> fsst -> Prop) :
  tx V ks H m f -> alloc_pre V H m -> (length ks + size H + 1 < NBUF)%nat ->
  0 <= b -> b mod BPB = 0 -> sb_size (m_sb m) - b <= Z.of_nat n * BPB -> b < 2 ^ 31 + BPB ->
  (forall j, 0 <= j < b -> j < sb_size (m_sb m) -> used (m_sb m) V j = true) ->
  (forall a f', meta_end (m_sb m) <= a < sb_size (m_sb m) -> used (m_sb m) V a = false ->
     (forall j, 0 <= j < a -> used (m_sb m) V j = true) ->
     tx (allocated (m_sb m) V a) (log_add a (log_add (BBLOCK a (sb_bmapstart (m_sb m))) ks)) H m f' -> Q a [] f') ->
  (forall f', (forall j, 0 <= j < sb_size (m_sb m) -> used (m_sb m) V j = true) -> tx V ks H m f' -> Q 0 [] f') ->
  fsp (balloc_loop fuel n dev b) [] f Q.
Proof.
  intros Ht [Hg HV Hmeta Hbm Hfr] Hroom Hb Hmod Hn Hmax Hbefore HS HN.
  revert b f Ht Hb Hmod Hn Hmax Hbefore. induction n as [|n IH]; intros b f Ht Hb Hmod Hn Hmax Hbefore; cbn [balloc_loop];
    fs_step; (eapply (tx_getsb R C); [exact Ht|]); unfold u32; rewrite Z.mod_small by (rewrite BPB_val in *; lia);
    (destruct (Z.ltb_spec b (sb_size (m_sb m))) as [Hlt|Hge];
     [|fs_step; fs_step; fs_step; apply HN; [intros j Hj; apply Hbefore; lia|done]]); [lia|].
  fs_step. eapply (tx_getsb R C); [exact Ht|]. set (k := BBLOCK b (sb_bmapstart (m_sb m))).
  pose proof (BBLOCK_range _ _ Hg b ltac:(lia)) as Hk. pose proof (BBLOCK_writable _ _ Hg b ltac:(lia)) as [Hk32 Hkl]. fold k in Hk, Hk32, Hkl.
  fs_step. eapply (tx_bread fuel R C); [exact Ht|done|by apply Hbm|lia|]. intros bp f1 Ht1.
  fs_step. eapply (tx_balloc_bits _ _ _ _ V ks (<[k := bp]> H) m _ k); [exact Ht1|by simplify_map_eq|apply HV|lia|rewrite BPB_val; lia|done|
    rewrite BPB_val in *; destruct Hg; lia| |].
  - intros i f2 Hi Hs Hbit Hbits Ht2. destruct (bitmap_block _ V b i Hg Hb Hmod Hi Hs) as (E1 & E2 & E3). fold k in E1, E2.
    assert (Hu : used (m_sb m) V (b + i) = false) by (by rewrite E2).
    assert (Hend : meta_end (m_sb m) <= b + i).
    { destruct (Z.le_gt_cases (meta_end (m_sb m)) (b + i)); [done|]. rewrite Hmeta in Hu by lia. done. }
    assert (HNL : NBUF = LOGBLOCKS) by done. pose proof (length_log_add k ks).
    fs_step. eapply (tx_log_write R C me pid start dev Hstart D out ncom _ _ _ _ _ k bp);
      [exact Ht2|by simplify_map_eq|done|done|lia|done|]. intros f3 Ht3.
    fs_step. eapply (tx_brelse R C me pid start dev D out ncom _ _ _ _ _ k bp); [exact Ht3|by simplify_map_eq|left; auto with fs|].
    rewrite delete_insert_id by (by apply Hbm). intros f4 Ht4.
    fs_step. eapply tx_bzero; [exact Ht4|apply Hfr; [lia|done]|destruct Hg; lia|
      apply (past_log _ _ Hg); pose proof (g_pos _ _ Hg); destruct Hg; unfold meta_end in *; lia|lia|]. intros f5 Ht5.
    fs_step. rewrite Z.mod_small by (destruct Hg; lia). apply (HS (b + i)); [lia|done| |].
    + intros j Hj. destruct (Z.lt_ge_cases j b); [apply Hbefore; lia|].
      destruct (bitmap_block _ V b (j - b) Hg Hb Hmod ltac:(lia) ltac:(lia)) as (_ & E & _).
      replace (b + (j - b)) with j in E by lia. rewrite E. apply Hbits. lia.
    + unfold allocated. rewrite E1, E3. exact Ht5.
  - intros Hall. fs_step. eapply (tx_brelse R C me pid start dev D out ncom _ _ _ _ _ k bp); [exact Ht1|by simplify_map_eq|
      eapply tx_clean; [exact Ht|by apply Hbm]|].
    rewrite delete_insert_id by (by apply Hbm). intros f2 Ht2.
    eapply IH; [exact Ht2|rewrite BPB_val; lia|by rewrite <- (Z.mul_1_l BPB) at 1; rewrite Z.mod_add|rewrite BPB_val in *; lia|destruct Hg; rewrite BPB_val in *; lia|].
    intros j Hj Hsj. destruct (Z.lt_ge_cases j b); [apply Hbefore; lia|].
    destruct (bitmap_block _ V b (j - b) Hg Hb Hmod ltac:(lia) ltac:(lia)) as (_ & E & _).
    replace (b + (j - b)) with j in E by lia. rewrite E. apply Hall; lia.
Qed.

Lemma tx_balloc V ks H m f (Q : Z -> list lockid -> fsst -> Prop) :
  tx V ks H m f -> alloc_pre V H m -> (length ks + size H + 1 < NBUF)%nat ->
  (forall a f', meta_end (m_sb m) <= a < sb_size (m_sb m) -> used (m_sb m) V a = false ->
     (forall j, 0 <= j < a -> used (m_sb m) V j = true) ->
     tx (allocated (m_sb m) V a) (log_add a (log_add (BBLOCK a (sb_bmapstart (m_sb m))) ks)) H m f' -> Q a [] f') ->
  (forall f', (forall j, 0 <= j < sb_size (m_sb m) -> used (m_sb m) V j = true) -> tx V ks H m f' -> Q 0 [] f') ->
  fsp (balloc fuel dev) [] f Q.
Proof.
  intros Ht Hp Hroom HS HN. unfold balloc. fs_step. eapply (tx_getsb R C); [exact Ht|].
  pose proof (Z.div_mod (sb_size (m_sb m)) BPB ltac:(done)) as E. pose proof (Z.mod_pos_bound (sb_size (m_sb m)) BPB ltac:(done)).
  pose proof (g_pos _ _ (ap_geo _ _ _ Hp)). eapply tx_balloc_loop; try done; [rewrite BPB_val in *; lia|intros j Hj; lia].
Qed.

Lemma tx_bfree V ks H m f b (Q : unit -> list lockid -> fsst -> Prop) :
  tx V ks H m f -> geometry start (m_sb m) -> blocks_ok V -> 0 <= b < sb_size (m_sb m) -> used (m_sb m) V b = true ->
  H !! BBLOCK b (sb_bmapstart (m_sb m)) = None -> (length ks + size H < NBUF)%nat ->
  (forall f', tx (freed (m_sb m) V b) (log_add (BBLOCK b (sb_bmapstart (m_sb m))) ks) H m f' -> Q tt [] f') ->
  fsp (bfree fuel dev b) [] f Q.
Proof.
  intros Ht Hg HV Hb Hu HH Hroom HQ. unfold bfree. fs_step. eapply (tx_getsb R C); [exact Ht|].
  rewrite (tx_dev _ _ _ _ _ Ht). set (k := BBLOCK b (sb_bmapstart (m_sb m))) in *.
  pose proof (BBLOCK_writable _ _ Hg b Hb) as [Hk32 Hkl]. fold k in Hk32, Hkl.
  fs_step. eapply (tx_bread fuel R C); [exact Ht|done|done|lia|]. intros bp f1 Ht1.
  fs_step. eapply (tx_getdata R C me pid start dev D out ncom _ _ _ _ _ k bp); [exact Ht1|by simplify_map_eq|].
  pose proof (Z.mod_pos_bound b BPB ltac:(done)). destruct (lookup_lt_is_Some_2 (V k) (Z.to_nat (b mod BPB / 8))) as [v Hv].
  { destruct (HV k) as [-> _]. pose proof (Z.div_lt_upper_bound (b mod BPB) 8 (Z.of_nat BSIZE)). rewrite BPB_val, BSIZE_val in *. lia. }
  fs_step. rewrite Hv. cbn [of_opt]. fs_step. rewrite land_bit by (apply Z.mod_pos_bound; lia).
  assert (Eb : used (m_sb m) V b = Z.testbit v (b mod BPB mod 8)) by (unfold used, bit; fold k; by rewrite Hv).
  rewrite <- Eb, Hu. cbn [negb]. fs_step.
  eapply (tx_setdata R C me pid start dev D out ncom _ _ _ _ _ k bp); [exact Ht1|by simplify_map_eq|]. intros f2 Ht2.
  assert (NBUF = LOGBLOCKS) by done.
  fs_step. eapply (tx_log_write R C me pid start dev Hstart D out ncom _ _ _ _ _ k bp);
    [exact Ht2|by simplify_map_eq|done|done|lia|done|]. intros f3 Ht3.
  eapply (tx_brelse R C me pid start dev D out ncom _ _ _ _ _ k bp); [exact Ht3|by simplify_map_eq|left; auto with fs|].
  rewrite delete_insert_id by done. intros f4 Ht4. apply HQ. unfold freed. fold k. unfold clear_bit. by rewrite Hv.
Qed.

(** C13.  [balloc] takes the first free block. In a transaction with room for
    two more blocks it returns a block whose bit in the bitmap was clear and
    before which all bits were set; afterwards that bit is set and no other
    bit has changed, the block reads as zeros, and every other block of the
    disk reads as before. It returns 0 only when every bit of the bitmap is
    set, and then nothing has changed. *)
Theorem balloc_takes_free V ks H m f :
  tx V ks H m f -> alloc_pre V H m -> (length ks + size H + 1 < NBUF)%nat ->
  let sb := m_sb m in
  fsp (balloc fuel dev) [] f (fun a L f' => L = [] /\
    ((exists V' ks', tx V' ks' H m f' /\ alloc_pre V' ∅ m /\
        meta_end sb <= a < sb_size sb /\ used sb V a = false /\ (forall j, 0 <= j < a -> used sb V j = true) /\
        (forall j, 0 <= j < sb_size sb -> used sb V' j = ((a =? j) || used sb V j)%bool) /\
        V' a = replicate BSIZE 0 /\ (forall k, k <> a -> k <> BBLOCK a (sb_bmapstart sb) -> V' k = V k)) \/
     (a = 0 /\ tx V ks H m f' /\ forall j, 0 <= j < sb_size sb -> used sb V j = true))).
Proof.
  intros Ht Hp Hroom sb. eapply tx_balloc; [done|done|done| |].
  - intros a f' Ha Hu Hb Ht'. split; [done|]. left. eexists _, _. split_and!; [exact Ht'| |apply Ha|apply Ha|done|done| | |].
    + destruct Hp. split; [done|by apply allocated_ok|by eapply meta_allocated|intros; apply lookup_empty|intros; apply lookup_empty].
    + intros j Hj. destruct Hp. by eapply used_allocated.
    + unfold allocated. apply upd_eq.
    + intros k H1 H2. by apply allocated_other.
  - intros f' Hall Ht'. split; [done|]. by right.
Qed.

End Alloc.
