(* ===== verification/FsFile.v ===== *)
(** * The contents of files

    The bytes an inode describes, and what [bmap] and [readi] make of them. *)

From stdpp Require Import base list gmap strings list_numbers.
From Stdlib Require Import ZArith Lia.
From S2P Require Import Prelude KString KernelBase Proc FsBase FsLogic Bio BioFacts BioCache BioSpecs Log LogFacts LogTheorems LogTx Fs FsTx FsAlloc.

Open Scope Z_scope.

(** ** The bytes of a file *)

(** The block of byte [i * BSIZE] of the file, 0 when there is none. *)
Definition addr_of (V : blocks) (x : inode) (bn : Z) : Z :=
  if bn <? NDIRECT then default 0 (i_addrs x !! Z.to_nat bn)
  else
    let ind := default 0 (i_addrs x !! Z.to_nat NDIRECT) in
    if ind =? 0 then 0 else get_uint (V ind) (4 * Z.to_nat (bn - NDIRECT)).

Definition file_byte (V : blocks) (x : inode) (i : Z) : Z :=
  default 0 (V (addr_of V x (i / Z.of_nat BSIZE)) !! Z.to_nat (i mod Z.of_nat BSIZE)).

(** The [n] bytes from [off] on, and the whole file. *)
Definition file_range (V : blocks) (x : inode) (off n : Z) : list Z := map (file_byte V x) (seqZ off n).

Definition contents (V : blocks) (x : inode) : list Z := file_range V x 0 (i_size x).

(** All bytes up to the size have a block. *)
Record file_ok (V : blocks) (x : inode) : Prop := {
  fo_addrs : length (i_addrs x) = 13%nat;
  fo_size : 0 <= i_size x <= MAXFILE * Z.of_nat BSIZE;
  fo_mapped bn : 0 <= bn -> bn * Z.of_nat BSIZE < i_size x -> addr_of V x bn <> 0
}.

Lemma MAXFILE_val : MAXFILE = 268.
Proof. done. Qed.

Lemma length_range V x off n : length (file_range V x off n) = Z.to_nat n.
Proof. unfold file_range. by rewrite length_map, length_seqZ. Qed.

Lemma range_app V x off n n' : 0 <= n -> 0 <= n' ->
  file_range V x off (n + n') = file_range V x off n ++ file_range V x (off + n) n'.
Proof. intros Hn Hn'. unfold file_range. by rewrite seqZ_app, map_app by lia. Qed.

Lemma lookup_range V x off n i : (i < Z.to_nat n)%nat ->
  file_range V x off n !! i = Some (file_byte V x (off + Z.of_nat i)).
Proof.
  intros Hi. unfold file_range. rewrite list_lookup_fmap, (proj2 (lookup_seqZ off n i (off + Z.of_nat i))) by lia. done.
Qed.

(** A part of the file. *)
Lemma contents_slice V x off n : 0 <= off -> 0 <= n -> off <= i_size x ->
  take (Z.to_nat n) (drop (Z.to_nat off) (contents V x)) = file_range V x off (Z.min n (i_size x - off)).
Proof.
  intros Ho Hn Hs. unfold contents. replace (i_size x) with (off + (i_size x - off)) at 1 by lia.
  rewrite range_app by lia. rewrite drop_app_length' by (by rewrite length_range). rewrite Z.add_0_l.
  replace (i_size x - off) with (Z.min n (i_size x - off) + (i_size x - off - Z.min n (i_size x - off))) at 1 by lia.
  rewrite range_app by lia. destruct (Z.le_ge_cases n (i_size x - off)).
  - rewrite Z.min_l by lia. by rewrite take_app_length' by (by rewrite length_range).
  - rewrite Z.min_r, Z.sub_diag by lia. rewrite app_nil_r. by rewrite take_ge by (rewrite length_range; lia).
Qed.

Lemma contents_past V x off n : i_size x <= off -> take n (drop (Z.to_nat off) (contents V x)) = [].
Proof.
  intros Hs. rewrite drop_ge; [by destruct n|]. unfold contents. rewrite length_range. lia.
Qed.

(** The bytes of one block are bytes of the file. *)
Lemma block_range V x off n : blocks_ok V -> 0 <= off -> 0 <= n -> off mod Z.of_nat BSIZE + n <= Z.of_nat BSIZE ->
  take (Z.to_nat n) (drop (Z.to_nat (off mod Z.of_nat BSIZE)) (V (addr_of V x (off / Z.of_nat BSIZE)))) = file_range V x off n.
Proof.
  intros HV Ho Hn Hb. pose proof (Z.mod_pos_bound off (Z.of_nat BSIZE) ltac:(rewrite BSIZE_val; lia)) as Hm.
  pose proof (Z.div_mod off (Z.of_nat BSIZE) ltac:(rewrite BSIZE_val; lia)) as E.
  destruct (HV (addr_of V x (off / Z.of_nat BSIZE))) as [Hlen _]. apply list_eq. intros i.
  destruct (decide (i < Z.to_nat n)%nat) as [Hi|Hi].
  - rewrite lookup_range, lookup_take_lt, lookup_drop by done. unfold file_byte.
    assert (E1 : (off + Z.of_nat i) / Z.of_nat BSIZE = off / Z.of_nat BSIZE)
      by (symmetry; apply Z.div_unique with (off mod Z.of_nat BSIZE + Z.of_nat i); lia).
    assert (E2 : (off + Z.of_nat i) mod Z.of_nat BSIZE = off mod Z.of_nat BSIZE + Z.of_nat i)
      by (symmetry; apply Z.mod_unique with (off / Z.of_nat BSIZE); lia).
    rewrite E1, E2. replace (Z.to_nat (off mod Z.of_nat BSIZE + Z.of_nat i)) with (Z.to_nat (off mod Z.of_nat BSIZE) + i)%nat by lia.
    destruct (lookup_lt_is_Some_2 (V (addr_of V x (off / Z.of_nat BSIZE))) (Z.to_nat (off mod Z.of_nat BSIZE) + i)) as [v Hv]; [lia|].
    by rewrite Hv.
  - rewrite !lookup_ge_None_2; [done|rewrite length_range; lia|rewrite length_take; lia].
Qed.

Lemma splice_splice m d l1 l2 : (d + length l1 + length l2 <= length m)%nat ->
  splice (splice m d l1) (d + length l1) l2 = splice m d (l1 ++ l2).
Proof.
  intros Hl. unfold splice. rewrite length_app.
  rewrite (app_assoc (take d m)). rewrite take_app_length' by (rewrite length_app, length_take; lia).
  rewrite drop_app_ge by (rewrite length_app, length_take; lia). rewrite drop_drop, <- !app_assoc. do 4 f_equal.
  rewrite length_app, length_take. lia.
Qed.

(** ** [bmap] and [readi] on blocks that exist *)

Lemma iidx_iptr i : iidx (iptr i) = i.
Proof. unfold iidx, iptr. lia. Qed.

Lemma iptr_nz i : (iptr i =? 0) = false.
Proof. apply Z.eqb_neq. unfold iptr. lia. Qed.

Section File.

Context {mem : Type} {cfg : config} {svc : services mem} {sym : symbols}.
Context {hfs : has_fs mem} {drv : disk_driver mem}.
Variable fuel : nat.
Variable R : kst mem -> kst mem -> Prop.
Context {dok : driver_ok mem R}.
Variable C : blocks -> Prop.
Variable me : nat.
Variable pid : Z.
Variable start dev : Z.
Variable D : blocks.
Hypothesis HC : C D.
Variable out ncom : Z.
Abbreviation fsp := (fsp R C me pid).
Abbreviation tx := (tx pid start dev D out ncom).
Implicit Types (V : blocks) (H : gmap Z nat) (ks : list Z) (m : fsmem) (x : inode).

Lemma fsp_getp_me L f (Q : proc -> list lockid -> fsst -> Prop) :
  (forall p, p_pid p = pid -> Q p L f) -> fsp (getp me) L f Q.
Proof.
  intros HQ. apply fsp_wp. intros s Hs <-. pose proof Hs as (_ & (p & Hp & Hpid) & _).
  eapply wp_getp; [done|]. eauto.
Qed.

Lemma tx_rdi V ks H m f i x L (Q : inode -> list lockid -> fsst -> Prop) :
  tx V ks H m f -> m_itable m !! i = Some x -> Q x L f -> fsp (rdi (iptr i)) L f Q.
Proof. intros Ht Hi HQ. unfold rdi. rewrite iptr_nz, iidx_iptr. by eapply (tx_geti R C). Qed.

Lemma tx_wri V ks H m f i g x L (Q : unit -> list lockid -> fsst -> Prop) :
  tx V ks H m f -> m_itable m !! i = Some x ->
  (forall f', tx V ks H (put_inode i (g x) m) f' -> Q tt L f') -> fsp (wri (iptr i) g) L f Q.
Proof. intros Ht Hi HQ. unfold wri. rewrite iptr_nz, iidx_iptr. by eapply (tx_seti R C). Qed.

(** The end of the use of a block that was free before. *)
Lemma tx_brelse_id V ks H m f k b (Q : unit -> list lockid -> fsst -> Prop) :
  tx V ks (<[k := b]> H) m f -> H !! k = None -> (k ∈ ks \/ V k = D k) ->
  (forall f', tx V ks H m f' -> Q tt [] f') -> fsp (brelse b) [] f Q.
Proof.
  intros Ht HH Hk HQ. eapply (tx_brelse R C me pid start dev D out ncom _ _ _ _ _ k b); [exact Ht|by simplify_map_eq|done|].
  rewrite delete_insert_id by done. auto.
Qed.

Lemma tx_get_addr V ks H m f i x n a L (Q : Z -> list lockid -> fsst -> Prop) :
  tx V ks H m f -> m_itable m !! i = Some x -> i_addrs x !! Z.to_nat n = Some a -> Q a L f -> fsp (get_addr (iptr i) n) L f Q.
Proof. intros Ht Hi Ha HQ. unfold get_addr. fs_step. eapply tx_rdi; [exact Ht|done|]. rewrite Ha. cbn [of_opt]. by fs_step. Qed.

Lemma tx_bmap_slot V ks H m f i x n a L (Q : Z -> list lockid -> fsst -> Prop) :
  tx V ks H m f -> m_itable m !! i = Some x -> i_addrs x !! Z.to_nat n = Some a -> a <> 0 -> Q a L f ->
  fsp (bmap_slot fuel (iptr i) n) L f Q.
Proof.
  intros Ht Hi Ha Hnz HQ. unfold bmap_slot. fs_step. eapply tx_get_addr; [exact Ht|done|done|].
  rewrite (proj2 (Z.eqb_neq a 0)) by done. by fs_step.
Qed.

Lemma tx_bmap V ks m f i x bn (Q : Z -> list lockid -> fsst -> Prop) :
  tx V ks ∅ m f -> m_itable m !! i = Some x -> i_dev x = dev -> length (i_addrs x) = 13%nat ->
  0 <= bn < MAXFILE -> addr_of V x bn <> 0 -> (length ks < NBUF)%nat ->
  (forall f', tx V ks ∅ m f' -> Q (addr_of V x bn) [] f') -> fsp (bmap fuel (iptr i) bn) [] f Q.
Proof.
  intros Ht Hi Hdev Hlen Hbn Hnz Hroom HQ. unfold bmap. unfold addr_of in *. destruct (Z.ltb_spec bn NDIRECT) as [Hd|Hd].
  - destruct (lookup_lt_is_Some_2 (i_addrs x) (Z.to_nat bn)) as [a Ha]; [unfold NDIRECT in *; lia|].
    rewrite Ha in *. eapply tx_bmap_slot; eauto.
  - destruct (lookup_lt_is_Some_2 (i_addrs x) (Z.to_nat NDIRECT)) as [a Ha]; [unfold NDIRECT; lia|].
    rewrite Ha in *. cbn [from_option id] in *. destruct (Z.eqb_spec a 0) as [|Hanz]; [done|].
    rewrite (proj2 (Z.ltb_lt (bn - NDIRECT) NINDIRECT)) by (unfold MAXFILE in Hbn; lia).
    fs_step. eapply tx_bmap_slot; [exact Ht|done|done|done|]. rewrite (proj2 (Z.eqb_neq a 0)) by done.
    unfold bmap_entry. fs_step. eapply tx_rdi; [exact Ht|done|]. rewrite Hdev.
    fs_step. eapply (tx_bread fuel R C); [exact Ht|done|apply lookup_empty|rewrite map_size_empty; lia|]. intros b f1 Ht1.
    fs_step. eapply (tx_getdata R C me pid start dev D out ncom _ _ _ _ _ a b); [exact Ht1|by simplify_map_eq|].
    rewrite (proj2 (Z.eqb_neq _ 0) Hnz). fs_step. fs_step.
    fs_step. eapply tx_brelse_id; [exact Ht1|apply lookup_empty|eapply tx_clean; [exact Ht|apply lookup_empty]|].
    intros f2 Ht2. fs_step. auto.
Qed.

Lemma fsp_either_copyout kb dst src L f (Q : Z * list Z -> list lockid -> fsst -> Prop) :
  (Z.to_nat dst + length src <= length kb)%nat -> Q (0, splice kb (Z.to_nat dst) src) L f ->
  fsp (either_copyout kb 0 dst src) L f Q.
Proof.
  intros Hl HQ. unfold either_copyout. fs_step. apply fsp_curproc. fs_step. apply fsp_getp_me. intros p _.
  cbn [Z.eqb negb]. rewrite (proj2 (Nat.leb_le _ _) Hl). by fs_step.
Qed.

Lemma fsp_either_copyin kb src len L f (Q : Z * list Z -> list lockid -> fsst -> Prop) :
  (Z.to_nat src + Z.to_nat len <= length kb)%nat -> Q (0, take (Z.to_nat len) (drop (Z.to_nat src) kb)) L f ->
  fsp (either_copyin kb 0 src len) L f Q.
Proof.
  intros Hl HQ. unfold either_copyin. fs_step. apply fsp_curproc. fs_step. apply fsp_getp_me. intros p _.
  cbn [Z.eqb negb]. rewrite (proj2 (Nat.leb_le _ _) Hl). by fs_step.
Qed.

(** The next block begins where this one ends. *)
Lemma next_block off r : 0 <= off -> 0 <= r -> let B := Z.of_nat BSIZE in let mm := Z.min r (B - off mod B) in
  (mm = r \/ (off + mm) mod B = 0) /\ (0 < r -> 0 < mm) /\ off mod B + mm <= B /\ 0 <= off mod B < B.
Proof.
  intros Ho Hr B mm. assert (HB : 0 < B) by (unfold B; rewrite BSIZE_val; lia).
  pose proof (Z.mod_pos_bound off B HB). pose proof (Z.div_mod off B ltac:(lia)).
  split_and!; [|lia|lia|lia|lia]. destruct (Z.le_gt_cases r (B - off mod B)); [left; lia|right].
  unfold mm. rewrite Z.min_r by lia. symmetry. apply Z.mod_unique with (off / B + 1); lia.
Qed.

Lemma tx_readi_loop V ks m f i x k kb dst off n tot (Q : Z * list Z -> list lockid -> fsst -> Prop) :
  tx V ks ∅ m f -> m_itable m !! i = Some x -> i_dev x = dev -> file_ok V x -> blocks_ok V -> (length ks < NBUF)%nat ->
  0 <= off -> 0 <= tot <= n -> off + (n - tot) <= i_size x -> 0 <= dst -> dst + (n - tot) <= Z.of_nat (length kb) ->
  Z.of_nat (length kb) < 2 ^ 64 -> (tot = n \/ off mod Z.of_nat BSIZE + (n - tot) <= Z.of_nat k * Z.of_nat BSIZE) ->
  (forall f', tx V ks ∅ m f' -> Q (i32 n, splice kb (Z.to_nat dst) (file_range V x off (n - tot))) [] f') ->
  fsp (readi_loop fuel k kb (iptr i) 0 dst off n tot) [] f Q.
Proof.
  intros Ht Hi Hdev Hf HV Hroom. revert f kb dst off tot Ht.
  induction k as [|k IH]; intros f kb dst off tot Ht Ho Htot Hs Hd Hkb Hkb64 Hk HQ; cbn [readi_loop];
    pose proof (next_block off (n - tot) Ho ltac:(lia)) as (Hnext & Hmpos & Hmb & Hmod);
    (destruct (Z.ltb_spec tot n) as [Hlt|Hge];
     [|fs_step; assert (tot = n) as -> by lia; specialize (HQ _ Ht); rewrite Z.sub_diag in HQ; by rewrite splice_nil in HQ]); [lia|].
  set (mm := Z.min (n - tot) (Z.of_nat BSIZE - off mod Z.of_nat BSIZE)) in *. specialize (Hmpos ltac:(lia)).
  assert (Hmm : mm <= n - tot) by lia. destruct Hf as [Hf1 Hf2 Hf3].
  pose proof (Z.div_mod off (Z.of_nat BSIZE) ltac:(rewrite BSIZE_val; lia)) as Edm.
  assert (Hbn : 0 <= off / Z.of_nat BSIZE < MAXFILE).
  { split; [apply Z.div_pos; [lia|rewrite BSIZE_val; lia]|]. apply Z.div_lt_upper_bound; [rewrite BSIZE_val; lia|]. lia. }
  assert (Hnz : addr_of V x (off / Z.of_nat BSIZE) <> 0) by (apply Hf3; lia).
  fs_step. eapply tx_bmap; [exact Ht|done..|]. intros f1 Ht1. rewrite (proj2 (Z.eqb_neq _ 0) Hnz).
  fs_step. eapply tx_rdi; [exact Ht1|done|]. rewrite Hdev.
  fs_step. eapply (tx_bread fuel R C); [exact Ht1|done|apply lookup_empty|rewrite map_size_empty; lia|]. intros b f2 Ht2.
  fs_step. eapply (tx_getdata R C me pid start dev D out ncom _ _ _ _ _ _ b); [exact Ht2|by apply lookup_insert_eq|].
  rewrite block_range by (done || lia). fs_step. apply fsp_either_copyout; [rewrite length_range; lia|].
  fs_step. eapply tx_brelse_id; [exact Ht2|apply lookup_empty|eapply tx_clean; [exact Ht1|apply lookup_empty]|]. intros f3 Ht3.
  cbn [fst snd Z.eqb]. assert (HB : MAXFILE * Z.of_nat BSIZE = 274432) by done. unfold u64, u32. rewrite !Z.mod_small by lia.
  assert (Hsp : length (splice kb (Z.to_nat dst) (file_range V x off mm)) = length kb) by (apply length_splice; rewrite length_range; lia).
  apply IH; rewrite ?Hsp; try done; try lia.
  intros f4 Ht4. specialize (HQ _ Ht4). replace (n - tot) with (mm + (n - (tot + mm))) in HQ by lia.
  rewrite range_app, <- splice_splice in HQ by (rewrite ?length_range; lia). rewrite length_range in HQ.
  by replace (Z.to_nat (dst + mm)) with (Z.to_nat dst + Z.to_nat mm)%nat by lia.
Qed.

Lemma rounds_enough off n : 0 <= n -> 0 <= off mod Z.of_nat BSIZE < Z.of_nat BSIZE ->
  off mod Z.of_nat BSIZE + n <= Z.of_nat (rounds n) * Z.of_nat BSIZE.
Proof.
  intros Hn Ho. unfold rounds. assert (HB : 0 < Z.of_nat BSIZE) by (rewrite BSIZE_val; lia).
  pose proof (Z.div_mod n (Z.of_nat BSIZE) ltac:(lia)). pose proof (Z.mod_pos_bound n (Z.of_nat BSIZE) HB).
  pose proof (Z.div_pos n (Z.of_nat BSIZE) Hn HB). rewrite Z2Nat.id by lia. lia.
Qed.

Lemma tx_readi V ks m f i x kb dst off n (Q : Z * list Z -> list lockid -> fsst -> Prop) :
  tx V ks ∅ m f -> m_itable m !! i = Some x -> i_dev x = dev -> file_ok V x -> blocks_ok V -> (length ks < NBUF)%nat ->
  0 <= off -> 0 <= n -> off + n < 2 ^ 32 -> 0 <= dst ->
  let l := take (Z.to_nat n) (drop (Z.to_nat off) (contents V x)) in
  dst + Z.of_nat (length l) <= Z.of_nat (length kb) < 2 ^ 64 ->
  (forall f', tx V ks ∅ m f' -> Q (Z.of_nat (length l), splice kb (Z.to_nat dst) l) [] f') ->
  fsp (readi fuel kb (iptr i) 0 dst off n) [] f Q.
Proof.
  intros Ht Hi Hdev Hf HV Hroom Ho Hn Hon Hd l Hkb HQ. unfold readi. fs_step. eapply tx_rdi; [exact Ht|done|].
  assert (HB : MAXFILE * Z.of_nat BSIZE = 274432) by done. pose proof (fo_size _ _ Hf).
  destruct (Z.ltb_spec (i_size x) off) as [Hlt|Hge]; cbn [orb].
  { fs_step. specialize (HQ _ Ht). unfold l in HQ. rewrite contents_past in HQ by lia. by rewrite splice_nil in HQ. }
  unfold u32. rewrite Z.mod_small by lia. rewrite (proj2 (Z.ltb_ge (off + n) off)) by lia.
  unfold l in Hkb, HQ. rewrite contents_slice in Hkb, HQ by lia. rewrite length_range in Hkb, HQ.
  assert (E : (if i_size x <? off + n then i_size x - off else n) = Z.min n (i_size x - off)) by (destruct (Z.ltb_spec (i_size x) (off + n)); lia).
  rewrite E. set (n' := Z.min n (i_size x - off)) in *.
  pose proof (Z.mod_pos_bound off (Z.of_nat BSIZE) ltac:(rewrite BSIZE_val; lia)).
  eapply tx_readi_loop; try done; try lia; [right; rewrite Z.sub_0_r; apply rounds_enough; lia|].
  intros f' Ht'. specialize (HQ _ Ht'). rewrite Z.sub_0_r, i32_small by lia. by rewrite Z2Nat.id in HQ by lia.
Qed.

(** C12.  [readi] reads the file. For an inode all of whose bytes have blocks,
    and a kernel destination with room for them, it copies exactly the bytes
    of the file from [off] on, [n] of them or up to the end of the file,
    whether they lie in direct blocks, in indirect blocks or in several; it
    returns their number, writes no other byte of the destination and leaves
    every block and inode as it was. *)
Theorem readi_reads_contents V ks m f i x kb dst off n :
  tx V ks ∅ m f -> m_itable m !! i = Some x -> i_dev x = dev -> file_ok V x -> blocks_ok V -> (length ks < NBUF)%nat ->
  0 <= off -> 0 <= n -> off + n < 2 ^ 32 -> 0 <= dst ->
  let l := take (Z.to_nat n) (drop (Z.to_nat off) (contents V x)) in
  dst + Z.of_nat (length l) <= Z.of_nat (length kb) < 2 ^ 64 ->
  fsp (readi fuel kb (iptr i) 0 dst off n) [] f (fun r L f' =>
    L = [] /\ r = (Z.of_nat (length l), splice kb (Z.to_nat dst) l) /\ tx V ks ∅ m f').
Proof. intros. eapply tx_readi; eauto. Qed.

End File.
