(* ===== verification/FsPath.v ===== *)
(** * Path names

    [skipelem] takes a path apart as splitting it at its slashes does, and
    [namecmp] compares the first [DIRSIZ] bytes of two names. *)

From stdpp Require Import base list gmap strings.
From Stdlib Require Import ZArith Lia.
From S2P Require Import Prelude KString FsBase Fs.

Open Scope Z_scope.

(** ** The elements of a path *)

(** [l] cut at every slash. *)
Fixpoint split_slash (l : list Z) : list (list Z) :=
  match l with
  | [] => [[]]
  | c :: l' =>
      if c =? slash then [] :: split_slash l'
      else match split_slash l' with w :: ws => (c :: w) :: ws | [] => [[c]] end
  end.

(** The non-empty pieces of the C string at [path]. *)
Definition elems (path : list Z) : list (list Z) := filter (fun w => w <> []) (split_slash (cstr path)).

(** What [skipelem] leaves in [name] for the element [e]. *)
Definition store_name (e name : list Z) : list Z :=
  if (DIRSIZ <=? length e)%nat then splice name 0 (take DIRSIZ e) else splice name 0 (e ++ [0]).

(** A name as the directory code sees it. *)
Definition name_key (name : list Z) : list Z := cstr (take DIRSIZ name).

Lemma split_slash_nn l : split_slash l <> [].
Proof. destruct l as [|c l]; simpl; [done|]. destruct (c =? slash); [done|]. by destruct (split_slash l). Qed.

Lemma elems_nul path : elems (0 :: path) = [].
Proof. done. Qed.

Lemma elems_slash path : elems (slash :: path) = elems path.
Proof. unfold elems. by rewrite (eq_refl : cstr (slash :: path) = slash :: cstr path). Qed.

Lemma cstr_cons c path : c <> 0 -> cstr (c :: path) = c :: cstr path.
Proof. intros Hc. simpl. by rewrite (proj2 (Z.eqb_neq c 0)). Qed.

(** A piece without a slash comes first. *)
Lemma split_app e l : Forall (fun c => c <> slash) e ->
  split_slash (e ++ l) = match split_slash l with w :: ws => (e ++ w) :: ws | [] => [e] end.
Proof.
  induction 1 as [|c e Hc He IH]; cbn [app split_slash].
  - pose proof (split_slash_nn l). by destruct (split_slash l).
  - rewrite (proj2 (Z.eqb_neq c slash)) by done. rewrite IH. by destruct (split_slash l).
Qed.

Lemma cstr_app_name e l : Forall (fun c => c <> 0) e -> cstr (e ++ l) = e ++ cstr l.
Proof. induction 1 as [|c e Hc He IH]; [done|]. cbn [app]. by rewrite cstr_cons, IH. Qed.

Lemma skip_slashes_spec path : 0 ∈ path -> exists rest, skip_slashes path = Some rest /\ 0 ∈ rest /\
  elems rest = elems path /\ (length rest <= length path)%nat /\ exists c r, rest = c :: r /\ c <> slash.
Proof.
  induction path as [|c path IH]; intros H0; [by apply not_elem_of_nil in H0|]. cbn [skip_slashes].
  destruct (Z.eqb_spec c slash) as [->|Hc].
  - destruct IH as (rest & H1 & H2 & H3 & H4 & H5); [by apply elem_of_cons in H0 as [|]|].
    exists rest. rewrite elems_slash. split_and!; [done|done|done|simpl; lia|done].
  - exists (c :: path). split_and!; eauto.
Qed.

Lemma skip_name_spec path len : 0 ∈ path -> exists e rest, skip_name path len = Some ((len + length e)%nat, rest) /\
  path = e ++ rest /\ Forall (fun c => c <> slash) e /\ Forall (fun c => c <> 0) e /\ 0 ∈ rest /\
  exists c r, rest = c :: r /\ (c = slash \/ c = 0).
Proof.
  revert len. induction path as [|c path IH]; intros len H0; [by apply not_elem_of_nil in H0|]. cbn [skip_name].
  destruct (Z.eqb_spec c slash) as [->|Hc]; [|destruct (Z.eqb_spec c 0) as [->|Hc0]]; cbn [negb andb].
  - exists [], (slash :: path). rewrite Nat.add_0_r. split_and!; eauto.
  - exists [], (0 :: path). rewrite Nat.add_0_r. split_and!; eauto.
  - destruct (IH (S len)) as (e & rest & H1 & -> & H3 & H4 & H5 & H6); [by apply elem_of_cons in H0 as [|]|].
    exists (c :: e), rest. rewrite H1. cbn [length]. split_and!; eauto. f_equal. f_equal. lia.
Qed.

(** What follows an element. *)
Lemma elems_first e rest : e <> [] -> Forall (fun c => c <> slash) e -> Forall (fun c => c <> 0) e ->
  (exists c r, rest = c :: r /\ (c = slash \/ c = 0)) -> elems (e ++ rest) = e :: elems rest.
Proof.
  intros He H1 H2 (c & r & -> & Hc). unfold elems. rewrite cstr_app_name, split_app by done.
  destruct Hc as [-> | ->].
  - assert (Es : split_slash (cstr (slash :: r)) = [] :: split_slash (cstr r)) by done.
    rewrite Es, app_nil_r, filter_cons_True, (filter_cons_False _ []) by auto. done.
  - simpl. rewrite app_nil_r. by rewrite filter_cons_True.
Qed.

(** One call: no element, or the first one in [name] and the rest returned. *)
Lemma skipelem_step path name : 0 ∈ path ->
  match elems path with
  | [] => skipelem path name = Some None
  | e :: es => exists rest, skipelem path name = Some (Some (rest, store_name e name)) /\
      elems rest = es /\ 0 ∈ rest /\ (length rest < length path)%nat /\ (rest !! 0%nat = Some 0 <-> es = [])
  end.
Proof.
  intros H0. destruct (skip_slashes_spec path H0) as (p1 & E1 & H1 & Hel & Hlen & c & r & Ep & Hc). rewrite <- Hel.
  unfold skipelem. rewrite E1. cbn [mbind option_bind]. assert (Eh : p1 !! 0%nat = Some c) by (by rewrite Ep). rewrite Eh. cbn [mbind option_bind].
  destruct (Z.eqb_spec c 0) as [->|Hc0].
  { rewrite Ep, elems_nul. done. }
  destruct (skip_name_spec p1 0 H1) as (e & p2 & E2 & Epath & He1 & He2 & H2 & Hp2). rewrite E2. cbn [mbind option_bind].
  assert (Hne : e <> []).
  { intros ->. destruct Hp2 as (c' & r' & -> & Hc'). simpl in Epath. rewrite Ep in Epath. injection Epath as -> _. naive_solver. }
  rewrite Epath, elems_first by done. destruct (skip_slashes_spec p2 H2) as (p3 & E3 & H3 & Hel3 & Hlen3 & c3 & r3 & Ep3 & Hc3).
  exists p3. rewrite E3. cbn [mbind option_bind]. split_and!; [| done|done| |].
  - rewrite Nat.add_0_l. unfold store_name. rewrite !take_app_length, take_app. destruct (Nat.leb_spec DIRSIZ (length e)); [|done].
    replace (DIRSIZ - length e)%nat with 0%nat by lia. by rewrite take_0, app_nil_r.
  - rewrite Epath, length_app in Hlen. destruct e; [done|]. simpl in Hlen. lia.
  - rewrite <- Hel3, Ep3. simpl. split; [intros [= ->]; done|]. intros Hnil. f_equal. destruct (decide (c3 = 0)) as [|Hz]; [done|exfalso].
    rewrite Ep3 in H3. destruct (skip_name_spec (c3 :: r3) 0 H3) as (e' & p' & _ & Ep' & He1' & He2' & _ & Hp').
    assert (e' <> []). { intros ->. destruct Hp' as (c' & r' & -> & Hc'). simpl in Ep'. injection Ep' as -> _. naive_solver. }
    rewrite Ep', elems_first in Hnil by done. done.
Qed.

(** ** Names *)

Lemma cstr_no_nul l : Forall (fun c => c <> 0) l -> cstr l = l.
Proof. intros Hl. rewrite <- (app_nil_r l) at 1. rewrite cstr_app_name by done. apply app_nil_r. Qed.

Lemma length_store_name e name : length name = DIRSIZ -> length (store_name e name) = DIRSIZ.
Proof.
  intros Hn. unfold store_name. destruct (Nat.leb_spec DIRSIZ (length e)); rewrite length_splice; try done.
  - rewrite length_take. lia.
  - rewrite length_app. simpl. lia.
Qed.

Lemma name_key_store e name : length name = DIRSIZ -> Forall (fun c => c <> 0) e ->
  name_key (store_name e name) = take DIRSIZ e.
Proof.
  intros Hn He. unfold name_key. rewrite take_ge by (by rewrite length_store_name). unfold store_name, splice.
  destruct (Nat.leb_spec DIRSIZ (length e)) as [Hl|Hl]; rewrite take_0, Nat.add_0_l; cbn [app].
  - rewrite drop_ge by (rewrite length_take; lia). rewrite app_nil_r. apply cstr_no_nul. by apply Forall_take.
  - rewrite <- app_assoc, cstr_app_name by done. cbn [app cstr Z.eqb]. rewrite app_nil_r. symmetry. apply take_ge. lia.
Qed.

Lemma elems_no_nul path : Forall (Forall (fun c => c <> 0)) (elems path).
Proof.
  unfold elems. apply Forall_forall. intros w [_ Hw]%list_elem_of_filter. revert w Hw. apply Forall_forall. induction path as [|c path IH]; [repeat constructor|]. simpl.
  destruct (Z.eqb_spec c 0) as [->|Hc]; [repeat constructor|]. cbn [split_slash]. destruct (c =? slash); [by constructor|].
  destruct IH as [|w ws Hw Hws]; repeat constructor; done.
Qed.

Lemma strncmp_eq n m p q a b : take n (drop p m) = a -> take n (drop q m) = b -> length a = n -> length b = n ->
  exists d, strncmp m p q n = Some d /\ (d = 0 <-> cstr a = cstr b).
Proof.
  revert p q a b. induction n as [|n IH]; intros p q a b Ha Hb Hla Hlb.
  - exists 0. destruct a, b; done.
  - destruct a as [|x a]; [done|]. destruct b as [|y b]; [done|]. cbn [strncmp].
    destruct (drop p m) as [|x' l1] eqn:E1; [done|]. destruct (drop q m) as [|y' l2] eqn:E2; [done|].
    simpl in Ha, Hb. injection Ha as -> Ha. injection Hb as -> Hb.
    assert (L1 : load m p = Some x) by (unfold load; by rewrite <- (Nat.add_0_r p), <- lookup_drop, E1).
    assert (L2 : load m q = Some y) by (unfold load; by rewrite <- (Nat.add_0_r q), <- lookup_drop, E2).
    rewrite L1, L2. cbn [mbind option_bind cstr]. destruct (Z.eqb_spec x 0) as [->|Hx]; cbn [negb andb].
    { exists (0 - y). split; [done|]. destruct (Z.eqb_spec y 0) as [->|]; [done|]. split; [lia|done]. }
    destruct (Z.eqb_spec x y) as [->|Hxy].
    + destruct (IH (S p) (S q) a b) as (d & -> & Hd).
      { replace (S p) with (p + 1)%nat by lia. by rewrite <- drop_drop, E1. }
      { replace (S q) with (q + 1)%nat by lia. by rewrite <- drop_drop, E2. }
      { by injection Hla. } { by injection Hlb. }
      exists d. split; [done|]. rewrite (proj2 (Z.eqb_neq y 0)) by done. rewrite Hd. split; [by intros ->|by intros [=]].
    + exists (x - y). split; [done|]. destruct (Z.eqb_spec y 0) as [->|]; (split; [lia|by intros [=]]).
Qed.

Lemma namecmp_eq s t : length s = DIRSIZ -> length t = DIRSIZ ->
  exists d, namecmp s t = Some d /\ (d = 0 <-> name_key s = name_key t).
Proof.
  intros Hs Ht. unfold namecmp, name_key. apply strncmp_eq; rewrite ?length_take; try lia.
  - rewrite drop_0. by rewrite take_app_le by lia.
  - by rewrite drop_app_length.
Qed.

(** ** The loop of [namex] over a path *)

(** The names the loop [while ((path = skipelem(path, name)) != 0)] sees. *)
Fixpoint path_names (n : nat) (path name : list Z) : option (list (list Z)) :=
  match skipelem path name with
  | None => None
  | Some None => Some []
  | Some (Some (path, name)) =>
      match n with
      | O => None
      | S n' => cons (name_key name) <$> path_names n' path name
      end
  end.


