(* ===== verification/FsInode.v ===== *)
(** * The inode table

    The table of in-use inodes as a map from inode numbers to reference counts:
    what [iget], [idup], [ilock], [iunlock] and [iput] do to it. *)

From stdpp Require Import base list gmap strings.
From Stdlib Require Import ZArith Lia.
From S2P Require Import Prelude KString KernelBase Proc FsBase FsLogic Bio BioFacts BioCache BioSpecs Log LogFacts LogTheorems LogTx Fs FsTx FsAlloc FsFile.

Open Scope Z_scope.

(** One more and one less reference to inode [j]. *)
Definition bump (j : Z) (A : gmap Z Z) : gmap Z Z := <[j := default 0 (A !! j) + 1]> A.

Definition unbump (j : Z) (A : gmap Z Z) : gmap Z Z :=
  match A !! j with Some r => if r =? 1 then delete j A else <[j := r - 1]> A | None => A end.

Lemma unbump_bump j A : A !! j <> Some 0 -> unbump j (bump j A) = A.
Proof.
  intros H0. unfold unbump, bump. rewrite lookup_insert_eq. destruct (A !! j) as [r|] eqn:E; simpl.
  - rewrite (proj2 (Z.eqb_neq _ _)) by (intros ?; apply H0; f_equal; lia).
    rewrite insert_insert_eq. replace (r + 1 - 1) with r by lia. by apply insert_id.
  - by rewrite delete_insert_id.
Qed.

Lemma bump_comm i j A : bump i (bump j A) = bump j (bump i A).
Proof.
  unfold bump. destruct (decide (i = j)) as [->|Hne]; [done|]. rewrite !lookup_insert_ne by done.
  by apply insert_insert_ne.
Qed.

(** The inode [inum] on disk. *)
Definition disk_dinode (sb : superblock) (V : blocks) (inum : Z) : dinode :=
  get_dinode (V (IBLOCK inum (sb_inodestart sb))) (dinode_off inum).

Section Table.

Variable dev pid : Z.
Implicit Types (V : blocks) (m : fsmem) (A : gmap Z Z) (K : gset nat) (x y : inode).

(** An entry in use; [K] are the entries the thread has locked. *)
Definition entry_ok (sb : superblock) V K (i : nat) x : Prop :=
  i_dev x = dev /\ (if decide (i ∈ K) then i_lock x = mksleeplock 1 pid /\ i_valid x <> 0 else sl_locked (i_lock x) = 0) /\
  (i_valid x = 0 \/ dinode_of x = disk_dinode sb V (i_inum x)).

(** The table holds the references [A]. *)
Record itab V K m A : Prop := {
  it_len : length (m_itable m) = NINODE;
  it_nonneg i x : m_itable m !! i = Some x -> 0 <= i_ref x;
  it_live i x : m_itable m !! i = Some x -> 0 < i_ref x ->
    entry_ok (m_sb m) V K i x /\ A !! i_inum x = Some (i_ref x);
  it_all j r : A !! j = Some r -> exists i x, m_itable m !! i = Some x /\ i_inum x = j /\ 0 < i_ref x;
  it_uniq i j x y : m_itable m !! i = Some x -> m_itable m !! j = Some y -> 0 < i_ref x -> 0 < i_ref y ->
    i_inum x = i_inum y -> i = j;
  it_free i x : m_itable m !! i = Some x -> i_ref x = 0 -> sl_locked (i_lock x) = 0 /\ i ∉ K
}.

Lemma put_inode_lookup m i x y : m_itable m !! i = Some y -> m_itable (put_inode i x m) !! i = Some x.
Proof. intros Hi. apply list_lookup_insert_eq. by eapply lookup_lt_Some. Qed.

Lemma put_inode_ne m i j x : j <> i -> m_itable (put_inode i x m) !! j = m_itable m !! j.
Proof. intros Hne. apply list_lookup_insert_ne. congruence. Qed.

Lemma put_inode_twice m i x y : put_inode i x (put_inode i y m) = put_inode i x m.
Proof. unfold put_inode. simpl. by rewrite list_insert_insert_eq. Qed.

Lemma it_pos V K m A j r : itab V K m A -> A !! j = Some r -> 0 < r.
Proof.
  intros Ht Hj. destruct (it_all _ _ _ _ Ht j r Hj) as (i & x & Hi & <- & Hr).
  destruct (it_live _ _ _ _ Ht i x Hi Hr) as [_ E]. congruence.
Qed.

(** The references after the entry at [i] changed from [x] to [x']. *)
Definition moved x x' A : gmap Z Z :=
  let A0 := if 0 <? i_ref x then delete (i_inum x) A else A in
  if 0 <? i_ref x' then <[i_inum x' := i_ref x']> A0 else A0.

Lemma itab_put V K K' m A i x x' :
  itab V K m A -> m_itable m !! i = Some x -> 0 <= i_ref x' ->
  (forall j, j <> i -> j ∈ K' <-> j ∈ K) ->
  (0 < i_ref x' -> entry_ok (m_sb m) V K' i x' /\
     forall j y, j <> i -> m_itable m !! j = Some y -> 0 < i_ref y -> i_inum y <> i_inum x') ->
  (i_ref x' = 0 -> sl_locked (i_lock x') = 0 /\ i ∉ K') ->
  itab V K' (put_inode i x' m) (moved x x' A).
Proof.
  intros Ht Hi Hr HK Hlive Hfree. destruct Ht as [T1 T2 T3 T4 T5 T6].
  assert (Hlk : forall j y, m_itable (put_inode i x' m) !! j = Some y -> (j = i /\ y = x') \/ (j <> i /\ m_itable m !! j = Some y)).
  { intros j y Hj. destruct (decide (j = i)) as [->|Hne].
    - left. rewrite (put_inode_lookup _ _ _ _ Hi) in Hj. by simplify_eq.
    - right. split; [done|]. by rewrite put_inode_ne in Hj. }
  split.
  - simpl. by rewrite length_insert.
  - intros j y Hj. destruct (Hlk j y Hj) as [[-> ->]|[Hne Hj']]; [done|by eapply T2].
  - intros j y Hj Hy. destruct (Hlk j y Hj) as [[-> ->]|[Hne Hj']].
    + split; [by apply Hlive|]. unfold moved. rewrite (proj2 (Z.ltb_lt _ _) Hy). apply lookup_insert_eq.
    + destruct (T3 j y Hj' Hy) as [[E1 [E2 E3]] E4]. split.
      { split_and!; try done. destruct (decide (j ∈ K)), (decide (j ∈ K')); try done; exfalso; by apply HK in Hne; naive_solver. }
      unfold moved. assert (Hx : 0 < i_ref x -> i_inum y <> i_inum x) by (intros Hx E; by apply Hne, (T5 j i y x)).
      assert (E : (if 0 <? i_ref x then delete (i_inum x) A else A) !! i_inum y = Some (i_ref y)).
      { destruct (Z.ltb_spec 0 (i_ref x)); [rewrite lookup_delete_ne; auto using not_eq_sym|done]. }
      destruct (Z.ltb_spec 0 (i_ref x')) as [Hx'|]; [|done].
      rewrite lookup_insert_ne; [done|]. destruct (Hlive Hx') as [_ Hu]. apply not_eq_sym. by apply (Hu j).
  - intros j r Hj. assert (Hold : (if 0 <? i_ref x then delete (i_inum x) A else A) !! j = Some r ->
      exists k y, m_itable (put_inode i x' m) !! k = Some y /\ i_inum y = j /\ 0 < i_ref y).
    { intros H0. assert (HA : A !! j = Some r /\ (0 < i_ref x -> j <> i_inum x)).
      { destruct (Z.ltb_spec 0 (i_ref x)); [apply lookup_delete_Some in H0 as [? ?]; auto|split; [done|lia]]. }
      destruct HA as [HA Hne]. destruct (T4 j r HA) as (k & y & Hk & Hy & Hr'). exists k, y. split_and!; try done.
      rewrite put_inode_ne; [done|]. intros ->. simplify_eq. by apply Hne. }
    unfold moved in Hj. destruct (Z.ltb_spec 0 (i_ref x')) as [Hx'|]; [|by apply Hold].
    apply lookup_insert_Some in Hj as [[<- _]|[_ Hj]]; [|by apply Hold].
    exists i, x'. split_and!; [by eapply put_inode_lookup|done|done].
  - intros j k y z Hj Hk Hy Hz E. destruct (Hlk _ _ Hj) as [[-> ->]|[Hj1 Hj2]], (Hlk _ _ Hk) as [[-> ->]|[Hk1 Hk2]]; [done| | |by eapply T5].
    + destruct (Hlive Hy) as [_ Hu]. by destruct (Hu k z Hk1 Hk2 Hz).
    + destruct (Hlive Hz) as [_ Hu]. by destruct (Hu j y Hj1 Hj2 Hy).
  - intros j y Hj Hy. destruct (Hlk j y Hj) as [[-> ->]|[Hne Hj']]; [by apply Hfree|].
    rewrite HK by done. by eapply T6.
Qed.

(** There is an empty entry when few inodes are in use. *)
Lemma itab_room V K m A : itab V K m A -> (size A < NINODE)%nat ->
  exists i x, m_itable m !! i = Some x /\ i_ref x = 0.
Proof.
  intros Ht Hs. destruct (decide (Exists (fun x => i_ref x = 0) (m_itable m))) as [(x & Hin & Hx)%Exists_exists|Hno].
  { apply list_elem_of_lookup in Hin as [i Hi]. eauto. }
  exfalso. assert (Hall : forall i x, m_itable m !! i = Some x -> 0 < i_ref x).
  { intros i x Hi. pose proof (it_nonneg _ _ _ _ Ht i x Hi). destruct (decide (i_ref x = 0)); [|lia].
    destruct Hno. apply Exists_exists. exists x. split; [by eapply list_elem_of_lookup_2|done]. }
  assert (Hnd : NoDup (i_inum <$> m_itable m)).
  { apply NoDup_alt. intros i j n. rewrite !list_lookup_fmap.
    intros (x & Hi & ->)%fmap_Some (y & Hj & E)%fmap_Some. eapply (it_uniq _ _ _ _ Ht i j x y); eauto. }
  assert (Hsub : (list_to_set (i_inum <$> m_itable m) : gset Z) ⊆ dom A).
  { intros j. rewrite elem_of_list_to_set, list_elem_of_fmap. intros (x & -> & Hx).
    apply list_elem_of_lookup in Hx as [i Hi]. apply elem_of_dom. destruct (it_live _ _ _ _ Ht i x Hi) as [_ ->]; eauto. }
  apply subseteq_size in Hsub. rewrite size_list_to_set, length_fmap, (it_len _ _ _ _ Ht), size_dom in Hsub by done. lia.
Qed.

End Table.

Section Ops.

Context {mem : Type} {cfg : config} {svc : services mem} {sym : symbols}.
Context {hfs : has_fs mem} {drv : disk_driver mem}.
Variable fuel : nat.
Variable R : kst mem -> kst mem -> Prop.
Context {dok : driver_ok mem R}.
Variable C : blocks -> Prop.
Variable me : nat.
Variable pid : Z.
Variable start dev : Z.
Variable D : blocks.
Hypothesis HC : C D.
Variable out ncom : Z.
Abbreviation fsp := (fsp R C me pid).
Abbreviation tx := (tx pid start dev D out ncom).
Abbreviation itab := (itab dev pid).
Abbreviation entry_ok := (entry_ok dev pid).
Implicit Types (V : blocks) (H : gmap Z nat) (ks : list Z) (m : fsmem) (A : gmap Z Z) (K : gset nat) (x y : inode).

(** The entry [i] is for inode [j]. *)
Definition at_inum m (i : nat) (j : Z) : Prop := exists x, m_itable m !! i = Some x /\ i_inum x = j /\ 0 < i_ref x.

(** The entries in use stay what they are. *)
Definition kept m m' : Prop := m_sb m' = m_sb m /\ forall i x, m_itable m !! i = Some x -> 0 < i_ref x ->
  exists x', m_itable m' !! i = Some x' /\ i_inum x' = i_inum x /\ 0 < i_ref x' /\ i_valid x' = i_valid x /\ dinode_of x' = dinode_of x.

Lemma kept_at m m' i j : kept m m' -> at_inum m i j -> at_inum m' i j.
Proof. intros [_ Hk] (x & Hx & <- & Hr). destruct (Hk i x Hx Hr) as (x' & ? & ? & ? & _). by exists x'. Qed.

Lemma itab_lt V K m A i x : itab V K m A -> m_itable m !! i = Some x -> (i < NINODE)%nat.
Proof. intros Ht Hi. apply lookup_lt_Some in Hi. by rewrite (it_len _ _ _ _ _ _ Ht) in Hi. Qed.

(** An entry changes but not its number and its count. *)
Lemma itab_same V K K' m A i x x' :
  itab V K m A -> m_itable m !! i = Some x -> 0 < i_ref x -> i_ref x' = i_ref x -> i_inum x' = i_inum x ->
  (forall j, j <> i -> j ∈ K' <-> j ∈ K) -> entry_ok (m_sb m) V K' i x' -> itab V K' (put_inode i x' m) A.
Proof.
  intros Ht Hi Hr Er Ei HK He. assert (E : A = moved x x' A).
  { unfold moved. rewrite Er, Ei, (proj2 (Z.ltb_lt _ _) Hr), insert_delete_eq. symmetry. apply insert_id. by eapply it_live. }
  rewrite E. eapply itab_put; [done|done|lia|done| |lia]. intros _. split; [done|]. intros j y Hne Hj Hy. rewrite Ei.
  intros E'. by apply Hne, (it_uniq _ _ _ _ _ _ Ht j i y x).
Qed.

Lemma tx_iget_scan V ks H m f n i j empty L (Q : nat + option nat -> list lockid -> fsst -> Prop) :
  tx V ks H m f -> (i + n = length (m_itable m))%nat ->
  (forall k x, (k < i)%nat -> m_itable m !! k = Some x -> ~ (0 < i_ref x /\ i_dev x = dev /\ i_inum x = j)) ->
  match empty with
  | Some e => exists x, m_itable m !! e = Some x /\ i_ref x = 0
  | None => forall k x, (k < i)%nat -> m_itable m !! k = Some x -> i_ref x <> 0
  end ->
  (forall k x, m_itable m !! k = Some x -> 0 < i_ref x -> i_dev x = dev -> i_inum x = j -> Q (inl k) L f) ->
  ((forall k x, m_itable m !! k = Some x -> ~ (0 < i_ref x /\ i_dev x = dev /\ i_inum x = j)) ->
   forall e, match e with
    | Some e => exists x, m_itable m !! e = Some x /\ i_ref x = 0
    | None => forall k x, m_itable m !! k = Some x -> i_ref x <> 0
    end -> Q (inr e) L f) ->
  fsp (iget_scan n i dev j empty) L f Q.
Proof.
  intros Ht. revert i empty. induction n as [|n IH]; intros i empty Hn Hno Hem HS HN; cbn [iget_scan].
  - fs_step. apply HN; [intros k x Hk; apply (Hno k); [apply lookup_lt_Some in Hk; lia|done]|].
    destruct empty; [done|]. intros k x Hk. apply (Hem k); [apply lookup_lt_Some in Hk; lia|done].
  - destruct (lookup_lt_is_Some_2 (m_itable m) i) as [x Hx]; [lia|]. fs_step. eapply (tx_geti R C); [exact Ht|done|].
    destruct ((0 <? i_ref x) && (i_dev x =? dev) && (i_inum x =? j))%bool eqn:E.
    + fs_step. apply andb_prop in E as [[E1%Z.ltb_lt E2%Z.eqb_eq]%andb_prop E3%Z.eqb_eq]. by eapply HS.
    + apply IH; [lia| | |done|done].
      * intros k y Hk Hy. destruct (decide (k = i)) as [->|]; [|apply (Hno k); [lia|done]]. simplify_eq.
        intros (E1%Z.ltb_lt & E2%Z.eqb_eq & E3%Z.eqb_eq). by rewrite E1, E2, E3 in E.
      * destruct empty as [e|]; [done|]. destruct (Z.eqb_spec (i_ref x) 0) as [E0|E0]; [eauto|].
        intros k y Hk Hy. destruct (decide (k = i)) as [->|]; [by simplify_eq|apply (Hem k); [lia|done]].
Qed.

Lemma tx_iget V ks H m f A K j (Q : Z -> list lockid -> fsst -> Prop) :
  tx V ks H m f -> itab V K m A -> (is_Some (A !! j) \/ (size A < NINODE)%nat) ->
  (forall i m' f', tx V ks H m' f' -> itab V K m' (bump j A) -> kept m m' -> at_inum m' i j ->
     (is_Some (A !! j) -> at_inum m i j) -> Q (iptr i) [] f') ->
  fsp (iget dev j) [] f Q.
Proof.
  intros Ht Hit Hroom HQ. unfold iget. do 2 fs_step. fs_step.
  eapply tx_iget_scan; [exact Ht|by rewrite (it_len _ _ _ _ _ _ Hit)|intros; lia|intros; lia| |].
  - intros i x Hx Hr Hd Hj. fs_step. eapply (tx_seti R C); [exact Ht|done|]. intros f1 Ht1. do 2 fs_step. fs_step.
    destruct (it_live _ _ _ _ _ _ Hit i x Hx Hr) as [He HA]. rewrite Hj in HA.
    apply (HQ i (put_inode i (set_i_ref (i_ref x + 1) x) m)); [done| | | |intros _; by exists x].
    + assert (E : bump j A = moved x (set_i_ref (i_ref x + 1) x) A).
      { unfold moved, bump. simpl. rewrite !(proj2 (Z.ltb_lt _ _)) by lia. rewrite insert_delete_eq, Hj, HA. done. }
      rewrite E. eapply itab_put; [done|done|simpl; lia|done| |simpl; lia]. intros _. split; [done|].
      intros k y Hne Hy Hry E'. by apply Hne, (it_uniq _ _ _ _ _ _ Hit k i y x).
    + split; [done|]. intros k y Hy Hry. destruct (decide (k = i)) as [->|Hne].
      * simplify_eq. eexists. split_and!; [by eapply put_inode_lookup|done|simpl; lia|done|done].
      * exists y. by rewrite put_inode_ne.
    + eexists. split_and!; [by eapply put_inode_lookup|done|simpl; lia].
  - intros Hnone e He. destruct e as [i|].
    2: { exfalso. destruct Hroom as [[r Hr]|Hs].
      - destruct (it_all _ _ _ _ _ _ Hit j r Hr) as (k & x & Hk & Hj & Hrx).
        destruct (it_live _ _ _ _ _ _ Hit k x Hk Hrx) as [[Hd _] _]. by apply (Hnone k x Hk).
      - destruct (itab_room _ _ _ _ _ _ Hit Hs) as (k & x & Hk & Hx). by apply (He k x). }
    destruct He as (x & Hx & Hr0). assert (HA : A !! j = None).
    { destruct (A !! j) as [r|] eqn:E; [|done]. destruct (it_all _ _ _ _ _ _ Hit j r E) as (k & y & Hk & Hj & Hry).
      destruct (it_live _ _ _ _ _ _ Hit k y Hk Hry) as [[Hd _] _]. exfalso. by apply (Hnone k y Hk). }
    fs_step. eapply (tx_seti R C); [exact Ht|done|]. intros f1 Ht1.
    fs_step. eapply (tx_seti R C); [exact Ht1|by eapply put_inode_lookup|]. rewrite put_inode_twice. intros f2 Ht2.
    fs_step. eapply (tx_seti R C); [exact Ht2|by eapply put_inode_lookup|]. rewrite put_inode_twice. intros f3 Ht3.
    fs_step. eapply (tx_seti R C); [exact Ht3|by eapply put_inode_lookup|]. rewrite put_inode_twice. intros f4 Ht4.
    do 2 fs_step. fs_step. set (x' := set_i_valid 0 (set_i_ref 1 (set_i_inum j (set_i_dev dev x)))) in *.
    destruct (it_free _ _ _ _ _ _ Hit i x Hx Hr0) as [Hlk HiK].
    apply (HQ i (put_inode i x' m)); [done| | | |intros [r Hr]; congruence].
    + assert (E : bump j A = moved x x' A) by (unfold moved, bump; simpl; by rewrite Hr0, HA).
      rewrite E. eapply itab_put; [done|done|done|done| |done]. intros _. split.
      * split_and!; [done|by rewrite decide_False|by left].
      * intros k y Hne Hy Hry E'. destruct (it_live _ _ _ _ _ _ Hit k y Hy Hry) as [[Hd _] _]. by apply (Hnone k y Hy).
    + split; [done|]. intros k y Hy Hry. exists y. rewrite put_inode_ne; [done|]. intros ->. simplify_eq. lia.
    + eexists. split_and!; [by eapply put_inode_lookup|done|done].
Qed.

(** ** Locking *)

Lemma tx_acquiresleep V ks H m f i x L (Q : unit -> list lockid -> fsst -> Prop) :
  tx V ks H m f -> (i < NINODE)%nat -> m_itable m !! i = Some x -> sl_locked (i_lock x) = 0 -> LInode i ∉ L ->
  (forall f', tx V ks H (put_inode i (set_i_lock (mksleeplock 1 pid) x) m) f' -> Q tt L f') ->
  fsp (acquiresleep fuel (ip_lock (iptr i))) L f Q.
Proof.
  intros Ht Hi Hx Hl HL HQ. unfold acquiresleep, ip_lock. rewrite iidx_iptr. unfold inode_lock. cbn [sl_lk sl_get sl_upd sl_chan].
  do 2 fs_step. fs_step. destruct fuel as [|n]; cbn [acquiresleep_loop sl_get];
    (fs_step; fs_step; eapply (tx_geti R C); [exact Ht|done|]; fs_step; rewrite Hl; cbn [Z.eqb negb]; fs_step).
  all: fs_step; eapply (tx_seti R C); [exact Ht|done|]; intros f1 Ht1; fs_step; apply fsp_mypid;
    fs_step; eapply (tx_seti R C); [exact Ht1|by eapply put_inode_lookup|]; rewrite put_inode_twice; intros f2 Ht2; fs_step; by apply HQ.
Qed.

Lemma tx_releasesleep V ks H m f i x (Q : unit -> list lockid -> fsst -> Prop) :
  tx V ks H m f -> (i < NINODE)%nat -> m_itable m !! i = Some x ->
  (forall f', tx V ks H (put_inode i (set_i_lock (mksleeplock 0 0) x) m) f' -> Q tt [] f') ->
  fsp (releasesleep (ip_lock (iptr i))) [] f Q.
Proof.
  intros Ht Hi Hx HQ. unfold releasesleep, ip_lock. rewrite iidx_iptr. unfold inode_lock. cbn [sl_lk sl_get sl_upd sl_chan].
  do 2 fs_step. fs_step. eapply (tx_seti R C); [exact Ht|done|]. intros f1 Ht1.
  fs_step. eapply (tx_seti R C); [exact Ht1|by eapply put_inode_lookup|]. rewrite put_inode_twice. intros f2 Ht2.
  do 2 fs_step. fs_step. by apply HQ.
Qed.

Lemma tx_holdingsleep V ks H m f i x (Q : bool -> list lockid -> fsst -> Prop) :
  tx V ks H m f -> (i < NINODE)%nat -> m_itable m !! i = Some x -> i_lock x = mksleeplock 1 pid ->
  Q true [] f -> fsp (holdingsleep (ip_lock (iptr i))) [] f Q.
Proof.
  intros Ht Hi Hx Hl HQ. unfold holdingsleep, ip_lock. rewrite iidx_iptr. unfold inode_lock. cbn [sl_lk sl_get sl_upd sl_chan].
  do 2 fs_step. fs_step. fs_step. eapply (tx_geti R C); [exact Ht|done|]. fs_step. rewrite Hl. cbn [sl_locked Z.eqb negb sl_pid].
  fs_step. fs_step. apply fsp_mypid. fs_step. rewrite Z.eqb_refl. do 3 fs_step. exact HQ.
Qed.

(** The inode [j] as it is on disk, locked at entry [i]. *)
Definition locked_at V m (i : nat) (j : Z) x : Prop :=
  m_itable m !! i = Some x /\ i_inum x = j /\ 0 < i_ref x /\ i_dev x = dev /\ i_valid x <> 0 /\ dinode_of x = disk_dinode (m_sb m) V j.

Lemma tx_ilock V ks m f A K i j (Q : unit -> list lockid -> fsst -> Prop) :
  tx V ks ∅ m f -> itab V K m A -> at_inum m i j -> i ∉ K -> (length ks < NBUF)%nat ->
  d_type (disk_dinode (m_sb m) V j) <> 0 ->
  (forall x m' f', tx V ks ∅ m' f' -> itab V ({[i]} ∪ K) m' A -> m_sb m' = m_sb m -> locked_at V m' i j x -> Q tt [] f') ->
  fsp (ilock fuel (iptr i)) [] f Q.
Proof.
  intros Ht Hit (x & Hx & <- & Hr) HK Hroom Hty HQ. pose proof (itab_lt _ _ _ _ _ _ Hit Hx) as Hi.
  destruct (it_live _ _ _ _ _ _ Hit i x Hx Hr) as [(Hd & Hlk & Hval) HA]. rewrite decide_False in Hlk by done.
  unfold ilock. rewrite iptr_nz. fs_step. eapply (tx_rdi R C); [exact Ht|done|]. rewrite (proj2 (Z.ltb_ge _ _)) by lia.
  fs_step. eapply tx_acquiresleep; [exact Ht|done|done|done|set_solver|]. intros f1 Ht1. set (x1 := set_i_lock (mksleeplock 1 pid) x) in *.
  fs_step. eapply (tx_rdi R C); [exact Ht1|by eapply put_inode_lookup|].
  assert (Hend : forall x', i_inum x' = i_inum x -> i_ref x' = i_ref x -> i_dev x' = dev -> i_lock x' = mksleeplock 1 pid -> i_valid x' <> 0 ->
    dinode_of x' = disk_dinode (m_sb m) V (i_inum x) -> forall f', tx V ks ∅ (put_inode i x' m) f' -> Q tt [] f').
  { intros x' E1 E2 E3 E4 E5 E6 f' Ht'. apply (HQ x' (put_inode i x' m)); [done| |done|].
    - eapply itab_same; [done|done|done|done|done|set_solver|]. split_and!; [done| |right; by rewrite E1].
      by rewrite decide_True by set_solver.
    - split_and!; [by eapply put_inode_lookup|done|lia|done..]. }
  change (i_valid x1) with (i_valid x). apply fsp_when.
  - intros Hv0. fs_step. unfold bread_inode. fs_step. eapply (tx_getsb R C); [exact Ht1|]. change (i_dev x1) with (i_dev x). rewrite Hd.
    eapply (tx_bread fuel R C); [exact Ht1|done|apply lookup_empty|rewrite map_size_empty; lia|]. intros b f2 Ht2.
    fs_step. eapply (tx_getdata R C me pid start dev D out ncom _ _ _ _ _ _ b); [exact Ht2|by apply lookup_insert_eq|].
    fs_step. eapply (tx_wri R C); [exact Ht2|by eapply put_inode_lookup|]. rewrite put_inode_twice. intros f3 Ht3.
    fs_step. eapply (tx_brelse_id R C); [exact Ht3|apply lookup_empty|eapply tx_clean; [exact Ht1|apply lookup_empty]|]. intros f4 Ht4.
    fs_step. eapply (tx_wri R C); [exact Ht4|by eapply put_inode_lookup|]. rewrite put_inode_twice. intros f5 Ht5.
    fs_step. eapply (tx_rdi R C); [exact Ht5|by eapply put_inode_lookup|]. apply fsp_when.
    + intros E%Z.eqb_eq. by destruct Hty.
    + intros _. by eapply Hend; [..|exact Ht5].
  - intros Hv0%Z.eqb_neq. destruct Hval as [Hval|Hval]; [done|]. by eapply Hend; [..|exact Ht1].
Qed.

Lemma tx_iunlock V ks H m f A K i j (Q : unit -> list lockid -> fsst -> Prop) :
  tx V ks H m f -> itab V K m A -> i ∈ K -> at_inum m i j ->
  (forall m' f', tx V ks H m' f' -> itab V (K ∖ {[i]}) m' A -> kept m m' -> Q tt [] f') ->
  fsp (iunlock (iptr i)) [] f Q.
Proof.
  intros Ht Hit HK (y & Hy & <- & Hr) HQ. pose proof (itab_lt _ _ _ _ _ _ Hit Hy) as Hi.
  destruct (it_live _ _ _ _ _ _ Hit i y Hy Hr) as [(Hd & Hlk & Hval) HA]. rewrite decide_True in Hlk by done.
  unfold iunlock. rewrite iptr_nz. fs_step. eapply tx_holdingsleep; [exact Ht|done|done|apply Hlk|]. cbn [negb].
  fs_step. eapply (tx_rdi R C); [exact Ht|done|]. rewrite (proj2 (Z.ltb_ge _ _)) by lia.
  eapply tx_releasesleep; [exact Ht|done|done|]. intros f1 Ht1. eapply HQ; [exact Ht1| |].
  - eapply itab_same; [done|done|done|done|done|set_solver|]. split_and!; [done|by rewrite decide_False by set_solver|done].
  - split; [done|]. intros k z Hz Hrz. destruct (decide (k = i)) as [->|Hne].
    + simplify_eq. eexists. by split_and!; [eapply put_inode_lookup|..].
    + exists z. by rewrite put_inode_ne.
Qed.

(** A reference to an inode that has links. *)
Lemma tx_iput V ks H m f A K i j (Q : unit -> list lockid -> fsst -> Prop) :
  tx V ks H m f -> itab V K m A -> i ∉ K -> at_inum m i j -> d_nlink (disk_dinode (m_sb m) V j) <> 0 ->
  (forall m' f', tx V ks H m' f' -> itab V K m' (unbump j A) -> m_sb m' = m_sb m ->
     (forall k l, at_inum m k l -> is_Some (unbump j A !! l) -> at_inum m' k l) -> Q tt [] f') ->
  fsp (iput fuel (iptr i)) [] f Q.
Proof.
  intros Ht Hit HK (x & Hx & <- & Hr) Hn HQ. pose proof (itab_lt _ _ _ _ _ _ Hit Hx) as Hi.
  destruct (it_live _ _ _ _ _ _ Hit i x Hx Hr) as [(Hd & Hlk & Hval) HA]. rewrite decide_False in Hlk by done.
  unfold iput. do 2 fs_step. fs_step. eapply (tx_rdi R C); [exact Ht|done|].
  assert (El : ((i_ref x =? 1) && negb (i_valid x =? 0) && (i_nlink x =? 0))%bool = false).
  { destruct Hval as [->|E]; [by rewrite andb_false_r|]. rewrite (proj2 (Z.eqb_neq (i_nlink x) 0)); [apply andb_false_r|].
    change (i_nlink x) with (d_nlink (dinode_of x)). by rewrite E. }
  rewrite El. cbn [when]. fs_step. fs_step. fs_step. eapply (tx_wri R C); [exact Ht|done|]. intros f1 Ht1. do 2 fs_step. fs_step.
  set (x' := set_i_ref (i_ref x - 1) x) in *. apply (HQ (put_inode i x' m)); [done| |done|].
  - assert (E : unbump (i_inum x) A = moved x x' A).
    { unfold unbump, moved, x'. simpl. rewrite HA, (proj2 (Z.ltb_lt 0 (i_ref x))) by lia.
      destruct (Z.eqb_spec (i_ref x) 1) as [->|Hne]; [done|]. rewrite (proj2 (Z.ltb_lt 0 (i_ref x - 1))) by lia. by rewrite insert_delete_eq. }
    rewrite E. eapply itab_put; [done|done|simpl; lia|done| |done]. intros Hr'. split; [split_and!; [done|by rewrite decide_False|done]|].
    intros k y Hne Hy Hry E'. by apply Hne, (it_uniq _ _ _ _ _ _ Hit k i y x).
  - intros k l (y & Hy & <- & E2) Hs. destruct (decide (k = i)) as [->|Hne]; [|exists y; by rewrite put_inode_ne].
    simplify_eq. exists x'. split_and!; [by eapply put_inode_lookup|done|]. unfold unbump in Hs. rewrite HA in Hs.
    destruct (Z.eqb_spec (i_ref x) 1); [rewrite lookup_delete_eq in Hs; by destruct Hs|]. unfold x'. simpl. lia.
Qed.

End Ops.
