(* ===== verification/FsDir.v ===== *)
(** * Directories and path lookup

    A directory as a list of entries, a path as a walk over directories: what
    [dirlookup] and [namex] find. *)

From stdpp Require Import base list gmap strings.
From Stdlib Require Import ZArith Lia.
From S2P Require Import Prelude KString KernelBase Proc FsBase FsLogic Bio BioFacts BioCache BioSpecs Log LogFacts LogTheorems LogTx Fs FsTx FsAlloc FsFile FsPath FsInode.

Open Scope Z_scope.

(** ** Directories *)

(** Entry [k] of a directory with contents [c]. *)
Definition dir_entry (c : list Z) (k : nat) : list Z := take 16 (drop (16 * k) c).

(** The first of the [n] entries from [k] on that is in use and named [key]:
    its inode number and its offset. *)
Fixpoint dir_find_from (n k : nat) (key c : list Z) : option (Z * Z) :=
  match n with
  | O => None
  | S n' =>
      let e := dir_entry c k in
      if ((negb (de_inum e =? 0)) && bool_decide (key = name_key (de_name e)))%bool
      then Some (de_inum e, 16 * Z.of_nat k) else dir_find_from n' (S k) key c
  end.

Definition dir_find (key c : list Z) : option (Z * Z) := dir_find_from (length c / 16) 0 key c.

(** An inode of the table with the data of the inode on disk. *)
Definition inode_of (d : dinode) : inode :=
  mkinode 0 0 0 (mksleeplock 0 0) 0 (d_type d) (d_major d) (d_minor d) (d_nlink d) (d_size d) (d_addrs d).

(** ** The tree *)

(** Inode [j] is allocated and has a link. *)
Definition linked (sb : superblock) (V : blocks) (j : Z) : Prop :=
  1 <= j < sb_ninodes sb /\ d_type (disk_dinode sb V j) <> 0 /\ d_nlink (disk_dinode sb V j) <> 0.

(** The directories that can be reached are files of whole entries, and their
    entries name linked inodes. *)
Record tree_ok (sb : superblock) (V : blocks) : Prop := {
  tr_root : linked sb V ROOTINO;
  tr_file j : linked sb V j -> d_type (disk_dinode sb V j) = T_DIR -> file_ok V (inode_of (disk_dinode sb V j));
  tr_size j : linked sb V j -> d_type (disk_dinode sb V j) = T_DIR -> d_size (disk_dinode sb V j) mod dirent_size = 0;
  tr_entry j key j' off : linked sb V j -> d_type (disk_dinode sb V j) = T_DIR ->
    dir_find key (contents V (inode_of (disk_dinode sb V j))) = Some (j', off) -> linked sb V j'
}.

(** The inode a path of elements [es] leads to from inode [j], and the elements
    that are left: none, or the last one when the parent is wanted. *)
Fixpoint resolve (parent : bool) (sb : superblock) (V : blocks) (j : Z) (es : list (list Z)) : option (Z * list (list Z)) :=
  match es with
  | [] => if parent then None else Some (j, [])
  | e :: es' =>
      let d := disk_dinode sb V j in
      if negb (d_type d =? T_DIR) then None
      else if (parent && bool_decide (es' = []))%bool then Some (j, [e])
      else match dir_find (take DIRSIZ e) (contents V (inode_of d)) with
           | Some (j', _) => resolve parent sb V j' es'
           | None => None
           end
  end.

Lemma addr_of_ext V x y bn : i_addrs x = i_addrs y -> addr_of V x bn = addr_of V y bn.
Proof. intros E. unfold addr_of. by rewrite E. Qed.

Lemma contents_ext V x y : i_addrs x = i_addrs y -> i_size x = i_size y -> contents V x = contents V y.
Proof.
  intros E1 E2. unfold contents, file_range. rewrite E2. apply map_ext. intros i. unfold file_byte.
  by rewrite (addr_of_ext V x y).
Qed.

Lemma file_ok_ext V x y : i_addrs x = i_addrs y -> i_size x = i_size y -> file_ok V x -> file_ok V y.
Proof.
  intros E1 E2 [H1 H2 H3]. split; [by rewrite <- E1|by rewrite <- E2|]. intros bn. rewrite <- E2, <- (addr_of_ext V x y) by done. apply H3.
Qed.

Lemma length_contents V x : length (contents V x) = Z.to_nat (i_size x).
Proof. apply length_range. Qed.

Section Dir.

Context {mem : Type} {cfg : config} {svc : services mem} {sym : symbols}.
Context {hfs : has_fs mem} {drv : disk_driver mem}.
Variable fuel : nat.
Variable R : kst mem -> kst mem -> Prop.
Context {dok : driver_ok mem R}.
Variable C : blocks -> Prop.
Variable me : nat.
Variable pid : Z.
Variable start dev : Z.
Variable D : blocks.
Hypothesis HC : C D.
Variable out ncom : Z.
Abbreviation fsp := (fsp R C me pid).
Abbreviation tx := (tx pid start dev D out ncom).
Abbreviation itab := (itab dev pid).
Implicit Types (V : blocks) (ks : list Z) (m : fsmem) (A : gmap Z Z) (K : gset nat) (x y : inode).

Lemma tx_read_dirent V ks m f i x k (Q : Z * list Z -> list lockid -> fsst -> Prop) :
  tx V ks ∅ m f -> m_itable m !! i = Some x -> i_dev x = dev -> file_ok V x -> blocks_ok V -> (length ks < NBUF)%nat ->
  16 * Z.of_nat k + 16 <= i_size x ->
  (forall f', tx V ks ∅ m f' -> Q (16, dir_entry (contents V x) k) [] f') ->
  fsp (read_dirent fuel (iptr i) (16 * Z.of_nat k)) [] f Q.
Proof.
  intros Ht Hi Hd Hf HV Hroom Hk HQ. unfold read_dirent, dirent_size. pose proof (fo_size _ _ Hf) as Hs.
  assert (HB : MAXFILE * Z.of_nat BSIZE = 274432) by done.
  assert (E : take (Z.to_nat 16) (drop (Z.to_nat (16 * Z.of_nat k)) (contents V x)) = dir_entry (contents V x) k).
  { unfold dir_entry. do 2 f_equal. lia. }
  assert (El : length (dir_entry (contents V x) k) = 16%nat).
  { unfold dir_entry. rewrite length_take, length_drop, length_contents. lia. }
  eapply (tx_readi fuel R C me pid start dev D HC out ncom); try done; try lia; rewrite E, El; [rewrite length_replicate; lia|].
  intros f' Ht'. specialize (HQ f' Ht'). unfold splice. rewrite El, drop_ge by (by rewrite length_replicate).
  rewrite app_nil_r. exact HQ.
Qed.

Lemma tx_dirlookup_loop V ks m f i x name n k (Q : Z * Z -> list lockid -> fsst -> Prop) :
  tx V ks ∅ m f -> m_itable m !! i = Some x -> i_dev x = dev -> file_ok V x -> blocks_ok V -> (length ks < NBUF)%nat ->
  length name = DIRSIZ -> i_size x mod 16 = 0 -> i_size x = 16 * Z.of_nat (k + n) ->
  match dir_find_from n k (name_key name) (contents V x) with
  | None => forall f', tx V ks ∅ m f' -> Q (0, 0) [] f'
  | Some (j, off) => forall f', tx V ks ∅ m f' -> fsp (iget dev j) [] f' (fun ip L f'' => Q (ip, off) L f'')
  end ->
  fsp (dirlookup_loop fuel (S n) (iptr i) name (16 * Z.of_nat k)) [] f Q.
Proof.
  intros Ht Hi Hd Hf HV Hroom Hname Hmod. revert k f Ht. induction n as [|n IH]; intros k f Ht Hs HQ; cbn [dirlookup_loop].
  - fs_step. eapply (tx_rdi R C); [exact Ht|done|]. rewrite (proj2 (Z.ltb_ge _ _)) by lia. fs_step. by apply HQ.
  - fs_step. eapply (tx_rdi R C); [exact Ht|done|]. rewrite (proj2 (Z.ltb_lt _ _)) by lia.
    fs_step. eapply tx_read_dirent; [exact Ht|done|done|done|done|done|lia|]. intros f1 Ht1.
    cbn [fst snd Z.eqb negb dirent_size Pos.eqb]. cbn [dir_find_from] in HQ. set (e := dir_entry (contents V x) k) in *.
    assert (Hlen : length (de_name e) = DIRSIZ).
    { unfold de_name, e, dir_entry. rewrite length_drop, length_take, length_drop, length_contents. unfold DIRSIZ. lia. }
    assert (Eoff : u32 (16 * Z.of_nat k + 16) = 16 * Z.of_nat (S k)).
    { unfold u32. pose proof (fo_size _ _ Hf). assert (HB : MAXFILE * Z.of_nat BSIZE = 274432) by done. rewrite Z.mod_small; lia. }
    destruct (Z.eqb_spec (de_inum e) 0) as [E0|E0]; cbn [negb andb] in HQ.
    { unfold dirent_size. rewrite Eoff. apply IH; [done|lia|done]. }
    destruct (namecmp_eq name (de_name e) Hname Hlen) as (d & Ed & Hdz). rewrite Ed. cbn [of_opt]. fs_step. fs_step.
    destruct (Z.eqb_spec d 0) as [E1|E1].
    + rewrite bool_decide_eq_true_2 in HQ by (by apply Hdz). fs_step. eapply (tx_rdi R C); [exact Ht1|done|]. rewrite Hd.
      fs_step. eapply fsp_mono; [by apply HQ|]. intros p L f2 HQ2. by fs_step.
    + rewrite bool_decide_eq_false_2 in HQ by (by rewrite <- Hdz). unfold dirent_size. rewrite Eoff. apply IH; [done|lia|done].
Qed.

Lemma tx_dirlookup V ks m f i x name (Q : Z * Z -> list lockid -> fsst -> Prop) :
  tx V ks ∅ m f -> m_itable m !! i = Some x -> i_dev x = dev -> i_type x = T_DIR -> file_ok V x -> blocks_ok V ->
  (length ks < NBUF)%nat -> length name = DIRSIZ -> i_size x mod dirent_size = 0 ->
  match dir_find (name_key name) (contents V x) with
  | None => forall f', tx V ks ∅ m f' -> Q (0, 0) [] f'
  | Some (j, off) => forall f', tx V ks ∅ m f' -> fsp (iget dev j) [] f' (fun ip L f'' => Q (ip, off) L f'')
  end ->
  fsp (dirlookup fuel (iptr i) name) [] f Q.
Proof.
  intros Ht Hi Hd Hty Hf HV Hroom Hname Hmod HQ. unfold dirlookup. fs_step. eapply (tx_rdi R C); [exact Ht|done|].
  rewrite Hty. cbn [Z.eqb negb T_DIR Pos.eqb]. unfold dirents, dirent_size in *. pose proof (fo_size _ _ Hf) as Hs.
  pose proof (Z.div_mod (i_size x) 16 ltac:(lia)) as E. rewrite Hmod in E.
  pose proof (Z.div_pos (i_size x) 16 ltac:(lia) ltac:(lia)) as Hq.
  assert (En : (Z.to_nat (i_size x) / 16)%nat = Z.to_nat (i_size x / 16)) by (rewrite (Z2Nat.inj_div _ 16) by lia; done).
  assert (Hn : Z.to_nat (i_size x / 16 + 1) = S (Z.to_nat (i_size x) / 16)) by (rewrite En; lia).
  rewrite Hn. apply (tx_dirlookup_loop V ks m f i x name _ 0); try done; [|by unfold dir_find in HQ; rewrite length_contents in HQ].
  rewrite En. lia.
Qed.

(** ** Paths *)

Definition refs_pos A : Prop := forall k r, A !! k = Some r -> 0 < r.

Lemma bump_pos j A : refs_pos A -> refs_pos (bump j A).
Proof.
  intros HA k r. unfold bump. rewrite lookup_insert_Some. intros [[-> <-]|[_ Hk]]; [|by eapply HA].
  destruct (A !! k) as [r'|] eqn:E; simpl; [|lia]. specialize (HA k r' E). lia.
Qed.

Lemma unbump_id j A : refs_pos A -> unbump j (bump j A) = A.
Proof. intros HA. apply unbump_bump. intros E. specialize (HA j 0 E). lia. Qed.

Lemma bump_size j A : (size (bump j A) <= S (size A))%nat.
Proof.
  unfold bump. destruct (A !! j) as [r|] eqn:E; [rewrite map_size_insert_Some by eauto; lia|by rewrite map_size_insert_None].
Qed.

Lemma bump_in j A : is_Some (bump j A !! j).
Proof. unfold bump. rewrite lookup_insert_eq. eauto. Qed.

Lemma tx_iunlockput V ks H m f A i j (Q : unit -> list lockid -> fsst -> Prop) :
  tx V ks H m f -> itab V {[i]} m A -> at_inum m i j -> d_nlink (disk_dinode (m_sb m) V j) <> 0 ->
  (forall m' f', tx V ks H m' f' -> itab V ∅ m' (unbump j A) -> m_sb m' = m_sb m ->
     (forall k l, at_inum m k l -> is_Some (unbump j A !! l) -> at_inum m' k l) -> Q tt [] f') ->
  fsp (iunlockput fuel (iptr i)) [] f Q.
Proof.
  intros Ht Hit Hat Hn HQ. unfold iunlockput. fs_step.
  eapply (tx_iunlock R C me pid start dev D HC out ncom); [exact Ht|exact Hit|set_solver|exact Hat|]. intros m1 f1 Ht1 Hit1 Hk1.
  replace ({[i]} ∖ {[i]} : gset nat) with (∅ : gset nat) in Hit1 by set_solver.
  pose proof Hk1 as [Esb _].
  eapply (tx_iput fuel R C me pid start dev D HC out ncom); [exact Ht1|exact Hit1|set_solver|by eapply kept_at|by rewrite Esb|].
  intros m2 f2 Ht2 Hit2 Es2 Hfr. apply (HQ m2); [done|done|congruence|]. intros k l Hkl. apply Hfr. by eapply kept_at.
Qed.

(** The table between two rounds of a walk: the references [A], and one more
    to the inode [j] the walk is at. *)
Definition walking V m A (i : nat) (j : Z) : Prop := itab V ∅ m (bump j A) /\ at_inum m i j.

(** What a walk that resolves to [res] leaves. *)
Definition arrived V m A (res : option (Z * list (list Z))) (r : Z * list Z) : Prop :=
  match res with
  | Some (j, es) => exists i, r.1 = iptr i /\ walking V m A i j /\
      forall e, es = [e] -> length r.2 = DIRSIZ /\ name_key r.2 = take DIRSIZ e
  | None => r.1 = 0 /\ itab V ∅ m A
  end.

Lemma locked_same V m i j x : locked_at dev V m i j x -> i_type x = d_type (disk_dinode (m_sb m) V j) /\
  i_nlink x = d_nlink (disk_dinode (m_sb m) V j) /\ i_size x = d_size (disk_dinode (m_sb m) V j) /\
  i_addrs x = d_addrs (disk_dinode (m_sb m) V j).
Proof. intros (_ & _ & _ & _ & _ & E). rewrite <- E. done. Qed.

Lemma tx_namex_loop V ks m f A n path parent name i j (Q : Z * list Z -> list lockid -> fsst -> Prop) :
  tx V ks ∅ m f -> walking V m A i j -> refs_pos A -> (S (size A) < NINODE)%nat -> (length ks < NBUF)%nat ->
  blocks_ok V -> tree_ok (m_sb m) V -> linked (m_sb m) V j ->
  0 ∈ path -> length name = DIRSIZ -> (length path <= n)%nat ->
  (forall r m' f', tx V ks ∅ m' f' -> m_sb m' = m_sb m -> arrived V m' A (resolve parent (m_sb m) V j (elems path)) r -> Q r [] f') ->
  fsp (namex_loop fuel n path parent name (iptr i)) [] f Q.
Proof.
  intros Ht Hw HA Hsz Hroom HV Htree Hlk H0 Hname Hle HQ.
  revert path name i j m f Ht Hw Htree Hlk H0 Hname Hle HQ.
  induction n as [|n IH]; intros path name i j m f Ht [Hit Hat] Htree Hlk H0 Hname Hle HQ;
    pose proof (skipelem_step path name H0) as Hstep; pose proof (elems_no_nul path) as Hnn; cbn [namex_loop].
  { destruct path; [by apply not_elem_of_nil in H0|simpl in Hle; lia]. }
  destruct (elems path) as [|e es] eqn:Ees.
  { rewrite Hstep. cbn [of_opt]. fs_step. fs_step. destruct parent.
    - fs_step. eapply (tx_iput fuel R C me pid start dev D HC out ncom); [exact Ht|exact Hit|set_solver|exact Hat|apply Hlk|].
      intros m1 f1 Ht1 Hit1 Es1 _. fs_step. rewrite unbump_id in Hit1 by done. by apply (HQ _ m1).
    - fs_step. apply (HQ _ m); [done|done|]. exists i. split_and!; [done|by split|done]. }
  destruct Hstep as (rest & Hstep & Hes & Hr0 & Hlen & Hend). rewrite Hstep. cbn [of_opt]. fs_step. fs_step.
  apply Forall_cons in Hnn as [Hnn _]. set (name1 := store_name e name).
  assert (Hname1 : length name1 = DIRSIZ) by (by apply length_store_name).
  assert (Hkey : name_key name1 = take DIRSIZ e) by (by apply name_key_store).
  fs_step. eapply (tx_ilock fuel R C me pid start dev D HC out ncom); [exact Ht|exact Hit|exact Hat|set_solver|done|apply Hlk|].
  intros x m1 f1 Ht1 Hit1 Es1 Hx. rewrite union_empty_r_L in Hit1. destruct (locked_same _ _ _ _ _ Hx) as (Ety & Enl & Esz & Ead).
  rewrite Es1 in Ety, Enl, Esz, Ead. pose proof Hx as (Hxi & Hxj & Hxr & Hxd & _).
  assert (Hat1 : at_inum m1 i j) by (by exists x).
  assert (Hgive : forall r, resolve parent (m_sb m) V j (e :: es) = None -> r.1 = 0 -> forall f', tx V ks ∅ m1 f' ->
    fsp (iunlockput fuel (iptr i) ;; ret r) [] f' Q).
  { intros r Hres Hr f' Ht'. fs_step. eapply tx_iunlockput; [exact Ht'|exact Hit1|exact Hat1|rewrite Es1; apply Hlk|].
    intros m2 f2 Ht2 Hit2 Es2 _. fs_step. rewrite unbump_id in Hit2 by done. apply (HQ _ m2); [done|congruence|]. rewrite Hres. by split. }
  fs_step. eapply (tx_rdi R C); [exact Ht1|done|]. rewrite Ety. cbn [resolve] in HQ, Hgive.
  destruct (Z.eqb_spec (d_type (disk_dinode (m_sb m) V j)) T_DIR) as [Ed|Ed]; cbn [negb] in *; [|by apply Hgive].
  rewrite Enl, (proj2 (Z.eqb_neq _ 0)) by apply Hlk.
  destruct (rest !! 0%nat) as [c|] eqn:Ec; [|destruct rest; [by apply not_elem_of_nil in Hr0|done]]. cbn [of_opt]. fs_step. fs_step.
  assert (Eb : (c =? 0) = bool_decide (es = [])).
  { destruct (Z.eqb_spec c 0) as [->|Hc]; symmetry; [apply bool_decide_eq_true_2; by apply Hend|].
    apply bool_decide_eq_false_2. rewrite <- Hend. congruence. }
  rewrite Eb. destruct (parent && bool_decide (es = []))%bool eqn:Ep.
  { fs_step. eapply (tx_iunlock R C me pid start dev D HC out ncom); [exact Ht1|exact Hit1|set_solver|exact Hat1|]. intros m2 f2 Ht2 Hit2 Hk2.
    replace ({[i]} ∖ {[i]} : gset nat) with (∅ : gset nat) in Hit2 by set_solver. pose proof Hk2 as [Es2 _]. fs_step.
    apply (HQ _ m2); [done|congruence|]. exists i. split_and!; [done|split; [done|by eapply kept_at]|]. by intros ? [= <-]. }
  assert (Ec' : contents V x = contents V (inode_of (disk_dinode (m_sb m) V j))) by (by apply contents_ext).
  fs_step. eapply (tx_dirlookup V ks m1 _ i x); [exact Ht1|done|done|congruence| |done|done|done| |].
  { apply (file_ok_ext V (inode_of (disk_dinode (m_sb m) V j)) x); [by rewrite Ead|by rewrite Esz|by apply (tr_file _ _ Htree j)]. }
  { rewrite Esz. by apply (tr_size _ _ Htree j). }
  rewrite Hkey, Ec'. destruct (dir_find _ _) as [[j' off]|] eqn:Ef; [|intros f2 Ht2; cbn [fst Z.eqb]; by apply Hgive].
  intros f2 Ht2. pose proof (tr_entry _ _ Htree j _ j' off Hlk Ed Ef) as Hlk'. pose proof (bump_size j A).
  eapply (tx_iget R C me pid start dev D HC out ncom); [exact Ht2|exact Hit1|right; lia|]. intros i' m3 f3 Ht3 Hit3 Hk3 Hat3 _.
  cbn [fst]. rewrite iptr_nz. pose proof Hk3 as [Es3 _]. fs_step.
  eapply tx_iunlockput; [exact Ht3|exact Hit3|by eapply kept_at|rewrite Es3, Es1; apply Hlk|]. intros m4 f4 Ht4 Hit4 Es4 Hfr4.
  rewrite bump_comm, unbump_id in Hit4, Hfr4 by (by apply bump_pos).
  assert (Esb : m_sb m4 = m_sb m) by congruence.
  apply (IH rest name1 i' j' m4); [done| |by rewrite Esb|by rewrite Esb|done|done|lia|].
  { split; [done|]. apply Hfr4; [done|apply bump_in]. }
  intros r m' f' Ht' Es' Harr. apply (HQ r m'); [done|congruence|]. by rewrite Esb, Hes in Harr.
Qed.

Lemma dir_find_entry n k key c j off : dir_find_from n k key c = Some (j, off) ->
  exists l, (k <= l < k + n)%nat /\ j = de_inum (dir_entry c l) /\ j <> 0.
Proof.
  revert k. induction n as [|n IH]; intros k; [done|]. cbn [dir_find_from].
  destruct (Z.eqb_spec (de_inum (dir_entry c k)) 0) as [E|E]; cbn [negb andb].
  - intros (l & ? & ? & ?)%IH. exists l. split_and!; [lia|lia|done|done].
  - destruct (bool_decide _); [intros [= <- <-]; exists k; split_and!; [lia|lia|done|done]|].
    intros (l & ? & ? & ?)%IH. exists l. split_and!; [lia|lia|done|done].
Qed.


End Dir.
