(* ===== verification/FsWrite.v ===== *)
(** * Writing files

    [bmap] when it allocates, [iupdate] and [writei]: what they do to the bytes of
    the file, to the inode on disk and to the bitmap. *)

From stdpp Require Import base list gmap strings list_numbers.
From Stdlib Require Import ZArith Lia.
From S2P Require Import Prelude KString KernelBase Proc FsBase FsLogic Bio BioFacts BioCache BioSpecs Log LogFacts LogTheorems LogTx Fs FsTx FsAlloc FsFile FsInode.

Open Scope Z_scope.

(** ** Integers in blocks *)

Lemma u32_i32_eq v : u32 (i32 v) = u32 v.
Proof. unfold u32, i32. rewrite Zminus_mod_idemp_l. f_equal. lia. Qed.

Lemma get_uint_int l off : get_uint l off = u32 (get_int l off).
Proof. unfold get_uint, get_int. by rewrite u32_i32_eq. Qed.

Lemma splice_put_int l off v : splice l off (le_bytes 4 v) = put_int l off v.
Proof. unfold splice, put_int. by rewrite length_le_bytes. Qed.

Lemma get_uint_splice l q q' v : (4 * q + 4 <= length l)%nat -> (4 * q' + 4 <= length l)%nat ->
  get_uint (splice l (4 * q) (le_bytes 4 v)) (4 * q') = if decide (q' = q) then u32 v else get_uint l (4 * q').
Proof.
  intros Hq Hq'. rewrite !get_uint_int, splice_put_int. destruct (decide (q' = q)) as [->|Hne].
  - rewrite get_put_int by done. apply u32_i32_eq.
  - by rewrite get_put_int_ne by lia.
Qed.

Lemma take_zeros n k : take n (replicate k 0) = replicate (n `min` k) 0.
Proof. apply take_replicate. Qed.

Lemma get_uint_zeros k off : get_uint (replicate k 0) off = 0.
Proof.
  unfold get_uint. rewrite drop_replicate, take_replicate. generalize ((4 `min` (k - off))%nat). intros n.
  assert (E : le_val (replicate n 0) = 0) by (induction n as [|n IH]; simpl; [done|]; rewrite IH; done). by rewrite E.
Qed.

Lemma le_bytes_ok n v : Forall (fun b => 0 <= b < 256) (le_bytes n v).
Proof. revert v. induction n as [|n IH]; intros v; simpl; constructor; [apply Z.mod_pos_bound; lia|apply IH]. Qed.

Lemma block_ok_splice l off b : block_ok l -> (off + length b <= length l)%nat -> Forall (fun v => 0 <= v < 256) b -> block_ok (splice l off b).
Proof.
  intros [H1 H2] Hb Hbytes. split; [by rewrite length_splice|]. unfold splice. rewrite !Forall_app. split_and!; [by apply Forall_take|done|by apply Forall_drop].
Qed.

(** ** The blocks of a file *)

(** The indirect block. *)
Definition ind_of (x : inode) : Z := default 0 (i_addrs x !! Z.to_nat NDIRECT).

(** A data block that is in use. *)
Definition in_use (sb : superblock) (V : blocks) (k : Z) : Prop := meta_end sb <= k < sb_size sb /\ used sb V k = true.

(** The blocks of the file up to byte [lim] exist, all blocks of the file are
    data blocks in use, and no block serves twice. *)
Record file_inv (sb : superblock) (V : blocks) (x : inode) (lim : Z) : Prop := {
  fi_addrs : length (i_addrs x) = 13%nat;
  fi_lim : 0 <= lim <= MAXFILE * Z.of_nat BSIZE;
  fi_mapped bn : 0 <= bn -> bn * Z.of_nat BSIZE < lim -> addr_of V x bn <> 0;
  fi_data bn : 0 <= bn < MAXFILE -> addr_of V x bn <> 0 -> in_use sb V (addr_of V x bn);
  fi_ind : ind_of x <> 0 -> in_use sb V (ind_of x);
  fi_inj bn bn' : 0 <= bn < MAXFILE -> 0 <= bn' < MAXFILE -> addr_of V x bn <> 0 -> addr_of V x bn = addr_of V x bn' -> bn = bn';
  fi_ne bn : 0 <= bn < MAXFILE -> addr_of V x bn <> 0 -> addr_of V x bn <> ind_of x
}.

(** [V'] and [x'] have all blocks of the file [x] with what they hold, and all
    else that is in use. *)
Record grown (sb : superblock) (V : blocks) (x : inode) (V' : blocks) (x' : inode) : Prop := {
  gr_inode : x' = set_i_addrs (i_addrs x') x;
  gr_addr bn : 0 <= bn < MAXFILE -> addr_of V x bn <> 0 ->
    addr_of V' x' bn = addr_of V x bn /\ V' (addr_of V x bn) = V (addr_of V x bn);
  gr_ind : ind_of x <> 0 -> ind_of x' = ind_of x;
  gr_new : ind_of x = 0 -> ~ in_use sb V (ind_of x') \/ ind_of x' = 0;
  gr_old bn : 0 <= bn < MAXFILE -> in_use sb V (addr_of V' x' bn) -> addr_of V' x' bn = addr_of V x bn;
  gr_low k : k < sb_bmapstart sb -> V' k = V k;
  gr_used k : in_use sb V k -> in_use sb V' k /\ (k <> ind_of x -> V' k = V k)
}.

(** The first data block is not block 0. *)
Definition geometry_pos (sb : superblock) : Prop := 0 < meta_end sb.

Lemma grown_file_refl sb V x : grown sb V x V x.
Proof. split; try done; [by destruct x|by right]. Qed.

Lemma grown_file_trans sb V1 x1 V2 x2 V3 x3 : geometry_pos sb -> grown sb V1 x1 V2 x2 -> grown sb V2 x2 V3 x3 -> grown sb V1 x1 V3 x3.
Proof.
  intros Hpos G1 G2. split.
  - rewrite (gr_inode _ _ _ _ _ G2), (gr_inode _ _ _ _ _ G1). done.
  - intros bn Hbn Hnz. destruct (gr_addr _ _ _ _ _ G1 bn Hbn Hnz) as [E1 E2].
    destruct (gr_addr _ _ _ _ _ G2 bn Hbn) as [E3 E4]; [by rewrite E1|]. rewrite E1 in E3, E4. split; congruence.
  - intros Hnz. pose proof (gr_ind _ _ _ _ _ G1 Hnz) as E. rewrite (gr_ind _ _ _ _ _ G2); congruence.
  - intros E0. destruct (decide (ind_of x2 = 0)) as [E2|E2].
    + destruct (gr_new _ _ _ _ _ G2 E2) as [Hn|]; [left|by right]. intros Hu. by apply Hn, (gr_used _ _ _ _ _ G1).
    + rewrite (gr_ind _ _ _ _ _ G2 E2). by apply (gr_new _ _ _ _ _ G1).
  - intros bn Hbn Hu. assert (E : addr_of V3 x3 bn = addr_of V2 x2 bn) by (apply (gr_old _ _ _ _ _ G2); [done|by apply (gr_used _ _ _ _ _ G1)]).
    rewrite E in Hu |- *. by apply (gr_old _ _ _ _ _ G1).
  - intros k Hk. rewrite (gr_low _ _ _ _ _ G2), (gr_low _ _ _ _ _ G1); done.
  - intros k Hk. destruct (gr_used _ _ _ _ _ G1 k Hk) as [U1 E1]. destruct (gr_used _ _ _ _ _ G2 k U1) as [U2 E2].
    split; [done|]. intros Hne. rewrite E2, E1; try done. intros ->. destruct (decide (ind_of x1 = 0)) as [E0|E0].
    + destruct (gr_new _ _ _ _ _ G1 E0) as [|E]; [done|]. rewrite E in Hk. unfold geometry_pos, in_use in *. lia.
    + by rewrite (gr_ind _ _ _ _ _ G1 E0) in Hne.
Qed.

(** The bytes of the file are kept. *)
Lemma grown_byte sb V x V' x' p : grown sb V x V' x' -> 0 <= p < MAXFILE * Z.of_nat BSIZE ->
  addr_of V x (p / Z.of_nat BSIZE) <> 0 -> file_byte V' x' p = file_byte V x p.
Proof.
  intros G Hp Hnz. assert (Hbn : 0 <= p / Z.of_nat BSIZE < MAXFILE).
  { split; [apply Z.div_pos; rewrite ?BSIZE_val; lia|]. apply Z.div_lt_upper_bound; rewrite ?BSIZE_val in *; lia. }
  destruct (gr_addr _ _ _ _ _ G _ Hbn Hnz) as [E1 E2]. unfold file_byte. by rewrite E1, E2.
Qed.

Section Slots.

Variable start : Z.
Variable sb : superblock.
Hypothesis Hg : geometry start sb.
Implicit Types (V : blocks) (x : inode).

Lemma geo_pos : geometry_pos sb.
Proof. pose proof (g_pos _ _ Hg). unfold geometry_pos, meta_end. lia. Qed.

Lemma in_use_nz V k : in_use sb V k -> k <> 0.
Proof. pose proof geo_pos as Hp. unfold geometry_pos in Hp. intros [Hk _] ->. lia. Qed.

Lemma in_use_pos V k : in_use sb V k -> 0 <= k < sb_size sb.
Proof. pose proof geo_pos as Hp. unfold geometry_pos in Hp. intros [Hk _]. lia. Qed.

(** One more block for the file. *)
Lemma inv_add V x V' x' bn a lim :
  file_inv sb V x lim -> 0 <= bn < MAXFILE -> addr_of V x bn = 0 -> in_use sb V' a -> ~ in_use sb V a ->
  length (i_addrs x') = 13%nat -> x' = set_i_addrs (i_addrs x') x -> ind_of x' = ind_of x ->
  (forall bn', 0 <= bn' < MAXFILE -> addr_of V' x' bn' = if bn' =? bn then a else addr_of V x bn') ->
  (forall k, k < sb_bmapstart sb -> V' k = V k) ->
  (forall k, in_use sb V k -> in_use sb V' k /\ (k <> ind_of x -> V' k = V k)) ->
  file_inv sb V' x' lim /\ grown sb V x V' x'.
Proof.
  intros [F1 F2 F3 F4 F5 F6 F7] Hbn H0 Ha Hna Hlen Ex Eind Hadd Hlow Huse.
  assert (Hold : forall bn', 0 <= bn' < MAXFILE -> addr_of V x bn' <> 0 -> addr_of V' x' bn' = addr_of V x bn' /\ addr_of V x bn' <> a).
  { intros bn' Hr Hnz. rewrite Hadd by done. destruct (Z.eqb_spec bn' bn) as [->|]; [done|]. split; [done|].
    intros E. apply Hna. rewrite <- E. by apply F4. }
  assert (Hcase : forall bn', 0 <= bn' < MAXFILE -> (bn' = bn /\ addr_of V' x' bn' = a) \/ (bn' <> bn /\ addr_of V' x' bn' = addr_of V x bn')).
  { intros bn' Hr. rewrite Hadd by done. destruct (Z.eqb_spec bn' bn); auto. }
  split; split; try done.
  - intros bn' Hbn' Hlt. assert (Hr : 0 <= bn' < MAXFILE).
    { split; [done|]. rewrite MAXFILE_val, BSIZE_val in *. lia. }
    destruct (Hcase bn' Hr) as [[-> ->]|[_ ->]]; [by eapply in_use_nz|by apply F3].
  - intros bn' Hr Hnz. destruct (Hcase bn' Hr) as [[-> E]|[_ E]]; rewrite E in *; [done|]. by apply Huse, F4.
  - rewrite Eind. intros Hnz. by apply Huse, F5.
  - intros b1 b2 Hr1 Hr2. destruct (Hcase b1 Hr1) as [[-> E1]|[N1 E1]], (Hcase b2 Hr2) as [[-> E2]|[N2 E2]]; rewrite ?E1, ?E2; [done| | |by apply F6].
    + intros Hnz E. exfalso. apply Hna. rewrite E. apply F4; [done|congruence].
    + intros Hnz E. exfalso. apply Hna. rewrite <- E. by apply F4.
  - intros bn' Hr Hnz. rewrite Eind. destruct (Hcase bn' Hr) as [[-> E]|[_ E]]; rewrite E in *; [|by apply F7].
    intros E'. destruct (decide (ind_of x = 0)) as [E0|E0]; [congruence|]. apply Hna. rewrite E'. by apply F5.
  - intros bn' Hr Hnz. destruct (Hold bn' Hr Hnz) as [E _]. split; [done|]. apply Huse; [by apply F4|by apply F7].
  - rewrite Eind. intros E0. by right.
  - intros bn' Hr Hu. destruct (Hcase bn' Hr) as [[-> E]|[_ E]]; [|done]. by rewrite E in Hu.
Qed.

Section Alloc.

Variable V : blocks.
Variable a : Z.
Hypothesis HV : blocks_ok V.
Hypothesis Ha : meta_end sb <= a < sb_size sb.
Hypothesis Hfree : used sb V a = false.

Lemma not_in_use : ~ in_use sb V a.
Proof. intros [_ Hu]. congruence. Qed.

Lemma alloc_in_use : in_use sb (allocated sb V a) a.
Proof.
  split; [done|]. pose proof geo_pos as Hp. unfold geometry_pos in Hp. rewrite (used_allocated start) by (done || lia). by rewrite Z.eqb_refl.
Qed.

Lemma alloc_keeps k : in_use sb V k -> in_use sb (allocated sb V a) k /\ allocated sb V a k = V k.
Proof.
  intros Hk. pose proof (in_use_pos _ _ Hk). destruct Hk as [Hr Hu]. pose proof geo_pos as Hp. unfold geometry_pos in Hp.
  pose proof (BBLOCK_range start sb Hg a ltac:(lia)). split.
  - split; [done|]. rewrite (used_allocated start) by (done || lia). rewrite Hu. apply orb_true_r.
  - apply allocated_other; [|lia]. intros ->. congruence.
Qed.

Lemma alloc_low k : k < sb_bmapstart sb -> allocated sb V a k = V k.
Proof.
  intros Hk. pose proof (g_pos _ _ Hg). pose proof geo_pos as Hp. unfold geometry_pos, meta_end in *.
  pose proof (BBLOCK_range start sb Hg a ltac:(lia)). apply allocated_other; lia.
Qed.

(** A direct block. *)
Lemma add_direct x lim n : file_inv sb V x lim -> 0 <= n < NDIRECT -> addr_of V x n = 0 ->
  let x' := set_i_addrs (<[Z.to_nat n := a]> (i_addrs x)) x in
  file_inv sb (allocated sb V a) x' lim /\ grown sb V x (allocated sb V a) x' /\ addr_of (allocated sb V a) x' n = a.
Proof.
  intros F Hn H0 x'. pose proof (fi_addrs _ _ _ _ F) as Hlen. assert (HM : MAXFILE = 268) by done. unfold NDIRECT in Hn.
  assert (Ei : ind_of x' = ind_of x) by (unfold ind_of, x', NDIRECT; simpl; by rewrite list_lookup_insert_ne by lia).
  assert (Hadd : forall bn', 0 <= bn' < MAXFILE -> addr_of (allocated sb V a) x' bn' = if bn' =? n then a else addr_of V x bn').
  { intros bn' Hr. unfold addr_of. destruct (Z.ltb_spec bn' NDIRECT) as [Hd|Hd].
    - unfold x'. simpl. destruct (Z.eqb_spec bn' n) as [->|Hne]; [by rewrite list_lookup_insert_eq by lia|].
      by rewrite list_lookup_insert_ne by lia.
    - rewrite (proj2 (Z.eqb_neq bn' n)) by (unfold NDIRECT in Hd; lia). fold (ind_of x'). fold (ind_of x). rewrite Ei.
      destruct (Z.eqb_spec (ind_of x) 0) as [|Hnz]; [done|]. destruct (alloc_keeps (ind_of x)) as [_ ->]; [|done].
      by apply (fi_ind _ _ _ _ F). }
  assert (Hfin : file_inv sb (allocated sb V a) x' lim /\ grown sb V x (allocated sb V a) x').
  { apply (inv_add _ _ _ _ n a lim); try done; [lia|apply alloc_in_use|apply not_in_use|simpl; by rewrite length_insert|apply alloc_low|].
    intros k Hk. destruct (alloc_keeps k Hk). auto. }
  split_and!; [apply Hfin..|]. rewrite Hadd by lia. by rewrite Z.eqb_refl.
Qed.

(** The indirect block, with no entries. *)
Lemma add_ind x lim : file_inv sb V x lim -> ind_of x = 0 ->
  let x' := set_i_addrs (<[Z.to_nat NDIRECT := a]> (i_addrs x)) x in
  file_inv sb (allocated sb V a) x' lim /\ grown sb V x (allocated sb V a) x' /\ ind_of x' = a /\
  forall bn, addr_of (allocated sb V a) x' bn = addr_of V x bn.
Proof.
  intros F H0 x'. pose proof F as [F1 F2 F3 F4 F5 F6 F7].
  assert (Ei : ind_of x' = a) by (unfold ind_of, x', NDIRECT; simpl; by rewrite list_lookup_insert_eq by (simpl; lia)).
  assert (Hadd : forall bn, addr_of (allocated sb V a) x' bn = addr_of V x bn).
  { intros bn. unfold addr_of. destruct (Z.ltb_spec bn NDIRECT) as [Hd|Hd].
    - unfold x'. simpl. destruct (decide (Z.to_nat bn = Z.to_nat NDIRECT)) as [E|E]; [unfold NDIRECT in *; lia|].
      by rewrite list_lookup_insert_ne by done.
    - fold (ind_of x'). fold (ind_of x). rewrite Ei, H0, Z.eqb_refl. destruct (a =? 0); [done|].
      unfold allocated. rewrite upd_eq. apply get_uint_zeros. }
  assert (Hne : forall bn, 0 <= bn < MAXFILE -> addr_of V x bn <> 0 -> addr_of V x bn <> a).
  { intros bn Hr Hnz E. apply not_in_use. rewrite <- E. by apply F4. }
  split_and!; [| |done|done].
  - split; [simpl; by rewrite length_insert|done|intros bn; rewrite Hadd; apply F3| | | |].
    + intros bn Hr. rewrite Hadd. intros Hnz. by apply alloc_keeps, F4.
    + intros _. rewrite Ei. apply alloc_in_use.
    + intros b1 b2. rewrite !Hadd. apply F6.
    + intros bn Hr. rewrite Hadd, Ei. by apply Hne.
  - split; [done| |done| |intros bn _ _; apply Hadd|apply alloc_low|].
    + intros bn Hr Hnz. split; [apply Hadd|]. by apply alloc_keeps, F4.
    + intros _. rewrite Ei. left. apply not_in_use.
    + intros k Hk. destruct (alloc_keeps k Hk). auto.
Qed.

(** A block in the indirect block. *)
Lemma add_indirect x lim bn : file_inv sb V x lim -> NDIRECT <= bn < MAXFILE -> ind_of x <> 0 -> addr_of V x bn = 0 ->
  let V' := upd (allocated sb V a) (ind_of x)
              (splice (allocated sb V a (ind_of x)) (4 * Z.to_nat (bn - NDIRECT)) (le_bytes 4 a)) in
  file_inv sb V' x lim /\ grown sb V x V' x /\ addr_of V' x bn = a.
Proof.
  intros F Hbn Hi H0 V'. pose proof (fi_ind _ _ _ _ F Hi) as Hiu. destruct (alloc_keeps _ Hiu) as [Hiu' Eiv].
  pose proof (in_use_pos _ _ Hiu) as Hip. assert (Hau : forall k, in_use sb (allocated sb V a) k -> in_use sb V' k).
  { intros k Hk. pose proof (in_use_pos _ _ Hk). destruct Hk as [Hk1 Hk2]. split; [done|]. unfold V'.
    rewrite (used_data start) by (done || destruct Hiu; lia). done. }
  assert (Hlen : length (V (ind_of x)) = BSIZE) by apply HV. assert (HM : MAXFILE = 268) by done. unfold NDIRECT in *.
  assert (Hadd : forall bn', 0 <= bn' < MAXFILE -> addr_of V' x bn' = if bn' =? bn then a else addr_of V x bn').
  { intros bn' Hr. unfold addr_of. destruct (Z.ltb_spec bn' NDIRECT) as [Hd|Hd].
    - rewrite (proj2 (Z.eqb_neq bn' bn)); [done|]. unfold NDIRECT in Hd. lia.
    - fold (ind_of x). rewrite (proj2 (Z.eqb_neq _ 0) Hi). unfold V'. rewrite upd_eq, Eiv. unfold NDIRECT in *.
      rewrite get_uint_splice by (rewrite Hlen, BSIZE_val; lia). destruct (decide _) as [E|E].
      + assert (bn' = bn) as -> by lia. rewrite Z.eqb_refl. apply Z.mod_small. destruct Hg. pose proof geo_pos as Hp. unfold geometry_pos in Hp. lia.
      + rewrite (proj2 (Z.eqb_neq bn' bn)) by congruence. done. }
  assert (Hfin : file_inv sb V' x lim /\ grown sb V x V' x).
  { eapply (inv_add _ _ _ _ bn a); try done; [lia|apply Hau, alloc_in_use|apply not_in_use|apply (fi_addrs _ _ _ _ F)|by destruct x| |].
    - intros k Hk. unfold V'. pose proof (g_pos _ _ Hg). rewrite upd_ne; [by apply alloc_low|]. destruct Hiu. unfold meta_end in *. lia.
    - intros k Hk. destruct (alloc_keeps k Hk) as [K1 K2]. split; [by apply Hau|]. intros Hne. unfold V'. by rewrite upd_ne. }
  split_and!; [apply Hfin..|]. rewrite Hadd by lia. by rewrite Z.eqb_refl.
Qed.

End Alloc.

End Slots.

(** ** [bmap] *)

Section Write.

Context {mem : Type} {cfg : config} {svc : services mem} {sym : symbols}.
Context {hfs : has_fs mem} {drv : disk_driver mem}.
Variable fuel : nat.
Variable R : kst mem -> kst mem -> Prop.
Context {dok : driver_ok mem R}.
Variable C : blocks -> Prop.
Variable me : nat.
Variable pid : Z.
Variable start dev : Z.
Hypothesis Hstart : 0 <= start /\ start + Z.of_nat LOGBLOCKS < 2 ^ 31.
Variable D : blocks.
Hypothesis HC : C D.
Variable out ncom : Z.
Hypothesis Hout : 1 <= out.
Abbreviation fsp := (fsp R C me pid).
Abbreviation tx := (tx pid start dev D out ncom).
Abbreviation alloc_pre := (alloc_pre start).
Implicit Types (V : blocks) (H : gmap Z nat) (ks : list Z) (m : fsmem) (x : inode).

(** The inode at entry [i] describes a file whose bytes up to [lim] exist. *)
Definition writing V m (i : nat) x (lim : Z) : Prop :=
  m_itable m !! i = Some x /\ i_dev x = dev /\ file_inv (m_sb m) V x lim /\ alloc_pre V ∅ m.

Definition full (sb : superblock) V : Prop := forall j, 0 <= j < sb_size sb -> used sb V j = true.

Lemma put_inode_id m i x : m_itable m !! i = Some x -> put_inode i x m = m.
Proof. intros Hi. unfold put_inode. rewrite list_insert_id by done. by destruct m. Qed.

Lemma alloc_pre_mem V m i x : alloc_pre V ∅ m -> alloc_pre V ∅ (put_inode i x m).
Proof. intros [A1 A2 A3 A4 A5]. by split. Qed.

Lemma alloc_pre_allocated V m a : alloc_pre V ∅ m -> meta_end (m_sb m) <= a < sb_size (m_sb m) -> alloc_pre (allocated (m_sb m) V a) ∅ m.
Proof.
  intros [A1 A2 A3 A4 A5] Ha. split; [done|by apply allocated_ok|by eapply meta_allocated|intros; apply lookup_empty|intros; apply lookup_empty].
Qed.

Lemma writing_put V V' m i x x' lim : writing V m i x lim -> i_dev x' = i_dev x ->
  file_inv (m_sb m) V' x' lim -> alloc_pre V' ∅ m -> writing V' (put_inode i x' m) i x' lim.
Proof.
  intros (W1 & W2 & _ & _) E F A. split_and!; [by eapply put_inode_lookup|congruence|done|by apply alloc_pre_mem].
Qed.

Lemma tx_slot V ks m f i x lim n v (Q : Z -> list lockid -> fsst -> Prop) :
  tx V ks ∅ m f -> writing V m i x lim -> i_addrs x !! Z.to_nat n = Some v -> (length ks + 1 < NBUF)%nat ->
  (v <> 0 -> Q v [] f) ->
  (v = 0 -> forall a f', meta_end (m_sb m) <= a < sb_size (m_sb m) -> used (m_sb m) V a = false ->
     tx (allocated (m_sb m) V a) (log_add a (log_add (BBLOCK a (sb_bmapstart (m_sb m))) ks)) ∅
       (put_inode i (set_i_addrs (<[Z.to_nat n := a]> (i_addrs x)) x) m) f' -> Q a [] f') ->
  (v = 0 -> forall f', full (m_sb m) V -> tx V ks ∅ m f' -> Q 0 [] f') ->
  fsp (bmap_slot fuel (iptr i) n) [] f Q.
Proof.
  intros Ht (Hi & Hd & F & Hap) Hv Hroom H1 H2 H3. unfold bmap_slot. fs_step. eapply (tx_get_addr R C); [exact Ht|done|done|].
  destruct (Z.eqb_spec v 0) as [E|E]; [|fs_step; auto]. fs_step. eapply (tx_rdi R C); [exact Ht|done|]. rewrite Hd.
  fs_step. eapply (tx_balloc fuel R C me pid start dev Hstart D HC out ncom Hout); [exact Ht|done|rewrite map_size_empty; lia| |].
  - intros a f1 Ha Hu _ Ht1. pose proof (geo_pos _ _ (ap_geo _ _ _ _ Hap)) as Hp. unfold geometry_pos in Hp.
    rewrite (proj2 (Z.eqb_neq a 0)) by lia. fs_step. unfold set_addr. eapply (tx_wri R C); [exact Ht1|done|]. intros f2 Ht2. fs_step. eauto.
  - intros f1 Hf Ht1. cbn [Z.eqb]. fs_step. auto.
Qed.

Lemma tx_bmap_direct V ks m f i x lim bn (Q : Z -> list lockid -> fsst -> Prop) :
  tx V ks ∅ m f -> writing V m i x lim -> 0 <= bn < NDIRECT -> (length ks + 1 < NBUF)%nat ->
  (forall a V' ks' x' f', tx V' ks' ∅ (put_inode i x' m) f' -> writing V' (put_inode i x' m) i x' lim ->
     grown (m_sb m) V x V' x' -> (length ks' <= length ks + 2)%nat ->
     (a = 0 /\ full (m_sb m) V' \/ a <> 0 /\ a = addr_of V' x' bn) -> Q a [] f') ->
  fsp (bmap fuel (iptr i) bn) [] f Q.
Proof.
  intros Ht W Hbn Hroom HQ. pose proof W as (Hi & Hd & F & Hap). pose proof (ap_geo _ _ _ _ Hap) as Hg.
  unfold bmap. rewrite (proj2 (Z.ltb_lt bn NDIRECT)) by lia.
  destruct (lookup_lt_is_Some_2 (i_addrs x) (Z.to_nat bn)) as [v Hv]; [rewrite (fi_addrs _ _ _ _ F); unfold NDIRECT in *; lia|].
  assert (Ev : addr_of V x bn = v) by (unfold addr_of; rewrite (proj2 (Z.ltb_lt bn NDIRECT)) by lia; by rewrite Hv).
  eapply tx_slot; [exact Ht|exact W|exact Hv|lia| | |].
  - intros Hnz. apply (HQ v V ks x); [by rewrite put_inode_id|by rewrite put_inode_id|apply grown_file_refl|lia|right; split; [done|congruence]].
  - intros -> a f1 Ha Hu Ht1. destruct (add_direct start (m_sb m) Hg V a (ap_ok _ _ _ _ Hap) Ha Hu x lim bn F Hbn Ev) as (F' & G & E).
    eapply HQ; [exact Ht1|by eapply writing_put, alloc_pre_allocated|exact G| |].
    + pose proof (length_log_add (BBLOCK a (sb_bmapstart (m_sb m))) ks).
      pose proof (length_log_add a (log_add (BBLOCK a (sb_bmapstart (m_sb m))) ks)). lia.
    + right. split; [|done]. pose proof (geo_pos _ _ Hg) as Hp. unfold geometry_pos in Hp. lia.
  - intros -> f1 Hf Ht1. apply (HQ 0 V ks x); [by rewrite put_inode_id|by rewrite put_inode_id|apply grown_file_refl|lia|by left].
Qed.

Lemma alloc_pre_held V m k b : alloc_pre V ∅ m -> in_use (m_sb m) V k -> alloc_pre V (<[k := b]> ∅) m.
Proof.
  intros [A1 A2 A3 A4 A5] [Hk Hu]. split; [done..| |].
  - intros k' Hk'. rewrite lookup_insert_ne by lia. apply lookup_empty.
  - intros k' Hk' Hf. rewrite lookup_insert_ne by congruence. apply lookup_empty.
Qed.

Lemma alloc_pre_upd V m k l : alloc_pre V ∅ m -> meta_end (m_sb m) <= k -> block_ok l -> alloc_pre (upd V k l) ∅ m.
Proof.
  intros [A1 A2 A3 A4 A5] Hk Hl. split; [done|by apply blocks_ok_upd| |intros; apply lookup_empty|intros; apply lookup_empty].
  intros b Hb. rewrite (used_data start); [by apply A3|done| |by left]. pose proof (g_pos _ _ A1). destruct A1. unfold meta_end in *. lia.
Qed.

Lemma tx_bmap_entry V ks m f i x lim bn (Q : Z -> list lockid -> fsst -> Prop) :
  tx V ks ∅ m f -> writing V m i x lim -> NDIRECT <= bn < MAXFILE -> ind_of x <> 0 -> (length ks + 2 < NBUF)%nat ->
  (forall a V' ks' f', tx V' ks' ∅ m f' -> writing V' m i x lim -> grown (m_sb m) V x V' x -> (length ks' <= length ks + 3)%nat ->
     (a = 0 /\ full (m_sb m) V' \/ a <> 0 /\ a = addr_of V' x bn) -> Q a [] f') ->
  fsp (bmap_entry fuel (iptr i) (ind_of x) (bn - NDIRECT)) [] f Q.
Proof.
  intros Ht W Hbn Hind Hroom HQ. pose proof W as (Hi & Hd & F & Hap). pose proof (ap_geo _ _ _ _ Hap) as Hg.
  pose proof (fi_ind _ _ _ _ F Hind) as Hiu. set (k := ind_of x) in *.
  assert (Ea : addr_of V x bn = get_uint (V k) (4 * Z.to_nat (bn - NDIRECT))).
  { unfold addr_of. fold (ind_of x). fold k. rewrite (proj2 (Z.ltb_ge bn NDIRECT)), (proj2 (Z.eqb_neq k 0)) by (done || lia). done. }
  unfold bmap_entry. fs_step. eapply (tx_rdi R C); [exact Ht|done|]. rewrite Hd.
  fs_step. eapply (tx_bread fuel R C); [exact Ht|done|apply lookup_empty|rewrite map_size_empty; lia|]. intros b f1 Ht1.
  fs_step. eapply (tx_getdata R C me pid start dev D out ncom _ _ _ _ _ k b); [exact Ht1|by apply lookup_insert_eq|].
  rewrite <- Ea. destruct (Z.eqb_spec (addr_of V x bn) 0) as [E0|E0].
  2: { do 2 fs_step. fs_step. eapply (tx_brelse_id R C); [exact Ht1|apply lookup_empty|eapply tx_clean; [exact Ht|apply lookup_empty]|].
       intros f2 Ht2. fs_step. apply (HQ _ V ks); [done|done|apply grown_file_refl|lia|by right]. }
  do 2 fs_step. eapply (tx_rdi R C); [exact Ht1|done|]. rewrite Hd. fs_step.
  eapply (tx_balloc fuel R C me pid start dev Hstart D HC out ncom Hout); [exact Ht1|by apply alloc_pre_held| | |].
  { rewrite map_size_insert_None, map_size_empty by apply lookup_empty. lia. }
  - intros a f2 Ha Hu _ Ht2. pose proof (geo_pos _ _ Hg) as Hp. unfold geometry_pos in Hp. pose proof (g_pos _ _ Hg) as Hpos.
    destruct (add_indirect start (m_sb m) Hg V a (ap_ok _ _ _ _ Hap) Ha Hu x lim bn F Hbn Hind E0) as (F' & G & E). fold k in F', G, E.
    destruct (alloc_keeps start (m_sb m) Hg V a (ap_ok _ _ _ _ Hap) Ha Hu k Hiu) as [_ Ek].
    rewrite (proj2 (Z.eqb_neq a 0)) by lia. cbn [negb when]. fs_step. fs_step.
    eapply (tx_setdata R C me pid start dev D out ncom _ _ _ _ _ k b); [exact Ht2|by apply lookup_insert_eq|]. intros f3 Ht3.
    pose proof (length_log_add (BBLOCK a (sb_bmapstart (m_sb m))) ks).
    pose proof (length_log_add a (log_add (BBLOCK a (sb_bmapstart (m_sb m))) ks)).
    set (ks2 := log_add a (log_add (BBLOCK a (sb_bmapstart (m_sb m))) ks)) in *. pose proof (length_log_add k ks2).
    assert (HNL : NBUF = LOGBLOCKS) by done. destruct Hiu as [Hkr Hku].
    eapply (tx_log_write R C me pid start dev Hstart D out ncom _ _ _ _ _ k b); [exact Ht3|by apply lookup_insert_eq|destruct Hg; lia|
      apply (past_log _ _ Hg); destruct Hg; unfold meta_end in *; lia|lia|done|]. intros f4 Ht4. fs_step.
    fs_step. eapply (tx_brelse_id R C); [exact Ht4|apply lookup_empty|left; auto with fs|]. intros f5 Ht5. fs_step.
    eapply HQ; [exact Ht5| |exact G|lia|right; split; [lia|done]]. split_and!; [done|done|exact F'|].
    apply alloc_pre_upd; [by apply alloc_pre_allocated|lia|]. rewrite Ek. apply block_ok_splice; [apply (ap_ok _ _ _ _ Hap)| |apply le_bytes_ok].
    rewrite length_le_bytes. destruct (ap_ok _ _ _ _ Hap k) as [-> _]. rewrite BSIZE_val. assert (HM : MAXFILE = 268) by done. unfold NDIRECT in *. lia.
  - intros f2 Hf Ht2. cbn [Z.eqb negb when]. do 2 fs_step. fs_step.
    fs_step. eapply (tx_brelse_id R C); [exact Ht2|apply lookup_empty|eapply tx_clean; [exact Ht|apply lookup_empty]|]. intros f3 Ht3. fs_step.
    apply (HQ 0 V ks); [done|done|apply grown_file_refl|lia|by left].
Qed.

(** [bmap] gives the block of the file, with a new one where there was none;
    the file keeps its blocks and what they hold. *)
Lemma tx_bmap_any V ks m f i x lim bn (Q : Z -> list lockid -> fsst -> Prop) :
  tx V ks ∅ m f -> writing V m i x lim -> 0 <= bn < MAXFILE -> (length ks + 4 < NBUF)%nat ->
  (forall a V' ks' x' f', tx V' ks' ∅ (put_inode i x' m) f' -> writing V' (put_inode i x' m) i x' lim ->
     grown (m_sb m) V x V' x' -> (length ks' <= length ks + 5)%nat ->
     (a = 0 /\ full (m_sb m) V' \/ a <> 0 /\ a = addr_of V' x' bn) -> Q a [] f') ->
  fsp (bmap fuel (iptr i) bn) [] f Q.
Proof.
  intros Ht W Hbn Hroom HQ. destruct (Z.lt_ge_cases bn NDIRECT) as [Hd|Hd].
  { eapply tx_bmap_direct; [exact Ht|exact W|lia|lia|]. intros a V' ks' x' f' Ht' W' G Hl Hr. eapply HQ; eauto. lia. }
  pose proof W as (Hi & Hdev & F & Hap). pose proof (ap_geo _ _ _ _ Hap) as Hg.
  unfold bmap. rewrite (proj2 (Z.ltb_ge bn NDIRECT)), (proj2 (Z.ltb_lt (bn - NDIRECT) NINDIRECT)) by (unfold MAXFILE in Hbn; lia).
  destruct (lookup_lt_is_Some_2 (i_addrs x) (Z.to_nat NDIRECT)) as [v Hv]; [rewrite (fi_addrs _ _ _ _ F); unfold NDIRECT; lia|].
  assert (Ev : ind_of x = v) by (unfold ind_of; by rewrite Hv).
  fs_step. eapply tx_slot; [exact Ht|exact W|exact Hv|lia| | |].
  - intros Hnz. rewrite (proj2 (Z.eqb_neq v 0)) by done. rewrite <- Ev.
    eapply tx_bmap_entry; [exact Ht|exact W|lia|by rewrite Ev|lia|]. intros a V' ks' f' Ht' W' G Hl Hr.
    apply (HQ a V' ks' x); [by rewrite put_inode_id|by rewrite put_inode_id|done|lia|done].
  - intros -> a f1 Ha Hu Ht1. destruct (add_ind start (m_sb m) Hg V a (ap_ok _ _ _ _ Hap) Ha Hu x lim F Ev) as (F' & G & E & _).
    set (x1 := set_i_addrs (<[Z.to_nat NDIRECT := a]> (i_addrs x)) x) in *.
    pose proof (geo_pos _ _ Hg) as Hp. unfold geometry_pos in Hp. rewrite (proj2 (Z.eqb_neq a 0)) by lia. rewrite <- E.
    pose proof (length_log_add (BBLOCK a (sb_bmapstart (m_sb m))) ks).
    pose proof (length_log_add a (log_add (BBLOCK a (sb_bmapstart (m_sb m))) ks)).
    assert (W1 : writing (allocated (m_sb m) V a) (put_inode i x1 m) i x1 lim) by (by eapply writing_put, alloc_pre_allocated).
    eapply (tx_bmap_entry _ _ (put_inode i x1 m)); [exact Ht1|exact W1|lia|rewrite E; lia|lia|]. intros c V' ks' f' Ht' W' G' Hl Hr.
    eapply HQ; [exact Ht'|exact W'|apply (grown_file_trans _ V x (allocated (m_sb m) V a) x1); [apply (geo_pos _ _ Hg)|exact G|exact G']|lia|done].
  - intros -> f1 Hf Ht1. cbn [Z.eqb]. fs_step. apply (HQ 0 V ks x); [by rewrite put_inode_id|by rewrite put_inode_id|apply grown_file_refl|lia|by left].
Qed.

End Write.
