(* ===== verification/FsContents.v ===== *)
(** * [writei]: the bytes of a file after a write *)

From stdpp Require Import base list gmap strings list_numbers.
From Stdlib Require Import ZArith Lia.
From S2P Require Import Prelude KString KernelBase Proc FsBase FsLogic Bio BioFacts BioCache BioSpecs Log LogFacts LogTheorems LogTx Fs FsTx FsAlloc FsFile FsInode FsWrite.

Open Scope Z_scope.

(** Block [k] belongs to the file. *)
Definition owns (V : blocks) (x : inode) (k : Z) : Prop :=
  k = ind_of x \/ exists bn, 0 <= bn < MAXFILE /\ addr_of V x bn = k.

(** The bytes [d] were written at [off]: they are there, the other bytes of
    the file are what they were, and so are all other blocks that are in use. *)
Record wrote (sb : superblock) (V : blocks) (x : inode) (V' : blocks) (x' : inode) (off : Z) (d : list Z) : Prop := {
  wr_inode : x' = set_i_addrs (i_addrs x') x;
  wr_byte p : 0 <= p < MAXFILE * Z.of_nat BSIZE ->
    addr_of V x (p / Z.of_nat BSIZE) <> 0 \/ off <= p < off + Z.of_nat (length d) ->
    addr_of V' x' (p / Z.of_nat BSIZE) <> 0 /\
    file_byte V' x' p = if ((off <=? p) && (p <? off + Z.of_nat (length d)))%bool then default 0 (d !! Z.to_nat (p - off)) else file_byte V x p;
  wr_low k : k < sb_bmapstart sb -> V' k = V k;
  wr_other k : in_use sb V k -> ~ owns V x k -> in_use sb V' k /\ V' k = V k /\ ~ owns V' x' k
}.

Lemma file_block p : 0 <= p < MAXFILE * Z.of_nat BSIZE -> 0 <= p / Z.of_nat BSIZE < MAXFILE.
Proof.
  intros Hp. split; [apply Z.div_pos; rewrite ?BSIZE_val; lia|]. apply Z.div_lt_upper_bound; rewrite ?BSIZE_val in *; lia.
Qed.

Lemma in_range off len p : ((off <=? p) && (p <? off + len))%bool = true <-> off <= p < off + len.
Proof. rewrite andb_true_iff, Z.leb_le, Z.ltb_lt. done. Qed.

Lemma not_in_range off len p : ((off <=? p) && (p <? off + len))%bool = false <-> ~ off <= p < off + len.
Proof. rewrite <- not_true_iff_false, in_range. done. Qed.

Lemma wrote_trans sb V1 x1 V2 x2 V3 x3 off d1 d2 : 0 <= off -> off + Z.of_nat (length d1) <= MAXFILE * Z.of_nat BSIZE ->
  wrote sb V1 x1 V2 x2 off d1 -> wrote sb V2 x2 V3 x3 (off + Z.of_nat (length d1)) d2 -> wrote sb V1 x1 V3 x3 off (d1 ++ d2).
Proof.
  intros Ho Hmax W1 W2. split.
  - rewrite (wr_inode _ _ _ _ _ _ _ W2), (wr_inode _ _ _ _ _ _ _ W1). done.
  - intros p Hp Hpre. rewrite length_app, Nat2Z.inj_add in *.
    destruct (decide (off + Z.of_nat (length d1) <= p < off + Z.of_nat (length d1) + Z.of_nat (length d2))) as [H2|H2].
    + destruct (wr_byte _ _ _ _ _ _ _ W2 p Hp) as [A2 B2]; [by right|]. split; [done|]. rewrite B2.
      rewrite (proj2 (in_range (off + Z.of_nat (length d1)) (Z.of_nat (length d2)) p)) by lia. rewrite (proj2 (in_range off (Z.of_nat (length d1) + Z.of_nat (length d2)) p)) by lia.
      rewrite lookup_app_r by lia. do 2 f_equal. lia.
    + destruct (wr_byte _ _ _ _ _ _ _ W1 p Hp) as [A1 B1]; [destruct Hpre; [by left|right; lia]|].
      destruct (wr_byte _ _ _ _ _ _ _ W2 p Hp) as [A2 B2]; [by left|]. split; [done|]. rewrite B2.
      rewrite (proj2 (not_in_range (off + Z.of_nat (length d1)) (Z.of_nat (length d2)) p)) by lia. rewrite B1.
      destruct (decide (off <= p < off + Z.of_nat (length d1))) as [H1|H1].
      * rewrite (proj2 (in_range off (Z.of_nat (length d1)) p)), (proj2 (in_range off (Z.of_nat (length d1) + Z.of_nat (length d2)) p)) by lia. by rewrite lookup_app_l by lia.
      * by rewrite (proj2 (not_in_range off (Z.of_nat (length d1)) p)), (proj2 (not_in_range off (Z.of_nat (length d1) + Z.of_nat (length d2)) p)) by lia.
  - intros k Hk. by rewrite (wr_low _ _ _ _ _ _ _ W2), (wr_low _ _ _ _ _ _ _ W1).
  - intros k Hk Hn. destruct (wr_other _ _ _ _ _ _ _ W1 k Hk Hn) as (U1 & E1 & N1).
    destruct (wr_other _ _ _ _ _ _ _ W2 k U1 N1) as (U2 & E2 & N2). split_and!; [done|congruence|done].
Qed.

Lemma grown_owns sb V x V' x' k : geometry_pos sb -> grown sb V x V' x' -> in_use sb V k -> owns V' x' k -> owns V x k.
Proof.
  intros Hp G Hk [->|(bn & Hbn & <-)].
  - destruct (decide (ind_of x = 0)) as [E|E]; [|left; by apply (gr_ind _ _ _ _ _ G)].
    destruct (gr_new _ _ _ _ _ G E) as [|E']; [done|]. rewrite E' in Hk. unfold geometry_pos, in_use in *. lia.
  - right. exists bn. split; [done|]. symmetry. by apply (gr_old _ _ _ _ _ G).
Qed.

(** Nothing written. *)
Lemma wrote_grown sb V x V' x' off : geometry_pos sb -> grown sb V x V' x' -> wrote sb V x V' x' off [].
Proof.
  intros Hp G. split; [apply G| |apply G|].
  - intros p Hr Hpre. destruct Hpre as [Hnz|]; [|simpl in *; lia]. rewrite (proj2 (not_in_range off _ p)) by (simpl; lia).
    destruct (gr_addr _ _ _ _ _ G _ (file_block p Hr) Hnz) as [E _]. split; [by rewrite E|by eapply grown_byte].
  - intros k Hk Hn. destruct (gr_used _ _ _ _ _ G k Hk) as [U E]. split_and!; [done|apply E; intros ->; apply Hn; by left|].
    intros Ho. apply Hn. by eapply grown_owns.
Qed.

Section Data.

Variable start : Z.
Variable sb : superblock.
Hypothesis Hg : geometry start sb.
Variable V : blocks.
Variable x : inode.
Variable lim bn : Z.
Variable o : nat.
Variable d : list Z.
Hypothesis HV : blocks_ok V.
Hypothesis F : file_inv sb V x lim.
Hypothesis Hbn : 0 <= bn < MAXFILE.
Hypothesis Hnz : addr_of V x bn <> 0.
Hypothesis Hd : (o + length d <= BSIZE)%nat.
Hypothesis Hbytes : Forall (fun v => 0 <= v < 256) d.

(** The blocks after the bytes [d] were stored at byte [o] of block [bn]. *)
Definition stored_at : blocks := upd V (addr_of V x bn) (splice (V (addr_of V x bn)) o d).

Lemma stored_addr bn' : addr_of stored_at x bn' = addr_of V x bn'.
Proof.
  unfold addr_of. destruct (bn' <? NDIRECT); [done|]. fold (ind_of x). destruct (ind_of x =? 0); [done|].
  unfold stored_at. rewrite upd_ne; [done|]. apply not_eq_sym. by apply (fi_ne _ _ _ _ F).
Qed.

Lemma stored_used k : 0 <= k < sb_size sb -> used sb stored_at k = used sb V k.
Proof.
  intros Hk. apply (used_data start); [done|done|]. left. destruct (fi_data _ _ _ _ F bn Hbn Hnz). lia.
Qed.

Lemma stored_in_use k : in_use sb V k -> in_use sb stored_at k.
Proof. intros Hk. pose proof (in_use_pos start sb Hg _ _ Hk). destruct Hk. split; [done|]. by rewrite stored_used. Qed.

Lemma stored_ok : block_ok (splice (V (addr_of V x bn)) o d).
Proof. apply block_ok_splice; [done| |done]. destruct (HV (addr_of V x bn)) as [-> _]. lia. Qed.

Lemma stored_inv lim' : 0 <= lim' -> bn * Z.of_nat BSIZE <= lim -> lim' <= (bn + 1) * Z.of_nat BSIZE ->
  file_inv sb stored_at x (Z.max lim lim').
Proof.
  intros H0 Hl Hl'. pose proof F as [F1 F2 F3 F4 F5 F6 F7]. split; try done.
  - split; [lia|]. assert ((bn + 1) * Z.of_nat BSIZE <= MAXFILE * Z.of_nat BSIZE); [|lia]. apply Z.mul_le_mono_nonneg_r; lia.
  - intros bn' Hbn' Hlt. rewrite stored_addr. destruct (decide (bn' = bn)) as [->|Hne]; [done|]. apply F3; [done|].
    destruct (Z.lt_ge_cases (bn' * Z.of_nat BSIZE) lim); [done|]. exfalso. apply Hne. rewrite BSIZE_val in *. lia.
  - intros bn' Hr. rewrite stored_addr. intros Hz. by apply stored_in_use, F4.
  - intros Hz. by apply stored_in_use, F5.
  - intros b1 b2. rewrite !stored_addr. apply F6.
  - intros bn'. rewrite stored_addr. apply F7.
Qed.

Lemma stored_byte p : 0 <= p < MAXFILE * Z.of_nat BSIZE -> addr_of V x (p / Z.of_nat BSIZE) <> 0 ->
  let off := bn * Z.of_nat BSIZE + Z.of_nat o in
  file_byte stored_at x p = if ((off <=? p) && (p <? off + Z.of_nat (length d)))%bool then default 0 (d !! Z.to_nat (p - off)) else file_byte V x p.
Proof.
  intros Hp Hpn off. unfold file_byte. rewrite stored_addr. set (B := Z.of_nat BSIZE) in *.
  assert (HB : 0 < B) by (unfold B; rewrite BSIZE_val; lia).
  pose proof (Z.div_mod p B ltac:(lia)) as E. pose proof (Z.mod_pos_bound p B HB) as Hm. set (q := p / B) in *. set (r := p mod B) in *.
  assert (Hq : 0 <= q < MAXFILE) by (by apply file_block). destruct (decide (q = bn)) as [->|Hne].
  - unfold stored_at. rewrite upd_eq. assert (Hlen : length (V (addr_of V x bn)) = BSIZE) by apply HV.
    rewrite lookup_splice by lia. destruct (decide (off <= p < off + Z.of_nat (length d))) as [Hin|Hin].
    + rewrite (proj2 (in_range _ _ _) Hin), decide_True by lia. do 2 f_equal. lia.
    + rewrite (proj2 (not_in_range _ _ _) Hin), decide_False by lia. done.
  - unfold stored_at. rewrite upd_ne by (intros E'; by apply Hne, (fi_inj _ _ _ _ F)).
    rewrite (proj2 (not_in_range _ _ _)); [done|]. unfold off. assert (HdB : Z.of_nat o + Z.of_nat (length d) <= B) by lia.
    intros Hin. apply Hne. assert (q * B < (bn + 1) * B) by lia. assert (bn * B < (q + 1) * B) by lia.
    assert (q < bn + 1) by (by apply (Z.mul_lt_mono_pos_r B)). assert (bn < q + 1) by (by apply (Z.mul_lt_mono_pos_r B)). lia.
Qed.

Lemma stored_wrote V0 x0 : grown sb V0 x0 V x -> wrote sb V0 x0 stored_at x (bn * Z.of_nat BSIZE + Z.of_nat o) d.
Proof.
  intros G. pose proof (geo_pos _ _ Hg) as Hpos. set (off := bn * Z.of_nat BSIZE + Z.of_nat o). split; [apply G| | |].
  - intros p Hp Hpre. assert (Hpn : addr_of V x (p / Z.of_nat BSIZE) <> 0).
    { destruct Hpre as [Hz|Hin].
      - destruct (gr_addr _ _ _ _ _ G _ (file_block p Hp) Hz) as [E _]. by rewrite E.
      - replace (p / Z.of_nat BSIZE) with bn; [done|]. unfold off in Hin. apply Z.div_unique with (p - bn * Z.of_nat BSIZE); lia. }
    split; [by rewrite stored_addr|]. rewrite stored_byte by done. fold off.
    destruct (decide (off <= p < off + Z.of_nat (length d))) as [Hin|Hin]; [by rewrite (proj2 (in_range _ _ _) Hin)|].
    rewrite (proj2 (not_in_range _ _ _) Hin). destruct Hpre as [Hz|]; [|done]. by eapply grown_byte.
  - intros k Hk. unfold stored_at. destruct (fi_data _ _ _ _ F bn Hbn Hnz) as [Hr _].
    pose proof (g_pos _ _ Hg). rewrite upd_ne by (unfold meta_end in *; lia). by apply (gr_low _ _ _ _ _ G).
  - intros k Hk Hn. assert (Hn1 : ~ owns V x k) by (intros Ho; by eapply Hn, grown_owns).
    destruct (gr_used _ _ _ _ _ G k Hk) as [U E]. split_and!; [by apply stored_in_use| |].
    + unfold stored_at. rewrite upd_ne; [apply E; intros ->; apply Hn; by left|]. intros ->. apply Hn1. right. eauto.
    + intros [->|(b & Hb & <-)]; apply Hn1; [by left|right]. exists b. by rewrite stored_addr.
Qed.

End Data.

(** ** The loop of [writei] *)

Section Writei.

Context {mem : Type} {cfg : config} {svc : services mem} {sym : symbols}.
Context {hfs : has_fs mem} {drv : disk_driver mem}.
Variable fuel : nat.
Variable R : kst mem -> kst mem -> Prop.
Context {dok : driver_ok mem R}.
Variable C : blocks -> Prop.
Variable me : nat.
Variable pid : Z.
Variable start dev : Z.
Hypothesis Hstart : 0 <= start /\ start + Z.of_nat LOGBLOCKS < 2 ^ 31.
Variable D : blocks.
Hypothesis HC : C D.
Variable out ncom : Z.
Hypothesis Hout : 1 <= out.
Abbreviation fsp := (fsp R C me pid).
Abbreviation tx := (tx pid start dev D out ncom).
Abbreviation writing := (writing start dev).
Implicit Types (V : blocks) (ks : list Z) (m : fsmem) (x : inode).

(** The part of the source a round or the loop copies. *)
Definition piece (kb : list Z) (src n : Z) : list Z := take (Z.to_nat n) (drop (Z.to_nat src) kb).

Lemma length_piece kb src n : 0 <= src -> 0 <= n -> src + n <= Z.of_nat (length kb) -> Z.of_nat (length (piece kb src n)) = n.
Proof. intros H1 H2 H3. unfold piece. rewrite length_take, length_drop. lia. Qed.

Lemma piece_app kb src n n' : 0 <= src -> 0 <= n -> 0 <= n' -> src + n + n' <= Z.of_nat (length kb) ->
  piece kb src n ++ piece kb (src + n) n' = piece kb src (n + n').
Proof.
  intros H1 H2 H3 H4. unfold piece. rewrite !Z2Nat.inj_add, <- drop_drop by done. by rewrite take_take_drop.
Qed.

Lemma writei_round {A} V ks m f i x lim kb src off mm (K : Z * list Z -> M mem A) (Q : A -> list lockid -> fsst -> Prop) :
  0 <= off -> 0 < mm -> off mod Z.of_nat BSIZE + mm <= Z.of_nat BSIZE -> off <= lim -> off + mm <= MAXFILE * Z.of_nat BSIZE ->
  0 <= src -> src + mm <= Z.of_nat (length kb) -> Forall (fun v => 0 <= v < 256) kb -> (length ks < NBUF)%nat ->
  forall V0 x0, grown (m_sb m) V0 x0 V x -> tx V ks ∅ m f -> writing V m i x lim ->
  let a := addr_of V x (off / Z.of_nat BSIZE) in a <> 0 ->
  (forall V' ks' f', tx V' ks' ∅ m f' -> writing V' m i x (Z.max lim (off + mm)) ->
     wrote (m_sb m) V0 x0 V' x off (piece kb src mm) -> (length ks' <= length ks + 1)%nat -> fsp (K (0, piece kb src mm)) [] f' Q) ->
  fsp (let* bp := bread fuel dev a in
       let* r := either_copyin kb 0 src mm in
       setdata bp (fun l => splice l (Z.to_nat (off mod Z.of_nat BSIZE)) r.2) ;;
       log_write bp ;;
       brelse bp ;;
       K r) [] f Q.
Proof.
  intros Ho Hmm Hmb Hlim Hmax Hs Hsrc Hkb Hroom V0 x0 G Ht W a Hnz HQ. pose proof W as (Hi & Hd & F & Hap).
  pose proof (ap_geo _ _ _ _ Hap) as Hg. pose proof (ap_ok _ _ _ _ Hap) as HV.
  pose proof (Z.div_mod off (Z.of_nat BSIZE) ltac:(rewrite BSIZE_val; lia)) as E.
  pose proof (Z.mod_pos_bound off (Z.of_nat BSIZE) ltac:(rewrite BSIZE_val; lia)) as Hm. set (bn := off / Z.of_nat BSIZE) in *.
  assert (Hbn : 0 <= bn < MAXFILE) by (apply file_block; lia). destruct (fi_data _ _ _ _ F bn Hbn Hnz) as [Har Hau]. fold a in Har, Hau.
  pose proof (length_piece kb src mm Hs ltac:(lia) Hsrc) as Hlp.
  set (o := Z.to_nat (off mod Z.of_nat BSIZE)). assert (Hod : (o + length (piece kb src mm) <= BSIZE)%nat) by lia.
  assert (Hby : Forall (fun v => 0 <= v < 256) (piece kb src mm)) by (by apply Forall_take, Forall_drop).
  fs_step. eapply (tx_bread fuel R C); [exact Ht|done|apply lookup_empty|rewrite map_size_empty; lia|]. intros b f1 Ht1.
  fs_step. apply fsp_either_copyin; [lia|]. fold (piece kb src mm). cbn [snd]. fs_step.
  eapply (tx_setdata R C me pid start dev D out ncom _ _ _ _ _ a b); [exact Ht1|by apply lookup_insert_eq|]. intros f2 Ht2.
  assert (HNL : NBUF = LOGBLOCKS) by done. pose proof (g_pos _ _ Hg). fs_step.
  eapply (tx_log_write R C me pid start dev Hstart D out ncom _ _ _ _ _ a b); [exact Ht2|by apply lookup_insert_eq|destruct Hg; unfold meta_end in *; lia|
    apply (past_log _ _ Hg); destruct Hg; unfold meta_end in *; lia|lia|done|]. intros f3 Ht3. fs_step.
  eapply (tx_brelse_id R C); [exact Ht3|apply lookup_empty|left; auto with fs|]. intros f4 Ht4.
  eapply HQ; [exact Ht4| | |apply length_log_add].
  - split_and!; [done|done| |].
    + eapply (stored_inv start); try done; lia.
    + apply (alloc_pre_upd start); [done|lia|]. by apply (stored_ok V x bn).
  - replace off with (bn * Z.of_nat BSIZE + Z.of_nat o) by lia. by eapply (stored_wrote start).
Qed.

(** [w] blocks are left to write and [6 * w] more fit into the log. *)
Lemma tx_writei_loop V ks m f i x lim kb k w src off n tot (Q : Z * Z -> list lockid -> fsst -> Prop) :
  tx V ks ∅ m f -> writing V m i x lim -> 0 <= off <= lim -> 0 <= tot <= n -> off + (n - tot) <= MAXFILE * Z.of_nat BSIZE ->
  0 <= src -> src + (n - tot) <= Z.of_nat (length kb) < 2 ^ 64 -> Forall (fun v => 0 <= v < 256) kb ->
  (w <= k)%nat -> (tot = n \/ off mod Z.of_nat BSIZE + (n - tot) <= Z.of_nat w * Z.of_nat BSIZE) ->
  (length ks + 6 * w <= NBUF)%nat ->
  (forall t V' ks' x' f', 0 <= t <= n - tot -> tx V' ks' ∅ (put_inode i x' m) f' ->
     writing V' (put_inode i x' m) i x' (Z.max lim (off + t)) ->
     wrote (m_sb m) V x V' x' off (piece kb src t) -> (length ks' <= length ks + 6 * w)%nat ->
     (tot + t = n \/ full (m_sb m) V') -> Q (tot + t, off + t) [] f') ->
  fsp (writei_loop fuel k kb (iptr i) 0 src off n tot) [] f Q.
Proof.
  intros Ht W. revert V ks m f x lim w src off tot Ht W.
  induction k as [|k IH]; intros V ks m f x lim w src off tot Ht W Ho Htot Hmax Hs Hsrc Hkb Hwk Hw Hroom HQ; cbn [writei_loop];
    pose proof W as (Hi & Hd & F & Hap); pose proof (ap_geo _ _ _ _ Hap) as Hg; pose proof (geo_pos _ _ Hg) as Hpos;
    pose proof (next_block off (n - tot) ltac:(lia) ltac:(lia)) as (Hnext & Hmpos & Hmb & Hmod);
    (destruct (Z.ltb_spec tot n) as [Hlt|Hge];
     [|fs_step; replace tot with (tot + 0) at 1 by lia; replace off with (off + 0) at 1 by lia;
       apply (HQ 0 V ks x); [lia|by rewrite put_inode_id|rewrite put_inode_id by done; by rewrite Z.max_l by lia|
         apply wrote_grown; [done|apply grown_file_refl]|lia|left; lia]]); [lia|].
  set (mm := Z.min (n - tot) (Z.of_nat BSIZE - off mod Z.of_nat BSIZE)) in *. specialize (Hmpos ltac:(lia)).
  assert (Hw1 : (1 <= w)%nat). { destruct w; [|lia]. destruct Hw as [|Hw]; [lia|]. rewrite Z.mul_0_l in Hw. lia. }
  assert (Hbn : 0 <= off / Z.of_nat BSIZE < MAXFILE) by (apply file_block; lia).
  fs_step. eapply (tx_bmap_any fuel R C me pid start dev Hstart D HC out ncom Hout); [exact Ht|exact W|done|lia|].
  intros a V1 ks1 x1 f1 Ht1 W1 G1 Hl1 Ha. pose proof W1 as (Hi1 & Hd1 & _). destruct Ha as [[-> Hf]|[Hnz Ea]].
  { cbn [Z.eqb]. fs_step. replace tot with (tot + 0) at 1 by lia. replace off with (off + 0) at 1 by lia.
    apply (HQ 0 V1 ks1 x1); [lia|done|by rewrite Z.max_l by lia|by apply wrote_grown|lia|by right]. }
  rewrite (proj2 (Z.eqb_neq a 0)) by done. fs_step. eapply (tx_rdi R C); [exact Ht1|done|]. rewrite Hd1. rewrite Ea in *.
  eapply (writei_round V1 ks1 (put_inode i x1 m) f1 i x1 lim); [lia|done|lia|lia|lia|lia|lia|done|lia|exact G1|exact Ht1|exact W1|done|].
  intros V2 ks2 f2 Ht2 W2 Hwr Hl2. cbn [fst Z.eqb]. assert (HB : MAXFILE * Z.of_nat BSIZE = 274432) by done.
  unfold u64, u32. rewrite !Z.mod_small by lia.
  pose proof (length_piece kb src mm Hs ltac:(lia) ltac:(lia)) as Hlp.
  eapply (IH V2 ks2 (put_inode i x1 m) f2 x1 (Z.max lim (off + mm)) (w - 1)%nat); [exact Ht2|exact W2|lia|lia|lia|lia|lia|done|lia| |lia|].
  { destruct Hnext as [E|E]; [left; lia|]. destruct (decide (mm = n - tot)); [left; lia|right]. rewrite E.
    assert (Emm : mm = Z.of_nat BSIZE - off mod Z.of_nat BSIZE) by lia.
    rewrite Nat2Z.inj_sub, Z.mul_sub_distr_r by lia. destruct Hw; lia. }
  intros t V3 ks3 x3 f3 Ht0 Ht3 W3 Hwr3 Hl3 Hend. rewrite put_inode_twice in *.
  replace (tot + mm + t) with (tot + (mm + t)) by lia. replace (off + mm + t) with (off + (mm + t)) in * by lia.
  apply (HQ (mm + t) V3 ks3 x3); [lia|done| | |lia|destruct Hend; [left; lia|by right]].
  - by replace (Z.max lim (off + (mm + t))) with (Z.max (Z.max lim (off + mm)) (off + (mm + t))) by lia.
  - rewrite <- piece_app by lia. eapply wrote_trans; [lia|rewrite Hlp; lia|exact Hwr|by rewrite Hlp].
Qed.

End Writei.
