(* ===== verification/FsUpdate.v ===== *)
(** * Inodes on disk

    The bytes of a [struct dinode]; [iupdate] writes what [ilock] reads, and what
    [writei] does to a file as a whole. *)

From stdpp Require Import base list gmap strings list_numbers.
From Stdlib Require Import ZArith Lia.
From S2P Require Import Prelude KString KernelBase Proc FsBase FsLogic Bio BioFacts BioCache BioSpecs Log LogFacts LogTheorems LogTx Fs FsTx FsAlloc FsFile FsInode FsWrite FsContents.

Open Scope Z_scope.

(** ** The format *)

(** The fields have the widths of the C types. *)
Record dinode_ok (d : dinode) : Prop := {
  dk_type : - 2 ^ 15 <= d_type d < 2 ^ 15;
  dk_major : - 2 ^ 15 <= d_major d < 2 ^ 15;
  dk_minor : - 2 ^ 15 <= d_minor d < 2 ^ 15;
  dk_nlink : - 2 ^ 15 <= d_nlink d < 2 ^ 15;
  dk_size : 0 <= d_size d < 2 ^ 32;
  dk_len : length (d_addrs d) = 13%nat;
  dk_addrs : Forall (fun a => 0 <= a < 2 ^ 32) (d_addrs d)
}.

Lemma i16_mod v : - 2 ^ 15 <= v < 2 ^ 15 -> i16 (v mod 2 ^ 16) = v.
Proof. intros Hv. unfold i16. rewrite Zplus_mod_idemp_l, Z.mod_small; lia. Qed.

(** Reading inside and outside of the bytes that were written. *)
Lemma splice_inside l o b k n : (o + length b <= length l)%nat -> (k + n <= length b)%nat ->
  take n (drop (o + k) (splice l o b)) = take n (drop k b).
Proof.
  intros Hl Hk. apply list_eq. intros i. destruct (decide (i < n)%nat) as [Hi|Hi]; [|by rewrite !lookup_ge_None_2 by (rewrite length_take; lia)].
  rewrite !lookup_take_lt, !lookup_drop, lookup_splice by lia. rewrite decide_True by lia. f_equal. lia.
Qed.

Lemma splice_outside l o b k n : (o + length b <= length l)%nat -> (k + n <= o \/ o + length b <= k)%nat ->
  take n (drop k (splice l o b)) = take n (drop k l).
Proof.
  intros Hl Hk. apply list_eq. intros i. destruct (decide (i < n)%nat) as [Hi|Hi]; [|by rewrite !lookup_ge_None_2 by (rewrite length_take; lia)].
  rewrite !lookup_take_lt, !lookup_drop, lookup_splice by lia. by rewrite decide_False by lia.
Qed.

Lemma length_flat_bytes l : length (flat_map (le_bytes 4) l) = (4 * length l)%nat.
Proof. induction l as [|a l IH]; [done|]. cbn [flat_map length]. rewrite length_app, length_le_bytes, IH. lia. Qed.

Lemma length_dinode_bytes d : length (d_addrs d) = 13%nat -> length (dinode_bytes d) = 64%nat.
Proof. intros Hd. unfold dinode_bytes. rewrite !length_app, !length_le_bytes, length_flat_bytes, Hd. done. Qed.

Lemma flat_bytes_at l j a : l !! j = Some a -> take 4 (drop (4 * j) (flat_map (le_bytes 4) l)) = le_bytes 4 a.
Proof.
  revert j. induction l as [|b l IH]; intros [|j] Hj; [done|done| |]; cbn [flat_map].
  - injection Hj as ->. rewrite drop_0. by rewrite take_app_le, take_ge by (rewrite length_le_bytes; lia).
  - rewrite drop_app_ge by (rewrite length_le_bytes; lia). rewrite length_le_bytes. replace (4 * S j - 4)%nat with (4 * j)%nat by lia. by apply IH.
Qed.

Lemma short_bytes v : - 2 ^ 15 <= v < 2 ^ 15 -> i16 (le_val (le_bytes 2 v)) = v.
Proof. intros Hv. rewrite le_val_bytes. by apply i16_mod. Qed.

Lemma uint_bytes v : 0 <= v < 2 ^ 32 -> u32 (le_val (le_bytes 4 v)) = v.
Proof. intros Hv. rewrite le_val_bytes. change (256 ^ Z.of_nat 4) with (2 ^ 32). unfold u32. by rewrite !Z.mod_small by (rewrite ?Z.mod_small; lia). Qed.

(** Writing the fields and reading them back. *)
Lemma get_dinode_bytes d : dinode_ok d -> get_dinode (dinode_bytes d) 0 = d.
Proof.
  intros [H1 H2 H3 H4 H5 H6 H7]. destruct d as [ty ma mi nl sz ad]. cbn [d_type d_major d_minor d_nlink d_size d_addrs] in *.
  unfold get_dinode. f_equal; [exact (short_bytes ty H1)|exact (short_bytes ma H2)|exact (short_bytes mi H3)|exact (short_bytes nl H4)|
    exact (uint_bytes sz H5)|]. apply list_eq. intros j. destruct (decide (j < 13)%nat) as [Hj|Hj].
  2: { rewrite !lookup_ge_None_2; [done|lia|rewrite length_map, length_seq; lia]. }
  destruct (lookup_lt_is_Some_2 ad j) as [a Ha]; [lia|]. rewrite Ha, list_lookup_fmap, lookup_seq_lt by done. cbn [fmap option_fmap option_map].
  f_equal. transitivity (u32 (le_val (take 4 (drop (4 * j) (flat_map (le_bytes 4) ad))))); [reflexivity|].
  rewrite (flat_bytes_at ad j a Ha). apply uint_bytes. by apply (proj1 (Forall_lookup _ _) H7 j).
Qed.

Lemma get_dinode_splice l o d : (o + 64 <= length l)%nat -> length (d_addrs d) = 13%nat ->
  get_dinode (splice l o (dinode_bytes d)) o = get_dinode (dinode_bytes d) 0.
Proof.
  intros Hl Hd. pose proof (length_dinode_bytes d Hd) as Hb.
  assert (Hs : forall k, (k + 2 <= 64)%nat -> get_short (splice l o (dinode_bytes d)) (o + k) = get_short (dinode_bytes d) k)
    by (intros k Hk; unfold get_short; by rewrite splice_inside by lia).
  assert (Hu : forall k, (k + 4 <= 64)%nat -> get_uint (splice l o (dinode_bytes d)) (o + k) = get_uint (dinode_bytes d) k)
    by (intros k Hk; unfold get_uint; by rewrite splice_inside by lia).
  assert (H0 := Hs 0%nat ltac:(lia)). rewrite Nat.add_0_r in H0.
  unfold get_dinode. rewrite H0, !Hs, Hu by lia. f_equal. apply map_ext_in. intros j Hj%in_seq.
  rewrite <- Nat.add_assoc, Hu by lia. done.
Qed.

Lemma get_dinode_other l o o' b : (o + length b <= length l)%nat -> (o' + 64 <= o \/ o + length b <= o')%nat ->
  get_dinode (splice l o b) o' = get_dinode l o'.
Proof.
  intros Hl Ho. assert (Hs : forall k, (k + 2 <= 64)%nat -> get_short (splice l o b) (o' + k) = get_short l (o' + k))
    by (intros k Hk; unfold get_short; by rewrite splice_outside by lia).
  assert (Hu : forall k, (k + 4 <= 64)%nat -> get_uint (splice l o b) (o' + k) = get_uint l (o' + k))
    by (intros k Hk; unfold get_uint; by rewrite splice_outside by lia).
  assert (H0 := Hs 0%nat ltac:(lia)). rewrite Nat.add_0_r in H0.
  unfold get_dinode. rewrite H0, !Hs, Hu by lia. f_equal. apply map_ext_in. intros j Hj%in_seq.
  rewrite <- Nat.add_assoc, Hu by lia. done.
Qed.

(** ** The inodes of the disk *)

Section Inodes.

Variable start : Z.
Variable sb : superblock.
Hypothesis Hg : geometry start sb.
Implicit Types (V : blocks) (j : Z) (d : dinode).

Lemma IBLOCK_eq j : 0 <= j < sb_ninodes sb -> IBLOCK j (sb_inodestart sb) = j / IPB + sb_inodestart sb /\
  sb_inodestart sb <= IBLOCK j (sb_inodestart sb) < sb_bmapstart sb.
Proof.
  intros Hj. pose proof (g_pos _ _ Hg). destruct Hg. assert (0 <= j / IPB <= sb_ninodes sb / IPB).
  { split; [apply Z.div_pos|apply Z.div_le_mono]; rewrite ?IPB_val; lia. }
  assert (0 <= sb_size sb / BPB) by lia. assert (E : IBLOCK j (sb_inodestart sb) = j / IPB + sb_inodestart sb) by (apply Z.mod_small; lia).
  rewrite E. lia.
Qed.

Lemma dinode_off_fits V j : blocks_ok V -> (dinode_off j + 64 <= length (V (IBLOCK j (sb_inodestart sb))))%nat.
Proof.
  intros HV. destruct (HV (IBLOCK j (sb_inodestart sb))) as [-> _]. unfold dinode_off, dinode_size.
  pose proof (Z.mod_pos_bound j IPB ltac:(done)). rewrite IPB_val, BSIZE_val in *. lia.
Qed.

(** The blocks after inode [j] was written. *)
Definition with_dinode V j d : blocks :=
  upd V (IBLOCK j (sb_inodestart sb)) (splice (V (IBLOCK j (sb_inodestart sb))) (dinode_off j) (dinode_bytes d)).

Lemma disk_dinode_same V j d : blocks_ok V -> dinode_ok d -> disk_dinode sb (with_dinode V j d) j = d.
Proof.
  intros HV Hd. unfold disk_dinode, with_dinode. rewrite upd_eq, get_dinode_splice; [by apply get_dinode_bytes|by apply dinode_off_fits|by apply dk_len].
Qed.

Lemma disk_dinode_ne V j j' d : blocks_ok V -> length (d_addrs d) = 13%nat -> 0 <= j < sb_ninodes sb -> 0 <= j' < sb_ninodes sb -> j' <> j ->
  disk_dinode sb (with_dinode V j d) j' = disk_dinode sb V j'.
Proof.
  intros HV Hd Hj Hj' Hne. unfold disk_dinode, with_dinode. destruct (decide (IBLOCK j' (sb_inodestart sb) = IBLOCK j (sb_inodestart sb))) as [E|E].
  2: by rewrite upd_ne. rewrite E, upd_eq. apply get_dinode_other; rewrite length_dinode_bytes by done; [by apply dinode_off_fits|].
  rewrite (proj1 (IBLOCK_eq j Hj)), (proj1 (IBLOCK_eq j' Hj')) in E. unfold dinode_off, dinode_size.
  pose proof (Z.div_mod j IPB ltac:(done)). pose proof (Z.div_mod j' IPB ltac:(done)).
  pose proof (Z.mod_pos_bound j IPB ltac:(done)). pose proof (Z.mod_pos_bound j' IPB ltac:(done)). rewrite IPB_val in *. lia.
Qed.

(** Only the inode blocks matter. *)
Lemma disk_dinode_low V V' j : 0 <= j < sb_ninodes sb -> (forall k, k < sb_bmapstart sb -> V' k = V k) -> disk_dinode sb V' j = disk_dinode sb V j.
Proof. intros Hj HV. unfold disk_dinode. rewrite HV; [done|]. apply IBLOCK_eq in Hj. lia. Qed.

Lemma dinode_bytes_ok d : Forall (fun v => 0 <= v < 256) (dinode_bytes d).
Proof.
  unfold dinode_bytes. rewrite !Forall_app. split_and!; try apply le_bytes_ok. induction (d_addrs d) as [|a l IH]; [done|].
  cbn [flat_map]. apply Forall_app. split; [apply le_bytes_ok|done].
Qed.

Lemma with_dinode_ok V j d : blocks_ok V -> length (d_addrs d) = 13%nat -> blocks_ok (with_dinode V j d).
Proof.
  intros HV Hd. apply blocks_ok_upd; [done|]. apply block_ok_splice; [done| |apply dinode_bytes_ok].
  rewrite length_dinode_bytes by done. by apply dinode_off_fits.
Qed.

End Inodes.

(** ** Changes that do not concern the blocks of a file *)

Section Above.

Variable start : Z.
Variable sb : superblock.
Hypothesis Hg : geometry start sb.
Variable V V' : blocks.
Variable x y : inode.
Hypothesis HV : forall k, sb_bmapstart sb <= k -> V' k = V k.
Hypothesis Hxy : i_addrs y = i_addrs x.

Lemma above_use k : in_use sb V' k <-> in_use sb V k.
Proof.
  unfold in_use. split; intros [Hk Hu]; (split; [done|]); rewrite <- Hu; unfold used; [symmetry|]; rewrite HV; try done;
    pose proof (geo_pos _ _ Hg) as Hp; unfold geometry_pos in Hp; pose proof (BBLOCK_range start sb Hg k ltac:(lia)); lia.
Qed.

Lemma above_addr lim bn : file_inv sb V x lim -> addr_of V' y bn = addr_of V x bn.
Proof.
  intros F. unfold addr_of. rewrite Hxy. destruct (bn <? NDIRECT); [done|]. fold (ind_of x).
  destruct (Z.eqb_spec (ind_of x) 0) as [|Hnz]; [done|]. rewrite HV; [done|].
  destruct (fi_ind _ _ _ _ F Hnz) as [Hr _]. pose proof (g_pos _ _ Hg). unfold meta_end in Hr. lia.
Qed.

Lemma above_inv lim : file_inv sb V x lim -> file_inv sb V' y lim.
Proof.
  intros F. pose proof F as [F1 F2 F3 F4 F5 F6 F7]. assert (Ei : ind_of y = ind_of x) by (unfold ind_of; by rewrite Hxy).
  split; [by rewrite Hxy|done|intros bn; rewrite (above_addr lim bn F); apply F3| | | |].
  - intros bn Hbn. rewrite (above_addr lim bn F). intros Hnz. by apply above_use, F4.
  - rewrite Ei. intros Hnz. by apply above_use, F5.
  - intros b1 b2. rewrite (above_addr lim b1 F), (above_addr lim b2 F). apply F6.
  - intros bn. rewrite (above_addr lim bn F), Ei. apply F7.
Qed.

Lemma above_byte lim p : file_inv sb V x lim -> 0 <= p < MAXFILE * Z.of_nat BSIZE -> addr_of V x (p / Z.of_nat BSIZE) <> 0 ->
  file_byte V' y p = file_byte V x p.
Proof.
  intros F Hp Hnz. unfold file_byte. rewrite (above_addr lim _ F), HV; [done|].
  destruct (fi_data _ _ _ _ F _ (file_block p Hp) Hnz) as [Hr _]. pose proof (g_pos _ _ Hg). unfold meta_end in Hr. lia.
Qed.

Lemma above_alloc m : sb = m_sb m -> blocks_ok V' -> alloc_pre start V ∅ m -> alloc_pre start V' ∅ m.
Proof.
  intros E Hok [A1 A2 A3 A4 A5]. rewrite <- E in *. split; [by rewrite <- E|done| |intros; apply lookup_empty|intros; apply lookup_empty].
  rewrite <- E. intros b Hb. rewrite <- (A3 b Hb). unfold used. rewrite HV; [done|].
  assert (0 <= b < sb_size sb) as Hb'. { pose proof (g_pos _ _ Hg). destruct Hg. unfold meta_end in Hb. lia. }
  pose proof (BBLOCK_range start sb Hg b Hb'). lia.
Qed.

End Above.

(** The contents after a write that may have made the file longer. *)
Lemma wrote_contents sb V x V' x' W y off d :
  wrote sb V x V' x' off d -> file_inv sb V x (i_size x) -> 0 <= off <= i_size x -> off + Z.of_nat (length d) <= MAXFILE * Z.of_nat BSIZE ->
  i_size y = Z.max (i_size x) (off + Z.of_nat (length d)) ->
  (forall p, 0 <= p < MAXFILE * Z.of_nat BSIZE -> addr_of V' x' (p / Z.of_nat BSIZE) <> 0 -> file_byte W y p = file_byte V' x' p) ->
  contents W y = splice (contents V x) (Z.to_nat off) d.
Proof.
  intros Hw F Ho Hmax Hsz Heq. pose proof (fi_lim _ _ _ _ F) as Hlim. unfold contents at 1. rewrite Hsz.
  apply list_eq. intros i. destruct (decide (i < Z.to_nat (Z.max (i_size x) (off + Z.of_nat (length d))))%nat) as [Hi|Hi].
  - set (p := Z.of_nat i). assert (Hp : 0 <= p < MAXFILE * Z.of_nat BSIZE) by lia.
    assert (Hmap : p < i_size x -> addr_of V x (p / Z.of_nat BSIZE) <> 0).
    { intros Hlt. apply (fi_mapped _ _ _ _ F); [apply file_block in Hp; lia|]. pose proof (Z.mul_div_le p (Z.of_nat BSIZE)). rewrite BSIZE_val in *. lia. }
    destruct (wr_byte _ _ _ _ _ _ _ Hw p Hp) as [Hnz Hb]; [destruct (Z.lt_ge_cases p (i_size x)); [left; auto|right; lia]|].
    rewrite lookup_range, Z.add_0_l by lia. fold p. rewrite Heq, Hb by done. unfold splice.
    destruct (decide (p < off)) as [H1|H1]; [|destruct (decide (p < off + Z.of_nat (length d))) as [H2|H2]].
    + rewrite (proj2 (not_in_range _ _ _)) by lia. rewrite lookup_app_l by (rewrite length_take; unfold contents; rewrite length_range; lia).
      rewrite lookup_take_lt by lia. unfold contents. by rewrite lookup_range, Z.add_0_l by lia.
    + rewrite (proj2 (in_range _ _ _)) by lia. rewrite lookup_app_r by (rewrite length_take; unfold contents; rewrite length_range; lia).
      rewrite length_take. unfold contents. rewrite length_range, Nat.min_l, lookup_app_l by lia.
      destruct (lookup_lt_is_Some_2 d (Z.to_nat (p - off))) as [v Hv]; [lia|]. rewrite Hv. simpl. rewrite <- Hv. f_equal. lia.
    + rewrite (proj2 (not_in_range _ _ _)) by lia. rewrite lookup_app_r by (rewrite length_take; unfold contents; rewrite length_range; lia).
      rewrite length_take. unfold contents. rewrite length_range, Nat.min_l, lookup_app_r by lia. rewrite lookup_drop.
      replace (Z.to_nat off + length d + (i - Z.to_nat off - length d))%nat with i by lia. by rewrite lookup_range, Z.add_0_l by lia.
  - rewrite !lookup_ge_None_2; [done| |rewrite length_range; lia].
    unfold splice, contents. rewrite !length_app, length_take, length_drop, length_range. lia.
Qed.

Section Update.

Context {mem : Type} {cfg : config} {svc : services mem} {sym : symbols}.
Context {hfs : has_fs mem} {drv : disk_driver mem}.
Variable fuel : nat.
Variable R : kst mem -> kst mem -> Prop.
Context {dok : driver_ok mem R}.
Variable C : blocks -> Prop.
Variable me : nat.
Variable pid : Z.
Variable start dev : Z.
Hypothesis Hstart : 0 <= start /\ start + Z.of_nat LOGBLOCKS < 2 ^ 31.
Variable D : blocks.
Hypothesis HC : C D.
Variable out ncom : Z.
Hypothesis Hout : 1 <= out.
Abbreviation fsp := (fsp R C me pid).
Abbreviation tx := (tx pid start dev D out ncom).
Abbreviation itab := (itab dev pid).
Abbreviation alloc_pre := (alloc_pre start).
Implicit Types (V : blocks) (ks : list Z) (m : fsmem) (x : inode) (A : gmap Z Z) (K : gset nat).

Lemma tx_iupdate V ks m f i x (Q : unit -> list lockid -> fsst -> Prop) :
  tx V ks ∅ m f -> m_itable m !! i = Some x -> i_dev x = dev -> geometry start (m_sb m) -> 0 <= i_inum x < sb_ninodes (m_sb m) ->
  (length ks < NBUF)%nat ->
  (forall f' ks', tx (with_dinode (m_sb m) V (i_inum x) (dinode_of x)) ks' ∅ m f' -> (length ks' <= length ks + 1)%nat -> Q tt [] f') ->
  fsp (iupdate fuel (iptr i)) [] f Q.
Proof.
  intros Ht Hi Hd Hg Hj Hroom HQ. destruct (IBLOCK_eq start _ Hg _ Hj) as [_ Hb]. pose proof (g_pos _ _ Hg).
  unfold iupdate. fs_step. eapply (tx_rdi R C); [exact Ht|done|]. rewrite Hd. unfold bread_inode.
  fs_step. fs_step. eapply (tx_getsb R C); [exact Ht|].
  eapply (tx_update fuel R C me pid start dev Hstart D HC out ncom Hout _ _ _ _ _ _
    (fun l => splice l (dinode_off (i_inum x)) (dinode_bytes (dinode_of x)))); [exact Ht|apply lookup_empty| |apply (past_log _ _ Hg); lia|rewrite map_size_empty; lia|].
  { destruct Hg. assert (0 <= sb_size (m_sb m) / BPB) by lia. lia. }
  intros f' Ht'. eapply HQ; [exact Ht'|apply length_log_add].
Qed.

(** All references are to inodes of the disk. *)
Definition on_disk (sb : superblock) A : Prop := forall j r, A !! j = Some r -> 0 <= j < sb_ninodes sb.

(** The table after the inode at entry [i] and the disk changed together. *)
Lemma itab_disk V V' K m A i x x' :
  itab V K m A -> m_itable m !! i = Some x -> i ∈ K -> 0 < i_ref x -> on_disk (m_sb m) A ->
  i_ref x' = i_ref x -> i_inum x' = i_inum x -> i_dev x' = i_dev x -> i_lock x' = i_lock x -> i_valid x' = i_valid x ->
  dinode_of x' = disk_dinode (m_sb m) V' (i_inum x) ->
  (forall j, 0 <= j < sb_ninodes (m_sb m) -> j <> i_inum x -> disk_dinode (m_sb m) V' j = disk_dinode (m_sb m) V j) ->
  itab V' K (put_inode i x' m) A.
Proof.
  intros Hit Hx HiK Hr HA E1 E2 E3 E4 E5 E6 Hoth. pose proof Hit as [T1 T2 T3 T4 T5 T6].
  destruct (T3 i x Hx Hr) as [(Hd & Hlk & _) HAx]. rewrite decide_True in Hlk by done.
  split.
  - simpl. by rewrite length_insert.
  - intros k y Hk. destruct (decide (k = i)) as [->|Hne].
    + rewrite (put_inode_lookup _ _ _ _ Hx) in Hk. simplify_eq. rewrite E1. by eapply T2.
    + rewrite put_inode_ne in Hk by done. by eapply T2.
  - intros k y Hk Hy. destruct (decide (k = i)) as [->|Hne].
    + rewrite (put_inode_lookup _ _ _ _ Hx) in Hk. simplify_eq. rewrite E2, E1. split; [|done]. split_and!; [congruence| |].
      * rewrite decide_True by done. by rewrite E4, E5.
      * right. by rewrite E2.
    + rewrite put_inode_ne in Hk by done. destruct (T3 k y Hk Hy) as [(B1 & B2 & B3) B4]. split; [|done]. split_and!; [done|done|].
      destruct B3 as [B3|B3]; [by left|right]. cbn [m_sb put_inode set_m_itable]. rewrite Hoth; [done|by eapply HA|].
      intros E. by apply Hne, (T5 k i y x).
  - intros j r Hj. destruct (T4 j r Hj) as (k & y & Hk & Hy & Hry). destruct (decide (k = i)) as [->|Hne].
    + simplify_eq. exists i, x'. split_and!; [by eapply put_inode_lookup|done|lia].
    + exists k, y. by rewrite put_inode_ne.
  - intros k l y z Hk Hl Hy Hz E. destruct (decide (k = i)) as [->|Hnk], (decide (l = i)) as [->|Hnl]; [done| | |].
    + rewrite (put_inode_lookup _ _ _ _ Hx) in Hk. simplify_eq. rewrite put_inode_ne in Hl by done. apply (T5 i l x z); [done|done|done|done|congruence].
    + rewrite (put_inode_lookup _ _ _ _ Hx) in Hl. simplify_eq. rewrite put_inode_ne in Hk by done. apply (T5 k i y x); [done|done|done|done|congruence].
    + rewrite put_inode_ne in Hk, Hl by done. by eapply T5.
  - intros k y Hk Hy. destruct (decide (k = i)) as [->|Hne].
    + rewrite (put_inode_lookup _ _ _ _ Hx) in Hk. simplify_eq. lia.
    + rewrite put_inode_ne in Hk by done. by eapply T6.
Qed.

(** The number of blocks the bytes [off .. off + n) lie in. *)
Definition spans (off n : Z) : nat := Z.to_nat ((off mod Z.of_nat BSIZE + n + Z.of_nat BSIZE - 1) / Z.of_nat BSIZE).

Lemma spans_enough off n : 0 <= n -> off mod Z.of_nat BSIZE + n <= Z.of_nat (spans off n) * Z.of_nat BSIZE /\ (spans off n <= rounds n)%nat.
Proof.
  intros Hn. unfold spans, rounds. assert (HB : 0 < Z.of_nat BSIZE) by (rewrite BSIZE_val; lia).
  pose proof (Z.mod_pos_bound off (Z.of_nat BSIZE) HB) as Hm. set (r := off mod Z.of_nat BSIZE) in *.
  pose proof (Z.div_mod (r + n + Z.of_nat BSIZE - 1) (Z.of_nat BSIZE) ltac:(lia)) as E.
  pose proof (Z.mod_pos_bound (r + n + Z.of_nat BSIZE - 1) (Z.of_nat BSIZE) HB).
  pose proof (Z.div_pos (r + n + Z.of_nat BSIZE - 1) (Z.of_nat BSIZE) ltac:(lia) HB).
  split; [rewrite Z2Nat.id by done; lia|]. apply Z2Nat.inj_le; [done|pose proof (Z.div_pos n (Z.of_nat BSIZE) Hn HB); lia|].
  transitivity ((n + 2 * Z.of_nat BSIZE) / Z.of_nat BSIZE); [apply Z.div_le_mono; lia|]. rewrite Z.div_add by lia. lia.
Qed.

(** What is known of a file a thread has locked and may write. *)
Record open_file V K m A (i : nat) x : Prop := {
  of_itab : itab V K m A;
  of_entry : m_itable m !! i = Some x;
  of_locked : i ∈ K;
  of_ref : 0 < i_ref x;
  of_disk : on_disk (m_sb m) A;
  of_inv : file_inv (m_sb m) V x (i_size x);
  of_alloc : alloc_pre V ∅ m;
  of_fields : dinode_ok (dinode_of x)
}.

Lemma of_dev V K m A i x : open_file V K m A i x -> i_dev x = dev /\ 0 <= i_inum x < sb_ninodes (m_sb m) /\ i_valid x <> 0 /\
  dinode_of x = disk_dinode (m_sb m) V (i_inum x).
Proof.
  intros [Hit Hi HK Hr HA _ _ _]. destruct (it_live _ _ _ _ _ _ Hit i x Hi Hr) as [(H1 & H2 & H3) H4].
  rewrite decide_True in H2 by done. destruct H2 as [_ Hv]. split_and!; [done|by eapply HA|by eapply HA|done|]. by destruct H3.
Qed.

Lemma addrs_u32 sb V x lim : file_inv sb V x lim -> sb_size sb < 2 ^ 31 -> geometry_pos sb -> Forall (fun a => 0 <= a < 2 ^ 32) (i_addrs x).
Proof.
  intros F Hs Hp. unfold geometry_pos in Hp. apply Forall_lookup. intros n a Hn.
  pose proof (lookup_lt_Some _ _ _ Hn) as Hlt. rewrite (fi_addrs _ _ _ _ F) in Hlt. destruct (decide (a = 0)) as [->|Hnz]; [lia|].
  assert (Hu : in_use sb V a); [|unfold in_use in Hu; lia]. destruct (decide (n = 12)%nat) as [->|Hne].
  - assert (E : ind_of x = a) by (unfold ind_of; change (Z.to_nat NDIRECT) with 12%nat; by rewrite Hn). rewrite <- E in *. by apply (fi_ind _ _ _ _ F).
  - assert (E : addr_of V x (Z.of_nat n) = a).
    { unfold addr_of. rewrite (proj2 (Z.ltb_lt _ _)) by (unfold NDIRECT; lia). by rewrite Nat2Z.id, Hn. }
    rewrite <- E in *. apply (fi_data _ _ _ _ F); [rewrite MAXFILE_val; lia|done].
Qed.

(** The inode [writei] leaves: the size grown to [off] when that is more. *)
Definition resized (off : Z) x : inode := if i_size x <? off then set_i_size off x else x.

Lemma resized_size off x : i_size (resized off x) = Z.max (i_size x) off.
Proof. unfold resized. destruct (Z.ltb_spec (i_size x) off); simpl; lia. Qed.

Lemma resized_addrs off x : i_addrs (resized off x) = i_addrs x.
Proof. unfold resized. by destruct (i_size x <? off). Qed.

(** What [writei] leaves when it returns [r]: the first [r] bytes of the
    source are in the file. *)
Definition writei_post V ks m A K i x kb src off n (r : Z) (L : list lockid) (f' : fsst) : Prop :=
  L = [] /\ exists V' ks' m' x',
    tx V' ks' ∅ m' f' /\ open_file V' K m' A i x' /\ m_sb m' = m_sb m /\ i_inum x' = i_inum x /\
    0 <= r <= n /\ (r = n \/ full (m_sb m) V') /\
    contents V' x' = splice (contents V x) (Z.to_nat off) (piece kb src r) /\
    (length ks' <= length ks + 6 * spans off n + 1)%nat /\
    (forall k, in_use (m_sb m) V k -> ~ owns V x k -> in_use (m_sb m) V' k /\ V' k = V k).

Lemma resized_eq off x : resized off x = set_i_size (Z.max (i_size x) off) x.
Proof. unfold resized. destruct (Z.ltb_spec (i_size x) off); [by rewrite Z.max_r by lia|]. rewrite Z.max_l by lia. by destruct x. Qed.

Lemma writei_finish V ks m A K i x kb src off n t V1 ks1 x1 f2 :
  open_file V K m A i x -> 0 <= off <= i_size x -> off + n <= MAXFILE * Z.of_nat BSIZE -> 0 <= src -> src + n <= Z.of_nat (length kb) ->
  0 <= t <= n -> writing start dev V1 (put_inode i x1 m) i x1 (Z.max (i_size x) (off + t)) ->
  wrote (m_sb m) V x V1 x1 off (piece kb src t) -> (length ks1 <= length ks + 6 * spans off n)%nat -> (length ks1 < NBUF)%nat ->
  (t = n \/ full (m_sb m) V1) -> tx V1 ks1 ∅ (put_inode i (resized (off + t) x1) m) f2 ->
  fsp (iupdate fuel (iptr i) ;; ret (i32 t)) [] f2 (writei_post V ks m A K i x kb src off n).
Proof.
  intros O Ho Hmax Hs Hsrc Hbt W1 Hwr Hl1 Hroom Hend Ht2. destruct (of_dev _ _ _ _ _ _ O) as (Hd & Hj & Hv & Edisk).
  destruct O as [Hit Hi HK Hr HA F Hap Hf]. pose proof (ap_geo _ _ _ _ Hap) as Hg. pose proof (geo_pos _ _ Hg) as Hpos.
  pose proof W1 as (_ & _ & F1 & Hap1). cbn [m_sb put_inode set_m_itable] in F1. pose proof (ap_ok _ _ _ _ Hap1) as HV1.
  assert (HB : MAXFILE * Z.of_nat BSIZE = 274432) by done. pose proof (length_piece kb src t Hs ltac:(lia) ltac:(lia)) as Hlp.
  pose proof (wr_inode _ _ _ _ _ _ _ Hwr) as Ex1. rewrite resized_eq in Ht2.
  assert (Esz : i_size x1 = i_size x) by (by rewrite Ex1). rewrite Esz in Ht2.
  set (x2 := set_i_size (Z.max (i_size x) (off + t)) x1) in *. assert (E2 : x2 = set_i_size (Z.max (i_size x) (off + t)) (set_i_addrs (i_addrs x1) x)).
  { unfold x2. by rewrite Ex1 at 1. }
  assert (Hd2 : dinode_ok (dinode_of x2)).
  { destruct Hf as [D1 D2 D3 D4 D5 D6 D7]. pose proof (fi_lim _ _ _ _ F). rewrite E2. split; try done; [change (0 <= Z.max (i_size x) (off + t) < 2 ^ 32); lia|apply (fi_addrs _ _ _ _ F1)|].
    apply (addrs_u32 (m_sb m) V1 x1 (Z.max (i_size x) (off + t))); [done|by destruct Hg|done]. }
  assert (Einum : i_inum x2 = i_inum x) by (by rewrite E2). assert (Edev : i_dev x2 = dev) by (by rewrite E2).
  fs_step. eapply (tx_iupdate _ _ (put_inode i x2 m) _ i x2); [exact Ht2|by eapply put_inode_lookup|done|done|by rewrite Einum|done|].
  intros f3 ks3 Ht3 Hl3. cbn [m_sb put_inode set_m_itable] in Ht3. rewrite Einum in Ht3. set (V3 := with_dinode (m_sb m) V1 (i_inum x) (dinode_of x2)) in *.
  destruct (IBLOCK_eq start _ Hg _ Hj) as [_ Hib].
  assert (HV3 : forall k, sb_bmapstart (m_sb m) <= k -> V3 k = V1 k) by (intros k Hk; unfold V3, with_dinode; by rewrite upd_ne by lia).
  fs_step. split; [done|]. rewrite i32_small by lia. exists V3, ks3, (put_inode i x2 m), x2. split_and!; [exact Ht3| |done|done|lia|lia| | |lia|].
  - split; [|by eapply put_inode_lookup|done|by rewrite E2|done| | |exact Hd2].
    + eapply (itab_disk V V3); try done; try (by rewrite E2).
      * symmetry. apply disk_dinode_same; [done|done].
      * intros j Hjr Hne. unfold V3. rewrite (disk_dinode_ne start _ Hg) by (done || apply (dk_len _ Hd2)).
        apply (disk_dinode_low start _ Hg); [done|]. apply Hwr.
    + change (i_size x2) with (Z.max (i_size x) (off + t)). by apply (above_inv start (m_sb m) Hg V1 V3 x1 x2 HV3 eq_refl).
    + apply (above_alloc start (m_sb m) Hg V1 V3 HV3); [done|apply with_dinode_ok; [done|apply (dk_len _ Hd2)]|by destruct Hap1; split].
  - destruct Hend as [|Hfull]; [by left|right]. intros b Hb. rewrite <- (Hfull b Hb). unfold used. rewrite HV3; [done|].
    pose proof (BBLOCK_range start _ Hg b Hb). lia.
  - eapply (wrote_contents (m_sb m) V x V1 x1); [exact Hwr|done|done|lia|by rewrite Hlp|].
    intros p Hp Hnz. by apply (above_byte start (m_sb m) Hg V1 V3 x1 x2 HV3 eq_refl (Z.max (i_size x) (off + t))).
  - intros k Hk Hno. destruct (wr_other _ _ _ _ _ _ _ Hwr k Hk Hno) as (U1 & E1 & _).
    split; [by apply (above_use start (m_sb m) Hg V1 V3 HV3)|]. rewrite HV3; [done|]. destruct Hk as [Hk _].
    pose proof (g_pos _ _ Hg). unfold meta_end in Hk. lia.
Qed.

(** C10.  [writei] writes the file. In a transaction with room for the blocks
    the bytes lie in, the inode, the bitmap and the indirect block, and with a
    kernel source, it stores the first [r] bytes of the source at [off] and
    returns [r]: all [n], or fewer only if no free block is left on the disk.
    The contents of the file are then the old ones with these bytes in place,
    the file grown if they reach past its end; its new blocks are marked in
    the bitmap and used by nothing else; the inode on disk is the one in
    memory, the table is as it was, and every other block in use is unchanged. *)
Theorem writei_writes V ks m f A K i x kb src off n :
  tx V ks ∅ m f -> open_file V K m A i x ->
  0 <= off <= i_size x -> 0 <= n -> off + n <= MAXFILE * Z.of_nat BSIZE ->
  0 <= src -> src + n <= Z.of_nat (length kb) < 2 ^ 64 -> Forall (fun v => 0 <= v < 256) kb ->
  (length ks + 6 * spans off n < NBUF)%nat ->
  fsp (writei fuel kb (iptr i) 0 src off n) [] f (writei_post V ks m A K i x kb src off n).
Proof.
  intros Ht O Ho Hn Hmax Hs Hsrc Hkb Hroom. destruct (of_dev _ _ _ _ _ _ O) as (Hd & _). pose proof O as [Hit Hi HK Hr HA F Hap Hf].
  assert (HB : MAXFILE * Z.of_nat BSIZE = 274432) by done. destruct (spans_enough off n Hn) as [Hsp1 Hsp2].
  unfold writei. fs_step. eapply (tx_rdi R C); [exact Ht|done|]. rewrite (proj2 (Z.ltb_ge (i_size x) off)) by lia. unfold u32. rewrite !Z.mod_small by lia.
  rewrite (proj2 (Z.ltb_ge (off + n) off)), (proj2 (Z.ltb_ge (MAXFILE * Z.of_nat BSIZE) (off + n))) by lia. cbn [orb].
  fs_step. eapply (tx_writei_loop fuel R C me pid start dev Hstart D HC out ncom Hout V ks m f i x (i_size x) kb _ (spans off n));
    [exact Ht|by split_and!|lia|lia|lia|lia|lia|done|done|right; lia|lia|].
  intros t V1 ks1 x1 f1 Hbt Ht1 W1 Hwr Hl1 Hend. rewrite Z.sub_0_r in Hbt. rewrite Z.add_0_l in *. pose proof W1 as (Hi1 & _).
  fs_step. eapply (tx_rdi R C); [exact Ht1|done|]. cbn [fst snd]. fs_step.
  assert (Hfin : forall f2, tx V1 ks1 ∅ (put_inode i (resized (off + t) x1) m) f2 ->
    fsp (iupdate fuel (iptr i) ;; ret (i32 t)) [] f2 (writei_post V ks m A K i x kb src off n))
    by (intros f2 Ht2; eapply writei_finish; try done; lia).
  apply fsp_when; intros E.
  - eapply (tx_wri R C); [exact Ht1|done|]. rewrite put_inode_twice. intros f2 Ht2. apply Hfin. unfold resized. by rewrite E.
  - apply Hfin. unfold resized. by rewrite E.
Qed.

End Update.
