(* ===== verification/FsAtomic.v ===== *)
(** * Operations as transactions

    An operation of the file system between [begin_op] and [end_op] takes effect
    on the disk as a whole or not at all. *)

From stdpp Require Import base list gmap strings.
From Stdlib Require Import ZArith Lia.
From S2P Require Import Prelude KString KernelBase Proc FsBase FsLogic Bio BioFacts BioCache BioSpecs Log LogFacts LogTheorems LogTx Fs FsTx FsAlloc FsFile FsInode FsWrite FsContents FsUpdate.

Open Scope Z_scope.

Section Crash.

Context {mem : Type} {hfs : has_fs mem}.
Variable R : kst mem -> kst mem -> Prop.

Lemma wpr_crash {A} (C C' : blocks -> Prop) (Q : A -> kst mem -> Prop) r :
  (forall D, C D -> C' D) -> wpr R C Q r -> wpr R C' Q r.
Proof. intros HC. induction r as [| | | | |s k IH]; simpl; try done. intros [H1 H2]. split; auto. Qed.

Lemma fsp_crash {A} (C C' : blocks -> Prop) me pid (m : M mem A) L f Q :
  (forall D, C D -> C' D) -> fsp R C me pid m L f Q -> fsp R C' me pid m L f Q.
Proof. intros HC Hm s Hs Hf. eapply wpr_crash; [done|by apply Hm]. Qed.

End Crash.

Section Atomic.

Context {mem : Type} {cfg : config} {svc : services mem} {sym : symbols}.
Context {hfs : has_fs mem} {drv : disk_driver mem}.
Variable fuel : nat.
Variable R : kst mem -> kst mem -> Prop.
Context {dok : driver_ok mem R}.
Variable me : nat.
Variable pid : Z.
Variable start dev : Z.
Hypothesis Hstart : 0 <= start /\ start + Z.of_nat LOGBLOCKS < 2 ^ 31.
Implicit Types (V D : blocks) (ks : list Z) (m : fsmem).

(** The beginning of a transaction. *)
Lemma tx_begin (C : blocks -> Prop) D m f (Q : unit -> list lockid -> fsst -> Prop) :
  quiet pid start dev D m f ->
  (forall f', tx pid start dev D 1 (l_ncommit (m_log m)) D [] ∅ m f' -> Q tt [] f') ->
  fsp R C me pid (begin_op fuel) [] f Q.
Proof.
  intros (Hv & Hlo & Hout & Hcom & Hh & Hl) HQ.
  eapply (v_begin_op fuel R C me pid start dev Hstart); [done|done| |].
  { rewrite (lo_n _ _ _ _ Hlo), Hout, LOGBLOCKS_val. unfold MAXOPBLOCKS. simpl. lia. }
  intros f1 Hv1. apply HQ. eexists ∅, _. split_and!; [exact Hv1|by destruct Hlo; split|simpl; lia|done|done| |by left].
  intros k. rewrite lookup_empty. done.
Qed.

(** A quiet disk needs no recovery. *)
Lemma quiet_recovers D m f : quiet pid start dev D m f -> recovers start D D.
Proof. intros (_ & _ & _ & _ & Hh & Hl). split; [by apply header_ok_empty|]. intros k _. by apply recovered_empty. Qed.

(** Its end. *)
Lemma tx_end V D ncom ks m f :
  tx pid start dev D 1 ncom V ks ∅ m f -> (length ks < LOGBLOCKS)%nat -> get_int (D start) 0 = 0 -> length (D start) = BSIZE ->
  fsp R (fun D' => recovers start D D' \/ recovers start V D') me pid (end_op fuel) [] f (fun _ L f' => L = [] /\ exists D' m',
    quiet pid start dev D' m' f' /\ only_log m m' /\ l_ncommit (m_log m') = ncom + 1 /\ forall k, ~ in_log start k -> D' k = V k).
Proof.
  intros (P & lg & Hv & Hlo & (Ho & Hc & Hn) & Hu & HD) Hlen Hh Hl. rewrite fmap_empty in Hv.
  assert (HP : pinned P ks).
  { split.
    - apply Nat.le_antisymm; [pose proof (uses_size _ _ _ Hu) as Hs; rewrite map_size_empty in Hs; lia|].
      rewrite <- (size_list_to_set (C:=gset Z) ks), <- (size_dom P) by (apply Hlo). apply subseteq_size. intros k Hk%elem_of_list_to_set.
      specialize (Hu k). apply elem_of_dom. destruct (P !! k); [eauto|]. by rewrite uses_in in Hu.
    - intros k. specialize (Hu k). unfold uses in Hu. rewrite lookup_empty in Hu. destruct (P !! k) as [[b n]|], (decide (k ∈ ks)); split; intros Hk; try done.
      + exists b. destruct Hu as (-> & _). done.
      + destruct Hu as (-> & ? & _). lia. }
  eapply fsp_mono; [apply (v_end_op fuel R me pid start dev Hstart V D P (set_m_log lg m) ks f Hv Hlo HP Hlen)|]; try done.
  - intros k Hk. destruct (HD k) as [|[|[b Hb]]]; [done|done|]. by rewrite lookup_empty in Hb.
  - intros [] L f' (-> & D' & m' & Hq & Hn' & Hol & HD'). split; [done|]. exists D', m'. split_and!; [done|done| |done].
    rewrite Hn'. simpl. lia.
Qed.


End Atomic.
