(* ===== verification/KernelDemo.v ===== *)
(** * A concrete kernel state

    Services, configuration and a process table on which the theorems about the
    kernel are applied: the hypotheses they make can hold together. *)

From stdpp Require Import base list gmap strings.
From Stdlib Require Import ZArith Lia.
From S2P Require Import Prelude KString KernelBase Proc KernelLoops ProcFacts Sched MlfqSystem Syscall Trap TrapFacts.

Open Scope Z_scope.

#[local] Instance demo_config : config := {| SCHEDULER := SCHEDULER_MLFQ |}.

#[local] Instance demo_symbols : symbols := {|
  sym_trampoline := 2147491840; sym_uservec := 2147491840; sym_userret := 2147491996;
  sym_forkret := 2147489000; sym_usertrap := 2147490000; sym_kernelvec := 2147491000 |}.

(** Memory that counts the pages handed out; a file layer that does nothing. *)
#[local] Instance demo_services : services Z := {|
  kalloc m := (2147483648 + 4096 * m, m + 1);
  kfree _ m := Some m;
  uvmcreate m := (2147483648 + 4096 * m, m + 1);
  mappages _ _ _ _ _ m := Some (0, m);
  uvmunmap _ _ _ _ m := Some m;
  uvmfree _ _ m := Some m;
  uvmcopy _ _ _ m := Some (0, m);
  uvmalloc _ _ newsz _ m := Some (newsz, m);
  uvmdealloc _ _ newsz m := Some (newsz, m);
  copyout _ _ _ _ m := Some (0, m);
  vmfault _ _ _ _ m := Some (0, m);
  copyin _ _ _ _ m := Some (-1, [], m);
  copyinstr _ _ _ _ m := Some (None, m);
  filedup f := ret f;
  fileclose _ := ret tt;
  idup i := ret i;
  iput _ := ret tt;
  begin_op := ret tt;
  end_op := ret tt;
  namei _ := ret 1;
  fsinit _ := ret tt;
  kexec _ _ := ret 0 |}.

#[local] Instance demo_file_calls : file_calls Z := {|
  sys_pipe := ret 0; sys_read := ret 0; sys_exec := ret 0; sys_fstat := ret 0; sys_chdir := ret 0;
  sys_dup := ret 0; sys_open := ret 0; sys_write := ret 0; sys_mknod := ret 0; sys_unlink := ret 0;
  sys_link := ret 0; sys_mkdir := ret 0; sys_close := ret 0; sys_sync := ret 0 |}.

#[local] Instance demo_devices : devices Z := {|
  plic_claim := ret 0; plic_complete _ := ret tt; uartintr := ret tt; virtio_disk_intr := ret tt |}.

Definition demo_context : context := mkcontext 0 0 0 0 0 0 0 0 0 0 0 0 0 0.

(** A process with the given state, pid, parent, queue, slice use and number. *)
Definition demo_proc (st : procstate) (pid : Z) (parent : option nat) (q used seq : Z) : proc :=
  mkproc st ChNull 0 0 pid parent 0 4096 0 0 demo_context (replicate NOFILE 0) 1 (replicate 16 0)
    3 (if bool_decide (st = UNUSED) then -1 else 4) 20 5 q used 0 seq.

(** init runs; two processes wait in queues 1 and 2, one child of init is dead. *)
Definition demo_table : list proc :=
  [demo_proc RUNNING 1 None 0 0 1; demo_proc RUNNABLE 2 (Some 0%nat) 2 1 5;
   demo_proc RUNNABLE 3 (Some 0%nat) 1 0 7; demo_proc ZOMBIE 4 (Some 0%nat) 1 0 6] ++
  replicate 60 (demo_proc UNUSED 0 None 0 0 0).

Definition demo_locks : gmap lockid spinlock :=
  list_to_map (((fun i => (LProc i, unlocked)) <$> seq 0 NPROC) ++
    [(LPid, unlocked); (LWait, unlocked); (LTicks, unlocked); (LSeq, unlocked)]).

Definition demo_kst (ticks : Z) : kst Z :=
  mkkst demo_table (Some 0%nat) 5 7 ticks (list_to_map []) false (mkcsr false false 0 0 0 0 0 0 0) [] 10
    (mkhw demo_locks (mkcpu (Some 0%nat) 0 false) true 0).

Lemma demo_locks_free l : l ∈ ([LPid; LWait; LTicks; LSeq] : list lockid) -> demo_locks !! l = Some unlocked.
Proof.
  intros H. repeat (apply elem_of_cons in H as [->|H]; [vm_compute; reflexivity|]). by apply not_elem_of_nil in H.
Qed.

Lemma demo_procs_free t : procs_free (k_hw (demo_kst t)).
Proof.
  intros i Hi. unfold free. cbn [k_hw demo_kst hw_locks].
  assert (H : Forall (fun i => demo_locks !! LProc i = Some unlocked) (seq 0 NPROC)).
  { unfold NPROC. cbn [seq]. repeat (apply Forall_cons; split; [vm_compute; reflexivity|]). constructor. }
  rewrite Forall_forall in H. apply H, elem_of_seq. lia.
Qed.

Lemma demo_hw_ok t : hw_ok (k_hw (demo_kst t)).
Proof. split; simpl; lia. Qed.

Lemma demo_sched_ok t : sched_ok (demo_kst t).
Proof.
  split; [vm_compute; reflexivity|apply demo_hw_ok|apply demo_procs_free|
          apply demo_locks_free; repeat constructor..].
Qed.

Lemma demo_levels_ok : levels_ok demo_table.
Proof.
  assert (H : Forall (fun p => p_state p = RUNNABLE -> 0 <= mlfq_queue p <= 3) demo_table).
  { unfold demo_table. apply Forall_app. split; [repeat constructor; simpl; intros; lia|].
    by apply Forall_replicate. }
  intros p Hp. rewrite Forall_forall in H. by apply H.
Qed.

(** ** The theorems about the schedulers apply *)

Example mlfq_turn_witness : exists b p k, k_procs (demo_kst 10) !! b = Some p /\ p_state p = RUNNABLE /\
  mlfq_scheduler_turn (demo_kst 10) = Switch (dispatched b p (traced p (ints_off (demo_kst 10)))) k.
Proof.
  destruct (mlfq_turn_runs_head (demo_kst 10) (demo_sched_ok 10) demo_levels_ok)
    as [(b & p & Hb & Hr & _ & k & Hk & _)|[Hn _]].
  - exists b, p, k. exact (conj Hb (conj Hr Hk)).
  - exfalso. apply (Hn (demo_proc RUNNABLE 2 (Some 0%nat) 2 1 5)); [|done]. simpl. right. left.
Defined.

Example mlfq_tick_handler_witness :
  mlfq_tick_handler 1 (demo_kst 10) =
  Done true (ticked 1 (demo_proc RUNNABLE 2 (Some 0%nat) 2 1 5)
    (charge (demo_proc RUNNABLE 2 (Some 0%nat) 2 1 5)) 7 (demo_kst 10)).
Proof.
  rewrite (mlfq_tick_handler_spec (demo_kst 10) 1 (demo_proc RUNNABLE 2 (Some 0%nat) 2 1 5) 8
             (demo_sched_ok 10) eq_refl eq_refl).
  reflexivity.
Defined.

Example mlfq_boost_witness : exists ps g, mlfq_boost (demo_kst 10) =
    Done tt (set_k_procs ps (set_mlfq_global_seq g (set_k_hw (hw_cyc (k_hw (demo_kst 10))) (demo_kst 10)))) /\
  (exists p, ps !! 1%nat = Some p /\ mlfq_queue p = 0).
Proof.
  destruct (mlfq_boost_spec (demo_kst 10) (demo_sched_ok 10)) as (ps & He & _ & Hps);
    [simpl; lia|vm_compute; reflexivity|].
  eexists ps, _. split; [exact He|]. eexists. split; [apply Hps; reflexivity|reflexivity].
Defined.

Example fifo_turn_witness : exists b p k s0, k_procs (demo_kst 10) !! b = Some p /\ p_state p = RUNNABLE /\
  fifo_scheduler_turn (demo_kst 10) = Switch (dispatched b p s0) k.
Proof.
  destruct (fifo_turn_runs_least_pid (demo_kst 10) (demo_sched_ok 10))
    as [(b & p & Hb & Hr & _ & k & Hk & _)|[Hn _]].
  - assert (H : Forall (fun p => p_pid p < 2147483647) demo_table).
    { unfold demo_table. apply Forall_app. split; [repeat constructor|by apply Forall_replicate]. }
    intros p Hp. rewrite Forall_forall in H. by apply H.
  - eexists b, p, k, _. exact (conj Hb (conj Hr Hk)).
  - exfalso. apply (Hn (demo_proc RUNNABLE 2 (Some 0%nat) 2 1 5)); [|done]. simpl. right. left.
Defined.

Example rr_loop_witness : exists j p, k_procs (demo_kst 10) !! j = Some p /\ p_state p = RUNNABLE /\
  rr_runs_next NPROC 0 false (demo_kst 10) j p.
Proof.
  destruct (rr_loop_spec NPROC 0 false (demo_kst 10) (demo_sched_ok 10) eq_refl)
    as [(j & p & _ & Hj & Hr & _ & Hn)|[Hn _]].
  - exists j, p. exact (conj Hj (conj Hr Hn)).
  - exfalso. apply (Hn 1%nat (demo_proc RUNNABLE 2 (Some 0%nat) 2 1 5)); [unfold NPROC; lia|done|done].
Defined.


Example boost_tick_witness : exists s1 s2 p', clockintr (demo_kst 47) = Done tt s1 /\
  mlfq_tick_handler 0 s1 = Done true s2 /\ k_procs s2 !! 0%nat = Some p' /\ mlfq_queue p' = 1.
Proof.
  destruct (boost_tick_demotes_running (cfg := demo_config) (demo_kst 47) 0 (demo_proc RUNNING 1 None 0 0 1) (demo_sched_ok 47)
    eq_refl eq_refl eq_refl eq_refl eq_refl) as (s1 & s2 & p' & H1 & H2 & _ & H3 & _ & H4).
  exists s1, s2, p'. exact (conj H1 (conj H2 (conj H3 H4))).
Defined.

(** ** The theorems about processes apply *)

Example kill_zero_witness : exists s1 s2 p', kkill 0 (demo_kst 10) = Done 0 s1 /\
  allocproc s1 = Done (Some 4%nat) s2 /\ k_procs s2 !! 4%nat = Some p' /\ p_pid p' = 5 /\ p_killed p' = 1.
Proof.
  apply (kill_zero_marks_next_process 4 (demo_proc UNUSED 0 None 0 0 0) (2147483648 + 4096 * 10)
           (2147483648 + 4096 * 11) 12 (demo_kst 10)).
  - split; [vm_compute; reflexivity|apply demo_procs_free|].
    split; [apply demo_hw_ok|]. split_and!; apply demo_locks_free; repeat constructor.
  - vm_compute. reflexivity.
  - vm_compute. reflexivity.
  - exists 11, 12, 12, 0, 0. by vm_compute.
Defined.

Example no_lost_wakeup_witness : exists s1 s2 s3, sleep_prepare ChTicks (demo_kst 10) = Done tt s1 /\
  wakeup ChTicks s1 = Done tt s2 /\ sleep s2 = Done tt s3 /\
  k_procs s3 !! 0%nat = Some (demo_proc RUNNING 1 None 0 0 1).
Proof.
  apply (no_lost_wakeup 0 (demo_proc RUNNING 1 None 0 0 1) ChTicks (demo_kst 10)); try done.
  apply demo_procs_free.
Defined.

Example kwaitx_witness : exists s', kwaitx 1 8 16 24 32 (demo_kst 10) = Done 4 s' /\
  (exists p, k_procs s' !! 3%nat = Some p /\ p_state p = UNUSED).
Proof.
  eexists. split.
  - apply (kwaitx_reaps 0 (demo_proc RUNNING 1 None 0 0 1) 3 (demo_proc ZOMBIE 4 (Some 0%nat) 1 0 6)
             8 16 24 32 0 10 10 (demo_kst 10)); try reflexivity.
    + apply demo_hw_ok.
    + apply demo_procs_free.
  - eexists. split; reflexivity.
Defined.

(** ** The system reaches a state with a process *)

Definition demo_boot : kst Z :=
  set_mlfq_global_seq 0 (set_k_procs (replicate 64 (demo_proc UNUSED 0 None 0 0 0)) (demo_kst 0)).

Lemma demo_boot_ok : alloc_ok demo_boot.
Proof.
  split; [vm_compute; reflexivity|apply (demo_procs_free 0)|].
  split; [apply (demo_hw_ok 0)|]. split_and!; apply demo_locks_free; repeat constructor.
Qed.


Example waitx_times_witness : exists w response,
  waitx_times (demo_proc ZOMBIE 4 (Some 0%nat) 1 0 6) = (w, 5, response) /\ w = 12 /\ response = 1.
Proof.
  destruct (waitx_times_add_up (demo_proc ZOMBIE 4 (Some 0%nat) 1 0 6)) as (w & r & H1 & _ & H2 & H3);
    [simpl; lia..|]. exists w, r. split; [exact H1|]. simpl in *. split; [lia|exact H3].
Defined.
