(* ===== verification/MemDemo.v ===== *)
(** * The theorems about memory applied

    The allocator and the page tables of processes on the example memory of
    [VmTheorems.v], inside the example kernel state of [KernelDemo.v]. *)

From stdpp Require Import base list gmap strings.
From Stdlib Require Import ZArith Lia.
From S2P Require Import Prelude KernelBase PhysMem Proc Kalloc Vm VmFacts VmMaps VmUser VmCopy VmTheorems VmServices KernelDemo.
Import VmDemo.

Open Scope Z_scope.

#[local] Existing Instance demo_layout.
#[local] Existing Instance demo_symbols.

(** The memory is the whole state of the services. *)
#[local] Instance demo_pmem : has_pmem pmem.
Proof. by refine {| pm_of := id; with_pm := fun p _ => p |}. Defined.

#[local] Instance demo_file_services : file_services pmem := {|
  fs_filedup f := ret f; fs_fileclose _ := ret tt; fs_idup i := ret i; fs_iput _ := ret tt;
  fs_begin_op := ret tt; fs_end_op := ret tt; fs_namei _ := ret 1; fs_fsinit _ := ret tt; fs_kexec _ _ := ret 0 |}.

Definition demo_vm (m : pmem) : kst pmem :=
  mkkst demo_table (Some 0%nat) 5 7 10 (list_to_map []) false (mkcsr false false 0 0 0 0 0 0 0) [] m
    (mkhw demo_locks (mkcpu (Some 0%nat) 0 false) true 0).

(** ** The allocator *)

Example kinit_frees_all_witness :
  wp kinit (demo_vm (mkpmem (fun _ => 0) 0 0)) (fun _ s' =>
    exists l, free_pages (pm_of (k_mem s')) l /\ (forall p, p ∈ l <-> page_ok p) /\
      k_procs s' = demo_table /\ free (k_hw s') LKmem /\ hw_ok (k_hw s')).
Proof. apply (kinit_frees_all (demo_vm (mkpmem (fun _ => 0) 0 0))); [split; simpl; lia|reflexivity]. Defined.

Lemma demo_all_pages p : p ∈ demo_free <-> page_ok p.
Proof. rewrite <- elem_of_all_pages. by replace all_pages with demo_free by (vm_compute; reflexivity). Qed.

Lemma demo_alloc : kalloc_mem demo_mem = MOk (page 0) (after kalloc_mem demo_mem).
Proof.
  destruct (proj1 (mwp_Ok kalloc_mem demo_mem (fun r _ => r = page 0))) as (r & m & E & ->).
  { eapply kalloc_pops; [apply demo_free_pages|done]. }
  unfold after. by rewrite E.
Qed.

Example allocator_safe_witness :
  let m := after kalloc_mem demo_mem in let A : gset Z := {[page 0]} ∪ ∅ in
  rtc astep (demo_mem, ∅) (m, A) /\ partition (m, A) /\
  ((exists p m', kalloc_mem m = MOk p m' /\ p ∉ A /\ page_ok p) \/
   ((forall p, page_ok p -> p ∈ A) /\ kalloc_mem m = MOk 0 m)) /\
  (forall p, p ∈ A -> exists m', kfree_mem p m = MOk tt m').
Proof.
  intros m A. assert (Hr : rtc astep (demo_mem, ∅) (m, A)).
  { apply rtc_once, astep_alloc; [exact demo_alloc|by vm_compute]. }
  split; [exact Hr|]. apply (allocator_safe demo_mem m A); [|exact Hr].
  exists demo_free. split; [exact demo_free_pages|exact demo_all_pages].
Defined.

(** ** Page tables of processes *)

Example proc_pagetable_maps_witness :
  wp (proc_pagetable 1) (demo_vm demo_mem) (fun r s' => exists m, s' = st m (demo_vm demo_mem) /\
    ((r = 0 /\ exists l', free_pages m l' /\ forall q, q ∈ l' <-> q ∈ demo_free) \/
     (r <> 0 /\ exists T l', user_pt m r 0 T ∅ l' /\ forall q, part T ∅ l' q <-> q ∈ demo_free))).
Proof.
  apply (proc_pagetable_maps 1 (demo_proc RUNNABLE 2 (Some 0%nat) 2 1 5) demo_free (demo_vm demo_mem));
    [reflexivity|exact demo_free_pages|split; vm_compute; discriminate..].
Defined.

(** The result of code that returns. *)
Definition result {A} (c : MM A) (m : pmem) : option A := match c m with MOk a _ => Some a | _ => None end.

Lemma mwp_result {A} (c : MM A) m (Q : A -> pmem -> Prop) a :
  mwp c m Q -> result c m = Some a -> Q a (after c m).
Proof. intros (r & m' & E & HQ)%mwp_Ok. unfold result, after. rewrite E. by intros [= <-]. Qed.

(** The page table of a process with its trap frame at page 15. *)
Definition demo_high1 : MM Z := mappages (page 0) TRAMPOLINE PGSIZE sym_trampoline (Z.lor PTE_R PTE_X).

Definition demo_high2 : MM Z := mappages (page 0) TRAPFRAME PGSIZE (page 15) (Z.lor PTE_R PTE_W).

Definition demo_m1 : pmem := after demo_high1 demo1.

Definition demo_m2 : pmem := after demo_high2 demo_m1.

Lemma demo_user_pt : exists T l, user_pt demo_m2 (page 0) (page 15) T ∅ l.
Proof.
  destruct (mwp_result demo_high1 demo1 _ 0 (map_high_spec demo1 (page 0) (root_table (page 0)) ∅ _ TRAMPOLINE
    sym_trampoline (Z.lor PTE_R PTE_X) demo1_as eq_refl ltac:(done) ltac:(by rewrite demo_leaf) ltac:(done) ltac:(done) ltac:(done) ltac:(done))
    ltac:(vm_compute; reflexivity)) as (T1 & l1 & Has1 & _ & [[_ Hl1]|[[=] _]]).
  destruct (mwp_result demo_high2 demo_m1 _ 0 (map_high_spec demo_m1 (page 0) T1 ∅ l1 TRAPFRAME
    (page 15) (Z.lor PTE_R PTE_W) Has1 eq_refl ltac:(done) ltac:(rewrite Hl1, demo_leaf; by case_decide) ltac:(done) ltac:(done) ltac:(done) ltac:(done))
    ltac:(vm_compute; reflexivity)) as (T2 & l2 & Has2 & _ & [[_ Hl2]|[[=] _]]).
  exists T2, l2. split; [exact Has2|]. intros x _. unfold demo_m2. rewrite Hl2. fold demo_m1. rewrite Hl1, demo_leaf.
  unfold high_entry. repeat case_decide; by subst.
Qed.

Example proc_freepagetable_returns_witness : exists T l, user_pt demo_m2 (page 0) (page 15) T ∅ l /\
  wp (proc_freepagetable (page 0) 0) (demo_vm demo_m2) (fun _ s' => exists m l', s' = st m (demo_vm demo_m2) /\
    free_pages m l' /\ forall q, q ∈ l' <-> part T ∅ l q).
Proof.
  destruct demo_user_pt as (T & l & Hpt). exists T, l. split; [exact Hpt|].
  apply (proc_freepagetable_returns (page 0) (page 15) 0 T ∅ l (demo_vm demo_m2)); [exact Hpt|rewrite TRAPFRAME_val; lia|done].
Defined.
