(* ===== verification/LogDemo.v ===== *)
(** * The theorems about the log applied

    A disk of zero blocks, the buffer cache [binit] makes, and a driver that
    leaves the hart after each transfer. *)

From stdpp Require Import base list gmap strings.
From Stdlib Require Import ZArith Lia.
From S2P Require Import Prelude KernelBase Proc FsBase FsLogic Bio BioFacts BioCache BioSpecs Log LogFacts LogTheorems LogTx.
From S2P Require Import KernelDemo.

Open Scope Z_scope.

#[local] Existing Instance demo_config.

#[export] Instance demo_has_fs : has_fs fsst.
Proof. by refine {| fs_of := id; with_fs := fun f _ => f |}. Defined.

(** The transfer takes place, then the thread is off the hart for a while. *)
#[export] Instance demo_driver : disk_driver fsst := {|
  virtio_disk_rw b w := modfs (transfer b w) ;; (fun s => Switch s (fun s' => Done tt s')) |}.

Definition nobody (s s' : kst fsst) : Prop := s' = s.

#[export] Instance demo_driver_ok : driver_ok fsst nobody.
Proof.
  split. intros C me pid b w f x Hx HC1 HC2. apply fsp_bind, fsp_modfs.
  intros s Hs Hf. simpl. split; [unfold disk_of; by rewrite Hf|]. intros s' ->. exists []. by split_and!.
Qed.

Definition demo_fs_locks : gmap lockid spinlock :=
  list_to_map ([(LBcache, unlocked); (LLog, unlocked); (LItable, unlocked); (LFtable, unlocked)]
    ++ ((fun b => (LBuf b, unlocked)) <$> seq 0 NBUF) ++ ((fun i => (LInode i, unlocked)) <$> seq 0 NINODE)) ∪ demo_locks.

Definition zero_block : list Z := replicate BSIZE 0.

Definition zero_buf : buf := mkbuf 0 0 0 0 (mksleeplock 0 0) 0 0 0 zero_block.

Definition zero_inode : inode := mkinode 0 0 0 (mksleeplock 0 0) 0 0 0 0 0 0 (replicate 13 0).

(** The memory of a kernel that has opened no file. *)
Definition demo_mem (lg : log_t) : fsmem :=
  mkfsmem lg (mksuperblock 0 0 0 0 0 0 0 0) (replicate NINODE zero_inode) (replicate NFILE (mkfile FD_NONE 0 0 0 0 0 0 0)).

(** Before [binit]: memory is zero. *)
Definition demo_fs0 : fsst :=
  mkfsst (replicate (S NBUF) zero_buf) (demo_mem (mklog 0 0 0 0 0 0 (replicate LOGBLOCKS 0))) (fun _ => zero_block).

Definition demo_fskst (f : fsst) : kst fsst :=
  mkkst demo_table (Some 0%nat) 5 7 10 (list_to_map []) false (mkcsr false false 0 0 0 0 0 0 0) [] f
    (mkhw demo_fs_locks (mkcpu (Some 0%nat) 0 false) true 0).

(** After [binit]. *)
Definition demo_bufs : list buf :=
  match binit (demo_fskst demo_fs0) with Done _ s => f_bufs (k_mem s) | _ => [] end.

Lemma demo_ring : ring demo_bufs (reverse (seq 0 NBUF)).
Proof.
  split_and!; [by vm_compute|by rewrite reverse_Permutation|]. vm_compute. repeat split.
Qed.

Lemma demo_bufs_fresh : Forall (fun x => b_dev x = 0 /\ b_refcnt x = 0 /\ sl_locked (b_lock x) = 0) demo_bufs.
Proof. apply Forall_forall. intros x Hx. revert x Hx. apply Forall_forall. vm_compute. repeat constructor. Qed.

(** A cache that has not been used shows the disk. *)
Lemma fresh_view dev pid D lg l f : f_disk f = D -> f_mem f = lg -> ring (f_bufs f) l ->
  Forall (fun x => b_dev x <> dev /\ b_refcnt x = 0 /\ sl_locked (b_lock x) = 0) (f_bufs f) ->
  view dev pid D D ∅ ∅ lg f.
Proof.
  intros HD Hlg Hr Hb. split_and!; [done..|]. exists l, (mkcab D ∅ ∅). split_and!; try done. split; [done|].
  assert (Hb' : forall i x, f_bufs f !! i = Some x -> b_dev x <> dev /\ b_refcnt x = 0 /\ sl_locked (b_lock x) = 0)
    by (by apply Forall_lookup).
  split.
  - intros i x Hi Hx. destruct (Hb' i x Hx) as (? & ? & ?). split; [done|]. by intros ?.
  - intros i j k _ _ (x & Hx & Hd & _). by destruct (Hb' i x Hx).
  - intros k i n Hk. simpl in Hk. by rewrite lookup_empty in Hk.
  - intros k _. by rewrite HD.
  - intros k [v Hv]. simpl in Hv. by rewrite lookup_empty in Hv.
Qed.

Lemma demo_fs_of f : fs_of (k_mem (demo_fskst f)) = f.
Proof. reflexivity. Qed.

Lemma demo_ready f : ready 0 1 [] (demo_fskst f).
Proof.
  split_and!; [reflexivity|by exists (demo_proc RUNNING 1 None 0 0 1)|by apply NoDup_nil|by apply Forall_nil|].
  eexists. split; [|reflexivity]. split; [by split; simpl|]. split; [done|]. split; [done|]. intros l Hl. unfold free. cbn [hw_locks].
  assert (H1 : Forall (fun b => demo_fs_locks !! LBuf b = Some unlocked) (seq 0 NBUF)) by (vm_compute; repeat constructor).
  assert (H2 : Forall (fun b => demo_fs_locks !! LProc b = Some unlocked) (seq 0 NPROC)) by (vm_compute; repeat constructor).
  assert (H3 : Forall (fun i => demo_fs_locks !! LInode i = Some unlocked) (seq 0 NINODE)) by (vm_compute; repeat constructor).
  rewrite Forall_forall in H1, H2, H3. destruct l; try done; try by vm_compute.
  - apply H2, elem_of_seq. simpl in Hl. lia.
  - apply H1, elem_of_seq. simpl in Hl. lia.
  - apply H3, elem_of_seq. simpl in Hl. lia.
Qed.

(** ** A transaction *)

Definition demo_log : fsmem := demo_mem (mklog 2 0 0 1 0 0 (replicate LOGBLOCKS 0)).

(** Before [initlog]. *)
Definition demo_log0 : fsmem := demo_mem (mklog 0 0 0 0 0 0 (replicate LOGBLOCKS 0)).

Lemma demo_start : 0 <= 2 /\ 2 + Z.of_nat LOGBLOCKS < 2 ^ 31.
Proof. vm_compute. split; congruence. Qed.

Definition demo_fs (D : blocks) : fsst := mkfsst demo_bufs demo_log D.

Lemma demo_fresh D lg : view 1 1 D D ∅ ∅ lg (mkfsst demo_bufs lg D).
Proof.
  apply (fresh_view 1 1 D lg (reverse (seq 0 NBUF))); [done|done|exact demo_ring|].
  eapply Forall_impl; [exact demo_bufs_fresh|]. cbv beta. intros x (-> & ? & ?). by split_and!.
Qed.

Lemma demo_room : (size (∅ : gmap Z (nat * nat)) < NBUF)%nat.
Proof. rewrite map_size_empty, NBUF_val. lia. Qed.

Lemma demo_log_ok : log_ok 2 1 demo_log [].
Proof. split; try done; [vm_compute; lia|by apply NoDup_nil]. Qed.

(** Two blocks are filled, the first of them twice. *)
Definition demo_writes : list (Z * (list Z -> list Z)) :=
  [(40, fun d => <[0%nat := 7]> d); (41, fun _ => replicate BSIZE 9); (40, fun d => <[1%nat := 8]> d)].

Example transaction_atomic_witness :
  let D := fun _ : Z => zero_block in
  let W := apply_writes demo_writes D in
  take 2 (W 40) = [7; 8] /\
  wpr nobody (fun D' => recovers 2 D D' \/ recovers 2 W D')
    (fun _ s' => exists D' lg', quiet 1 2 1 D' lg' (fs_of (k_mem s')) /\ forall k, ~ in_log 2 k -> D' k = W k)
    (transaction 3 1 demo_writes (demo_fskst (demo_fs D))).
Proof.
  intros D W. split; [vm_compute; reflexivity|].
  assert (Hq : quiet 1 2 1 D demo_log (demo_fs D)).
  { split_and!; [apply demo_fresh|exact demo_log_ok|done|done|vm_compute; reflexivity|apply length_replicate]. }
  assert (Hw : writable 2 demo_writes).
  { repeat constructor; cbn [fst]; try lia; unfold in_log; rewrite LOGBLOCKS_val; lia. }
  assert (Hl : Z.of_nat (length demo_writes) <= MAXOPBLOCKS) by (vm_compute; congruence).
  pose proof (transaction_atomic 3 nobody 0 1 2 1 demo_start D demo_log (demo_fs D) demo_writes Hq Hw Hl
    (demo_fskst (demo_fs D)) (demo_ready _) (demo_fs_of _)) as H.
  refine (wpr_mono _ _ _ _ _ H _). intros [] s (L & _ & _ & D' & lg' & Hq' & _ & HD). exists D', lg'. split; [exact Hq'|exact HD].
Defined.

(** ** Recovery *)

(** A crash after the commit point: block 40 is in the log, not yet at home. *)
Definition demo_crashed : blocks := fun k =>
  if k =? 2 then put_int (put_int zero_block 0 1) 4 40
  else if k =? 3 then replicate BSIZE 7 else zero_block.

Lemma demo_header : header_blocks (demo_crashed 2) = [40].
Proof. vm_compute. reflexivity. Qed.

Example initlog_recovers_witness :
  recovered 2 demo_crashed 40 = replicate BSIZE 7 /\
  wpr nobody (recovers 2 (recovered 2 demo_crashed))
    (fun _ s' => forall k, ~ in_log 2 k -> f_disk (fs_of (k_mem s')) k = recovered 2 demo_crashed k)
    (initlog 3 1 2 (demo_fskst (mkfsst demo_bufs demo_log0 demo_crashed))).
Proof.
  split; [unfold recovered; rewrite demo_header; reflexivity|].
  assert (Hh : header_ok 2 demo_crashed).
  { unfold header_ok. rewrite demo_header. split; [vm_compute; split; congruence|]. split; [vm_compute; reflexivity|].
    split; [|apply NoDup_singleton]. repeat constructor. unfold in_log. rewrite LOGBLOCKS_val. lia. }
  pose proof (initlog_recovers 3 nobody 0 1 2 1 demo_start 2 1 demo_crashed _ _ (demo_fresh demo_crashed _)
    (length_replicate LOGBLOCKS 0 : length (l_block (m_log demo_log0)) = LOGBLOCKS) Hh eq_refl eq_refl
    (demo_fskst (mkfsst demo_bufs demo_log0 demo_crashed)) (demo_ready _) (demo_fs_of _)) as H.
  refine (wpr_mono _ _ _ _ _ H _). intros [] s (L & _ & _ & V' & lg' & _ & _ & _ & HD & _) k Hk. by apply HD.
Defined.

(** ** The buffer cache *)

Example bread_gives_block_witness :
  let D := fun k : Z => if k =? 5 then replicate BSIZE 3 else zero_block in
  wpr nobody (fun D' => D' 5 = D 5)
    (fun b s' => exists x, f_bufs (fs_of (k_mem s')) !! b = Some x /\ b_data x = replicate BSIZE 3)
    (bread 3 1 5 (demo_fskst (demo_fs D))).
Proof.
  intros D. destruct (demo_fresh D demo_log) as (_ & _ & l & A & Hc & HV & HP & HK).
  pose proof (bread_gives_block 3 nobody (fun D' => D' 5 = D 5) 0 1 1 l (demo_fs D) A 5 Hc eq_refl) as H.
  rewrite HK, HP in H. unfold refs_of in H. rewrite HP, lookup_empty in H.
  specialize (H eq_refl eq_refl (or_intror demo_room) (demo_fskst (demo_fs D)) (demo_ready _) (demo_fs_of _)).
  refine (wpr_mono _ _ _ _ _ H _). intros b s (L & _ & _ & _ & _ & _ & x & Hx & _ & _ & Hd & _).
  exists x. split; [exact Hx|]. rewrite Hd, HV. reflexivity.
Defined.
