(* ===== verification/FsDemo.v ===== *)
(** * The theorems about the file system applied

    A disk as [mkfs] lays it out: a root directory with the entries [.], [..] and
    [a], and the file [a] with the five bytes of "hello". *)

From stdpp Require Import base list gmap strings.
From Stdlib Require Import ZArith Lia.
From S2P Require Import Prelude KString KernelBase Proc FsBase FsLogic Bio BioFacts BioCache BioSpecs Log LogFacts LogTheorems LogTx.
From S2P Require Import Fs FsTx FsAlloc FsFile FsPath FsInode FsDir FsWrite FsContents FsUpdate FsAtomic KernelDemo LogDemo.

Open Scope Z_scope.

#[local] Existing Instance demo_config.

(** No user memory. *)
#[local] Instance demo_fs_services : services fsst := {|
  Proc.kalloc m := (0, m); Proc.kfree _ m := Some m; Proc.uvmcreate m := (0, m); Proc.mappages _ _ _ _ _ m := Some (-1, m);
  Proc.uvmunmap _ _ _ _ m := Some m; Proc.uvmfree _ _ m := Some m; Proc.uvmcopy _ _ _ m := Some (-1, m);
  Proc.uvmalloc _ _ _ _ m := Some (0, m); Proc.uvmdealloc _ _ _ m := Some (0, m); Proc.copyout _ _ _ _ m := Some (-1, m);
  Proc.vmfault _ _ _ _ m := Some (0, m); Proc.copyin _ _ _ _ m := Some (-1, [], m); Proc.copyinstr _ _ _ _ m := Some (None, m);
  Proc.filedup f := ret f; Proc.fileclose _ := ret tt; Proc.idup i := ret i; Proc.iput _ := ret tt;
  Proc.begin_op := ret tt; Proc.end_op := ret tt; Proc.namei _ := ret 0; Proc.fsinit _ := ret tt; Proc.kexec _ _ := ret (-1) |}.

(** Bytes and then zeros, to the end of the block. *)
Definition block_of (l : list Z) : list Z := take BSIZE (l ++ replicate BSIZE 0).

Definition demo_sb : superblock := mksuperblock FSMAGIC 2000 1953 3 31 2 33 46.

(** Inode 1, the root directory, and inode 2, the file. *)
Definition demo_root : dinode := mkdinode T_DIR 0 0 1 48 (47 :: replicate 12 0).

Definition demo_a : dinode := mkdinode T_FILE 0 0 1 5 (48 :: replicate 12 0).

Definition demo_dirent (inum : Z) (name : list Z) : list Z := le_bytes 2 inum ++ take DIRSIZ (name ++ replicate DIRSIZ 0).

Definition demo_disk : blocks := fun k =>
  if k =? 33 then block_of (replicate 64 0 ++ dinode_bytes demo_root ++ dinode_bytes demo_a)
  else if k =? 46 then block_of [255; 255; 255; 255; 255; 255; 1]
  else if k =? 47 then block_of (demo_dirent 1 [46] ++ demo_dirent 1 [46; 46] ++ demo_dirent 2 [97])
  else if k =? 48 then block_of [104; 101; 108; 108; 111]
  else replicate BSIZE 0.

Definition is_byte (v : Z) : bool := ((0 <=? v) && (v <? 256))%bool.

Lemma block_ok_dec l : (length l =? BSIZE)%nat = true -> forallb is_byte l = true -> block_ok l.
Proof.
  intros H1 H2. split; [by apply Nat.eqb_eq|]. apply Forall_forall. intros v Hv. rewrite forallb_forall in H2.
  specialize (H2 v (proj1 (list_elem_of_In _ _) Hv)). unfold is_byte in H2. lia.
Qed.

Lemma demo_disk_ok : blocks_ok demo_disk.
Proof.
  intros k. unfold demo_disk. destruct (k =? 33); [apply block_ok_dec; vm_compute; reflexivity|].
  destruct (k =? 46); [apply block_ok_dec; vm_compute; reflexivity|].
  destruct (k =? 47); [apply block_ok_dec; vm_compute; reflexivity|].
  destruct (k =? 48); [apply block_ok_dec; vm_compute; reflexivity|apply block_ok_zero].
Qed.

Lemma demo_geometry : geometry 2 demo_sb.
Proof. split; vm_compute; try split; congruence. Qed.

(** Every number from 0 up to [n] has the property. *)
Lemma all_below n (P : Z -> bool) : forallb (fun i => P (Z.of_nat i)) (seq 0 (Z.to_nat n)) = true -> forall b, 0 <= b < n -> P b = true.
Proof.
  intros H b Hb. rewrite forallb_forall in H. rewrite <- (Z2Nat.id b) by lia. apply H, in_seq. lia.
Qed.

Lemma demo_meta : meta_used demo_sb demo_disk.
Proof. intros b Hb. apply (all_below (meta_end demo_sb) (used demo_sb demo_disk)); [vm_compute; reflexivity|done]. Qed.

(** In the middle of a transaction, with the file [a] locked in entry 0. *)
Definition demo_inode : inode := mkinode 1 2 1 (mksleeplock 1 1) 1 T_FILE 0 0 1 5 (48 :: replicate 12 0).

Definition demo_txmem : fsmem :=
  mkfsmem (mklog 2 1 0 1 0 0 (replicate LOGBLOCKS 0)) demo_sb (demo_inode :: replicate 49 zero_inode)
    (replicate NFILE (mkfile FD_NONE 0 0 0 0 0 0 0)).

Definition demo_txst : fsst := mkfsst demo_bufs demo_txmem demo_disk.

Lemma demo_tx m : m_log m = m_log demo_txmem -> tx 1 2 1 demo_disk 1 0 demo_disk [] ∅ m (mkfsst demo_bufs m demo_disk).
Proof.
  intros Em. exists ∅, (m_log m). assert (E : set_m_log (m_log m) m = m) by (by destruct m). rewrite E, fmap_empty.
  split_and!; [apply demo_fresh| |by rewrite Em..| |by left].
  - split; rewrite ?Em; try done; [vm_compute; lia|by apply NoDup_nil].
  - intros k. by rewrite lookup_empty.
Qed.

Lemma demo_alloc_pre m : m_sb m = demo_sb -> alloc_pre 2 demo_disk ∅ m.
Proof.
  intros E. split; rewrite ?E; [apply demo_geometry|apply demo_disk_ok|apply demo_meta|intros; apply lookup_empty|intros; apply lookup_empty].
Qed.

Lemma demo_used49 : forallb (fun i => used demo_sb demo_disk (Z.of_nat i)) (seq 0 (Z.to_nat 49)) = true.
Proof. vm_compute. reflexivity. Qed.

Lemma demo_free49 : used demo_sb demo_disk 49 = false.
Proof. vm_compute. reflexivity. Qed.

(** The free blocks begin at 49. *)
Example balloc_takes_free_witness :
  wpr nobody (fun _ => True) (fun a s' => a = 49)
    (balloc 3 1 (demo_fskst demo_txst)).
Proof.
  pose proof (balloc_takes_free 3 nobody (fun _ => True) 0 1 2 1 demo_start demo_disk I 1 0 (Z.le_refl 1) demo_disk [] ∅ demo_txmem demo_txst
    (demo_tx demo_txmem eq_refl) (demo_alloc_pre demo_txmem eq_refl) ltac:(vm_compute; lia) (demo_fskst demo_txst) (demo_ready _) (demo_fs_of _)) as H.
  refine (wpr_mono _ _ _ _ _ H _). clear H. intros a s (L & _ & _ & [(V' & ks' & _ & _ & Hr & Hu & Hb & _)|(_ & _ & Hall)]).
  - destruct (Z.lt_trichotomy a 49) as [Hlt|[->|Hgt]]; [|done|].
    + exfalso. change (used demo_sb demo_disk a = false) in Hu.
      rewrite (all_below 49 (used demo_sb demo_disk) demo_used49 a) in Hu; [discriminate Hu|].
      destruct Hr as [Hr _]. change (47 <= a) in Hr. lia.
    + exfalso. assert (E : used demo_sb demo_disk 49 = true) by (apply Hb; lia). rewrite demo_free49 in E. discriminate E.
  - exfalso. assert (E : used demo_sb demo_disk 49 = true) by (apply Hall; split; [lia|reflexivity]). rewrite demo_free49 in E. discriminate E.
Defined.

(** ** The file *)

(** A file of one block. *)
Lemma one_block V x a bn : i_addrs x = a :: replicate 12 0 -> addr_of V x bn = if (0 <? bn)%Z then 0 else a.
Proof.
  intros E. unfold addr_of. rewrite E. destruct (Z.ltb_spec bn NDIRECT) as [Hd|Hd].
  - destruct (Z.ltb_spec 0 bn) as [H0|H0].
    + destruct (Z.to_nat bn) as [|n] eqn:En; [lia|]. change ((a :: replicate 12 0) !! S n) with (replicate 12 0 !! n).
      destruct (decide (n < 12)%nat); [by rewrite lookup_replicate_2|].
      by rewrite lookup_ge_None_2 by (rewrite length_replicate; lia).
    + replace (Z.to_nat bn) with 0%nat by lia. done.
  - rewrite (proj2 (Z.ltb_lt 0 bn)) by (unfold NDIRECT in Hd; lia). reflexivity.
Qed.

Lemma demo_addr bn : addr_of demo_disk demo_inode bn = if (0 <? bn)%Z then 0 else 48.
Proof. by apply one_block. Qed.

Lemma demo_in_use : in_use demo_sb demo_disk 48.
Proof. split; [vm_compute; split; congruence|vm_compute; reflexivity]. Qed.

Lemma demo_file_inv : file_inv demo_sb demo_disk demo_inode 5.
Proof.
  split.
  - reflexivity.
  - vm_compute. split; congruence.
  - intros bn H0 Hlt. rewrite demo_addr. rewrite BSIZE_val in Hlt. by rewrite (proj2 (Z.ltb_ge 0 bn)) by lia.
  - intros bn _. rewrite demo_addr. destruct (0 <? bn); [done|]. intros _. apply demo_in_use.
  - intros H. exfalso. apply H. reflexivity.
  - intros b1 b2 H1 H2. rewrite !demo_addr. destruct (Z.ltb_spec 0 b1), (Z.ltb_spec 0 b2); try done. lia.
  - intros bn _. rewrite demo_addr. change (ind_of demo_inode) with 0. by destruct (0 <? bn).
Qed.

Lemma demo_file_ok : file_ok demo_disk demo_inode.
Proof. destruct demo_file_inv as [F1 F2 F3 _ _ _ _]. by split. Qed.

Lemma demo_contents : contents demo_disk demo_inode = [104; 101; 108; 108; 111].
Proof. vm_compute. reflexivity. Qed.

(** The last three bytes are read into the middle of a buffer. *)
Example readi_reads_contents_witness :
  wpr nobody (fun _ => True) (fun r s' => r = (3, [0; 108; 108; 111; 0; 0]))
    (readi 3 (replicate 6 0) (iptr 0) 0 1 2 10 (demo_fskst demo_txst)).
Proof.
  assert (Hl : 1 + Z.of_nat (length (take (Z.to_nat 10) (drop (Z.to_nat 2) (contents demo_disk demo_inode)))) <= Z.of_nat (length (replicate 6 0)) < 2 ^ 64)
    by (rewrite demo_contents; vm_compute; split; congruence).
  pose proof (readi_reads_contents 3 nobody (fun _ => True) 0 1 2 1 demo_disk I 1 0 demo_disk [] demo_txmem demo_txst 0 demo_inode
    (replicate 6 0) 1 2 10 (demo_tx demo_txmem eq_refl) eq_refl eq_refl demo_file_ok demo_disk_ok ltac:(vm_compute; lia)
    ltac:(lia) ltac:(lia) ltac:(lia) ltac:(lia) Hl (demo_fskst demo_txst) (demo_ready _) (demo_fs_of _)) as H.
  refine (wpr_mono _ _ _ _ _ H _). clear H. intros r s (L & _ & _ & -> & _). rewrite demo_contents. reflexivity.
Defined.

Lemma demo_entry i x : m_itable demo_txmem !! i = Some x -> (i = 0%nat /\ x = demo_inode) \/ (i <> 0%nat /\ x = zero_inode).
Proof.
  destruct i as [|i]; [intros [= <-]; by left|]. change (m_itable demo_txmem !! S i) with (replicate 49 zero_inode !! i).
  intros [-> _]%lookup_replicate. by right.
Qed.

Lemma demo_disk_a : disk_dinode demo_sb demo_disk 2 = demo_a.
Proof. vm_compute. reflexivity. Qed.

Lemma demo_itab : itab 1 1 demo_disk {[0%nat]} demo_txmem {[2 := 1]}.
Proof.
  split.
  - reflexivity.
  - intros i x [[_ ->]|[_ ->]]%demo_entry; [done|done].
  - intros i x [[-> ->]|[_ ->]]%demo_entry Hr; [|done]. split; [|by rewrite lookup_singleton_eq].
    split_and!; [done| |right; symmetry; exact demo_disk_a]. rewrite decide_True by set_solver. done.
  - intros j r [<- <-]%lookup_singleton_Some. exists 0%nat, demo_inode. done.
  - intros i j x y [[-> ->]|[_ ->]]%demo_entry [[-> ->]|[_ ->]]%demo_entry; done.
  - intros i x [[-> ->]|[Hne ->]]%demo_entry Hr; [done|]. split; [done|set_solver].
Qed.

Lemma demo_open : open_file 1 2 1 demo_disk {[0%nat]} demo_txmem {[2 := 1]} 0 demo_inode.
Proof.
  split; [apply demo_itab|done|set_solver|done| |exact demo_file_inv|by apply demo_alloc_pre|].
  - intros j r [<- <-]%lookup_singleton_Some. split; [lia|reflexivity].
  - assert (Hr : forall z, (- 2 ^ 15 <=? z) && (z <? 2 ^ 15) = true -> - 2 ^ 15 <= z < 2 ^ 15) by (intros z; lia).
    split; [apply Hr; reflexivity..|vm_compute; split; congruence|reflexivity|].
    apply Forall_cons. split; [lia|]. apply Forall_replicate. lia.
Qed.

(** Two bytes are appended. *)
Example writei_writes_witness :
  wpr nobody (fun _ => True) (fun r s' => exists V' ks m x, tx 1 2 1 demo_disk 1 0 V' ks ∅ m (fs_of (k_mem s')) /\
      m_itable m !! 0%nat = Some x /\ (r = 2 -> contents V' x = [104; 101; 108; 108; 111; 72; 73]))
    (writei 3 [72; 73] (iptr 0) 0 0 5 2 (demo_fskst demo_txst)).
Proof.
  pose proof (writei_writes 3 nobody (fun _ => True) 0 1 2 1 demo_start demo_disk I 1 0 (Z.le_refl 1) demo_disk [] demo_txmem demo_txst {[2 := 1]} {[0%nat]}
    0 demo_inode [72; 73] 0 5 2 (demo_tx demo_txmem eq_refl) demo_open ltac:(split; [lia|reflexivity || (vm_compute; congruence)]) ltac:(lia)
    ltac:(vm_compute; congruence) ltac:(lia) ltac:(vm_compute; split; congruence) ltac:(repeat constructor; lia) ltac:(vm_compute; lia)
    (demo_fskst demo_txst) (demo_ready _) (demo_fs_of _)) as H.
  refine (wpr_mono _ _ _ _ _ H _). clear H. intros r s (L & _ & _ & V' & ks' & m' & x' & Ht & O & _ & _ & _ & _ & Hc & _).
  exists V', ks', m', x'. split; [exact Ht|]. split; [apply O|]. intros ->. rewrite Hc, demo_contents. reflexivity.
Defined.

(** ** Path lookup *)

(** In a transaction, no inode in use. *)
Definition demo_walkmem : fsmem :=
  mkfsmem (mklog 2 1 0 1 0 0 (replicate LOGBLOCKS 0)) demo_sb (replicate 50 zero_inode)
    (replicate NFILE (mkfile FD_NONE 0 0 0 0 0 0 0)).

Lemma demo_no_inodes : itab 1 1 demo_disk ∅ demo_walkmem ∅.
Proof.
  assert (Hz : forall i x, m_itable demo_walkmem !! i = Some x -> x = zero_inode) by (intros i x [-> _]%lookup_replicate; done).
  split.
  - reflexivity.
  - by intros i x ->%Hz.
  - by intros i x ->%Hz.
  - intros j r. by rewrite lookup_empty.
  - by intros i j x y ->%Hz ->%Hz.
  - intros i x ->%Hz _. split; [done|set_solver].
Qed.

Lemma demo_dinode_root : disk_dinode demo_sb demo_disk 1 = demo_root.
Proof. vm_compute. reflexivity. Qed.

Definition demo_dirdata : list Z := demo_dirent 1 [46] ++ demo_dirent 1 [46; 46] ++ demo_dirent 2 [97].

Lemma demo_dir_contents : contents demo_disk (inode_of demo_root) = demo_dirdata.
Proof. vm_compute. reflexivity. Qed.

Lemma demo_linked j : linked demo_sb demo_disk j <-> j = 1 \/ j = 2.
Proof.
  unfold linked. change (sb_ninodes demo_sb) with 3. split; [lia|].
  intros [-> | ->]; rewrite ?demo_dinode_root, ?demo_disk_a; done.
Qed.

Lemma demo_tree : tree_ok demo_sb demo_disk.
Proof.
  assert (Hdir : forall j, linked demo_sb demo_disk j -> d_type (disk_dinode demo_sb demo_disk j) = T_DIR -> j = 1).
  { intros j [-> | ->]%demo_linked; [done|]. rewrite demo_disk_a. intros E. discriminate E. }
  split.
  - apply demo_linked. by left.
  - intros j Hj Hd. rewrite (Hdir j Hj Hd), demo_dinode_root. split; [reflexivity|vm_compute; split; congruence|].
    intros bn H0 Hlt. rewrite (one_block _ _ 47) by reflexivity. rewrite BSIZE_val in Hlt. change (i_size (inode_of demo_root)) with 48 in Hlt.
    by rewrite (proj2 (Z.ltb_ge 0 bn)) by lia.
  - intros j Hj Hd. rewrite (Hdir j Hj Hd), demo_dinode_root. reflexivity.
  - intros j key j' off Hj Hd. rewrite (Hdir j Hj Hd), demo_dinode_root, demo_dir_contents. intros Hf. apply demo_linked.
    apply dir_find_entry in Hf as (l & Hl & -> & _). change (length demo_dirdata / 16)%nat with 3%nat in Hl.
    destruct l as [|[|[|l]]]; [by left|by left|by right|lia].
Qed.

Definition demo_walk : fsst := mkfsst demo_bufs demo_walkmem demo_disk.

Lemma demo_resolve : resolve false demo_sb demo_disk ROOTINO (elems [47; 97; 0]) = Some (2, []).
Proof. vm_compute. reflexivity. Qed.


(** ** A whole operation *)

Definition demo_quietmem : fsmem :=
  mkfsmem (mklog 2 0 0 1 0 0 (replicate LOGBLOCKS 0)) demo_sb (replicate 50 zero_inode)
    (replicate NFILE (mkfile FD_NONE 0 0 0 0 0 0 0)).

Definition demo_quiet : fsst := mkfsst demo_bufs demo_quietmem demo_disk.

Lemma demo_is_quiet : quiet 1 2 1 demo_disk demo_quietmem demo_quiet.
Proof.
  split_and!; [apply demo_fresh| |done|done|vm_compute; reflexivity|vm_compute; reflexivity].
  split; try done; [vm_compute; lia|by apply NoDup_nil].
Qed.

Definition demo_post (a : Z) (V' : blocks) (m' : fsmem) : Prop := a <> 0 -> V' = allocated demo_sb demo_disk a.

