(* ===== verification/ShellBase.v ===== *)
(** * The C shell: its data, the system calls it makes, and their meaning

    Data of [c-shell/include].  A shell function is a [prog]: a tree of calls,
    each with the code that follows every answer the system may give; the C
    globals are read and written by two calls of the same kind.  [step] is what
    POSIX promises about an answer, and [sat] is total correctness of a
    program under every behaviour [step] allows. *)

From stdpp Require Import base list gmap strings pretty.
From Stdlib Require Import ZArith Lia Ascii.
From S2P Require Import Prelude.

Open Scope Z_scope.

(** ** Strings *)

(** A C string: its bytes before the NUL. *)
Notation str := (list ascii).

Definition lit (s : string) : str := String.list_ascii_of_string s.

Definition dec (z : Z) : str := lit (pretty z).

Definition NUL : ascii := "000".
Definition TAB : ascii := "009".
Definition LF : ascii := "010".
Definition CR : ascii := "013".
Definition DQUOTE : ascii := "034".

(** [s[0]] of a NUL-terminated string. *)
Definition hd0 (s : str) : ascii := match s with [] => NUL | c :: _ => c end.

(** The string a buffer holds: the bytes in front of a NUL. *)
Fixpoint until_nul (w : str) : str :=
  match w with
  | [] => []
  | c :: w' => if bool_decide (c = NUL) then [] else c :: until_nul w'
  end.

(** [strcmp(a, b) == 0] *)
Definition streq (a b : str) : bool := bool_decide (a = b).

Definition PATH_MAX : nat := 4096.

(** ** Tokens: [lexer.h] *)

Inductive TokenType := TOK_WORD | TOK_PIPE | TOK_AMP | TOK_SEMI | TOK_LT | TOK_GT | TOK_GTGT.

#[export] Instance TokenType_eq : EqDecision TokenType.
Proof. solve_decision. Defined.

(** [value] is [None] for the null pointer of an operator. *)
Record Token := mkToken { type : TokenType; value : option str }.

#[export] Instance Token_eq : EqDecision Token.
Proof. solve_decision. Defined.

Definition is_tok (t : TokenType) (tok : Token) : bool := bool_decide (type tok = t).

(** ** Commands: [redirect.h] and [pipes.h] *)

Record OutputRedir := mkOutputRedir { filename : str; is_append : bool }.

(** The arrays with their counts; the null pointer that ends [argv] is left out. *)
Record SingleCommand := mkSingleCommand {
  argv : list str;
  input_files : list str;
  output_files : list OutputRedir
}.

(** ** Jobs: [term_control.h] *)

Definition MAX_JOBS : nat := 256.

Definition MAX_PROCS_PER_JOB : nat := 32.

Inductive JobState := JOB_RUNNING | JOB_STOPPED.

#[export] Instance JobState_eq : EqDecision JobState.
Proof. solve_decision. Defined.

Record JobProc := mkJobProc { jp_pid : Z; cmd_name : str; exited : bool }.

(** [procs] holds the first [num_procs] entries of the array. *)
Record Job := mkJob {
  job_number : Z;
  pgid : Z;
  cmd_line : str;
  state : JobState;
  active : bool;
  procs : list JobProc
}.

Definition set_state (v : JobState) (j : Job) : Job :=
  mkJob (job_number j) (pgid j) (cmd_line j) v (active j) (procs j).

Definition set_active (v : bool) (j : Job) : Job :=
  mkJob (job_number j) (pgid j) (cmd_line j) (state j) v (procs j).

Definition set_procs (v : list JobProc) (j : Job) : Job :=
  mkJob (job_number j) (pgid j) (cmd_line j) (state j) (active j) v.

Definition set_exited (v : bool) (p : JobProc) : JobProc := mkJobProc (jp_pid p) (cmd_name p) v.

(** ** The database of [hop]: [hop.c] *)

Record Entry := mkEntry { path : str; visits : Z; last_visit : Z }.

#[export] Instance Entry_eq : EqDecision Entry.
Proof. solve_decision. Defined.

(** The static variables of [hop.c]; [entries] holds the first [entry_count]
    entries of the array. *)
Record hop_statics := mkhop_statics {
  shell_home : str;
  previous_dir : str;
  db_path : str;
  entries : list Entry
}.

Definition set_previous_dir (v : str) (h : hop_statics) : hop_statics :=
  mkhop_statics (shell_home h) v (db_path h) (entries h).

Definition set_entries (v : list Entry) (h : hop_statics) : hop_statics :=
  mkhop_statics (shell_home h) (previous_dir h) (db_path h) v.

(** The static variables of [term_control.c], [resume.c] and [hop.c]. *)
Record globals := mkglobals {
  g_jobs : list Job;
  g_next_job_num : Z;
  g_shell_pgid : Z;
  g_ctrl_d_warned : bool;
  g_alarm_fired : bool;
  g_hop : hop_statics
}.

Definition set_jobs (v : list Job) (g : globals) : globals :=
  mkglobals v (g_next_job_num g) (g_shell_pgid g) (g_ctrl_d_warned g) (g_alarm_fired g) (g_hop g).

Definition set_next_job_num (v : Z) (g : globals) : globals :=
  mkglobals (g_jobs g) v (g_shell_pgid g) (g_ctrl_d_warned g) (g_alarm_fired g) (g_hop g).

Definition set_shell_pgid (v : Z) (g : globals) : globals :=
  mkglobals (g_jobs g) (g_next_job_num g) v (g_ctrl_d_warned g) (g_alarm_fired g) (g_hop g).

Definition set_ctrl_d_warned (v : bool) (g : globals) : globals :=
  mkglobals (g_jobs g) (g_next_job_num g) (g_shell_pgid g) v (g_alarm_fired g) (g_hop g).

Definition set_alarm_fired (v : bool) (g : globals) : globals :=
  mkglobals (g_jobs g) (g_next_job_num g) (g_shell_pgid g) (g_ctrl_d_warned g) v (g_hop g).

Definition set_hop (v : hop_statics) (g : globals) : globals :=
  mkglobals (g_jobs g) (g_next_job_num g) (g_shell_pgid g) (g_ctrl_d_warned g) (g_alarm_fired g) v.

(** ** System calls *)

Definition STDIN_FILENO : Z := 0.
Definition STDOUT_FILENO : Z := 1.

Definition SIGHUP : Z := 1.
Definition SIGINT : Z := 2.
Definition SIGPIPE : Z := 13.
Definition SIGALRM : Z := 14.
Definition SIGTERM : Z := 15.
Definition SIGCHLD : Z := 17.
Definition SIGCONT : Z := 18.
Definition SIGSTOP : Z := 19.
Definition SIGTSTP : Z := 20.
Definition SIGTTIN : Z := 21.
Definition SIGTTOU : Z := 22.

Inductive oflags := O_RDONLY | O_WRITE (append : bool).

(** What [wait] reports, by the macros [WIFEXITED], [WIFSIGNALED], [WIFSTOPPED]
    and [WIFCONTINUED]. *)
Inductive wstatus := WExited (code : Z) | WSignaled (sig : Z) | WStopped (sig : Z) | WContinued.

Inductive sighandler := SIG_IGN | SIG_DFL | SIG_HANDLER (name : string).

Inductive errno := EINTR | ESRCH | ECHILD | EOTHER.

#[export] Instance errno_eq : EqDecision errno.
Proof. solve_decision. Defined.

Inductive filekind := IsDir | NotDir (size : Z).

(** The type bits of [st_mode]; [S_NONE] when none of the tests succeeds. *)
Inductive filetype := S_REG | S_DIR | S_CHR | S_BLK | S_FIFO | S_SOCK | S_LNK | S_NONE.

(** The requests of [ptrace] that [snoop] makes; registers are read by [Getregs]. *)
Inductive ptrace_request := PTRACE_ATTACH | PTRACE_DETACH | PTRACE_SETOPTIONS | PTRACE_SYSCALL (sig : Z)
| PTRACE_TRACEME.

(** The options of [waitpid]: [WNOHANG], [WUNTRACED] and [WCONTINUED]. *)
Record wopts := mkwopts { wnohang : bool; wuntraced : bool; wcontinued : bool }.

Definition WUNTRACED : wopts := mkwopts false true false.

Definition W_POLL : wopts := mkwopts true true true.

(** [sys X]: a call answered by an [X].  [Get] and [Put] access the globals.
    [Filetype] is [stat] when only the type of the file is used, [Tracewait] is
    [waitpid] without options on a process that is traced. *)
Inductive sys : Type -> Type :=
| Get : sys globals
| Put (g : globals) : sys unit
| Open (path : str) (flags : oflags) : sys Z
| Close (fd : Z) : sys unit
| Pipe : sys (option (Z * Z))
| Fork : sys Z
| Dup (fd : Z) : sys Z
| Dup2 (fd fd2 : Z) : sys Z
| Read (fd : Z) (n : nat) : sys (option (list ascii))
| Lseek (fd pos : Z) : sys bool
| Fdopen (fd : Z) : sys bool
| Fgetline (fd : Z) : sys (option str)
| Write (fd : Z) (data : list ascii) : sys Z
| Waitpid (pid : Z) (opts : wopts) : sys (Z * wstatus * errno)
| Kill (pid sig : Z) : sys (Z * errno)
| Setpgid (pid pgid : Z) : sys unit
| Signal (sig : Z) (h : sighandler) : sys unit
| BlockSigchld (on : bool) : sys unit
| Isatty (fd : Z) : sys bool
| Tcsetpgrp (fd pgid : Z) : sys unit
| Getpgrp : sys Z
| Alarm (seconds : Z) : sys unit
| Printf (text : str) : sys unit
| Perror (text : str) : sys unit
| Execv (path : str) (args : list str) : sys bool
| Getcwd : sys (option str)
| Getpwname : sys (option str)
| Gethostname : sys str
| Stat (path : str) : sys (option filekind)
| AccessX (path : str) : sys bool
| Getenv (name : str) : sys (option str)
| Getline : sys (option str)
| Chdir (path : str) : sys bool
| Time : sys Z
| Fgets (fd : Z) (n : nat) : sys (option str)
| Fprintf (fd : Z) (text : str) : sys unit
| Opendir (path : str) : sys Z
| Readdir (fd : Z) : sys (option str)
| Readlink (path : str) (n : nat) : sys (option str)
| Filetype (path : str) : sys (option filetype)
| AccessF (path : str) : sys bool
| Getpid : sys Z
| Ptrace (req : ptrace_request) (pid : Z) : sys bool
| Getregs (pid : Z) : sys (option Z)
| Tracewait (pid : Z) : sys (Z * wstatus * errno)
| Clock : sys (Z * Z)
| Raise (sig : Z) : sys unit.

(** How a program ends without returning; [OutOfFuel] stands for a loop that
    was given too little fuel. *)
Inductive ending := Exited (code : Z) | Execed (path : str) (args : list str) | OutOfFuel.

Inductive prog (A : Type) : Type :=
| Ret (a : A)
| Call {X : Type} (c : sys X) (k : X -> prog A)
| Stop (e : ending)
| Crash.

Arguments Ret {A} a.
Arguments Call {A X} c k.
Arguments Stop {A} e.
Arguments Crash {A}.

Definition NoFuel {A} : prog A := Stop OutOfFuel.

Fixpoint pbind {A B} (m : prog A) (f : A -> prog B) : prog B :=
  match m with
  | Ret a => f a
  | Call c k => Call c (fun x => pbind (k x) f)
  | Stop e => Stop e
  | Crash => Crash
  end.

Definition call {X} (c : sys X) : prog X := Call c Ret.

Declare Scope shell_scope.
Delimit Scope shell_scope with shell.
Open Scope shell_scope.

Notation "'do*' x := c 'in' k" := (pbind c (fun x => k))
  (at level 10, x name, c at level 100, k at level 200) : shell_scope.

Notation "c ;;; k" := (pbind c (fun _ => k))
  (at level 100, k at level 200, right associativity) : shell_scope.

(** [if (b) m] without an else. *)
Definition pwhen (b : bool) (m : prog unit) : prog unit := if b then m else Ret tt.

Definition printf (s : str) : prog unit := call (Printf s).

Definition getg {A} (f : globals -> A) : prog A := do* g := call Get in Ret (f g).

Definition modg (f : globals -> globals) : prog unit := do* g := call Get in call (Put (f g)).

(** [for (x in l) body], where [body] may leave the loop. *)
Fixpoint pfor {A} (l : list A) (body : A -> prog unit) : prog unit :=
  match l with
  | [] => Ret tt
  | x :: l' => body x ;;; pfor l' body
  end.

(** ** What the system may answer *)

(** The process and what the kernel keeps for it: open descriptors, what is
    left to read from and what was written to each, whether a read or write
    has failed, the whole content of each file that was opened, whether a read
    has returned less than was asked for and there, the unreaped children,
    whether SIGCHLD is blocked, whether a timer is armed, the terminal's
    foreground group, the signals sent so far, the text printed so far, and
    whether the directories the shell is in stay in place during the run, so
    that [getcwd] cannot fail, and what is left of the directories that are
    being read. *)
Record sysst := mksysst {
  s_glob : globals;
  s_fds : gset Z;
  s_in : gmap Z (list ascii);
  s_written : gmap Z (list ascii);
  s_ioerr : bool;
  s_file : gmap Z (list ascii);
  s_short : bool;
  s_kids : gset Z;
  s_masked : bool;
  s_alarm : bool;
  s_tty : Z;
  s_kills : list (Z * Z);
  s_out : str;
  s_cwd : bool;
  s_dirs : gmap Z (list str)
}.

Definition set_glob (v : globals) (s : sysst) : sysst :=
  mksysst v (s_fds s) (s_in s) (s_written s) (s_ioerr s) (s_file s) (s_short s) (s_kids s) (s_masked s) (s_alarm s) (s_tty s) (s_kills s) (s_out s) (s_cwd s) (s_dirs s).
Definition set_fds (v : gset Z) (s : sysst) : sysst :=
  mksysst (s_glob s) v (s_in s) (s_written s) (s_ioerr s) (s_file s) (s_short s) (s_kids s) (s_masked s) (s_alarm s) (s_tty s) (s_kills s) (s_out s) (s_cwd s) (s_dirs s).
Definition set_in (v : gmap Z (list ascii)) (s : sysst) : sysst :=
  mksysst (s_glob s) (s_fds s) v (s_written s) (s_ioerr s) (s_file s) (s_short s) (s_kids s) (s_masked s) (s_alarm s) (s_tty s) (s_kills s) (s_out s) (s_cwd s) (s_dirs s).
Definition set_written (v : gmap Z (list ascii)) (s : sysst) : sysst :=
  mksysst (s_glob s) (s_fds s) (s_in s) v (s_ioerr s) (s_file s) (s_short s) (s_kids s) (s_masked s) (s_alarm s) (s_tty s) (s_kills s) (s_out s) (s_cwd s) (s_dirs s).
Definition set_ioerr (v : bool) (s : sysst) : sysst :=
  mksysst (s_glob s) (s_fds s) (s_in s) (s_written s) v (s_file s) (s_short s) (s_kids s) (s_masked s) (s_alarm s) (s_tty s) (s_kills s) (s_out s) (s_cwd s) (s_dirs s).
Definition set_file (v : gmap Z (list ascii)) (s : sysst) : sysst :=
  mksysst (s_glob s) (s_fds s) (s_in s) (s_written s) (s_ioerr s) v (s_short s) (s_kids s) (s_masked s) (s_alarm s) (s_tty s) (s_kills s) (s_out s) (s_cwd s) (s_dirs s).
Definition set_short (v : bool) (s : sysst) : sysst :=
  mksysst (s_glob s) (s_fds s) (s_in s) (s_written s) (s_ioerr s) (s_file s) v (s_kids s) (s_masked s) (s_alarm s) (s_tty s) (s_kills s) (s_out s) (s_cwd s) (s_dirs s).
Definition set_kids (v : gset Z) (s : sysst) : sysst :=
  mksysst (s_glob s) (s_fds s) (s_in s) (s_written s) (s_ioerr s) (s_file s) (s_short s) v (s_masked s) (s_alarm s) (s_tty s) (s_kills s) (s_out s) (s_cwd s) (s_dirs s).
Definition set_masked (v : bool) (s : sysst) : sysst :=
  mksysst (s_glob s) (s_fds s) (s_in s) (s_written s) (s_ioerr s) (s_file s) (s_short s) (s_kids s) v (s_alarm s) (s_tty s) (s_kills s) (s_out s) (s_cwd s) (s_dirs s).
Definition set_alarm (v : bool) (s : sysst) : sysst :=
  mksysst (s_glob s) (s_fds s) (s_in s) (s_written s) (s_ioerr s) (s_file s) (s_short s) (s_kids s) (s_masked s) v (s_tty s) (s_kills s) (s_out s) (s_cwd s) (s_dirs s).
Definition set_tty (v : Z) (s : sysst) : sysst :=
  mksysst (s_glob s) (s_fds s) (s_in s) (s_written s) (s_ioerr s) (s_file s) (s_short s) (s_kids s) (s_masked s) (s_alarm s) v (s_kills s) (s_out s) (s_cwd s) (s_dirs s).
Definition set_kills (v : list (Z * Z)) (s : sysst) : sysst :=
  mksysst (s_glob s) (s_fds s) (s_in s) (s_written s) (s_ioerr s) (s_file s) (s_short s) (s_kids s) (s_masked s) (s_alarm s) (s_tty s) v (s_out s) (s_cwd s) (s_dirs s).
Definition set_out (v : str) (s : sysst) : sysst :=
  mksysst (s_glob s) (s_fds s) (s_in s) (s_written s) (s_ioerr s) (s_file s) (s_short s) (s_kids s) (s_masked s) (s_alarm s) (s_tty s) (s_kills s) v (s_cwd s) (s_dirs s).

Definition set_dirs (v : gmap Z (list str)) (s : sysst) : sysst :=
  mksysst (s_glob s) (s_fds s) (s_in s) (s_written s) (s_ioerr s) (s_file s) (s_short s) (s_kids s) (s_masked s) (s_alarm s) (s_tty s) (s_kills s) (s_out s) (s_cwd s) v.

Definition terminated (w : wstatus) : bool :=
  match w with WExited _ | WSignaled _ => true | _ => false end.

(** What [getline] takes from the front of a stream: up to and with the first
    newline. *)
Fixpoint first_line (l : str) : str * str :=
  match l with
  | [] => ([], [])
  | c :: l' => if bool_decide (c = LF) then ([c], l')
               else let '(a, b) := first_line l' in (c :: a, b)
  end.

Lemma first_line_app l r : LF ∉ l -> first_line (l ++ LF :: r) = (l ++ [LF], r).
Proof.
  induction l as [|c l IH]; intros H; [done|]. cbn [app first_line].
  apply not_elem_of_cons in H as [Hc Hl]. rewrite bool_decide_false by done. by rewrite IH.
Qed.

(** What the system may do about a call: the answer and the new state.  An
    alarm may go off, and set [g_alarm_fired], while [waitpid] blocks. *)
Definition step {X} (c : sys X) (s : sysst) : X -> sysst -> Prop :=
  match c in sys Y return Y -> sysst -> Prop with
  | Get => fun g s' => g = s_glob s /\ s' = s
  | Put g => fun _ s' => s' = set_glob g s
  | Open _ _ => fun fd s' =>
      (fd = -1 /\ s' = s) \/
      (0 <= fd /\ (fd ∉ s_fds s) /\ exists content,
         s' = set_fds ({[fd]} ∪ s_fds s) (set_in (<[fd := content]> (s_in s))
                (set_written (<[fd := []]> (s_written s)) (set_file (<[fd := content]> (s_file s)) s))))
  | Close fd => fun _ s' => s' = set_fds (s_fds s ∖ {[fd]}) s
  | Pipe => fun r s' =>
      (r = None /\ s' = s) \/
      (exists a b, r = Some (a, b) /\ 0 <= a /\ 0 <= b /\ a <> b /\ (a ∉ s_fds s) /\ (b ∉ s_fds s) /\
         s' = set_fds ({[a]} ∪ ({[b]} ∪ s_fds s)) (set_written (<[b := []]> (s_written s)) s))
  | Fork => fun pid s' =>
      (pid = -1 /\ s' = s) \/ (pid = 0 /\ s' = set_kids ∅ s) \/
      (0 < pid /\ (pid ∉ s_kids s) /\ s' = set_kids ({[pid]} ∪ s_kids s) s)
  | Dup _ => fun fd s' =>
      (fd = -1 /\ s' = set_ioerr true s) \/ (0 <= fd /\ (fd ∉ s_fds s) /\ s' = set_fds ({[fd]} ∪ s_fds s) s)
  | Dup2 _ fd2 => fun r s' =>
      (r = -1 /\ s' = s) \/ (r = fd2 /\ s' = set_fds ({[fd2]} ∪ s_fds s) s)
  | Read fd n => fun r s' =>
      let rest := default [] (s_in s !! fd) in
      (r = None /\ s' = set_ioerr true s) \/
      (exists k, r = Some (take k rest) /\ (k <= n)%nat /\ (k = 0%nat -> rest = []) /\
         s' = set_in (<[fd := drop k rest]> (s_in s))
                (set_short (s_short s || (k <? Nat.min n (length rest))%nat)%bool s))
  | Lseek fd pos => fun ok s' =>
      (ok = false /\ s' = set_ioerr true s) \/
      (ok = true /\ s' = set_in (<[fd := drop (Z.to_nat pos) (default [] (s_file s !! fd))]> (s_in s)) s)
  | Fdopen _ => fun ok s' => (ok = false /\ s' = set_ioerr true s) \/ (ok = true /\ s' = s)
  | Fgetline fd => fun r s' =>
      let rest := default [] (s_in s !! fd) in
      (r = None /\ s' = set_ioerr true s) \/
      (rest = [] /\ r = None /\ s' = s) \/
      (rest <> [] /\ r = Some (fst (first_line rest)) /\
       s' = set_in (<[fd := snd (first_line rest)]> (s_in s)) s)
  | Write fd data => fun w s' =>
      (w = -1 /\ s' = set_ioerr true s) \/
      (0 <= w <= Z.of_nat (length data) /\ (data <> [] -> 0 < w) /\
       s' = set_written (<[fd := default [] (s_written s !! fd) ++ take (Z.to_nat w) data]>
              (s_written s)) s)
  | Waitpid pid o => fun '(r, w, e) s' =>
      (0 < r /\ (r ∈ s_kids s) /\ (0 < pid -> r = pid) /\
       (forall sig, w = WStopped sig -> wuntraced o = true) /\
       (w = WContinued -> wcontinued o = true) /\
       s' = if terminated w then set_kids (s_kids s ∖ {[r]}) s else s) \/
      (r = 0 /\ wnohang o = true /\ s' = s) \/
      (r = -1 /\ (e = EINTR -> s_alarm s = true /\ s' = set_glob (set_alarm_fired true (s_glob s)) s) /\
       (e <> EINTR -> s' = s /\ (0 < pid -> pid ∉ s_kids s)))
  | Kill pid sig => fun '(r, _) s' =>
      (r = 0 \/ r = -1) /\ s' = set_kills (s_kills s ++ [(pid, sig)]) s
  | Setpgid _ _ => fun _ s' => s' = s
  | Signal _ _ => fun _ s' => s' = s
  | BlockSigchld on => fun _ s' => s' = set_masked on s
  | Isatty _ => fun _ s' => s' = s
  | Tcsetpgrp _ g => fun _ s' => s' = set_tty g s \/ s' = s
  | Getpgrp => fun g s' => 0 < g /\ s' = s
  | Alarm n => fun _ s' => s' = set_alarm (negb (n =? 0)) s
  | Printf t => fun _ s' => s' = set_out (s_out s ++ t) s
  | Perror _ => fun _ s' => s' = s
  | Execv _ _ => fun _ s' => s' = s
  | Getcwd => fun r s' => (s_cwd s = true -> r <> None) /\ s' = s
  | Getpwname => fun _ s' => s' = s
  | Gethostname => fun _ s' => s' = s
  | Stat _ => fun _ s' => s' = s
  | AccessX _ => fun _ s' => s' = s
  | Getenv _ => fun _ s' => s' = s
  | Getline => fun _ s' => s' = s
  | Chdir _ => fun _ s' => s' = s
  | Time => fun t s' => 0 <= t < 2 ^ 63 /\ s' = s
  | Fgets fd n => fun r s' =>
      let rest := default [] (s_in s !! fd) in
      (r = None /\ s' = set_ioerr true s) \/
      (rest = [] /\ r = None /\ s' = s) \/
      (rest <> [] /\ exists l, l = take (n - 1) (fst (first_line rest)) /\ r = Some l /\
       s' = set_in (<[fd := drop (length l) rest]> (s_in s)) s)
  | Fprintf fd text => fun _ s' =>
      s' = set_ioerr true s \/
      s' = set_written (<[fd := default [] (s_written s !! fd) ++ text]> (s_written s)) s
  | Opendir _ => fun fd s' =>
      (fd = -1 /\ s' = s) \/
      (0 <= fd /\ (fd ∉ s_fds s) /\ exists names,
         s' = set_fds ({[fd]} ∪ s_fds s) (set_dirs (<[fd := names]> (s_dirs s)) s))
  | Readdir fd => fun r s' =>
      let rest := default [] (s_dirs s !! fd) in
      (r = None /\ s' = set_ioerr true s) \/
      (rest = [] /\ r = None /\ s' = s) \/
      (exists name rest', rest = name :: rest' /\ r = Some name /\
       s' = set_dirs (<[fd := rest']> (s_dirs s)) s)
  | Readlink _ n => fun r s' => (forall t, r = Some t -> (length t <= n)%nat) /\ s' = s
  | Filetype _ => fun _ s' => s' = s
  | AccessF _ => fun _ s' => s' = s
  | Getpid => fun pid s' => 0 < pid /\ s' = s
  | Ptrace _ _ => fun _ s' => s' = s
  | Getregs _ => fun _ s' => s' = s
  | Tracewait pid => fun '(r, w, _) s' =>
      (r = pid /\ 0 < r /\ s' = if terminated w then set_kids (s_kids s ∖ {[r]}) s else s) \/
      (r = -1 /\ s' = s)
  | Clock => fun t s' => 0 <= snd t < 10 ^ 9 /\ s' = s
  | Raise _ => fun _ s' => s' = s
  end.

(** Every case of what a call may have done. *)
Ltac step_cases := repeat match goal with
  | H : _ \/ _ |- _ => destruct H
  | H : exists _, _ |- _ => destruct H
  | H : _ /\ _ |- _ => destruct H
  | x : _ * _ |- _ => destruct x
  | H1 : ?e = EINTR -> _, H2 : ?e <> EINTR -> _ |- _ =>
      destruct (decide (e = EINTR)) as [?He|?He]; [specialize (H1 He); clear H2|specialize (H2 He); clear H1]
  end; subst; simpl in *; try done; try by destruct (terminated _).

(** ** Total correctness under every behaviour

    [Q] is about a return, [E] about an end of the process; a program that may
    crash satisfies nothing. *)
Fixpoint sat {A} (m : prog A) (s : sysst) (Q : A -> sysst -> Prop) (E : ending -> sysst -> Prop) : Prop :=
  match m with
  | Ret a => Q a s
  | Call c k => forall x s', step c s x s' -> sat (k x) s' Q E
  | Stop e => E e s
  | Crash => False
  end.

Lemma sat_bind {A B} (m : prog A) (f : A -> prog B) s Q E :
  sat m s (fun a s' => sat (f a) s' Q E) E -> sat (pbind m f) s Q E.
Proof.
  revert s. induction m as [a|X c k IH|e|]; intros s H; simpl in *; try done.
  intros x s' Hx. apply IH. by apply H.
Qed.

Lemma sat_bind_iff {A B} (m : prog A) (f : A -> prog B) s Q E :
  sat (pbind m f) s Q E <-> sat m s (fun a s' => sat (f a) s' Q E) E.
Proof.
  split; [|apply sat_bind].
  revert s. induction m as [a|X c k IH|e|]; intros s H; simpl in *; try done.
  intros x s' Hx. apply IH. by apply H.
Qed.

Lemma sat_mono {A} (m : prog A) s (Q Q' : A -> sysst -> Prop) (E E' : ending -> sysst -> Prop) :
  sat m s Q E -> (forall a s', Q a s' -> Q' a s') -> (forall e s', E e s' -> E' e s') ->
  sat m s Q' E'.
Proof.
  intros H HQ HE. revert s H. induction m as [a|X c k IH|e|]; intros s H; simpl in *; auto.
Qed.

Lemma sat_call {X} (c : sys X) s (Q : X -> sysst -> Prop) E :
  (forall x s', step c s x s' -> Q x s') -> sat (call c) s Q E.
Proof. done. Qed.

Lemma sat_pfor {A} (I : nat -> sysst -> Prop) (l : list A) body s Q E :
  I 0%nat s ->
  (forall i x t, l !! i = Some x -> I i t -> sat (body x) t (fun _ t' => I (S i) t') E) ->
  (forall t, I (length l) t -> Q tt t) ->
  sat (pfor l body) s Q E.
Proof.
  intros H0 Hb HQ. cut (sat (pfor l body) s (fun _ t => I (length l) t) E).
  { intros H. eapply sat_mono; [exact H|by intros [] t ?; apply HQ|done]. }
  clear HQ. revert I s H0 Hb. induction l as [|x l IH]; intros I s H0 Hb; simpl; [done|].
  apply sat_bind. eapply sat_mono; [by apply (Hb 0%nat)| |done].
  intros [] t Ht. apply (IH (fun i => I (S i))); [done|]. intros i y t' Hi. by apply (Hb (S i)).
Qed.

Lemma sat_when b m s (Q : unit -> sysst -> Prop) E :
  (b = true -> sat m s Q E) -> (b = false -> Q tt s) -> sat (pwhen b m) s Q E.
Proof. destruct b; simpl; auto. Qed.

(** What a program may do. *)
Fixpoint may {A} (m : prog A) (s : sysst) (a : A) (s' : sysst) : Prop :=
  match m with
  | Ret b => a = b /\ s' = s
  | Call c k => exists x t, step c s x t /\ may (k x) t a s'
  | Stop _ => False
  | Crash => False
  end.

Lemma sat_may {A} (m : prog A) s (Q : A -> sysst -> Prop) E a s' :
  sat m s Q E -> may m s a s' -> Q a s'.
Proof.
  revert s. induction m as [b|X c k IH|e|]; intros s Hs Hm; simpl in *; try done.
  - by destruct Hm as [-> ->].
  - destruct Hm as (x & t & Hx & Hm). eapply IH; [by apply Hs|done].
Qed.

(** Programs that cannot be told apart. *)
Definition peq {A} (m m' : prog A) : Prop := forall s Q E, sat m s Q E <-> sat m' s Q E.

#[export] Instance peq_equiv {A} : Equivalence (@peq A).
Proof.
  split.
  - intros m s Q E. done.
  - intros m m' H s Q E. by rewrite (H s Q E).
  - intros m1 m2 m3 H H' s Q E. by rewrite (H s Q E).
Qed.

#[export] Instance pbind_proper {A B} :
  Proper (peq ==> pointwise_relation A peq ==> peq) (@pbind A B).
Proof.
  intros m m' Hm f f' Hf s Q E. rewrite !sat_bind_iff, (Hm s). split; intros H;
    (eapply sat_mono; [exact H|intros a t; apply Hf|done]).
Qed.

Arguments pbind : simpl never.
Arguments sat : simpl never.

(** ** Running a program against a concrete system *)

Definition oracle := forall X, sys X -> sysst -> X * sysst.

Inductive outcome (A : Type) :=
| Returned (a : A) (s : sysst) | Ended (e : ending) (s : sysst) | Stuck.

Arguments Returned {A} a s.
Arguments Ended {A} e s.
Arguments Stuck {A}.

Fixpoint run_prog {A} (h : oracle) (m : prog A) (s : sysst) : outcome A :=
  match m with
  | Ret a => Returned a s
  | Call c k => let '(x, s') := h _ c s in run_prog h (k x) s'
  | Stop e => Ended e s
  | Crash => Stuck
  end.

(** [h] only answers as [step] allows. *)
Definition lawful (h : oracle) : Prop := forall X (c : sys X) s, step c s (fst (h X c s)) (snd (h X c s)).

(** What [sat] says about a run. *)
Lemma sat_run {A} h (m : prog A) s Q E : lawful h -> sat m s Q E ->
  match run_prog h m s with
  | Returned a s' => Q a s' | Ended e s' => E e s' | Stuck => False
  end.
Proof.
  intros Hh. revert s. induction m as [a|X c k IH|e|]; intros s H; simpl; try done.
  specialize (Hh X c s). destruct (h X c s) as [x s']. apply IH. by apply H.
Qed.

(** A run is one of the possible ones. *)
Lemma may_run {A} h (m : prog A) s a s' : lawful h -> run_prog h m s = Returned a s' -> may m s a s'.
Proof.
  intros Hh. revert s. induction m as [b|X c k IH|e|]; intros s H; simpl in *; try done.
  - by injection H as -> ->.
  - specialize (Hh X c s). destruct (h X c s) as [x t]. exists x, t. split; [done|]. by apply IH.
Qed.

Lemma run_bind {A B} (h : oracle) (m : prog A) (f : A -> prog B) s :
  run_prog h (pbind m f) s =
  match run_prog h m s with
  | Returned a t => run_prog h (f a) t | Ended e t => Ended e t | Stuck => Stuck
  end.
Proof.
  revert s. induction m as [a|X c k IH|e|]; intros s; [done| |done|done].
  cbn [run_prog]. change (pbind (Call c k) f) with (Call c (fun x => pbind (k x) f)). cbn [run_prog].
  destruct (h X c s) as [x t]. apply IH.
Qed.

Lemma run_call {X} (h : oracle) (c : sys X) s : run_prog h (call c) s = Returned (fst (h X c s)) (snd (h X c s)).
Proof. unfold call. cbn [run_prog]. by destruct (h X c s). Qed.

(** ** Text on the standard output *)

Definition puts (t : str) : prog unit := printf (t ++ [LF]).

(** [s] with [text] printed. *)
Definition printed (text : str) (s : sysst) : sysst := set_out (s_out s ++ text) s.

Lemma printed_nil s : printed [] s = s.
Proof. unfold printed. rewrite app_nil_r. by destruct s. Qed.

Lemma printed_app x y s : printed y (printed x s) = printed (x ++ y) s.
Proof. unfold printed. simpl. by rewrite <- app_assoc. Qed.
