(* ===== verification/Lexer.v ===== *)
(** * The string buffer and the lexer: [dynstring.c] and [lexer.c]

    The buffer is modelled with its capacity and its uninitialised bytes, so
    that a write outside it would show; the position [*i] in the line is the
    rest of the line, which ends at its first NUL. *)

From stdpp Require Import base list sets strings.
From Stdlib Require Import ZArith Lia Ascii.
From S2P Require Import Prelude ShellBase.

Open Scope nat_scope.

(** ** [dynstring.c] *)

Definition DYNSTRING_DEFAULT_CAPACITY : nat := 16.

(** [data] is [None] when it is the null pointer; a byte is [None] while it
    has not been written. *)
Record DynString := mkDynString {
  ds_data : option (list (option ascii));
  ds_len : nat;
  ds_capacity : nat
}.

Definition ds_init : DynString :=
  mkDynString (Some (Some NUL :: replicate (DYNSTRING_DEFAULT_CAPACITY - 1) None)) 0
    DYNSTRING_DEFAULT_CAPACITY.

(** [data[i] = c]; [None] when [i] is outside the allocation. *)
Definition poke (i : nat) (c : ascii) (data : list (option ascii)) : option (list (option ascii)) :=
  if i <? length data then Some (<[i := Some c]> data) else None.

Definition ds_append_char (ds : DynString) (c : ascii) : option DynString :=
  data ← ds_data ds;
  let grow := ds_capacity ds <? ds_len ds + 2 in
  let capacity := if grow then ds_capacity ds * 2 else ds_capacity ds in
  let data := if grow then resize capacity None data else data in
  data ← poke (ds_len ds) c data;
  data ← poke (S (ds_len ds)) NUL data;
  Some (mkDynString (Some data) (S (ds_len ds)) capacity).

Definition ds_free (ds : DynString) : DynString := mkDynString None 0 0.

(** The C string at [data]; [None] if it is not one. *)
Fixpoint read_str (data : list (option ascii)) : option str :=
  match data with
  | [] => None
  | None :: _ => None
  | Some c :: data' => if bool_decide (c = NUL) then Some [] else cons c <$> read_str data'
  end.

(** The buffer holds [w]. *)
Definition ds_ok (ds : DynString) (w : str) : Prop :=
  exists data, ds_data ds = Some data /\ length data = ds_capacity ds /\
    ds_len ds = length w /\ ds_len ds < ds_capacity ds /\
    (forall i, i < ds_len ds -> data !! i = Some <$> w !! i) /\
    data !! ds_len ds = Some (Some NUL).

Lemma ds_init_ok : ds_ok ds_init [].
Proof.
  exists (Some NUL :: replicate 15 None). unfold ds_init. cbn.
  split_and!; try done; unfold DYNSTRING_DEFAULT_CAPACITY; intros; lia.
Qed.

Lemma poke_lookup i c data data' j : poke i c data = Some data' ->
  length data' = length data /\ data' !! j = if decide (j = i) then Some (Some c) else data !! j.
Proof.
  unfold poke. destruct (i <? length data) eqn:E; [|done]. bool_to_prop. intros [= <-].
  split; [apply length_insert|]. destruct (decide (j = i)) as [->|].
  - by apply list_lookup_insert_eq.
  - by apply list_lookup_insert_ne.
Qed.

Lemma ds_append_ok ds w c : ds_ok ds w ->
  exists ds', ds_append_char ds c = Some ds' /\ ds_ok ds' (w ++ [c]).
Proof.
  intros (data & Hd & Hcap & Hlen & Hlt & Hw & Hnul).
  unfold ds_append_char. rewrite Hd. simpl.
  set (grow := ds_capacity ds <? ds_len ds + 2).
  set (cap := if grow then ds_capacity ds * 2 else ds_capacity ds).
  set (data1 := if grow then resize cap None data else data).
  assert (Hcap1 : length data1 = cap /\ S (ds_len ds) < cap).
  { subst data1 cap grow. destruct (_ <? _) eqn:E; bool_to_prop; [rewrite length_resize|]; lia. }
  assert (Hkeep : forall i, i < ds_len ds -> data1 !! i = data !! i).
  { intros i Hi. subst data1. destruct grow; [|done]. rewrite lookup_resize by lia. done. }
  destruct Hcap1 as [Hl1 Hc1]. clearbody data1 cap grow.
  assert (Hp1 : exists d2, poke (ds_len ds) c data1 = Some d2).
  { unfold poke. rewrite Hl1. destruct (_ <? _) eqn:E; [eauto|bool_to_prop; lia]. }
  destruct Hp1 as [d2 Hp1]. rewrite Hp1. simpl.
  pose proof (fun j => proj2 (poke_lookup _ _ _ _ j Hp1)) as Hd2.
  destruct (poke_lookup _ _ _ _ 0 Hp1) as [Hl2 _].
  assert (Hp2 : exists d3, poke (S (ds_len ds)) NUL d2 = Some d3).
  { unfold poke. rewrite Hl2, Hl1. destruct (_ <? _) eqn:E; [eauto|bool_to_prop; lia]. }
  destruct Hp2 as [d3 Hp2]. rewrite Hp2. simpl.
  pose proof (fun j => proj2 (poke_lookup _ _ _ _ j Hp2)) as Hd3.
  destruct (poke_lookup _ _ _ _ 0 Hp2) as [Hl3 _].
  eexists. split; [done|]. exists d3. simpl. split_and!; [done|lia|rewrite length_app; simpl; lia|lia| |].
  - intros i Hi. rewrite Hd3, Hd2. destruct (decide (i = S (ds_len ds))); [lia|].
    destruct (decide (i = ds_len ds)) as [->|].
    + rewrite Hlen, list_lookup_middle; done.
    + rewrite Hkeep, Hw by lia. rewrite lookup_app_l by lia. done.
  - rewrite Hd3. by rewrite decide_True.
Qed.

Lemma read_str_spec data w : NUL ∉ w ->
  (forall i, i < length w -> data !! i = Some <$> w !! i) -> data !! length w = Some (Some NUL) ->
  read_str data = Some w.
Proof.
  revert data. induction w as [|c w IH]; intros [|x data] Hn Hw Hnul; try done; simpl in *.
  - by simplify_eq.
  - pose proof (Hw 0 ltac:(lia)) as H0. simplify_eq/=.
    rewrite bool_decide_false by set_solver. rewrite (IH data); [done|set_solver| |done].
    intros i Hi. apply (Hw (S i)). lia.
Qed.

Lemma ds_ok_str ds w : ds_ok ds w -> NUL ∉ w -> ds_data ds ≫= read_str = Some w.
Proof.
  intros (data & -> & _ & Hlen & _ & Hw & Hnul) Hn. simpl.
  apply read_str_spec; [done| |]; by rewrite <- Hlen.
Qed.

(** ** [lexer.c] *)

(** Success, the error return ([-1] or [NULL]), an access outside an object,
    and a loop that was given too little fuel. *)
Inductive lres (A : Type) := LOk (a : A) | LErr | LUndef | LFuel.

Arguments LOk {A} a.
Arguments LErr {A}.
Arguments LUndef {A}.
Arguments LFuel {A}.

(** Append [c] and go on. *)
Definition app_then {A} (out : DynString) (c : ascii) (k : DynString -> lres A) : lres A :=
  match ds_append_char out c with Some out' => k out' | None => LUndef end.

Definition SQUOTE : ascii := "'".
Definition BSLASH : ascii := "\".

(** The loop of [consume_single_quoted], behind the opening quote. *)
Fixpoint consume_single_quoted (line : str) (out : DynString) : lres (str * DynString) :=
  match line with
  | [] => LErr
  | c :: rest =>
      if bool_decide (c = SQUOTE) then LOk (rest, out) else
      if bool_decide (c = NUL) then LErr else
      app_then out c (fun out => consume_single_quoted rest out)
  end.

(** The loop of [consume_double_quoted], behind the opening quote. *)
Fixpoint consume_double_quoted (line : str) (out : DynString) : lres (str * DynString) :=
  match line with
  | [] => LErr
  | c :: rest =>
      if bool_decide (c = DQUOTE) then LOk (rest, out) else
      if bool_decide (c = NUL) then LErr else
      if bool_decide (c = BSLASH) then
        match rest with
        | [] => LErr
        | next :: rest' =>
            if bool_decide (next = NUL) then LErr else
            if (bool_decide (next = DQUOTE) || bool_decide (next = BSLASH))%bool then
              app_then out next (fun out => consume_double_quoted rest' out)
            else
              app_then out BSLASH (fun out =>
              app_then out next (fun out => consume_double_quoted rest' out))
        end
      else app_then out c (fun out => consume_double_quoted rest out)
  end.

(** Behind the backslash. *)
Definition consume_escape (line : str) (out : DynString) : lres (str * DynString) :=
  let c := hd0 line in
  if (bool_decide (c = NUL) || bool_decide (c = LF) || bool_decide (c = CR))%bool then LErr
  else app_then out c (fun out => LOk (tail line, out)).

Definition is_space (c : ascii) : bool :=
  bool_decide (c = " "%char) || bool_decide (c = TAB) || bool_decide (c = LF) || bool_decide (c = CR).

Definition is_operator (c : ascii) : bool :=
  bool_decide (c = "|"%char) || bool_decide (c = "&"%char) || bool_decide (c = ";"%char) ||
  bool_decide (c = "<"%char) || bool_decide (c = ">"%char).

(** The negation of the loop condition of [consume_word]. *)
Definition ends_word (c : ascii) : bool := bool_decide (c = NUL) || is_space c || is_operator c.

Fixpoint consume_word_loop (fuel : nat) (line : str) (ds : DynString) : lres (str * DynString) :=
  match fuel with
  | O => LFuel
  | S fuel' =>
      let c := hd0 line in
      if ends_word c then LOk (line, ds) else
      let r :=
        if bool_decide (c = SQUOTE) then consume_single_quoted (tail line) ds
        else if bool_decide (c = DQUOTE) then consume_double_quoted (tail line) ds
        else if bool_decide (c = BSLASH) then consume_escape (tail line) ds
        else app_then ds c (fun ds => LOk (tail line, ds)) in
      match r with
      | LOk (line', ds') => consume_word_loop fuel' line' ds'
      | LErr => LErr
      | LUndef => LUndef
      | LFuel => LFuel
      end
  end.

(** The word is the C string the returned [ds.data] points to. *)
Definition consume_word (fuel : nat) (line : str) : lres (str * str) :=
  match consume_word_loop fuel line ds_init with
  | LOk (line', ds) =>
      match ds_data ds ≫= read_str with Some w => LOk (line', w) | None => LUndef end
  | LErr => LErr
  | LUndef => LUndef
  | LFuel => LFuel
  end.

Definition operator_type (c : ascii) : TokenType :=
  if bool_decide (c = "|"%char) then TOK_PIPE else
  if bool_decide (c = "&"%char) then TOK_AMP else
  if bool_decide (c = ";"%char) then TOK_SEMI else
  if bool_decide (c = "<"%char) then TOK_LT else
  if bool_decide (c = ">"%char) then TOK_GT else TOK_WORD.

Definition consume_operator (line : str) : TokenType * str :=
  let c := hd0 line in
  if (bool_decide (c = ">"%char) && bool_decide (hd0 (tail line) = ">"%char))%bool
  then (TOK_GTGT, tail (tail line))
  else (operator_type c, tail line).

(** [tokens[n] = tok], growing the array first when it is full. *)
Definition push_token (tokens : list Token) (capacity : nat) (tok : Token) : option (list Token * nat) :=
  let n := length tokens in
  let capacity := if capacity <? n + 1 then capacity * 2 else capacity in
  if n <? capacity then Some (tokens ++ [tok], capacity) else None.

Fixpoint tokenize_loop (fuel : nat) (line : str) (tokens : list Token) (capacity : nat)
    : lres (list Token) :=
  match fuel with
  | O => LFuel
  | S fuel' =>
      let c := hd0 line in
      if bool_decide (c = NUL) then LOk tokens else
      if is_space c then tokenize_loop fuel' (tail line) tokens capacity else
      let r :=
        if is_operator c then
          let '(ty, line') := consume_operator line in LOk (line', mkToken ty None)
        else
          match consume_word fuel' line with
          | LOk (line', w) => LOk (line', mkToken TOK_WORD (Some w))
          | LErr => LErr
          | LUndef => LUndef
          | LFuel => LFuel
          end in
      match r with
      | LOk (line', tok) =>
          match push_token tokens capacity tok with
          | Some (tokens', capacity') => tokenize_loop fuel' line' tokens' capacity'
          | None => LUndef
          end
      | LErr => LErr
      | LUndef => LUndef
      | LFuel => LFuel
      end
  end.

(** Every iteration of the loops consumes a byte, so that [length line + 2] is
    fuel enough. *)
Definition lexer_tokenize (line : str) : lres (list Token) :=
  tokenize_loop (length line + 2) line [] 8.

Definition dq (s : string) : str := DQUOTE :: lit s ++ [DQUOTE].

Example tokenize_ex1 :
  lexer_tokenize (lit "ls -l|grep 'a b'>>out&" ++ [LF]) =
  LOk [mkToken TOK_WORD (Some (lit "ls")); mkToken TOK_WORD (Some (lit "-l")); mkToken TOK_PIPE None;
       mkToken TOK_WORD (Some (lit "grep")); mkToken TOK_WORD (Some (lit "a b")); mkToken TOK_GTGT None;
       mkToken TOK_WORD (Some (lit "out")); mkToken TOK_AMP None].
Proof. vm_compute. reflexivity. Qed.

Example tokenize_ex2 : lexer_tokenize (lit "echo 'abc") = LErr.
Proof. vm_compute. reflexivity. Qed.

(** ** What a line means

    The lexical grammar, independently of the buffer and the loops. *)

(** [dq_body src w]: between double quotes, [src] stands for [w]. *)
Inductive dq_body : str -> str -> Prop :=
| dq_nil : dq_body [] []
| dq_char c src w : c <> DQUOTE -> c <> BSLASH -> c <> NUL ->
    dq_body src w -> dq_body (c :: src) (c :: w)
| dq_escaped c src w : c = DQUOTE \/ c = BSLASH ->
    dq_body src w -> dq_body (BSLASH :: c :: src) (c :: w)
| dq_literal c src w : c <> DQUOTE -> c <> BSLASH -> c <> NUL ->
    dq_body src w -> dq_body (BSLASH :: c :: src) (BSLASH :: c :: w).

(** A byte that stands for itself outside quotes. *)
Definition plain (c : ascii) : Prop :=
  ends_word c = false /\ c <> SQUOTE /\ c <> DQUOTE /\ c <> BSLASH.

(** A piece of a word and what it contributes. *)
Inductive segment : str -> str -> Prop :=
| seg_plain c : plain c -> segment [c] [c]
| seg_escape c : c <> NUL -> c <> LF -> c <> CR -> segment [BSLASH; c] [c]
| seg_single q : SQUOTE ∉ q -> NUL ∉ q -> segment (SQUOTE :: q ++ [SQUOTE]) q
| seg_double src w : dq_body src w -> segment (DQUOTE :: src ++ [DQUOTE]) w.

(** Adjacent pieces form one word. *)
Inductive word_of : str -> str -> Prop :=
| word_nil : word_of [] []
| word_app src1 w1 src w : segment src1 w1 -> word_of src w -> word_of (src1 ++ src) (w1 ++ w).

Definition op (t : TokenType) : Token := mkToken t None.

Definition word (w : str) : Token := mkToken TOK_WORD (Some w).

(** The tokens of a line; longest match for [>>]. *)
Inductive lexes : str -> list Token -> Prop :=
| lexes_end line : hd0 line = NUL -> lexes line []
| lexes_space c line toks : is_space c = true -> lexes line toks -> lexes (c :: line) toks
| lexes_gtgt line toks : lexes line toks -> lexes (">"%char :: ">"%char :: line) (op TOK_GTGT :: toks)
| lexes_op c line toks : is_operator c = true -> (c = ">"%char -> hd0 line <> ">"%char) ->
    lexes line toks -> lexes (c :: line) (op (operator_type c) :: toks)
| lexes_word src w line toks : src <> [] -> word_of src w -> ends_word (hd0 line) = true ->
    lexes line toks -> lexes (src ++ line) (word w :: toks).

(** *** The pieces of a word *)

Lemma app_then_ok {A} out w c (k : DynString -> lres A) : ds_ok out w ->
  exists out', ds_ok out' (w ++ [c]) /\ app_then out c k = k out'.
Proof.
  intros H. destruct (ds_append_ok out w c H) as (out' & He & Hok).
  exists out'. split; [done|]. unfold app_then. by rewrite He.
Qed.

(** [r] fails, or reads a part [src] of [line] with [P src contributed]. *)
Definition reads (P : str -> str -> Prop) (line w : str) (r : lres (str * DynString)) : Prop :=
  r = LErr \/ exists src v rest out', r = LOk (rest, out') /\ line = src ++ rest /\ P src v /\
    ds_ok out' (w ++ v).

(** [reads] behind a first part. *)
Lemma reads_cons (P P' : str -> str -> Prop) src1 v1 line w r :
  (forall src v, P src v -> P' (src1 ++ src) (v1 ++ v)) ->
  reads P line (w ++ v1) r -> reads P' (src1 ++ line) w r.
Proof.
  intros HP [->|(src & v & rest & out' & -> & -> & Hp & Hok)]; [by left|].
  right. exists (src1 ++ src), (v1 ++ v), rest, out'. rewrite <- !app_assoc in *. eauto.
Qed.

Definition sq_part (src v : str) : Prop := src = v ++ [SQUOTE] /\ (SQUOTE ∉ v) /\ (NUL ∉ v).

Lemma single_quoted_reads line out w : ds_ok out w ->
  reads sq_part line w (consume_single_quoted line out).
Proof.
  revert out w. induction line as [|c line IH]; intros out w Hok; simpl; [by left|].
  destruct (bool_decide (c = SQUOTE)) eqn:E1; [|destruct (bool_decide (c = NUL)) eqn:E2; [by left|]].
  - apply bool_decide_eq_true in E1 as ->. right. exists [SQUOTE], [], line, out.
    rewrite app_nil_r. split_and!; [done|done| |done]. split_and!; [done|set_solver..].
  - destruct (app_then_ok out w c (fun out => consume_single_quoted line out) Hok) as (o & Ho & ->).
    apply bool_decide_eq_false in E1, E2.
    apply (reads_cons sq_part _ [c] [c]); [|by apply IH].
    intros src v (-> & ? & ?). split_and!; [done|set_solver..].
Qed.

Lemma single_quoted_complete q rest out w : SQUOTE ∉ q -> NUL ∉ q -> ds_ok out w ->
  exists out', consume_single_quoted (q ++ SQUOTE :: rest) out = LOk (rest, out') /\ ds_ok out' (w ++ q).
Proof.
  revert out w. induction q as [|c q IH]; intros out w H1 H2 Hok; simpl.
  - exists out. by rewrite app_nil_r.
  - rewrite !bool_decide_false by set_solver.
    destruct (app_then_ok out w c (fun out => consume_single_quoted (q ++ SQUOTE :: rest) out) Hok)
      as (o & Ho & ->).
    destruct (IH o (w ++ [c])) as (out' & He & Ho'); [set_solver..|done|].
    exists out'. by rewrite <- app_assoc in Ho'.
Qed.

Definition dq_part (src v : str) : Prop := exists body, src = body ++ [DQUOTE] /\ dq_body body v.

Lemma dq_part_cons src1 v1 : (forall body v, dq_body body v -> dq_body (src1 ++ body) (v1 ++ v)) ->
  forall src v, dq_part src v -> dq_part (src1 ++ src) (v1 ++ v).
Proof. intros H src v (body & -> & Hb). exists (src1 ++ body). rewrite app_assoc. eauto. Qed.

Lemma double_quoted_reads line out w : ds_ok out w ->
  reads dq_part line w (consume_double_quoted line out).
Proof.
  remember (length line) as n eqn:Hn. revert line out w Hn.
  induction n as [n IH] using lt_wf_ind. intros [|c line] out w -> Hok; simpl; [by left|].
  case_bool_decide as E1.
  { subst c. right. exists [DQUOTE], [], line, out. rewrite app_nil_r.
    split_and!; [done|done| |done]. exists []. by split; [|constructor]. }
  case_bool_decide as E2; [by left|]. case_bool_decide as E3.
  - subst c. destruct line as [|next rest]; [by left|]. case_bool_decide as E4; [by left|].
    destruct (bool_decide (next = DQUOTE) || bool_decide (next = BSLASH))%bool eqn:E5.
    + destruct (app_then_ok out w next (fun out => consume_double_quoted rest out) Hok) as (o & Ho & ->).
      apply (reads_cons dq_part _ [BSLASH; next] [next]); [|eapply IH; [|done|done]; simpl; lia].
      apply dq_part_cons. intros. apply dq_escaped; [|done].
      apply orb_true_iff in E5 as [E5|E5]; apply bool_decide_eq_true in E5; auto.
    + apply orb_false_iff in E5 as [E5 E6]. apply bool_decide_eq_false in E5, E6.
      match goal with |- context [app_then out BSLASH ?k] =>
        destruct (app_then_ok out w BSLASH k Hok) as (o & Ho & ->) end.
      destruct (app_then_ok o _ next (fun out => consume_double_quoted rest out) Ho) as (o' & Ho' & ->).
      rewrite <- app_assoc in Ho'.
      apply (reads_cons dq_part _ [BSLASH; next] [BSLASH; next]); [|eapply IH; [|done|done]; simpl; lia].
      apply dq_part_cons. intros. by apply dq_literal.
  - destruct (app_then_ok out w c (fun out => consume_double_quoted line out) Hok) as (o & Ho & ->).
    apply (reads_cons dq_part _ [c] [c]); [|eapply IH; [|done|done]; simpl; lia].
    apply dq_part_cons. intros. by apply dq_char.
Qed.

Lemma double_quoted_complete src v rest out w : dq_body src v -> ds_ok out w ->
  exists out', consume_double_quoted (src ++ DQUOTE :: rest) out = LOk (rest, out') /\
    ds_ok out' (w ++ v).
Proof.
  intros H. revert out w. induction H as [|c src v H1 H2 H3 H IH|c src v H1 H IH|c src v H1 H2 H3 H IH];
    intros out w Hok; simpl.
  - exists out. by rewrite app_nil_r.
  - rewrite !bool_decide_false by done.
    destruct (app_then_ok out w c (fun out => consume_double_quoted (src ++ DQUOTE :: rest) out) Hok)
      as (o & Ho & ->).
    destruct (IH o _ Ho) as (o' & -> & Ho'). exists o'. by rewrite <- app_assoc in Ho'.
  - rewrite (bool_decide_false (c = NUL)) by (by destruct H1 as [->| ->]).
    replace (bool_decide (c = DQUOTE) || bool_decide (c = BSLASH))%bool with true
      by (by destruct H1 as [->| ->]).
    destruct (app_then_ok out w c (fun out => consume_double_quoted (src ++ DQUOTE :: rest) out) Hok)
      as (o & Ho & ->).
    destruct (IH o _ Ho) as (o' & He & Ho'). exists o'. by rewrite <- app_assoc in Ho'.
  - rewrite (bool_decide_false (c = NUL)), (bool_decide_false (c = DQUOTE)),
      (bool_decide_false (c = BSLASH)) by done. simpl.
    match goal with |- context [app_then out BSLASH ?k] =>
      destruct (app_then_ok out w BSLASH k Hok) as (o & Ho & ->) end.
    destruct (app_then_ok o _ c (fun out => consume_double_quoted (src ++ DQUOTE :: rest) out) Ho)
      as (o1 & Ho1 & ->).
    destruct (IH o1 _ Ho1) as (o' & He & Ho'). exists o'. by rewrite <- !app_assoc in Ho'.
Qed.

(** *** Words *)

(** One iteration of [consume_word_loop] behind its condition. *)
Definition word_step (line : str) (ds : DynString) : lres (str * DynString) :=
  let c := hd0 line in
  if bool_decide (c = SQUOTE) then consume_single_quoted (tail line) ds
  else if bool_decide (c = DQUOTE) then consume_double_quoted (tail line) ds
  else if bool_decide (c = BSLASH) then consume_escape (tail line) ds
  else app_then ds c (fun ds => LOk (tail line, ds)).

Lemma not_ends_cons line : ends_word (hd0 line) = false -> exists c rest, line = c :: rest.
Proof. destruct line as [|c rest]; [done|eauto]. Qed.

Lemma word_step_reads line ds w : ends_word (hd0 line) = false -> ds_ok ds w ->
  reads segment line w (word_step line ds).
Proof.
  intros He Hok. destruct (not_ends_cons line He) as (c & rest & ->). unfold word_step. simpl in *.
  case_bool_decide as E1; [subst c|case_bool_decide as E2; [subst c|case_bool_decide as E3; [subst c|]]].
  - apply (reads_cons sq_part _ [SQUOTE] []); [|rewrite app_nil_r; by apply single_quoted_reads].
    intros src v (-> & ? & ?). by constructor.
  - apply (reads_cons dq_part _ [DQUOTE] []); [|rewrite app_nil_r; by apply double_quoted_reads].
    intros src v (body & -> & ?). by constructor.
  - unfold consume_escape. destruct rest as [|c rest]; simpl; [by left|].
    destruct (_ || _)%bool eqn:E; [by left|]. rewrite !orb_false_iff, !bool_decide_eq_false in E.
    destruct (app_then_ok ds w c (fun ds => LOk (rest, ds)) Hok) as (o & Ho & ->).
    right. exists [BSLASH; c], [c], rest, o. split_and!; try done. by apply seg_escape; apply E.
  - destruct (app_then_ok ds w c (fun ds => LOk (rest, ds)) Hok) as (o & Ho & ->).
    right. exists [c], [c], rest, o. split_and!; try done. by apply seg_plain.
Qed.

Lemma word_step_complete src v rest ds w : segment src v -> ds_ok ds w ->
  exists ds', word_step (src ++ rest) ds = LOk (rest, ds') /\ ds_ok ds' (w ++ v).
Proof.
  intros Hs Hok. destruct Hs as [c [Hc (H1 & H2 & H3)]|c H1 H2 H3|q H1 H2|src v H]; unfold word_step; simpl.
  - rewrite !bool_decide_false by done.
    destruct (app_then_ok ds w c (fun ds => LOk (rest, ds)) Hok) as (o & Ho & ->). eauto.
  - unfold consume_escape. simpl. rewrite !bool_decide_false by done. simpl.
    destruct (app_then_ok ds w c (fun ds => LOk (rest, ds)) Hok) as (o & Ho & ->). eauto.
  - rewrite <- app_assoc. simpl. by apply single_quoted_complete.
  - rewrite <- app_assoc. simpl. by apply double_quoted_complete.
Qed.

Lemma segment_starts src v rest : segment src v -> src <> [] /\ ends_word (hd0 (src ++ rest)) = false.
Proof. by intros [c [Hc _]|c H1 H2 H3|q H1 H2|src' v' H]. Qed.

Lemma dq_body_no_nul src v : dq_body src v -> NUL ∉ v.
Proof.
  induction 1 as [|c src v H1 H2 H3 H IH|c src v H1 H IH|c src v H1 H2 H3 H IH]; [by apply not_elem_of_nil|..].
  - apply not_elem_of_cons. auto.
  - apply not_elem_of_cons. split; [by destruct H1 as [->| ->]|done].
  - rewrite !not_elem_of_cons. auto.
Qed.

Lemma segment_no_nul src v : segment src v -> NUL ∉ v.
Proof.
  intros [c [Hc _]|c H1 H2 H3|q H1 H2|src' v' H]; [| |done|by eapply dq_body_no_nul].
  - intros <-%list_elem_of_singleton. done.
  - intros <-%list_elem_of_singleton. done.
Qed.

Lemma word_no_nul src v : word_of src v -> NUL ∉ v.
Proof.
  induction 1 as [|src1 w1 src w Hs Hw IH]; [by apply not_elem_of_nil|].
  apply not_elem_of_app. split; [by eapply segment_no_nul|done].
Qed.

Lemma word_loop_S fuel line ds : consume_word_loop (S fuel) line ds =
  if ends_word (hd0 line) then LOk (line, ds) else
  match word_step line ds with
  | LOk (line', ds') => consume_word_loop fuel line' ds'
  | LErr => LErr | LUndef => LUndef | LFuel => LFuel
  end.
Proof. reflexivity. Qed.

Lemma word_loop_reads fuel line ds w : length line < fuel -> ds_ok ds w ->
  consume_word_loop fuel line ds = LErr \/
  exists src v rest ds', consume_word_loop fuel line ds = LOk (rest, ds') /\ line = src ++ rest /\
    word_of src v /\ ends_word (hd0 rest) = true /\ ds_ok ds' (w ++ v).
Proof.
  revert line ds w. induction fuel as [|fuel IH]; intros line ds w Hf Hok; [lia|].
  rewrite word_loop_S. destruct (ends_word (hd0 line)) eqn:E.
  { right. exists [], [], line, ds. rewrite app_nil_r. split_and!; try done. constructor. }
  destruct (word_step_reads line ds w E Hok) as [->|(src & v & rest & o & -> & -> & Hs & Ho)]; [by left|].
  destruct (segment_starts src v rest Hs) as [Hne _].
  destruct (IH rest o (w ++ v)) as [->|(src' & v' & rest' & o' & -> & -> & Hw & Hend & Ho')];
    [rewrite length_app in Hf; destruct src; simpl in *; [done|lia]|done|by left|].
  right. exists (src ++ src'), (v ++ v'), rest', o'. rewrite <- !app_assoc in *.
  split_and!; try done. by constructor.
Qed.

Lemma word_loop_complete fuel src v rest ds w : word_of src v -> ends_word (hd0 rest) = true ->
  length src < fuel -> ds_ok ds w ->
  exists ds', consume_word_loop fuel (src ++ rest) ds = LOk (rest, ds') /\ ds_ok ds' (w ++ v).
Proof.
  intros H Hend. revert fuel ds w. induction H as [|src1 v1 src v Hs Hw IH]; intros fuel ds w Hf Hok;
    (destruct fuel as [|fuel]; [lia|]); rewrite word_loop_S.
  - simpl. rewrite Hend, app_nil_r. eauto.
  - rewrite <- app_assoc. destruct (segment_starts src1 v1 (src ++ rest) Hs) as [Hne ->].
    destruct (word_step_complete src1 v1 (src ++ rest) ds w Hs Hok) as (o & -> & Ho).
    destruct (IH fuel o (w ++ v1)) as (o' & He & Ho');
      [rewrite length_app in Hf; destruct src1; simpl in *; [done|lia]|done|].
    exists o'. by rewrite <- app_assoc in Ho'.
Qed.

Lemma consume_word_reads fuel line : length line < fuel ->
  consume_word fuel line = LErr \/
  exists src v rest, consume_word fuel line = LOk (rest, v) /\ line = src ++ rest /\ word_of src v /\
    ends_word (hd0 rest) = true.
Proof.
  intros Hf. unfold consume_word.
  destruct (word_loop_reads fuel line ds_init [] Hf ds_init_ok)
    as [->|(src & v & rest & ds & -> & -> & Hw & He & Hok)]; [by left|].
  right. exists src, v, rest. simpl in Hok. rewrite (ds_ok_str ds v); [done|done|by eapply word_no_nul].
Qed.

Lemma consume_word_complete fuel src v rest : word_of src v -> ends_word (hd0 rest) = true ->
  length src < fuel -> consume_word fuel (src ++ rest) = LOk (rest, v).
Proof.
  intros Hw He Hf. unfold consume_word.
  destruct (word_loop_complete fuel src v rest ds_init [] Hw He Hf ds_init_ok) as (ds & -> & Hok).
  simpl in Hok. rewrite (ds_ok_str ds v); [done|done|by eapply word_no_nul].
Qed.

(** *** Tokens *)

Lemma push_token_ok tokens capacity tok : length tokens <= capacity -> 0 < capacity ->
  exists capacity', push_token tokens capacity tok = Some (tokens ++ [tok], capacity') /\
    length (tokens ++ [tok]) <= capacity' /\ 0 < capacity'.
Proof.
  intros Hl Hc. unfold push_token. rewrite length_app. simpl.
  destruct (capacity <? length tokens + 1) eqn:E; bool_to_prop;
    (destruct (_ <? _) eqn:E2; bool_to_prop; [|lia]); eexists; (split; [done|lia]).
Qed.

(** The token at the start of [line], if that is not blank. *)
Definition next_token (fuel : nat) (line : str) : lres (str * Token) :=
  if is_operator (hd0 line) then
    let '(ty, line') := consume_operator line in LOk (line', mkToken ty None)
  else
    match consume_word fuel line with
    | LOk (line', w) => LOk (line', mkToken TOK_WORD (Some w))
    | LErr => LErr | LUndef => LUndef | LFuel => LFuel
    end.

Lemma tokenize_loop_S fuel line tokens capacity : tokenize_loop (S fuel) line tokens capacity =
  if bool_decide (hd0 line = NUL) then LOk tokens else
  if is_space (hd0 line) then tokenize_loop fuel (tail line) tokens capacity else
  match next_token fuel line with
  | LOk (line', tok) =>
      match push_token tokens capacity tok with
      | Some (tokens', capacity') => tokenize_loop fuel line' tokens' capacity'
      | None => LUndef
      end
  | LErr => LErr | LUndef => LUndef | LFuel => LFuel
  end.
Proof. reflexivity. Qed.

Lemma next_token_reads fuel line : length line < fuel -> hd0 line <> NUL -> is_space (hd0 line) = false ->
  next_token fuel line = LErr \/
  exists tok rest, next_token fuel line = LOk (rest, tok) /\ length rest < length line /\
    forall toks, lexes rest toks -> lexes line (tok :: toks).
Proof.
  intros Hf Hn Hs. destruct line as [|c line]; [done|]. simpl in Hn, Hs. unfold next_token.
  simpl hd0. destruct (is_operator c) eqn:Eo.
  - right. unfold consume_operator. simpl hd0. simpl tail.
    destruct (bool_decide (c = ">"%char)) eqn:E1; [apply bool_decide_eq_true in E1; subst c|]; simpl.
    + destruct line as [|c' line]; simpl; [|case_bool_decide as E2; [subst c'|]].
      * eexists _, _. split; [done|]. split; [simpl; lia|]. intros. by apply (lexes_op ">"%char).
      * eexists _, _. split; [done|]. split; [simpl; lia|]. intros. by apply lexes_gtgt.
      * eexists _, _. split; [done|]. split; [simpl; lia|]. intros. by apply (lexes_op ">"%char).
    + apply bool_decide_eq_false in E1.
      eexists _, _. split; [done|]. split; [simpl; lia|]. intros. by apply lexes_op.
  - destruct (consume_word_reads fuel (c :: line) Hf) as [->|(src & v & rest & -> & He & Hw & Hend)]; [by left|].
    assert (Hsrc : src <> []).
    { intros ->. simpl in He. subst rest. simpl in Hend. unfold ends_word in Hend.
      rewrite Hs, Eo in Hend. rewrite bool_decide_false in Hend by done. done. }
    right. eexists _, _. split; [done|]. rewrite He. split.
    + rewrite length_app. destruct src; [done|simpl; lia].
    + intros toks Ht. by apply (lexes_word src v).
Qed.

Lemma tokenize_loop_reads fuel line tokens capacity : length line + 1 < fuel ->
  length tokens <= capacity -> 0 < capacity ->
  tokenize_loop fuel line tokens capacity = LErr \/
  exists toks, tokenize_loop fuel line tokens capacity = LOk (tokens ++ toks) /\ lexes line toks.
Proof.
  revert line tokens capacity. induction fuel as [|fuel IH]; intros line tokens capacity Hf Hl Hc; [lia|].
  rewrite tokenize_loop_S. case_bool_decide as E1.
  { right. exists []. rewrite app_nil_r. split; [done|]. by constructor. }
  destruct (is_space (hd0 line)) eqn:E2.
  - destruct line as [|c line]; [done|]. simpl in *.
    destruct (IH line tokens capacity) as [->|(toks & -> & Ht)]; [lia..|by left|].
    right. exists toks. split; [done|]. by constructor.
  - destruct (next_token_reads fuel line) as [->|(tok & rest & -> & Hlt & Hlex)]; [lia|done..|by left|].
    destruct (push_token_ok tokens capacity tok Hl Hc) as (cap' & -> & Hl' & Hc').
    destruct (IH rest (tokens ++ [tok]) cap') as [->|(toks & -> & Ht)]; [lia..|by left|].
    right. exists (tok :: toks). rewrite <- app_assoc. split; [done|]. by apply Hlex.
Qed.

Lemma tokenize_loop_complete fuel line toks tokens capacity : lexes line toks ->
  length line + 1 < fuel -> length tokens <= capacity -> 0 < capacity ->
  tokenize_loop fuel line tokens capacity = LOk (tokens ++ toks).
Proof.
  intros H. revert fuel tokens capacity.
  induction H as [line H|c line toks Hs H IH|line toks H IH|c line toks Ho Hg H IH
                 |src w line toks Hne Hw He H IH]; intros fuel tokens capacity Hf Hl Hc;
    (destruct fuel as [|fuel]; [lia|]); rewrite tokenize_loop_S.
  - by rewrite bool_decide_true, app_nil_r.
  - simpl in *. rewrite bool_decide_false by (intros ->; done). rewrite Hs. apply IH; lia.
  - simpl in Hf. rewrite bool_decide_false by done. simpl is_space. cbv iota.
    replace (next_token fuel (">"%char :: ">"%char :: line)) with (LOk (line, op TOK_GTGT)) by done.
    destruct (push_token_ok tokens capacity (op TOK_GTGT) Hl Hc) as (cap' & -> & Hl' & Hc').
    rewrite IH; [by rewrite <- app_assoc|lia..].
  - simpl in *. rewrite bool_decide_false by (intros ->; done).
    replace (is_space c) with false.
    2: { unfold is_operator in Ho. rewrite !orb_true_iff, !bool_decide_eq_true in Ho. naive_solver. }
    assert (Hn : next_token fuel (c :: line) = LOk (line, op (operator_type c))).
    { unfold next_token. simpl hd0. rewrite Ho. unfold consume_operator. simpl.
      case_bool_decide as E1; simpl; [|done]. by rewrite bool_decide_false by auto. }
    rewrite Hn. destruct (push_token_ok tokens capacity (op (operator_type c)) Hl Hc) as (cap' & -> & Hl' & Hc').
    rewrite IH; [by rewrite <- app_assoc|lia..].
  - destruct Hw as [|src1 w1 src w Hs Hw]; [done|]. rewrite <- !app_assoc in *.
    destruct (segment_starts src1 w1 (src ++ line) Hs) as [Hne1 Hst].
    pose proof Hst as Hst'. unfold ends_word in Hst'. rewrite !orb_false_iff in Hst'.
    destruct Hst' as [[Hst1 Hst2] Hst3]. rewrite Hst1, Hst2. unfold next_token. rewrite Hst3.
    rewrite !length_app in Hf. rewrite (app_assoc src1 src line).
    rewrite (consume_word_complete fuel (src1 ++ src) (w1 ++ w) line);
      [|by constructor|done|rewrite length_app; lia].
    destruct (push_token_ok tokens capacity (mkToken TOK_WORD (Some (w1 ++ w))) Hl Hc) as (cap' & -> & Hl' & Hc').
    rewrite IH; [by rewrite <- app_assoc| |lia..].
    destruct src1; [done|]. simpl in Hf. lia.
Qed.

(** C22.  The lexer implements its grammar: it is total and stays inside its
    buffers for every line, it succeeds with exactly the tokens the grammar
    gives the line, and it reports an error exactly for the lines the grammar
    rejects (an open quote or an escape of nothing). *)
Theorem lexer_implements_grammar line :
  (exists toks, lexer_tokenize line = LOk toks /\ forall toks', lexes line toks' <-> toks' = toks) \/
  (lexer_tokenize line = LErr /\ forall toks, ~ lexes line toks).
Proof.
  unfold lexer_tokenize.
  assert (Hc : forall toks, lexes line toks ->
    tokenize_loop (length line + 2) line [] 8 = LOk ([] ++ toks)).
  { intros toks H. apply tokenize_loop_complete; simpl; [done|lia..]. }
  destruct (tokenize_loop_reads (length line + 2) line [] 8) as [He|(toks & He & Ht)]; simpl; [lia..| |].
  - right. split; [done|]. intros toks H. rewrite (Hc toks H) in He. done.
  - left. exists toks. split; [done|]. intros toks'. split; [|by intros ->].
    intros H. rewrite (Hc toks' H) in He. by simplify_eq/=.
Qed.

(** ** Round trip *)

(** Quote [w] the way a careful user does: in single quotes, with each single
    quote inside written as [quote backslash quote quote]. *)
Fixpoint quote_body (w : str) : str :=
  match w with
  | [] => [SQUOTE]
  | c :: w' => if bool_decide (c = SQUOTE)
               then SQUOTE :: BSLASH :: SQUOTE :: SQUOTE :: quote_body w'
               else c :: quote_body w'
  end.

Definition quote (w : str) : str := SQUOTE :: quote_body w.

Definition show_token (t : Token) : str :=
  match value t with
  | Some w => quote w
  | None => match type t with
            | TOK_PIPE => lit "|" | TOK_AMP => lit "&" | TOK_SEMI => lit ";" | TOK_LT => lit "<"
            | TOK_GT => lit ">" | TOK_GTGT => lit ">>" | TOK_WORD => []
            end
  end.

Definition show_tokens (ts : list Token) : str := concat (map (fun t => show_token t ++ [" "%char]) ts).

(** A token the lexer can produce. *)
Definition token_ok (t : Token) : Prop :=
  match value t with
  | Some w => type t = TOK_WORD /\ NUL ∉ w
  | None => type t <> TOK_WORD
  end.

Lemma quote_body_spec w pre : NUL ∉ w -> SQUOTE ∉ pre -> NUL ∉ pre ->
  word_of (SQUOTE :: pre ++ quote_body w) (pre ++ w).
Proof.
  revert pre. induction w as [|c w IH]; intros pre Hn Hp Hnp; simpl.
  - rewrite app_nil_r. rewrite <- (app_nil_r (SQUOTE :: _)). rewrite <- (app_nil_r pre) at 2.
    constructor; [by constructor|constructor].
  - apply not_elem_of_cons in Hn as [Hc Hn]. case_bool_decide as E.
    + subst c.
      replace (SQUOTE :: pre ++ SQUOTE :: BSLASH :: SQUOTE :: SQUOTE :: quote_body w)
        with ((SQUOTE :: pre ++ [SQUOTE]) ++ ([BSLASH; SQUOTE] ++ (SQUOTE :: [] ++ quote_body w)))
        by (by simpl; rewrite <- app_assoc).
      constructor; [by constructor|].
      change (SQUOTE :: w) with ([SQUOTE] ++ ([] ++ w)).
      constructor; [by constructor|]. apply IH; [done|apply not_elem_of_nil..].
    + replace (pre ++ c :: quote_body w) with ((pre ++ [c]) ++ quote_body w) by by rewrite <- app_assoc.
      replace (pre ++ c :: w) with ((pre ++ [c]) ++ w) by by rewrite <- app_assoc.
      apply IH; [done|..]; apply not_elem_of_app; (split; [done|]);
        intros ?%list_elem_of_singleton; congruence.
Qed.

Lemma quote_spec w : NUL ∉ w -> word_of (quote w) w.
Proof. intros H. apply (quote_body_spec w []); [done|apply not_elem_of_nil..]. Qed.

Lemma show_tokens_lexes ts : Forall token_ok ts -> lexes (show_tokens ts) ts.
Proof.
  induction 1 as [|[ty v] ts Hok H IH]; [by constructor|].
  unfold show_tokens in *. simpl. rewrite <- app_assoc. simpl.
  assert (Hs : lexes (" "%char :: concat (map (fun t => show_token t ++ [" "%char]) ts)) ts)
    by by constructor.
  unfold token_ok in Hok. simpl in Hok. unfold show_token at 1. simpl. destruct v as [w|].
  - destruct Hok as [-> Hn]. apply (lexes_word (quote w) w); [done|by apply quote_spec|done|done].
  - destruct ty; [done|by apply (lexes_op "|"%char)|by apply (lexes_op "&"%char)|by apply (lexes_op ";"%char)
                 |by apply (lexes_op "<"%char)|by apply (lexes_op ">"%char)|by apply lexes_gtgt].
Qed.

(** C36.  Quoting and lexing are inverse: any list of tokens whose words hold
    no NUL comes back from the lexer when each word is written in quotes. *)
Theorem lexer_roundtrip ts : Forall token_ok ts -> lexer_tokenize (show_tokens ts) = LOk ts.
Proof.
  intros H. apply (tokenize_loop_complete _ _ ts [] 8); [by apply show_tokens_lexes|simpl; lia..].
Qed.
