(* ===== verification/Parser.v ===== *)
(** * The parser: [parser.c]

    [parser_validate] is a finite automaton over the token types; the theorem
    is that it accepts the shell's grammar. *)

From stdpp Require Import base list strings.
From Stdlib Require Import ZArith Lia Ascii.
From S2P Require Import Prelude ShellBase.

Inductive ParserState := STATE_LINE | STATE_ARG | STATE_NEED_WORD | STATE_BG.

(** One iteration of the loop; [None] is [return 0]. *)
Definition parser_step (st : ParserState) (t : TokenType) : option ParserState :=
  match st with
  | STATE_LINE => match t with TOK_WORD => Some STATE_ARG | _ => None end
  | STATE_ARG =>
      match t with
      | TOK_WORD => Some STATE_ARG
      | TOK_LT | TOK_GT | TOK_GTGT | TOK_PIPE | TOK_SEMI => Some STATE_NEED_WORD
      | TOK_AMP => Some STATE_BG
      end
  | STATE_NEED_WORD => match t with TOK_WORD => Some STATE_ARG | _ => None end
  | STATE_BG => match t with TOK_WORD => Some STATE_ARG | _ => None end
  end.

Fixpoint parser_loop (st : ParserState) (tokens : list Token) : option ParserState :=
  match tokens with
  | [] => Some st
  | tok :: tokens' => st' ← parser_step st (type tok); parser_loop st' tokens'
  end.

Definition parser_validate (tokens : list Token) : bool :=
  match parser_loop STATE_LINE tokens with
  | Some (STATE_LINE | STATE_ARG | STATE_BG) => true
  | _ => false
  end.

(** ** The grammar *)

Definition redirection (t : TokenType) : Prop := t = TOK_LT \/ t = TOK_GT \/ t = TOK_GTGT.

(** The arguments and redirections behind a command name. *)
Inductive args : list TokenType -> Prop :=
| args_nil : args []
| args_word ts : args ts -> args (TOK_WORD :: ts)
| args_redir t ts : redirection t -> args ts -> args (t :: TOK_WORD :: ts).

Inductive command : list TokenType -> Prop :=
| command_intro ts : args ts -> command (TOK_WORD :: ts).

Inductive pipeline : list TokenType -> Prop :=
| pipeline_one c : command c -> pipeline c
| pipeline_more c p : command c -> pipeline p -> pipeline (c ++ TOK_PIPE :: p).

(** Pipelines separated by [;] and [&]; only [&] may end the list. *)
Inductive cmd_list : list TokenType -> Prop :=
| list_one p : pipeline p -> cmd_list p
| list_amp_end p : pipeline p -> cmd_list (p ++ [TOK_AMP])
| list_semi p l : pipeline p -> cmd_list l -> cmd_list (p ++ TOK_SEMI :: l)
| list_amp p l : pipeline p -> cmd_list l -> cmd_list (p ++ TOK_AMP :: l).

Definition line_ok (ts : list TokenType) : Prop := ts = [] \/ cmd_list ts.

(** *** The automaton on types *)

Fixpoint accepts (st : ParserState) (ts : list TokenType) : bool :=
  match ts with
  | [] => match st with STATE_NEED_WORD => false | _ => true end
  | t :: ts' => match parser_step st t with Some st' => accepts st' ts' | None => false end
  end.

Lemma parser_accepts tokens : parser_validate tokens = accepts STATE_LINE (map type tokens).
Proof.
  unfold parser_validate. generalize STATE_LINE. induction tokens as [|tok tokens IH]; intros st; simpl.
  - by destruct st.
  - destruct (parser_step st (type tok)) as [st'|]; [apply IH|done].
Qed.

Lemma accepts_args a ts : args a -> accepts STATE_ARG (a ++ ts) = accepts STATE_ARG ts.
Proof. induction 1 as [|a H IH|t a Hr H IH]; [done|done|]. by destruct Hr as [->|[->| ->]]. Qed.

Lemma accepts_command c ts st : st <> STATE_ARG -> command c ->
  accepts st (c ++ ts) = accepts STATE_ARG ts.
Proof. intros Hst [a H]. destruct st; try done; simpl; by apply accepts_args. Qed.

Lemma accepts_pipeline p ts st : st <> STATE_ARG -> pipeline p ->
  accepts st (p ++ ts) = accepts STATE_ARG ts.
Proof.
  intros Hst H. revert st Hst. induction H as [c Hc|c p Hc Hp IH]; intros st Hst.
  - by apply accepts_command.
  - rewrite <- app_assoc, accepts_command by done. simpl. by apply IH.
Qed.

Lemma accepts_list l st : st <> STATE_ARG -> cmd_list l -> accepts st l = true.
Proof.
  intros Hst H. revert st Hst. induction H as [p Hp|p Hp|p l Hp Hl IH|p l Hp Hl IH]; intros st Hst.
  - rewrite <- (app_nil_r p). by rewrite accepts_pipeline.
  - by rewrite accepts_pipeline.
  - rewrite accepts_pipeline by done. simpl. by apply IH.
  - rewrite accepts_pipeline by done. simpl. by apply IH.
Qed.

Lemma args_app a b : args a -> args b -> args (a ++ b).
Proof. induction 1; intros; simpl; [done|constructor; auto..]. Qed.

(** More arguments for the first command. *)
Lemma pipeline_args a ts : args a -> pipeline (TOK_WORD :: ts) -> pipeline (TOK_WORD :: a ++ ts).
Proof.
  intros Ha H. inversion H as [c Hc E|c p Hc Hp E]; subst.
  - inversion Hc; subst. apply pipeline_one. constructor. by apply args_app.
  - inversion Hc as [b Hb E']; subst. simpl in E. injection E as <-. rewrite app_assoc.
    apply (pipeline_more (TOK_WORD :: a ++ b)); [|done]. constructor. by apply args_app.
Qed.

Lemma pipeline_starts p : pipeline p -> exists ts, p = TOK_WORD :: ts.
Proof. by intros [c [a H]|c p' [a H] Hp]; simpl; eexists. Qed.

Lemma list_args a ts : args a -> cmd_list (TOK_WORD :: ts) -> cmd_list (TOK_WORD :: a ++ ts).
Proof.
  intros Ha H. inversion H as [p Hp E|p Hp E|p l Hp Hl E|p l Hp Hl E]; subst.
  - apply list_one. by apply pipeline_args.
  - destruct (pipeline_starts p Hp) as [b ->]. simpl in E. injection E as <-. rewrite app_assoc.
    apply (list_amp_end (TOK_WORD :: a ++ b)). by apply pipeline_args.
  - destruct (pipeline_starts p Hp) as [b ->]. simpl in E. injection E as <-. rewrite app_assoc.
    apply (list_semi (TOK_WORD :: a ++ b)); [by apply pipeline_args|done].
  - destruct (pipeline_starts p Hp) as [b ->]. simpl in E. injection E as <-. rewrite app_assoc.
    apply (list_amp (TOK_WORD :: a ++ b)); [by apply pipeline_args|done].
Qed.

Lemma word_command : command [TOK_WORD].
Proof. constructor. constructor. Qed.

Lemma word_pipeline : pipeline [TOK_WORD].
Proof. constructor. apply word_command. Qed.

Lemma list_pipe l : cmd_list l -> cmd_list (TOK_WORD :: TOK_PIPE :: l).
Proof.
  change (TOK_WORD :: TOK_PIPE :: l) with ([TOK_WORD] ++ TOK_PIPE :: l).
  assert (Hp : forall p, pipeline p -> pipeline ([TOK_WORD] ++ TOK_PIPE :: p))
    by (intros; apply pipeline_more; [apply word_command|done]).
  intros [p H|p H|p l' H Hl|p l' H Hl].
  - apply list_one. by apply Hp.
  - apply (list_amp_end ([TOK_WORD] ++ TOK_PIPE :: p)). by apply Hp.
  - apply (list_semi ([TOK_WORD] ++ TOK_PIPE :: p)); [by apply Hp|done].
  - apply (list_amp ([TOK_WORD] ++ TOK_PIPE :: p)); [by apply Hp|done].
Qed.

(** What the automaton accepts behind a word completes a list. *)
Lemma accepts_arg_list ts : accepts STATE_ARG ts = true -> cmd_list (TOK_WORD :: ts).
Proof.
  remember (length ts) as n eqn:Hn. revert ts Hn. induction n as [n IH] using lt_wf_ind.
  intros [|t ts] -> H; [apply list_one, word_pipeline|].
  assert (Hneed : forall ts', (length ts' < length (t :: ts))%nat -> accepts STATE_NEED_WORD ts' = true ->
            exists r, ts' = TOK_WORD :: r /\ cmd_list (TOK_WORD :: r)).
  { intros [|[] r] Hl Ha; simpl in *; try done. exists r. split; [done|].
    apply (IH (length r)); [lia|done|done]. }
  destruct t; simpl in H.
  - apply (list_args [TOK_WORD] ts); [repeat constructor|]. by apply (IH (length ts)); [simpl; lia|..].
  - destruct (Hneed ts) as (r & -> & Hr); [simpl; lia|done|]. by apply list_pipe.
  - destruct ts as [|[] r]; try done; [apply (list_amp_end [TOK_WORD]), word_pipeline|].
    apply (list_amp [TOK_WORD]); [apply word_pipeline|]. by apply (IH (length r)); [simpl; lia|..].
  - destruct (Hneed ts) as (r & -> & Hr); [simpl; lia|done|].
    by apply (list_semi [TOK_WORD]); [apply word_pipeline|].
  - destruct (Hneed ts) as (r & -> & Hr); [simpl; lia|done|].
    apply (list_args [TOK_LT; TOK_WORD] r); [|done]. constructor; [by left|constructor].
  - destruct (Hneed ts) as (r & -> & Hr); [simpl; lia|done|].
    apply (list_args [TOK_GT; TOK_WORD] r); [|done]. constructor; [by right; left|constructor].
  - destruct (Hneed ts) as (r & -> & Hr); [simpl; lia|done|].
    apply (list_args [TOK_GTGT; TOK_WORD] r); [|done]. constructor; [by right; right|constructor].
Qed.

Lemma validate_iff tokens : parser_validate tokens = true <-> line_ok (map type tokens).
Proof.
  rewrite parser_accepts. split.
  - destruct (map type tokens) as [|t ts]; [by left|]. intros H. right.
    destruct t; try done. by apply accepts_arg_list.
  - intros [->|H]; [done|]. by apply accepts_list.
Qed.

(** C23.  The parser accepts exactly the token sequences of the grammar:
    nothing, or pipelines separated by [;] or [&], with an optional [&] at the
    end, where every redirection names a file and every command has a name. *)
Theorem parser_accepts_grammar tokens :
  parser_validate tokens = true <-> line_ok (map type tokens).
Proof. apply validate_iff. Qed.
