(* ===== verification/Command.v ===== *)
(** * From tokens to commands: [executor.c], [sequence.c] and [bg_exec.c]

    How a line is cut at [;], [&] and [|], how the pieces are run, and how a
    group of tokens becomes an array of [SingleCommand]s.  Running a group is
    the parameter [execute_group] here; [Executor.v] gives it. *)

From stdpp Require Import base list sets strings.
From Stdlib Require Import ZArith Lia Ascii.
From S2P Require Import Prelude ShellBase Lexer Parser.

Open Scope Z_scope.

(** The tokens before the first one of type [t], and the rest from it on: the
    inner [while] of both loops. *)
Fixpoint span (t : TokenType) (tokens : list Token) : list Token * list Token :=
  match tokens with
  | [] => ([], [])
  | tok :: tokens' =>
      if is_tok t tok then ([], tokens)
      else let '(a, b) := span t tokens' in (tok :: a, b)
  end.

Section Run.

Variable execute_group : list Token -> bool -> prog Z.

(** The loop of [sequence_run]; [run] is [executor_run]. *)
Fixpoint sequence_loop (fuel : nat) (run : list Token -> prog Z) (tokens : list Token) : prog Z :=
  match tokens with
  | [] => Ret 0
  | _ :: _ =>
      match fuel with
      | O => NoFuel
      | S fuel' =>
          let '(group, rest) := span TOK_SEMI tokens in
          let next := sequence_loop fuel' run (tail rest) in
          match group with
          | [] => next
          | _ :: _ => do* ret := run group in if negb (ret =? 0) then Ret ret else next
          end
      end
  end.

Definition sequence_run (run : list Token -> prog Z) (tokens : list Token) : prog Z :=
  sequence_loop (length tokens) run tokens.

Fixpoint bg_loop (fuel : nat) (tokens : list Token) : prog Z :=
  match tokens with
  | [] => Ret 0
  | _ :: _ =>
      match fuel with
      | O => NoFuel
      | S fuel' =>
          let '(group, rest) := span TOK_AMP tokens in
          let next := bg_loop fuel' (tail rest) in
          match group, rest with
          | _ :: _, _ :: _ => execute_group group true ;;; next
          | _ :: _, [] => execute_group group false ;;; next
          | [], _ => next
          end
      end
  end.

Definition bg_run (tokens : list Token) : prog Z := bg_loop (length tokens) tokens.

(** [fuel] bounds the nesting of [executor_run] and [sequence_run]. *)
Fixpoint executor_run (fuel : nat) (tokens : list Token) : prog Z :=
  match fuel with
  | O => NoFuel
  | S fuel' =>
      match tokens with
      | [] => Ret 0
      | _ :: _ =>
          if existsb (is_tok TOK_SEMI) tokens then sequence_run (executor_run fuel') tokens
          else if existsb (is_tok TOK_AMP) tokens then bg_run tokens
          else execute_group tokens false
      end
  end.

(** ** What [executor_run] does

    The reference: cut at [;], then at [&], drop the empty pieces. *)

Fixpoint split_on (t : TokenType) (tokens : list Token) : list (list Token) :=
  match tokens with
  | [] => [[]]
  | tok :: tokens' =>
      if is_tok t tok then [] :: split_on t tokens'
      else match split_on t tokens' with
           | [] => [[tok]]
           | g :: gs => (tok :: g) :: gs
           end
  end.

(** The pieces of a part without [;], each with whether it is a background one. *)
Fixpoint mark_bg (gs : list (list Token)) : list (list Token * bool) :=
  match gs with
  | [] => []
  | [g] => [(g, false)]
  | g :: gs' => (g, true) :: mark_bg gs'
  end.

Definition nonempty {A} (l : list A) : bool := match l with [] => false | _ => true end.

Definition bg_groups (tokens : list Token) : list (list Token * bool) :=
  List.filter (fun '(g, _) => nonempty g) (mark_bg (split_on TOK_AMP tokens)).

(** A part without [&] yields the value of its only group, one with [&] 0. *)
Definition run_part (part : list Token) : prog Z :=
  if existsb (is_tok TOK_AMP) part
  then foldr (fun '(g, bg) m => execute_group g bg ;;; m) (Ret 0) (bg_groups part)
  else execute_group part false.

(** The parts are run in order up to the first that fails. *)
Fixpoint run_parts (parts : list (list Token)) : prog Z :=
  match parts with
  | [] => Ret 0
  | p :: ps => do* ret := run_part p in if negb (ret =? 0) then Ret ret else run_parts ps
  end.

Definition semi_parts (tokens : list Token) : list (list Token) :=
  List.filter nonempty (split_on TOK_SEMI tokens).

Definition run_line (tokens : list Token) : prog Z :=
  if existsb (is_tok TOK_SEMI) tokens then run_parts (semi_parts tokens)
  else match tokens with [] => Ret 0 | _ => run_part tokens end.

Lemma span_split t tokens :
  let '(group, rest) := span t tokens in
  (rest = [] -> split_on t tokens = [group]) /\
  (rest <> [] -> split_on t tokens = group :: split_on t (tail rest)) /\
  length tokens = (length group + length rest)%nat /\ existsb (is_tok t) group = false.
Proof.
  induction tokens as [|tok tokens IH]; simpl; [done|].
  destruct (is_tok t tok) eqn:E; simpl; [by split_and!|].
  destruct (span t tokens) as [g r]. simpl. rewrite E. simpl.
  destruct IH as (H1 & H2 & H3 & H4). split_and!; [|..|lia|done].
  - intros Hr. by rewrite H1.
  - intros Hr. by rewrite H2.
Qed.

Lemma split_on_none t tokens : existsb (is_tok t) tokens = false -> split_on t tokens = [tokens].
Proof.
  induction tokens as [|tok tokens IH]; simpl; [done|]. intros [H1 H2]%orb_false_iff.
  by rewrite H1, IH.
Qed.

Lemma split_on_nonempty t tokens : split_on t tokens <> [].
Proof.
  destruct tokens as [|tok tokens]; [done|]. simpl. destruct (is_tok t tok); [done|].
  by destruct (split_on t tokens).
Qed.

Lemma sequence_loop_spec fuel run tokens : (length tokens <= fuel)%nat ->
  (forall g, g <> [] -> existsb (is_tok TOK_SEMI) g = false -> peq (run g) (run_part g)) ->
  peq (sequence_loop fuel run tokens) (run_parts (semi_parts tokens)).
Proof.
  intros Hf Hrun. revert tokens Hf. induction fuel as [|fuel IH]; intros [|tok tokens] Hf; simpl in Hf;
    [done|lia|done|].
  cbn [sequence_loop]. pose proof (span_split TOK_SEMI (tok :: tokens)) as Hs.
  destruct (span TOK_SEMI (tok :: tokens)) as [g r]. destruct Hs as (H1 & H2 & H3 & H4).
  assert (Hsplit : semi_parts (tok :: tokens) =
                   (if nonempty g then [g] else []) ++ semi_parts (tail r)).
  { unfold semi_parts. destruct r as [|t r]; [rewrite H1 by done | rewrite H2 by done]; simpl;
      by destruct (nonempty g). }
  assert (Hlen : (length (tail r) <= fuel)%nat).
  { simpl in H3. destruct g, r; simpl in *; try lia. }
  specialize (IH (tail r) Hlen). rewrite Hsplit. destruct g as [|t0 g]; [exact IH|]. simpl.
  rewrite (Hrun (t0 :: g)) by done. apply pbind_proper; [done|]. intros ret. by destruct (negb _).
Qed.

Lemma bg_loop_spec fuel tokens : (length tokens <= fuel)%nat ->
  bg_loop fuel tokens =
  foldr (fun '(g, bg) m => execute_group g bg ;;; m) (Ret 0) (bg_groups tokens).
Proof.
  revert tokens. induction fuel as [|fuel IH]; intros [|tok tokens] Hf; simpl in Hf; [done|lia|done|].
  cbn [bg_loop]. pose proof (span_split TOK_AMP (tok :: tokens)) as Hs.
  destruct (span TOK_AMP (tok :: tokens)) as [g r]. destruct Hs as (H1 & H2 & H3 & H4).
  unfold bg_groups. destruct r as [|t r].
  - rewrite H1 by done. simpl. destruct g as [|t0 g]; simpl; by rewrite IH by (simpl; lia).
  - rewrite H2 by done. simpl tail. simpl in H3.
    assert (Hm : mark_bg (g :: split_on TOK_AMP r) = (g, true) :: mark_bg (split_on TOK_AMP r)).
    { pose proof (split_on_nonempty TOK_AMP r). simpl. by destruct (split_on TOK_AMP r). }
    rewrite Hm. simpl. destruct g as [|t0 g]; simpl; by rewrite IH by (simpl; lia).
Qed.

Lemma executor_run_flat fuel g : g <> [] -> existsb (is_tok TOK_SEMI) g = false ->
  executor_run (S fuel) g = run_part g.
Proof.
  intros Hne Hs. destruct g as [|tok g]; [done|]. cbn [executor_run]. rewrite Hs.
  unfold run_part, bg_run. destruct (existsb (is_tok TOK_AMP) (tok :: g)); [|done].
  by rewrite bg_loop_spec by done.
Qed.

Lemma executor_run_line fuel tokens : peq (executor_run (S (S fuel)) tokens) (run_line tokens).
Proof.
  unfold run_line. destruct tokens as [|tok tokens]; [done|].
  destruct (existsb (is_tok TOK_SEMI) (tok :: tokens)) eqn:E.
  - cbn [executor_run]. rewrite E. apply sequence_loop_spec; [done|].
    intros g Hne Hg. change (peq (executor_run (S fuel) g) (run_part g)).
    by rewrite executor_run_flat.
  - by rewrite executor_run_flat.
Qed.

(** C28.  A line is cut at [;] and each part at [&]: the parts are run in
    order until one returns a failure, the groups in front of an [&] in the
    background, the last one in the foreground. The recursion of
    [executor_run] and [sequence_run] is never deeper than two. *)
Theorem executor_runs_line fuel tokens :
  (2 <= fuel)%nat -> peq (executor_run fuel tokens) (run_line tokens).
Proof. destruct fuel as [|[|fuel]]; [lia|lia|]. intros _. apply executor_run_line. Qed.

End Run.

(** ** Commands of a group: the first half of [executor_execute_group] *)

(** [num_cmds] *)
Definition count_cmds (tokens : list Token) : nat :=
  S (length (List.filter (is_tok TOK_PIPE) tokens)).

Definition empty_cmd : SingleCommand := mkSingleCommand [] [] [].

(** [cmds[idx]...] changed by [f]; [None] outside the array or when [f] fails. *)
Definition upd_cmd (idx : nat) (f : SingleCommand -> option SingleCommand)
    (cmds : list SingleCommand) : option (list SingleCommand) :=
  c ← cmds !! idx; c' ← f c; Some (<[idx := c']> cmds).

(** The three arrays of a command have room for [cap] entries. *)
Definition add_arg (cap : nat) (w : str) (c : SingleCommand) : option SingleCommand :=
  if (length (argv c) <? cap)%nat
  then Some (mkSingleCommand (argv c ++ [w]) (input_files c) (output_files c)) else None.

Definition add_input (cap : nat) (w : str) (c : SingleCommand) : option SingleCommand :=
  if (length (input_files c) <? cap)%nat
  then Some (mkSingleCommand (argv c) (input_files c ++ [w]) (output_files c)) else None.

Definition add_output (cap : nat) (append : bool) (w : str) (c : SingleCommand) : option SingleCommand :=
  if (length (output_files c) <? cap)%nat
  then Some (mkSingleCommand (argv c) (input_files c) (output_files c ++ [mkOutputRedir w append]))
  else None.

(** [argv[argc] = NULL] *)
Definition end_argv (cap : nat) (c : SingleCommand) : option SingleCommand :=
  if (length (argv c) <? cap)%nat then Some c else None.

(** The name behind a redirection, if there is one. *)
Definition redir_target (rest : list Token) : option str :=
  match rest with tok :: _ => if is_tok TOK_WORD tok then value tok else None | [] => None end.

(** The loop over the tokens.  A [TOK_WORD] always has a [value]. *)
Fixpoint fill_cmds (cap : nat) (tokens : list Token) (skip : bool) (cmds : list SingleCommand)
    (cmd_idx : nat) : option (list SingleCommand) :=
  match tokens with
  | [] => upd_cmd cmd_idx (end_argv cap) cmds
  | tok :: rest =>
      if skip then fill_cmds cap rest false cmds cmd_idx else
      match type tok with
      | TOK_PIPE =>
          cmds ← upd_cmd cmd_idx (end_argv cap) cmds;
          fill_cmds cap rest false cmds (S cmd_idx)
      | TOK_LT =>
          match redir_target rest with
          | Some w => cmds ← upd_cmd cmd_idx (add_input cap w) cmds; fill_cmds cap rest true cmds cmd_idx
          | None => fill_cmds cap rest false cmds cmd_idx
          end
      | TOK_GT =>
          match redir_target rest with
          | Some w => cmds ← upd_cmd cmd_idx (add_output cap false w) cmds;
                      fill_cmds cap rest true cmds cmd_idx
          | None => fill_cmds cap rest false cmds cmd_idx
          end
      | TOK_GTGT =>
          match redir_target rest with
          | Some w => cmds ← upd_cmd cmd_idx (add_output cap true w) cmds;
                      fill_cmds cap rest true cmds cmd_idx
          | None => fill_cmds cap rest false cmds cmd_idx
          end
      | TOK_WORD =>
          w ← value tok;
          cmds ← upd_cmd cmd_idx (add_arg cap w) cmds;
          fill_cmds cap rest false cmds cmd_idx
      | TOK_AMP | TOK_SEMI => fill_cmds cap rest false cmds cmd_idx
      end
  end.

Definition group_commands (tokens : list Token) : option (list SingleCommand) :=
  fill_cmds (length tokens + 1) tokens false (replicate (count_cmds tokens) empty_cmd) 0.

(** *** The reference: split at the pipes, then read each command *)

Fixpoint add_tokens (tokens : list Token) (skip : bool) (c : SingleCommand) : SingleCommand :=
  match tokens with
  | [] => c
  | tok :: rest =>
      if skip then add_tokens rest false c else
      let out b w := mkSingleCommand (argv c) (input_files c) (output_files c ++ [mkOutputRedir w b]) in
      match type tok, value tok, redir_target rest with
      | TOK_WORD, Some w, _ =>
          add_tokens rest false (mkSingleCommand (argv c ++ [w]) (input_files c) (output_files c))
      | TOK_LT, _, Some w =>
          add_tokens rest true (mkSingleCommand (argv c) (input_files c ++ [w]) (output_files c))
      | TOK_GT, _, Some w => add_tokens rest true (out false w)
      | TOK_GTGT, _, Some w => add_tokens rest true (out true w)
      | _, _, _ => add_tokens rest false c
      end
  end.

Definition command_of (tokens : list Token) : SingleCommand := add_tokens tokens false empty_cmd.

(** Entries in the three arrays. *)
Definition cmd_size (c : SingleCommand) : nat :=
  (length (argv c) + length (input_files c) + length (output_files c))%nat.

Lemma upd_cmd_at (pre suf : list SingleCommand) c c' f : f c = Some c' ->
  upd_cmd (length pre) f (pre ++ c :: suf) = Some (pre ++ c' :: suf).
Proof.
  intros Hf. unfold upd_cmd. rewrite list_lookup_middle by done. simpl. rewrite Hf. simpl.
  rewrite insert_app_r_alt by done. by rewrite Nat.sub_diag.
Qed.

Lemma count_cmds_cons tok tokens :
  count_cmds (tok :: tokens) = ((if is_tok TOK_PIPE tok then 1 else 0) + count_cmds tokens)%nat.
Proof. unfold count_cmds. simpl. by destruct (is_tok TOK_PIPE tok). Qed.

Lemma redir_target_split tokens g gs : split_on TOK_PIPE tokens = g :: gs ->
  redir_target g = redir_target tokens.
Proof.
  destruct tokens as [|tok tokens]; simpl; [by intros [= <- <-]|].
  destruct (is_tok TOK_PIPE tok) eqn:E; [intros [= <- <-]|destruct (split_on TOK_PIPE tokens); intros [= <- <-]];
    simpl; try done.
  unfold is_tok in *. apply bool_decide_eq_true in E. by rewrite E.
Qed.

Lemma redir_target_word rest w : redir_target rest = Some w ->
  exists tok rest', rest = tok :: rest' /\ type tok = TOK_WORD.
Proof.
  destruct rest as [|tok rest]; simpl; [done|]. unfold is_tok. case_bool_decide; [eauto|done].
Qed.

Definition room (cap : nat) (c : SingleCommand) : Prop := (cmd_size c < cap)%nat.

Lemma room_ok cap c w b : room cap c ->
  end_argv cap c = Some c /\
  add_arg cap w c = Some (mkSingleCommand (argv c ++ [w]) (input_files c) (output_files c)) /\
  add_input cap w c = Some (mkSingleCommand (argv c) (input_files c ++ [w]) (output_files c)) /\
  add_output cap b w c =
    Some (mkSingleCommand (argv c) (input_files c) (output_files c ++ [mkOutputRedir w b])).
Proof.
  unfold room, cmd_size, end_argv, add_arg, add_input, add_output. intros H.
  rewrite !(proj2 (Nat.ltb_lt _ _)) by lia. done.
Qed.

(** One step of the induction below. *)
Definition fill_from (cap : nat) (tokens : list Token) (skip : bool) (pre : list SingleCommand)
    (c : SingleCommand) : option (list SingleCommand) :=
  fill_cmds cap tokens skip (pre ++ c :: replicate (count_cmds tokens - 1) empty_cmd) (length pre).

Lemma fill_from_pipe cap tok rest pre c : type tok = TOK_PIPE -> room cap c ->
  fill_from cap (tok :: rest) false pre c = fill_from cap rest false (pre ++ [c]) empty_cmd.
Proof.
  intros Ht Hr. unfold fill_from. rewrite count_cmds_cons. unfold is_tok.
  rewrite bool_decide_true by done. simpl. rewrite Ht.
  destruct (room_ok cap c [] false Hr) as [He _]. rewrite (upd_cmd_at _ _ c c) by done. simpl.
  rewrite length_app, <- app_assoc. simpl. unfold count_cmds. simpl.
  by rewrite Nat.sub_0_r, Nat.add_comm.
Qed.

Lemma fill_from_other cap tok rest pre c : type tok <> TOK_PIPE -> room cap c ->
  token_ok tok ->
  fill_from cap (tok :: rest) false pre c =
  match type tok, value tok, redir_target rest with
  | TOK_WORD, Some w, _ =>
      fill_from cap rest false pre (mkSingleCommand (argv c ++ [w]) (input_files c) (output_files c))
  | TOK_LT, _, Some w =>
      fill_from cap rest true pre (mkSingleCommand (argv c) (input_files c ++ [w]) (output_files c))
  | TOK_GT, _, Some w => fill_from cap rest true pre
      (mkSingleCommand (argv c) (input_files c) (output_files c ++ [mkOutputRedir w false]))
  | TOK_GTGT, _, Some w => fill_from cap rest true pre
      (mkSingleCommand (argv c) (input_files c) (output_files c ++ [mkOutputRedir w true]))
  | _, _, _ => fill_from cap rest false pre c
  end.
Proof.
  intros Ht Hr Hok. unfold fill_from. rewrite count_cmds_cons. unfold is_tok.
  rewrite bool_decide_false by done. simpl. unfold token_ok in Hok.
  destruct (value tok) as [v|] eqn:Ev.
  - destruct Hok as [-> _]. simpl.
    destruct (room_ok cap c v false Hr) as (_ & Ha & _). by rewrite (upd_cmd_at _ _ _ _ _ Ha).
  - destruct (type tok) eqn:E; try done; destruct (redir_target rest) as [v|]; try done.
    + destruct (room_ok cap c v false Hr) as (_ & _ & Ha & _). by rewrite (upd_cmd_at _ _ _ _ _ Ha).
    + destruct (room_ok cap c v false Hr) as (_ & _ & _ & Ha). by rewrite (upd_cmd_at _ _ _ _ _ Ha).
    + destruct (room_ok cap c v true Hr) as (_ & _ & _ & Ha). by rewrite (upd_cmd_at _ _ _ _ _ Ha).
Qed.

(** Filling from the command [c] at [length pre] on. *)
Lemma fill_cmds_spec cap tokens skip pre c g gs :
  Forall token_ok tokens -> (cmd_size c + length tokens < cap)%nat ->
  (skip = true -> exists tok rest, tokens = tok :: rest /\ type tok = TOK_WORD) ->
  split_on TOK_PIPE tokens = g :: gs ->
  fill_from cap tokens skip pre c = Some (pre ++ add_tokens g skip c :: map command_of gs).
Proof.
  revert skip pre c g gs. induction tokens as [|tok rest IH]; intros skip pre c g gs Hok Hcap Hskip Hsp.
  { destruct skip; [by destruct (Hskip eq_refl) as (? & ? & ? & _)|]. simpl in Hsp. simplify_eq.
    apply upd_cmd_at. apply (room_ok cap c [] false). unfold room. simpl in Hcap. lia. }
  apply Forall_cons in Hok as [Ht Hok]. simpl in Hcap.
  destruct (split_on TOK_PIPE rest) as [|g' gs'] eqn:Hr; [by destruct (split_on_nonempty TOK_PIPE rest)|].
  simpl in Hsp. rewrite Hr in Hsp. destruct skip.
  - destruct (Hskip eq_refl) as (? & ? & [= <- <-] & Hw). unfold is_tok in Hsp.
    rewrite bool_decide_false in Hsp by congruence. simplify_eq.
    specialize (IH false pre c g' gs Hok ltac:(lia) ltac:(done) eq_refl).
    unfold fill_from in *. rewrite count_cmds_cons. unfold is_tok.
    rewrite bool_decide_false by congruence. exact IH.
  - assert (Hroom : room cap c) by (unfold room; lia).
    destruct (decide (type tok = TOK_PIPE)) as [Hp|Hp].
    + unfold is_tok in Hsp. rewrite bool_decide_true in Hsp by done. simplify_eq.
      rewrite fill_from_pipe by done.
      rewrite (IH false _ _ g' gs'); [|done|simpl; lia|done|done]. by rewrite <- app_assoc.
    + unfold is_tok in Hsp. rewrite bool_decide_false in Hsp by done. simplify_eq.
      rewrite fill_from_other by done. simpl add_tokens.
      rewrite (redir_target_split rest g' gs Hr).
      destruct (type tok) eqn:E; try done;
        destruct (value tok) as [v|], (redir_target rest) as [v'|] eqn:Er;
        apply IH; try done; unfold cmd_size in *; simpl; rewrite ?length_app; simpl; try lia;
        intros _; by eapply redir_target_word.
Qed.

Lemma group_commands_eq tokens : Forall token_ok tokens ->
  group_commands tokens = Some (map command_of (split_on TOK_PIPE tokens)).
Proof.
  intros Hok. pose proof (split_on_nonempty TOK_PIPE tokens) as Hne.
  destruct (split_on TOK_PIPE tokens) as [|g gs] eqn:E; [done|].
  transitivity (fill_from (length tokens + 1) tokens false [] empty_cmd).
  { unfold group_commands, fill_from, count_cmds. simpl. by rewrite Nat.sub_0_r. }
  apply (fill_cmds_spec _ tokens false [] empty_cmd g gs); [done|simpl; lia|done|done].
Qed.

(** The array-filling loop of [executor_execute_group] never writes
    outside its arrays and computes what splitting the group at [|] and
    reading each piece gives. *)
Theorem group_commands_split tokens : Forall token_ok tokens ->
  group_commands tokens = Some (map command_of (split_on TOK_PIPE tokens)).
Proof. apply group_commands_eq. Qed.

(** ** Lines the parser has accepted *)

(** The groups [run_line] runs, in order. *)
Definition all_groups (tokens : list Token) : list (list Token * bool) :=
  List.concat (map bg_groups (split_on TOK_SEMI tokens)).

Lemma split_on_app t a x b : existsb (is_tok t) a = false -> is_tok t x = true ->
  split_on t (a ++ x :: b) = a :: split_on t b.
Proof.
  intros Ha Hx. induction a as [|y a IH]; simpl in *; [by rewrite Hx|].
  apply orb_false_iff in Ha as [Hy Ha]. by rewrite Hy, IH.
Qed.

(** A prefix without [t] joins the first piece. *)
Lemma split_on_prefix t a b : existsb (is_tok t) a = false ->
  exists g gs, split_on t b = g :: gs /\ split_on t (a ++ b) = (a ++ g) :: gs.
Proof.
  intros Ha. destruct (split_on t b) as [|g gs] eqn:E; [by destruct (split_on_nonempty t b)|].
  exists g, gs. split; [done|]. induction a as [|y a IH]; simpl in *; [done|].
  apply orb_false_iff in Ha as [Hy Ha]. by rewrite Hy, IH.
Qed.

Lemma no_tok t ts tokens : map type tokens = ts -> t ∉ ts -> existsb (is_tok t) tokens = false.
Proof.
  intros <-. induction tokens as [|tok tokens IH]; intros H; simpl in *; [done|].
  apply not_elem_of_cons in H as [H1 H2]. unfold is_tok at 1. rewrite bool_decide_false by congruence.
  by apply IH.
Qed.

Lemma args_no t a : args a -> t = TOK_SEMI \/ t = TOK_AMP \/ t = TOK_PIPE -> t ∉ a.
Proof.
  intros H Ht. induction H as [|ts H IH|t' ts Hr H IH]; rewrite ?not_elem_of_cons;
    [apply not_elem_of_nil|naive_solver|destruct Hr as [->|[->| ->]]; naive_solver].
Qed.

Lemma pipeline_no t p : pipeline p -> t = TOK_SEMI \/ t = TOK_AMP -> t ∉ p.
Proof.
  intros H Ht. assert (Ht' : t = TOK_SEMI \/ t = TOK_AMP \/ t = TOK_PIPE) by naive_solver.
  induction H as [c [a Ha]|c p [a Ha] Hp IH]; pose proof (args_no t a Ha Ht');
    simpl; rewrite ?not_elem_of_cons, ?not_elem_of_app, ?not_elem_of_cons; naive_solver.
Qed.

Lemma bg_groups_one a : a <> [] -> existsb (is_tok TOK_AMP) a = false -> bg_groups a = [(a, false)].
Proof. intros Hne H. unfold bg_groups. rewrite split_on_none by done. by destruct a. Qed.

Lemma bg_groups_amp a x b : a <> [] -> existsb (is_tok TOK_AMP) a = false -> is_tok TOK_AMP x = true ->
  bg_groups (a ++ x :: b) = (a, true) :: bg_groups b.
Proof.
  intros Hne Ha Hx. unfold bg_groups. rewrite split_on_app by done.
  pose proof (split_on_nonempty TOK_AMP b). destruct (split_on TOK_AMP b) eqn:E; [done|].
  by destruct a.
Qed.

(** A list of the grammar is cut into its pipelines. *)
Lemma groups_are_pipelines ts tokens : cmd_list ts -> map type tokens = ts ->
  Forall (fun gb => pipeline (map type (fst gb))) (all_groups tokens).
Proof.
  intros H. revert tokens. unfold all_groups.
  assert (Hp : forall a, pipeline (map type a) ->
    a <> [] /\ existsb (is_tok TOK_SEMI) a = false /\ existsb (is_tok TOK_AMP) a = false).
  { intros a Ha. split_and!.
    - destruct (pipeline_starts _ Ha) as [x Hx]. by destruct a.
    - eapply no_tok; [done|]. apply pipeline_no; auto.
    - eapply no_tok; [done|]. apply pipeline_no; auto. }
  induction H as [p H|p H|p l H Hl IH|p l H Hl IH]; intros tokens E.
  - subst p. destruct (Hp tokens H) as (Hne & Hs & Ha).
    rewrite split_on_none by done. simpl. rewrite app_nil_r, bg_groups_one by done. by apply Forall_singleton.
  - apply map_eq_app in E as (a & b & -> & <- & E). destruct b as [|x [|]]; try done.
    simplify_eq/=. destruct (Hp a H) as (Hne & Hs & Ha).
    assert (Hx : is_tok TOK_SEMI x = false /\ is_tok TOK_AMP x = true)
      by (unfold is_tok; split; [apply bool_decide_eq_false; congruence|by apply bool_decide_eq_true]).
    destruct Hx as [Hx1 Hx2]. rewrite split_on_none by (rewrite existsb_app; simpl; by rewrite Hs, Hx1).
    simpl. rewrite app_nil_r, bg_groups_amp by done. by apply Forall_singleton.
  - apply map_eq_app in E as (a & b & -> & <- & E). destruct b as [|x b]; try done.
    simplify_eq/=. destruct (Hp a H) as (Hne & Hs & Ha).
    rewrite split_on_app by (try done; unfold is_tok; by apply bool_decide_eq_true).
    simpl. rewrite bg_groups_one by done. constructor; [done|]. by apply IH.
  - apply map_eq_app in E as (a & b & -> & <- & E). destruct b as [|x b]; try done.
    simplify_eq/=. destruct (Hp a H) as (Hne & Hs & Ha).
    assert (Hx : is_tok TOK_SEMI x = false /\ is_tok TOK_AMP x = true)
      by (unfold is_tok; split; [apply bool_decide_eq_false; congruence|by apply bool_decide_eq_true]).
    destruct Hx as [Hx1 Hx2].
    destruct (split_on_prefix TOK_SEMI (a ++ [x]) b) as (g & gs & E1 & E2);
      [rewrite existsb_app; simpl; by rewrite Hs, Hx1|].
    rewrite <- app_assoc in E2. simpl in E2. rewrite E2. simpl. rewrite <- app_assoc. simpl.
    rewrite bg_groups_amp by done. specialize (IH b eq_refl). rewrite E1 in IH. simpl in *.
    by constructor.
Qed.

(** The pieces of a pipeline are commands. *)
Lemma pipeline_pieces p tokens : pipeline p -> map type tokens = p ->
  Forall (fun g => command (map type g)) (split_on TOK_PIPE tokens).
Proof.
  intros H. revert tokens. induction H as [c Hc|c p Hc Hp IH]; intros tokens E.
  - rewrite split_on_none; [apply Forall_singleton; by rewrite E|].
    eapply no_tok; [exact E|]. destruct Hc as [a Ha]. rewrite not_elem_of_cons. split; [done|]. apply args_no; auto.
  - apply map_eq_app in E as (a & b & -> & <- & E). destruct b as [|x b]; try done. simplify_eq/=.
    rewrite split_on_app; [by constructor; [|apply IH]| |unfold is_tok; by apply bool_decide_eq_true].
    eapply no_tok; [done|]. inversion Hc as [b' Hb E']. rewrite not_elem_of_cons. split; [done|].
    apply args_no; auto.
Qed.

Lemma add_tokens_argv tokens skip c : argv c <> [] -> argv (add_tokens tokens skip c) <> [].
Proof.
  revert skip c. induction tokens as [|tok rest IH]; intros skip c Hc; simpl; [done|].
  destruct skip; [by apply IH|].
  destruct (type tok), (value tok), (redir_target rest); apply IH; simpl; try done;
    by destruct (argv c).
Qed.

Lemma command_has_name g : Forall token_ok g -> command (map type g) -> argv (command_of g) <> [].
Proof.
  intros Hok H. inversion H as [a Ha E]. destruct g as [|tok g]; [done|]. simpl in E.
  apply Forall_cons in Hok as [Ht _]. injection E as Et _. unfold token_ok in Ht.
  destruct (value tok) as [v|] eqn:Ev; [|congruence].
  unfold command_of. simpl. rewrite <- Et, Ev. by apply add_tokens_argv.
Qed.

(** Every token of a piece is a token of the line. *)
Lemma split_on_tokens (P : Token -> Prop) t tokens : Forall P tokens -> Forall (Forall P) (split_on t tokens).
Proof.
  induction 1 as [|tok tokens H Hs IH]; simpl; [by repeat constructor|].
  destruct (is_tok t tok); [by constructor|]. destruct (split_on t tokens) as [|g gs]; [by repeat constructor|].
  apply Forall_cons in IH as [Hg Hgs]. by repeat constructor.
Qed.

Lemma bg_groups_tokens (P : Token -> Prop) tokens : Forall P tokens ->
  Forall (fun gb => Forall P (fst gb)) (bg_groups tokens).
Proof.
  intros H. apply (split_on_tokens P TOK_AMP) in H. unfold bg_groups.
  induction (split_on TOK_AMP tokens) as [|g [|g' gs] IH]; simpl; [constructor|..].
  - apply Forall_cons in H as [H _]. destruct (nonempty g); by repeat constructor.
  - apply Forall_cons in H as [Hg Hgs]. specialize (IH Hgs). simpl in IH.
    destruct (nonempty g); [by constructor|done].
Qed.

Lemma all_groups_tokens (P : Token -> Prop) tokens : Forall P tokens ->
  Forall (fun gb => Forall P (fst gb)) (all_groups tokens).
Proof.
  intros H. apply (split_on_tokens P TOK_SEMI) in H. unfold all_groups.
  induction H as [|g gs Hg Hgs IH]; simpl; [constructor|].
  apply Forall_app. split; [by apply bg_groups_tokens|done].
Qed.

(** After the parser has accepted a line, every group that is executed
    consists of commands with at least a name: no command is empty and every
    redirection has found its file. *)
Theorem accepted_groups_are_commands tokens g bg :
  Forall token_ok tokens -> parser_validate tokens = true -> (g, bg) ∈ all_groups tokens ->
  pipeline (map type g) /\
  exists cmds, group_commands g = Some cmds /\ cmds <> [] /\ Forall (fun c => argv c <> []) cmds.
Proof.
  intros Hok Hv Hg. apply validate_iff in Hv as [Hv|Hv].
  { destruct tokens; [|done]. by apply not_elem_of_nil in Hg. }
  pose proof (groups_are_pipelines _ tokens Hv eq_refl) as Hp.
  pose proof (all_groups_tokens token_ok tokens Hok) as Ht.
  rewrite Forall_forall in Hp, Ht. specialize (Hp _ Hg). specialize (Ht _ Hg). simpl in Hp, Ht.
  split; [done|]. rewrite group_commands_eq by done. eexists. split; [done|]. split.
  - pose proof (split_on_nonempty TOK_PIPE g). by destruct (split_on TOK_PIPE g).
  - pose proof (pipeline_pieces _ g Hp eq_refl) as Hc.
    pose proof (split_on_tokens token_ok TOK_PIPE g Ht) as Hs.
    apply Forall_map. rewrite Forall_forall in *. intros x Hx.
    apply command_has_name; auto.
Qed.
