(* ===== verification/Jobs.v ===== *)
(** * Jobs and the terminal: [term_control.c] and [activities.c]

    The job table, the SIGCHLD handler, the sweep that reaps children, and the
    decision of Ctrl-D.  A [Job *] is an index into [g_jobs]. *)

From stdpp Require Import base list gmap sets strings.
From Stdlib Require Import ZArith Lia Ascii.
From S2P Require Import Prelude ShellBase.

Open Scope Z_scope.

(** ** [term_control.c] *)

(** [g_jobs[i]] read and written; outside the array the program crashes. *)
Definition getj (i : nat) : prog Job :=
  do* g := call Get in
  match g_jobs g !! i with Some j => Ret j | None => Crash end.

Definition setj (i : nat) (f : Job -> Job) : prog unit :=
  do* g := call Get in
  match g_jobs g !! i with
  | Some j => call (Put (set_jobs (<[i := f j]> (g_jobs g)) g))
  | None => Crash
  end.

Definition zero_job : Job := mkJob 0 0 [] JOB_RUNNING false [].

Definition term_control_init : prog unit :=
  modg (set_jobs (replicate MAX_JOBS zero_job)) ;;;
  do* pg := call Getpgrp in
  modg (set_shell_pgid pg) ;;;
  call (Signal SIGINT SIG_IGN) ;;;
  call (Signal SIGTSTP SIG_IGN) ;;;
  call (Signal SIGTTOU SIG_IGN) ;;;
  call (Signal SIGTTIN SIG_IGN) ;;;
  call (Signal SIGCHLD (SIG_HANDLER "sigchld_handler")).

Definition term_give_to_pgid (pg : Z) : prog unit :=
  do* tty := call (Isatty STDIN_FILENO) in
  pwhen (tty && (0 <? pg))%bool (call (Tcsetpgrp STDIN_FILENO pg)).

Definition term_reclaim : prog unit :=
  do* tty := call (Isatty STDIN_FILENO) in
  do* g := call Get in
  pwhen (tty && (0 <? g_shell_pgid g))%bool (call (Tcsetpgrp STDIN_FILENO (g_shell_pgid g))).

Definition term_get_shell_pgid : prog Z := getg g_shell_pgid.

Definition term_block_sigchld : prog unit := call (BlockSigchld true).

Definition term_unblock_sigchld : prog unit := call (BlockSigchld false).

(** [strncpy(dst, src, n - 1); dst[n - 1] = 0], read as a string. *)
Definition copy_str (n : nat) (src : str) : str := take (n - 1) src.

Definition new_job (num pg : Z) (line : option str) (st : JobState) : Job :=
  mkJob num pg (match line with Some l => copy_str 512 l | None => [] end) st true [].

Definition job_add (pg : Z) (line : option str) (st : JobState) : prog (option nat) :=
  do* g := call Get in
  match list_find (fun j => active j = false) (g_jobs g) with
  | Some (i, _) =>
      call (Put (set_next_job_num (g_next_job_num g + 1)
                   (set_jobs (<[i := new_job (g_next_job_num g) pg line st]> (g_jobs g)) g))) ;;;
      Ret (Some i)
  | None => Ret None
  end.

Definition proc_name (name : option str) : str :=
  match name with
  | None => lit "?"
  | Some n => match n with "%"%char :: n' => n' | _ => n end
  end.

Definition job_add_proc (job : option nat) (pid : Z) (name : option str) : prog unit :=
  match job with
  | None => Ret tt
  | Some i =>
      do* j := getj i in
      if (MAX_PROCS_PER_JOB <=? length (procs j))%nat then Ret tt
      else setj i (set_procs (procs j ++ [mkJobProc pid (copy_str 128 (proc_name name)) false]))
  end.

Definition find_number (n : Z) (jobs : list Job) : option (nat * Job) :=
  list_find (fun j => active j = true /\ job_number j = n) jobs.

Definition job_get_by_number (n : Z) : prog (option nat) :=
  getg (fun g => fst <$> find_number n (g_jobs g)).

Definition job_get_by_pgid (pg : Z) : prog (option nat) :=
  getg (fun g => fst <$> list_find (fun j => active j = true /\ pgid j = pg) (g_jobs g)).

(** The index of [pid] among the processes of a job. *)
Definition proc_index (pid : Z) (j : Job) : option nat :=
  fst <$> list_find (fun p => jp_pid p = pid) (procs j).

Definition find_pid (pid : Z) (jobs : list Job) : option (nat * nat) :=
  '(i, j) ← list_find (fun j => active j = true /\ proc_index pid j <> None) jobs;
  p ← proc_index pid j;
  Some (i, p).

(** The job, and what is stored through [proc_idx]. *)
Definition job_get_by_pid (pid : Z) : prog (option (nat * nat)) :=
  getg (fun g => find_pid pid (g_jobs g)).

Definition job_remove (n : Z) : prog unit :=
  do* r := job_get_by_number n in
  match r with Some i => setj i (set_active false) | None => Ret tt end.

Definition mark_exited (p : nat) (j : Job) : Job := set_procs (alter (set_exited true) p (procs j)) j.

Definition all_exited (j : Job) : bool := forallb exited (procs j).

Definition exit_message (name : str) (pid : Z) (normal : bool) : str :=
  name ++ lit " with pid " ++ dec pid ++ lit (if normal then " exited normally" else " exited abnormally") ++ [LF].

Definition exited_ok (w : wstatus) : bool := match w with WExited 0 => true | _ => false end.

(** What the handler does about one child. *)
Definition reap_child (pid : Z) (w : wstatus) : prog unit :=
  do* r := job_get_by_pid pid in
  match r with
  | None => Ret tt
  | Some (i, p) =>
      match w with
      | WStopped _ => setj i (set_state JOB_STOPPED)
      | WContinued => setj i (set_state JOB_RUNNING)
      | WExited _ | WSignaled _ =>
          setj i (mark_exited p) ;;;
          do* j := getj i in
          printf (exit_message (default [] (cmd_name <$> procs j !! p)) pid (exited_ok w)) ;;;
          pwhen (all_exited j) (setj i (set_active false))
      end
  end.

(** [while ((pid = waitpid(-1, ...)) > 0)], at most [fuel] children. *)
Fixpoint sigchld_handler (fuel : nat) : prog unit :=
  match fuel with
  | O => NoFuel
  | S fuel' =>
      do* r := call (Waitpid (-1) W_POLL) in
      let '(pid, w, _) := r in
      if 0 <? pid then reap_child pid w ;;; sigchld_handler fuel' else Ret tt
  end.

(** The body of the inner loop of [job_sweep]; [all] is [all_exited]. *)
Definition sweep_proc (i p : nat) (all : bool) : prog bool :=
  do* j := getj i in
  match procs j !! p with
  | None => Crash
  | Some pr =>
      if exited pr then Ret all else
      do* r := call (Waitpid (jp_pid pr) W_POLL) in
      let '(res, w, _) := r in
      if 0 <? res then
        match w with
        | WStopped _ => setj i (set_state JOB_STOPPED) ;;; Ret false
        | WContinued => setj i (set_state JOB_RUNNING) ;;; Ret false
        | WExited _ | WSignaled _ => setj i (mark_exited p) ;;; Ret all
        end
      else if res =? 0 then Ret false
      else setj i (mark_exited p) ;;; Ret all
  end.

Fixpoint sweep_procs (i n p : nat) (all : bool) : prog bool :=
  match n with
  | O => Ret all
  | S n' => do* all' := sweep_proc i p all in sweep_procs i n' (S p) all'
  end.

Definition sweep_job (i : nat) : prog unit :=
  do* j := getj i in
  if negb (active j) then Ret tt else
  do* all := sweep_procs i (length (procs j)) 0 true in
  pwhen all (setj i (set_active false)).

Definition job_sweep : prog unit := pfor (seq 0 MAX_JOBS) sweep_job.

Definition is_stopped (j : Job) : bool := (active j && bool_decide (state j = JOB_STOPPED))%bool.

Definition job_has_stopped : prog bool :=
  job_sweep ;;;
  getg (fun g => existsb is_stopped (g_jobs g)).

Definition hup_job (i : nat) : prog unit :=
  do* j := getj i in
  pwhen (active j && (0 <? pgid j))%bool (do* _ := call (Kill (- pgid j) SIGHUP) in Ret tt).

Definition job_kill_all_sighup : prog unit := pfor (seq 0 MAX_JOBS) hup_job.

Definition job_get_next_number : prog Z := getg g_next_job_num.

Definition STOPPED_JOBS : str := lit "cshell: there are stopped jobs" ++ [LF].

(** [true]: leave the shell. *)
Definition term_handle_ctrl_d : prog bool :=
  do* stopped := job_has_stopped in
  if stopped then
    do* warned := getg g_ctrl_d_warned in
    if (warned : bool) then Ret true else
    printf STOPPED_JOBS ;;;
    modg (set_ctrl_d_warned true) ;;;
    Ret false
  else Ret true.

Definition term_reset_ctrl_d : prog unit := modg (set_ctrl_d_warned false).

(** ** [activities.c] *)

Definition state_str (st : JobState) : str :=
  match st with JOB_STOPPED => lit "Stopped" | JOB_RUNNING => lit "Running" end.

Definition activity_lines (j : Job) : str :=
  (lit "[" ++ dec (job_number j) ++ lit "] pgid " ++ dec (pgid j) ++ [LF]) ++
  concat (map (fun p => if exited p then [] else
    lit "  " ++ dec (jp_pid p) ++ lit " " ++ cmd_name p ++ lit "  " ++ state_str (state j) ++ [LF])
    (procs j)).

Definition show_activity (i : nat) : prog unit :=
  do* r := job_get_by_number (Z.of_nat i + 1) in
  match r with
  | None => Ret tt
  | Some k => do* j := getj k in pwhen (active j) (printf (activity_lines j))
  end.

Definition activities_builtin (args : list str) : prog Z :=
  job_sweep ;;;
  pfor (seq 0 MAX_JOBS) show_activity ;;;
  Ret 0.
