(* ===== verification/JobFacts.v ===== *)
(** * What the job table promises

    Its invariant, what each operation does to it, and what a sweep, Ctrl-D and
    [activities] show. *)

From stdpp Require Import base list gmap sets strings.
From Stdlib Require Import ZArith Lia Ascii.
From S2P Require Import Prelude ShellBase Jobs.

Open Scope Z_scope.

(** ** Reading and writing a job *)

Abbreviation jobs s := (g_jobs (s_glob s)).

Lemma sat_getj i j s (Q : Job -> sysst -> Prop) E :
  jobs s !! i = Some j -> Q j s -> sat (getj i) s Q E.
Proof.
  intros Hj HQ. apply sat_bind, sat_call. intros g s' [-> ->]. by rewrite Hj.
Qed.

(** [s] with job [i] replaced. *)
Definition put_job (i : nat) (j : Job) (s : sysst) : sysst :=
  set_glob (set_jobs (<[i := j]> (jobs s)) (s_glob s)) s.

Lemma sat_setj i f j s (Q : unit -> sysst -> Prop) E :
  jobs s !! i = Some j -> Q tt (put_job i (f j) s) -> sat (setj i f) s Q E.
Proof.
  intros Hj HQ. apply sat_bind, sat_call. intros g s' [-> ->]. rewrite Hj.
  apply sat_call. by intros [] t ->.
Qed.

Lemma sat_getg {A} (f : globals -> A) s (Q : A -> sysst -> Prop) E :
  Q (f (s_glob s)) s -> sat (getg f) s Q E.
Proof. intros HQ. apply sat_bind, sat_call. by intros g s' [-> ->]. Qed.

Lemma sat_printf t s (Q : unit -> sysst -> Prop) E :
  Q tt (set_out (s_out s ++ t) s) -> sat (printf t) s Q E.
Proof. intros HQ. apply sat_call. by intros [] s' ->. Qed.

Lemma sat_modg f s (Q : unit -> sysst -> Prop) E :
  Q tt (set_glob (f (s_glob s)) s) -> sat (modg f) s Q E.
Proof.
  intros HQ. apply sat_bind, sat_call. intros g s' [-> ->]. apply sat_call. by intros [] t ->.
Qed.

(** ** The invariant *)

Record jobs_ok (g : globals) : Prop := {
  jobs_len : length (g_jobs g) = MAX_JOBS;
  jobs_num i j : g_jobs g !! i = Some j -> active j = true -> 1 <= job_number j < g_next_job_num g;
  jobs_distinct i i' j j' : g_jobs g !! i = Some j -> g_jobs g !! i' = Some j' ->
    active j = true -> active j' = true -> job_number j = job_number j' -> i = i';
  jobs_procs i j : g_jobs g !! i = Some j -> (length (procs j) <= MAX_PROCS_PER_JOB)%nat;
  jobs_next : 1 <= g_next_job_num g
}.

(** A change that keeps the number, does not activate and stays within the array. *)
Definition tame_to (j j' : Job) : Prop :=
  job_number j' = job_number j /\ (active j' = true -> active j = true) /\
  (length (procs j') <= length (procs j) \/ length (procs j') <= MAX_PROCS_PER_JOB)%nat.

Definition tame (f : Job -> Job) : Prop := forall j, tame_to j (f j).

Lemma insert_lookup_cases (l : list Job) i j i' j' : <[i := j]> l !! i' = Some j' ->
  (i' = i /\ j' = j /\ (i < length l)%nat) \/ (i' <> i /\ l !! i' = Some j').
Proof.
  intros H. destruct (decide (i' = i)) as [->|Hne].
  - left. assert (i < length l)%nat by (rewrite <- (length_insert l i j); by eapply lookup_lt_Some).
    rewrite list_lookup_insert_eq in H by done. by simplify_eq.
  - right. by rewrite list_lookup_insert_ne in H by done.
Qed.

Lemma jobs_ok_put i j j' g : jobs_ok g -> g_jobs g !! i = Some j -> tame_to j j' ->
  jobs_ok (set_jobs (<[i := j']> (g_jobs g)) g).
Proof.
  intros [Hlen Hnum Hdis Hproc Hnext] Hi (Hn & Ha & Hp).
  split; simpl; [by rewrite length_insert|..|done].
  - intros i1 j1 [(-> & -> & _)|[_ H]]%insert_lookup_cases Hact; [|by eauto].
    rewrite Hn. eauto.
  - intros i1 i2 j1 j2 [(-> & -> & _)|[Hne1 H1]]%insert_lookup_cases
      [(-> & -> & _)|[Hne2 H2]]%insert_lookup_cases Ha1 Ha2 E; [done| | |by eauto].
    + rewrite Hn in E. by apply (Hdis i i2 j j2); auto.
    + rewrite Hn in E. by apply (Hdis i1 i j1 j); auto.
  - intros i1 j1 [(-> & -> & _)|[_ H]]%insert_lookup_cases; [|by eauto].
    specialize (Hproc i j Hi). lia.
Qed.

Lemma jobs_ok_ext g g' : g_jobs g' = g_jobs g -> g_next_job_num g' = g_next_job_num g ->
  jobs_ok g -> jobs_ok g'.
Proof. intros Hj Hn []. split; rewrite ?Hj, ?Hn; done. Qed.

Lemma tame_state st : tame (set_state st).
Proof. intros j. unfold tame_to. simpl. auto. Qed.

Lemma tame_inactive : tame (set_active false).
Proof. intros j. unfold tame_to. simpl. split_and!; auto; done. Qed.

Lemma tame_exited p : tame (mark_exited p).
Proof. intros j. unfold tame_to. simpl. split_and!; auto. left. by rewrite length_alter. Qed.

#[export] Hint Resolve tame_state tame_inactive tame_exited : core.

(** [m] keeps the invariant whatever the system does. *)
Class keeps_jobs {A} (m : prog A) : Prop :=
  keeps : forall s, jobs_ok (s_glob s) ->
    sat m s (fun _ s' => jobs_ok (s_glob s')) (fun _ _ => True).

#[export] Instance keeps_ret {A} (a : A) : keeps_jobs (Ret a).
Proof. by intros s H. Qed.

#[export] Instance keeps_stop {A} e : keeps_jobs (@Stop A e).
Proof. done. Qed.

#[export] Instance keeps_nofuel {A} : keeps_jobs (@NoFuel A).
Proof. done. Qed.

#[export] Instance keeps_bind {A B} (m : prog A) (f : A -> prog B) :
  keeps_jobs m -> (forall a, keeps_jobs (f a)) -> keeps_jobs (pbind m f).
Proof.
  intros Hm Hf s Hs. apply sat_bind. eapply sat_mono; [by apply Hm| |done].
  intros a s' Hs'. by apply Hf.
Qed.

#[export] Instance keeps_when b m : keeps_jobs m -> keeps_jobs (pwhen b m).
Proof. intros H s Hs. destruct b; [by apply H|done]. Qed.

#[export] Instance keeps_pfor {A} (l : list A) body :
  (forall x, keeps_jobs (body x)) -> keeps_jobs (pfor l body).
Proof. intros H. induction l as [|x l IH]; simpl; [apply _|]. by apply keeps_bind. Qed.

(** A call that does not write the globals, or sets only the alarm flag. *)
Lemma jobs_ok_alarm g b : jobs_ok g -> jobs_ok (set_alarm_fired b g).
Proof. by intros []. Qed.

Lemma jobs_ok_warned g b : jobs_ok g -> jobs_ok (set_ctrl_d_warned b g).
Proof. by intros []. Qed.

(** The calls that leave the globals alone. *)
Definition outside {X} (c : sys X) : bool :=
  match c with Put _ | Waitpid _ _ => false | _ => true end.

Lemma step_outside {X} (c : sys X) s x s' : outside c = true -> step c s x s' -> s_glob s' = s_glob s.
Proof.
  destruct c; intros Ho Hs; simpl in *; try done; step_cases.
Qed.

Lemma step_waitpid pid o s x s' : step (Waitpid pid o) s x s' ->
  s_glob s' = s_glob s \/ s_glob s' = set_alarm_fired true (s_glob s).
Proof.
  destruct x as [[r w] e]. intros [(_ & _ & _ & _ & _ & ->)|[(_ & _ & ->)|(_ & H1 & H2)]].
  - left. by destruct (terminated w).
  - by left.
  - destruct (decide (e = EINTR)) as [He|He]; [right|left].
    + by destruct (H1 He) as [_ ->].
    + by destruct (H2 He) as [-> _].
Qed.

Lemma keeps_call {X} (c : sys X) : outside c = true -> keeps_jobs (call c).
Proof.
  intros Ho s Hs. apply sat_call. intros x s' Hx. by rewrite (step_outside c s x s' Ho Hx).
Qed.

#[export] Instance keeps_waitpid pid o : keeps_jobs (call (Waitpid pid o)).
Proof.
  intros s Hs. apply sat_call. intros x s' Hx.
  destruct (step_waitpid _ _ _ _ _ Hx) as [->| ->]; [done|by apply jobs_ok_alarm].
Qed.

#[export] Hint Extern 1 (keeps_jobs (call _)) => (apply keeps_call; reflexivity) : typeclass_instances.

#[export] Instance keeps_printf t : keeps_jobs (printf t).
Proof. unfold printf. apply _. Qed.

#[export] Instance keeps_getg {A} (f : globals -> A) : keeps_jobs (getg f).
Proof. unfold getg. apply _. Qed.

(** Continuing with a job the table holds. *)
Lemma keeps_getj {B} i (f : Job -> prog B) : (i < MAX_JOBS)%nat -> (forall j, keeps_jobs (f j)) ->
  keeps_jobs (pbind (getj i) f).
Proof.
  intros Hi Hf s Hs. destruct (lookup_lt_is_Some_2 (jobs s) i) as [j Hj]; [by rewrite (jobs_len _ Hs)|].
  apply sat_bind. eapply sat_getj; [exact Hj|]. by apply Hf.
Qed.

Lemma keeps_setj i f : (i < MAX_JOBS)%nat -> tame f -> keeps_jobs (setj i f).
Proof.
  intros Hi Hf s Hs. destruct (lookup_lt_is_Some_2 (jobs s) i) as [j Hj]; [by rewrite (jobs_len _ Hs)|].
  eapply sat_setj; [exact Hj|]. apply (jobs_ok_put i j); [done|done|apply Hf].
Qed.

(** A lookup in the table answers with an index of it. *)
Lemma keeps_lookup {A B} (f : globals -> option A) (idx : A -> nat) (k : option A -> prog B) :
  (forall g a, f g = Some a -> (idx a < length (g_jobs g))%nat) ->
  keeps_jobs (k None) -> (forall a, (idx a < MAX_JOBS)%nat -> keeps_jobs (k (Some a))) ->
  keeps_jobs (pbind (getg f) k).
Proof.
  intros Hf H0 Hk s Hs. apply sat_bind, sat_getg. destruct (f (s_glob s)) as [a|] eqn:E; [|by apply H0].
  apply Hk; [|done]. rewrite <- (jobs_len _ Hs). by apply Hf.
Qed.

Lemma find_number_lt n g i : fst <$> find_number n (g_jobs g) = Some i -> (i < length (g_jobs g))%nat.
Proof.
  unfold find_number. destruct (list_find _ _) as [[k j]|] eqn:E; simpl; [|done].
  intros [= <-]. apply list_find_Some in E as [E _]. by eapply lookup_lt_Some.
Qed.

Lemma find_pid_spec pid l i p : find_pid pid l = Some (i, p) ->
  exists j pr, l !! i = Some j /\ active j = true /\ procs j !! p = Some pr /\ jp_pid pr = pid.
Proof.
  unfold find_pid. destruct (list_find _ l) as [[k j]|] eqn:E; simpl; [|done].
  apply list_find_Some in E as (Hk & [Ha _] & _). unfold proc_index.
  destruct (list_find _ (procs j)) as [[q pr]|] eqn:Ep; simpl; [|done]. intros [= <- <-].
  apply list_find_Some in Ep as (Hq & Hp & _). eauto 10.
Qed.

(** *** The operations of [term_control.c] *)

Lemma jobs_ok_add i g pg line st : jobs_ok g -> (i < length (g_jobs g))%nat ->
  jobs_ok (set_next_job_num (g_next_job_num g + 1)
             (set_jobs (<[i := new_job (g_next_job_num g) pg line st]> (g_jobs g)) g)).
Proof.
  intros [Hlen Hnum Hdis Hproc Hnext] Hi. split; simpl; [by rewrite length_insert|..|lia].
  - intros i' j' [(-> & -> & _)|[_ H]]%insert_lookup_cases Hact; simpl; [lia|].
    specialize (Hnum _ _ H Hact). lia.
  - intros i1 i2 j1 j2 [(-> & -> & _)|[Hne1 H1]]%insert_lookup_cases
      [(-> & -> & _)|[Hne2 H2]]%insert_lookup_cases Ha1 Ha2 E; [done| | |by eauto]; simpl in E;
      [specialize (Hnum _ _ H2 Ha2)|specialize (Hnum _ _ H1 Ha1)]; lia.
  - intros i' j' [(-> & -> & _)|[_ H]]%insert_lookup_cases; [simpl; lia|by eauto].
Qed.

#[export] Instance keeps_job_add pg line st : keeps_jobs (job_add pg line st).
Proof.
  intros s Hs. unfold job_add. apply sat_bind, sat_call. intros g s' [-> ->].
  destruct (list_find _ _) as [[i j]|] eqn:E; [|done].
  apply sat_bind, sat_call. intros [] t ->. simpl.
  apply list_find_Some in E as [E _]. apply jobs_ok_add; [done|by eapply lookup_lt_Some].
Qed.

Lemma keeps_job_add_proc i pid name : (i < MAX_JOBS)%nat -> keeps_jobs (job_add_proc (Some i) pid name).
Proof.
  intros Hi s Hs. destruct (lookup_lt_is_Some_2 (jobs s) i) as [j Hj]; [by rewrite (jobs_len _ Hs)|].
  apply sat_bind. eapply sat_getj; [exact Hj|].
  destruct (MAX_PROCS_PER_JOB <=? length (procs j))%nat eqn:E; [done|]. bool_to_prop.
  eapply sat_setj; [exact Hj|]. apply (jobs_ok_put i j); [done|done|].
  unfold tame_to. simpl. split_and!; [done|done|]. right. rewrite length_app. simpl. lia.
Qed.

#[export] Instance keeps_job_remove n : keeps_jobs (job_remove n).
Proof.
  unfold job_remove, job_get_by_number.
  apply (keeps_lookup _ id); [intros g a; apply find_number_lt|apply _|].
  intros i Hi. by apply keeps_setj.
Qed.

#[export] Instance keeps_reap_child pid w : keeps_jobs (reap_child pid w).
Proof.
  unfold reap_child, job_get_by_pid. apply (keeps_lookup _ fst); [|apply _|].
  - intros g [i p] H. apply find_pid_spec in H as (j & pr & H & _). simpl. by eapply lookup_lt_Some.
  - intros [i p] Hi. simpl in Hi. destruct w; try (by apply keeps_setj);
      (apply keeps_bind; [by apply keeps_setj|intros _]); (apply keeps_getj; [done|intros j]);
      (apply keeps_bind; [apply _|intros _]); by apply keeps_when, keeps_setj.
Qed.

#[export] Instance keeps_sigchld_handler fuel : keeps_jobs (sigchld_handler fuel).
Proof.
  induction fuel as [|fuel IH]; simpl; [apply _|]. apply keeps_bind; [apply _|].
  intros [[pid w] e]. destruct (0 <? pid); apply _.
Qed.

(** ** The sweep *)

(** The same process, perhaps found to have exited. *)
Definition proc_to (p p' : JobProc) : Prop :=
  jp_pid p' = jp_pid p /\ cmd_name p' = cmd_name p /\ (exited p = true -> exited p' = true).

(** The same job with its processes updated. *)
Definition job_to (j j' : Job) : Prop :=
  job_number j' = job_number j /\ pgid j' = pgid j /\ cmd_line j' = cmd_line j /\
  Forall2 proc_to (procs j) (procs j').

#[export] Instance proc_to_refl : Reflexive proc_to.
Proof. by intros p. Qed.

#[export] Instance proc_to_trans : Transitive proc_to.
Proof. intros p1 p2 p3 (? & ? & ?) (? & ? & ?). split_and!; [congruence..|auto]. Qed.

#[export] Instance job_to_refl : Reflexive job_to.
Proof. by intros j. Qed.

#[export] Instance job_to_trans : Transitive job_to.
Proof. intros j1 j2 j3 (? & ? & ? & ?) (? & ? & ? & ?). split_and!; [congruence..|by etrans]. Qed.

Lemma job_to_state st j : job_to j (set_state st j).
Proof. done. Qed.

Lemma job_to_exited p j : job_to j (mark_exited p j).
Proof.
  split_and!; try done. simpl. apply Forall2_same_length_lookup.
  split; [by rewrite length_alter|]. intros q x y Hx Hy.
  destruct (decide (p = q)) as [->|Hne].
  - rewrite list_lookup_alter_eq, Hx in Hy. simplify_eq/=. by split_and!.
  - rewrite list_lookup_alter_ne, Hx in Hy by done. by simplify_eq.
Qed.

(** What a sweep may change: jobs along [job_to], and the alarm flag. *)
Definition quiet (s s' : sysst) : Prop :=
  g_next_job_num (s_glob s') = g_next_job_num (s_glob s) /\
  g_ctrl_d_warned (s_glob s') = g_ctrl_d_warned (s_glob s) /\
  s_out s' = s_out s /\ s_fds s' = s_fds s /\ s_masked s' = s_masked s /\ s_alarm s' = s_alarm s /\
  s_kids s' ⊆ s_kids s /\ s_kills s' = s_kills s.

#[export] Instance quiet_refl : Reflexive quiet.
Proof. by intros s. Qed.

#[export] Instance quiet_trans : Transitive quiet.
Proof.
  intros s1 s2 s3 (? & ? & ? & ? & ? & ? & ? & ?) (? & ? & ? & ? & ? & ? & ? & ?).
  split_and!; try congruence. by etrans.
Qed.

Lemma waitpid_quiet pid o s x s' : step (Waitpid pid o) s x s' -> quiet s s' /\ jobs s' = jobs s.
Proof.
  destruct x as [[r w] e]. intros [(_ & _ & _ & _ & _ & ->)|[(_ & _ & ->)|(_ & H1 & H2)]].
  - destruct (terminated w); [|done]. split; [|done]. split_and!; try done. simpl. set_solver.
  - done.
  - destruct (decide (e = EINTR)) as [He|He].
    + by destruct (H1 He) as [_ ->].
    + by destruct (H2 He) as [-> _].
Qed.

Lemma put_job_quiet i j s : quiet s (put_job i j s).
Proof. done. Qed.

(** [s'] is [s] with job [i] swept to [j']. *)
Definition swept_at (i : nat) (j j' : Job) (s s' : sysst) : Prop :=
  quiet s s' /\ jobs s' = <[i := j']> (jobs s) /\ job_to j j' /\ active j' = active j.

Lemma sweep_proc_spec i p all s j pr : jobs s !! i = Some j -> procs j !! p = Some pr ->
  sat (sweep_proc i p all) s (fun all' s' => exists j', swept_at i j j' s s' /\
    (forall q, q <> p -> procs j' !! q = procs j !! q) /\
    exists pr', procs j' !! p = Some pr' /\ all' = (all && exited pr')%bool) (fun _ _ => False).
Proof.
  intros Hj Hp. unfold sweep_proc. apply sat_bind. eapply sat_getj; [exact Hj|]. rewrite Hp.
  assert (Hid : forall t, jobs t = jobs s -> <[i := j]> (jobs s) = jobs t)
    by (intros t ->; by apply list_insert_id).
  destruct (exited pr) eqn:Ex.
  { exists j. split_and!; [by split_and!; [|rewrite list_insert_id|..]|done|].
    exists pr. split; [done|]. by rewrite Ex, andb_true_r. }
  assert (Hmark : forall q, q <> p -> procs (mark_exited p j) !! q = procs j !! q)
    by (intros q Hq; simpl; by rewrite list_lookup_alter_ne).
  assert (Hmp : procs (mark_exited p j) !! p = Some (set_exited true pr))
    by (simpl; by rewrite list_lookup_alter_eq, Hp).
  apply sat_bind, sat_call. intros [[res w] e] t Ht.
  destruct (waitpid_quiet _ _ _ _ _ Ht) as [Hq Hjt]. clear Ht.
  assert (Hjt' : jobs t !! i = Some j) by by rewrite Hjt.
  assert (Hset : forall f b, job_to j (f j) -> active (f j) = active j ->
    (forall q, q <> p -> procs (f j) !! q = procs j !! q) ->
    (exists pr', procs (f j) !! p = Some pr' /\ b = (all && exited pr')%bool) ->
    sat (setj i f ;;; Ret b) t (fun all' s' => exists j', swept_at i j j' s s' /\
      (forall q, q <> p -> procs j' !! q = procs j !! q) /\
      exists pr', procs j' !! p = Some pr' /\ all' = (all && exited pr')%bool) (fun _ _ => False)).
  { intros f b H1 H2 H3 H4. apply sat_bind. eapply sat_setj; [exact Hjt'|]. exists (f j).
    split_and!; [|done|done]. split_and!; [by etrans|simpl; by rewrite Hjt|done|done]. }
  assert (Hno : exists pr', procs j !! p = Some pr' /\ false = (all && exited pr')%bool)
    by (exists pr; rewrite Ex, andb_false_r; done).
  assert (Hyes : exists pr', procs (mark_exited p j) !! p = Some pr' /\ all = (all && exited pr')%bool)
    by (exists (set_exited true pr); split; [done|by rewrite andb_true_r]).
  destruct (0 <? res).
  - destruct w; [apply Hset..|apply Hset|apply Hset]; try done; try apply job_to_exited.
  - destruct (res =? 0); [|apply Hset; try done; apply job_to_exited].
    exists j. split_and!; [|done|done]. split_and!; [done|by symmetry; apply Hid|done|done].
Qed.

Lemma sweep_procs_spec i n p all s j : jobs s !! i = Some j -> (p + n = length (procs j))%nat ->
  sat (sweep_procs i n p all) s (fun all' s' => exists j', swept_at i j j' s s' /\
    (forall q, (q < p)%nat -> procs j' !! q = procs j !! q) /\
    all' = (all && forallb exited (drop p (procs j')))%bool) (fun _ _ => False).
Proof.
  revert p all s j. induction n as [|n IH]; intros p all s j Hj Hn.
  - exists j. split_and!; [split_and!; try done; by rewrite list_insert_id|done|].
    rewrite drop_ge by lia. by rewrite andb_true_r.
  - destruct (lookup_lt_is_Some_2 (procs j) p) as [pr Hpr]; [lia|]. cbn [sweep_procs].
    apply sat_bind. eapply sat_mono; [by eapply sweep_proc_spec| |done].
    intros all1 s1 (j1 & (Hq1 & Hj1 & Hto1 & Ha1) & Hk1 & pr1 & Hp1 & ->).
    assert (Hl1 : length (procs j1) = length (procs j)).
    { destruct Hto1 as (_ & _ & _ & H). by apply Forall2_length in H. }
    assert (Hj1' : jobs s1 !! i = Some j1).
    { rewrite Hj1. apply list_lookup_insert_eq. by eapply lookup_lt_Some. }
    eapply sat_mono; [apply (IH (S p) _ s1 j1 Hj1'); lia| |done].
    intros all2 s2 (j2 & (Hq2 & Hj2 & Hto2 & Ha2) & Hk2 & ->). exists j2. split_and!.
    + split_and!; [by etrans| |by etrans|congruence]. rewrite Hj2, Hj1. apply list_insert_insert_eq.
    + intros q Hq. rewrite Hk2, Hk1 by lia. done.
    + assert (Hp2 : procs j2 !! p = Some pr1) by (rewrite Hk2 by lia; done).
      rewrite (drop_S _ pr1 p) by done. simpl. by rewrite andb_assoc.
Qed.

(** No active job whose processes have all exited. *)
Definition alive (j : Job) : Prop := active j = true -> all_exited j = false.

Lemma sweep_job_spec i s j : jobs s !! i = Some j ->
  sat (sweep_job i) s (fun _ s' => exists j', quiet s s' /\ jobs s' = <[i := j']> (jobs s) /\
    job_to j j' /\ alive j' /\ (active j' = true -> active j = true)) (fun _ _ => False).
Proof.
  intros Hj. unfold sweep_job. apply sat_bind. eapply sat_getj; [exact Hj|].
  destruct (active j) eqn:Ea; simpl.
  - apply sat_bind. eapply sat_mono; [by apply (sweep_procs_spec i _ 0 true s j Hj)| |done].
    intros all s1 (j1 & (Hq1 & Hj1 & Hto1 & Ha1) & _ & ->). rewrite drop_0. simpl.
    assert (Hj1' : jobs s1 !! i = Some j1).
    { rewrite Hj1. apply list_lookup_insert_eq. by eapply lookup_lt_Some. }
    apply sat_when; intros Eall.
    + eapply sat_setj; [exact Hj1'|]. exists (set_active false j1). split_and!; try done.
      simpl. rewrite Hj1. apply list_insert_insert_eq.
    + exists j1. split_and!; try done. by intros _.
  - exists j. split_and!; try done; [by rewrite list_insert_id|unfold alive; congruence|congruence].
Qed.

(** The table after a sweep: every job swept, none with all processes gone. *)
Lemma job_sweep_spec s : jobs_ok (s_glob s) ->
  sat job_sweep s (fun _ s' => quiet s s' /\ jobs_ok (s_glob s') /\ Forall alive (jobs s') /\
    Forall2 (fun j j' => job_to j j' /\ (active j' = true -> active j = true)) (jobs s) (jobs s'))
    (fun _ _ => False).
Proof.
  intros Hok. unfold job_sweep. pose proof (jobs_len _ Hok) as Hlen.
  apply (sat_pfor (fun n t => quiet s t /\ jobs_ok (s_glob t) /\
    (forall i j, (i < n)%nat -> jobs t !! i = Some j -> alive j) /\
    (forall i, (n <= i)%nat -> jobs t !! i = jobs s !! i) /\
    Forall2 (fun j j' => job_to j j' /\ (active j' = true -> active j = true)) (jobs s) (jobs t))).
  - split_and!; try done; [intros; lia|]. apply Forall_Forall2_diag, Forall_true. by intros j.
  - intros n x t Hn (Hq & Hokt & Hal & Heq & Hto).
    apply lookup_seq in Hn as [-> Hn]. simpl in *.
    destruct (lookup_lt_is_Some_2 (jobs s) n) as [j Hj]; [rewrite Hlen; lia|].
    pose proof Hj as Hjt. rewrite <- (Heq n) in Hjt by lia.
    eapply sat_mono; [apply (sweep_job_spec n t j Hjt)| |done].
    intros _ t' (j' & Hq' & Hjobs' & Hto' & Hal' & Hact'). split_and!.
    + by etrans.
    + destruct Hq' as [Hnx _]. apply (jobs_ok_ext (set_jobs (<[n := j']> (jobs t)) (s_glob t))); [done|done|].
      apply (jobs_ok_put n j); [done|done|].
      destruct Hto' as (Hnum & _ & _ & Hpr). apply Forall2_length in Hpr.
      split_and!; [done|done|]. left. lia.
    + intros i ji Hi Hl. rewrite Hjobs' in Hl.
      apply insert_lookup_cases in Hl as [(-> & -> & _)|[Hne Hl]]; [done|]. apply (Hal i); [lia|done].
    + intros i Hi. rewrite Hjobs', list_lookup_insert_ne by lia. apply Heq. lia.
    + rewrite Hjobs'. rewrite <- (list_insert_id (jobs s) n j) by done.
      by apply Forall2_insert.
  - intros t (Hq & Hokt & Hal & _ & Hto). split_and!; try done.
    apply Forall_lookup. intros i j Hi. apply (Hal i); [|done].
    rewrite length_seq, <- (jobs_len _ Hokt). by eapply lookup_lt_Some.
Qed.

#[export] Instance keeps_job_sweep : keeps_jobs job_sweep.
Proof. intros s Hs. eapply sat_mono; [by apply job_sweep_spec|by intros _ s' (_ & H & _)|done]. Qed.

#[export] Instance keeps_has_stopped : keeps_jobs job_has_stopped.
Proof. unfold job_has_stopped. apply _. Qed.

Lemma keeps_modg f : (forall g, jobs_ok g -> jobs_ok (f g)) -> keeps_jobs (modg f).
Proof. intros Hf s Hs. apply sat_modg. by apply Hf. Qed.

#[export] Instance keeps_ctrl_d : keeps_jobs term_handle_ctrl_d.
Proof.
  apply keeps_bind; [apply _|]. intros [|]; [|apply _]. apply keeps_bind; [apply _|].
  intros [|]; [apply _|]. apply keeps_bind; [apply _|intros _]. apply keeps_bind; [|apply _].
  apply keeps_modg. intros g. apply jobs_ok_warned.
Qed.

#[export] Instance keeps_reset_ctrl_d : keeps_jobs term_reset_ctrl_d.
Proof. apply keeps_modg. intros g. apply jobs_ok_warned. Qed.

#[export] Instance keeps_kill_all : keeps_jobs job_kill_all_sighup.
Proof.
  intros s Hs. apply (sat_pfor (fun _ t => jobs_ok (s_glob t))); [done| |done].
  intros n i t Hn Ht. apply lookup_seq in Hn as [-> Hn].
  apply (keeps_getj n); [lia| |done]. intros j. apply _.
Qed.

#[export] Instance keeps_show_activity i : keeps_jobs (show_activity i).
Proof.
  unfold show_activity, job_get_by_number.
  apply (keeps_lookup _ id); [intros g a; apply find_number_lt|apply _|].
  intros k Hk. apply keeps_getj; [done|]. apply _.
Qed.

#[export] Instance keeps_activities args : keeps_jobs (activities_builtin args).
Proof.
  unfold activities_builtin. apply keeps_bind; [exact keeps_job_sweep|intros _].
  apply keeps_bind; [apply keeps_pfor; exact keeps_show_activity|intros _]. apply _.
Qed.

Lemma jobs_ok_init g : g_jobs g = replicate MAX_JOBS zero_job -> g_next_job_num g = 1 -> jobs_ok g.
Proof.
  intros Hj Hn. split; rewrite ?Hj, ?Hn.
  - by rewrite length_replicate.
  - intros i j H. by apply lookup_replicate in H as [-> _].
  - intros i i' j j' H. by apply lookup_replicate in H as [-> _].
  - intros i j H. apply lookup_replicate in H as [-> _]. apply Nat.le_0_l.
  - lia.
Qed.

Lemma sat_init s (Q : unit -> sysst -> Prop) E :
  (forall pg, Q tt (set_glob (set_shell_pgid pg (set_jobs (replicate MAX_JOBS zero_job) (s_glob s))) s)) ->
  sat term_control_init s Q E.
Proof.
  intros HQ. unfold term_control_init. generalize dependent (replicate MAX_JOBS zero_job).
  intros js HQ. apply sat_bind, sat_modg. apply sat_bind, sat_call. intros pg s1 [_ ->].
  apply sat_bind, sat_modg. do 4 (apply sat_bind, sat_call; intros [] ? ->).
  apply sat_call. intros [] ? ->. apply HQ.
Qed.
