(* ===== verification/JobBuiltins.v ===== *)
(** * [ping] and [resume]: [ping.c] and [resume.c]

    The two builtins that act on a job, with the number parsing they use, and
    the theorems about the job table as a whole. *)

From stdpp Require Import base list gmap sets strings.
From Stdlib Require Import ZArith Lia Ascii.
From S2P Require Import Prelude ShellBase Jobs JobFacts.

Open Scope Z_scope.

(** ** [strtol] in base 10 *)

Definition c_isspace (c : ascii) : bool :=
  let n := nat_of_ascii c in ((n =? 32) || ((9 <=? n) && (n <=? 13)))%nat%bool.

Definition c_isdigit (c : ascii) : bool :=
  let n := nat_of_ascii c in ((48 <=? n) && (n <=? 57))%nat%bool.

Definition digit (c : ascii) : Z := Z.of_nat (nat_of_ascii c) - 48.

Fixpoint skip_spaces (s : str) : str :=
  match s with c :: s' => if c_isspace c then skip_spaces s' else s | [] => [] end.

(** The value of the digits at the start and what follows them. *)
Fixpoint scan_digits (s : str) (acc : Z) : Z * str :=
  match s with
  | c :: s' => if c_isdigit c then scan_digits s' (10 * acc + digit c) else (acc, s)
  | [] => (acc, [])
  end.

Definition LONG_MAX : Z := 2 ^ 63 - 1.

Definition clamp_long (z : Z) : Z := Z.max (- 2 ^ 63) (Z.min LONG_MAX z).

(** The value and [*endptr]'s string; without digits 0 and the whole string. *)
Definition strtol (s : str) : Z * str :=
  let s1 := skip_spaces s in
  let '(neg, s2) := match s1 with
                    | "-"%char :: r => (true, r) | "+"%char :: r => (false, r) | _ => (false, s1)
                    end in
  if c_isdigit (hd0 s2) then
    let '(v, rest) := scan_digits s2 0 in (clamp_long (if neg : bool then - v else v), rest)
  else (0, s).

(** ** [ping.c] *)

(** The value, or [None] for a return of 0. *)
Definition is_valid_signal_number (s : str) : option Z :=
  match s with
  | [] => None
  | c :: r =>
      if bool_decide (c = "-"%char) then None else
      let plus := bool_decide (c = "+"%char) in
      if (plus && bool_decide (r = []))%bool then None else
      let body := if plus then r else s in
      if negb (forallb c_isdigit body) then None else
      let v := fst (scan_digits body 0) in
      if LONG_MAX <? v then None else Some v
  end.

Definition PING_SYNTAX : str := lit "ping: invalid syntax" ++ [LF].

Definition PING_NONE : str := lit "ping: no such process found" ++ [LF].

Definition ping_fail (msg : str) : prog Z := printf msg ;;; Ret (-1).

(** The state a signal leaves the job in. *)
Definition signal_state (sig : Z) (j : Job) : Job :=
  if sig =? SIGCONT then set_state JOB_RUNNING j
  else if ((sig =? SIGSTOP) || (sig =? SIGTSTP))%bool then set_state JOB_STOPPED j
  else j.

Definition kill_proc (sig : Z) (p : JobProc) : prog unit :=
  pwhen (negb (exited p)) (do* _ := call (Kill (jp_pid p) sig) in Ret tt).

Definition ping_sent (num target : str) : prog Z :=
  printf (lit "Sent signal " ++ num ++ lit " to " ++ target ++ [LF]) ;;; Ret 0.

(** [ping %n sig] *)
Definition ping_job (target num : str) (sig : Z) : prog Z :=
  let body := tail target in
  if (bool_decide (body = []) || bool_decide (hd0 body = "-"%char))%bool then ping_fail PING_NONE else
  let '(job_num, endp) := strtol body in
  if (negb (bool_decide (endp = [])) || (job_num <=? 0))%bool then ping_fail PING_NONE else
  do* r := job_get_by_number (i32 job_num) in
  match r with
  | None => ping_fail PING_NONE
  | Some i =>
      do* j := getj i in
      if negb (active j) then ping_fail PING_NONE else
      do* killed := (if 0 <? pgid j then
                       do* k := call (Kill (- pgid j) sig) in Ret (fst k =? 0)
                     else Ret false) in
      pwhen (negb killed) (pfor (procs j) (kill_proc sig)) ;;;
      setj i (signal_state sig) ;;;
      ping_sent num target
  end.

(** [ping pid sig] *)
Definition ping_pid (target num : str) (sig : Z) : prog Z :=
  let '(pid_val, endp) := strtol target in
  if (negb (bool_decide (endp = [])) || (pid_val <=? 0))%bool then ping_fail PING_NONE else
  do* r := job_get_by_pid (i32 pid_val) in
  match r with
  | None => ping_fail PING_NONE
  | Some (i, p) =>
      do* j := getj i in
      match procs j !! p with
      | None => Crash
      | Some pr =>
          if (negb (active j) || exited pr)%bool then ping_fail PING_NONE else
          do* k := call (Kill (i32 pid_val) sig) in
          if ((fst k <? 0) && bool_decide (snd k = ESRCH))%bool then ping_fail PING_NONE else
          setj i (signal_state sig) ;;;
          ping_sent num target
      end
  end.

Definition ping_builtin (args : list str) : prog Z :=
  match args with
  | [_; target; num] =>
      match is_valid_signal_number num with
      | None => ping_fail PING_SYNTAX
      | Some sig_num =>
          job_sweep ;;;
          let sig := i32 (sig_num mod 64) in
          if bool_decide (hd0 target = "%"%char) then ping_job target num sig
          else ping_pid target num sig
      end
  | _ => ping_fail PING_SYNTAX
  end.

(** ** [resume.c] *)

Definition RESUME_SYNTAX : str := lit "resume: invalid syntax" ++ [LF].

(** [job->procs[p].exited = 1] for the first process with this pid. *)
Definition mark_pid (pid : Z) (j : Job) : Job :=
  match proc_index pid j with Some p => mark_exited p j | None => j end.

(** The wait loop; the answer is [stopped]. *)
Fixpoint resume_wait (fuel : nat) (i : nat) : prog bool :=
  match fuel with
  | O => NoFuel
  | S fuel' =>
      do* fired := getg g_alarm_fired in
      if (fired : bool) then Ret false else
      do* j := getj i in
      if all_exited j then Ret false else
      do* r := call (Waitpid (- pgid j) WUNTRACED) in
      let '(pid, w, e) := r in
      if pid <? 0 then
        if bool_decide (e = EINTR) then
          do* fired := getg g_alarm_fired in
          if (fired : bool) then Ret false else resume_wait fuel' i
        else Ret false
      else
        match w with
        | WStopped _ => Ret true
        | WExited _ | WSignaled _ => setj i (mark_pid pid) ;;; resume_wait fuel' i
        | WContinued => resume_wait fuel' i
        end
  end.

Definition job_report (verb : string) (j : Job) : str :=
  lit "[" ++ dec (job_number j) ++ lit "] + " ++ lit verb ++ lit "    " ++ cmd_line j ++ [LF].

Definition resume_bg (i : nat) : prog Z :=
  do* j := getj i in
  call (Kill (- pgid j) SIGCONT) ;;;
  setj i (set_state JOB_RUNNING) ;;;
  printf (job_report "Running" j) ;;;
  Ret 0.

(** What happened to the job, after the wait loop. *)
Definition resume_report (i : nat) (j : Job) (stopped : bool) : prog unit :=
  do* fired := getg g_alarm_fired in
  if (fired : bool) then
    call (Kill (- pgid j) SIGTERM) ;;;
    printf (lit "resume: job timed out" ++ [LF]) ;;;
    setj i (set_active false)
  else if stopped then
    setj i (set_state JOB_STOPPED) ;;;
    printf (job_report "Stopped" j)
  else
    do* j := getj i in
    pwhen (all_exited j) (setj i (set_active false)).

Definition resume_fg (fuel : nat) (i : nat) (timeout : Z) : prog Z :=
  do* j := getj i in
  printf (cmd_line j ++ [LF]) ;;;
  term_give_to_pgid (pgid j) ;;;
  setj i (set_state JOB_RUNNING) ;;;
  call (Kill (- pgid j) SIGCONT) ;;;
  modg (set_alarm_fired false) ;;;
  pwhen (0 <? timeout) (
    call (Signal SIGALRM (SIG_HANDLER "alarm_handler")) ;;;
    call (Alarm (u32 timeout))) ;;;
  term_block_sigchld ;;;
  do* stopped := resume_wait fuel i in
  pwhen (0 <? timeout) (
    call (Alarm 0) ;;;
    call (Signal SIGALRM SIG_DFL)) ;;;
  resume_report i j stopped ;;;
  term_reclaim ;;;
  term_unblock_sigchld ;;;
  Ret 0.

(** The arguments behind the job: background, or foreground with a timeout (0
    for none); [None] is a syntax error. *)
Definition resume_mode (args : list str) : option (bool * Z) :=
  match args with
  | _ :: _ :: mode :: rest =>
      if streq mode (lit "bg") then
        match rest with [] => Some (true, 0) | _ => None end
      else if streq mode (lit "fg") then
        match rest with
        | [] => Some (false, 0)
        | [flag; secs] =>
            if streq flag (lit "--timeout") then
              let '(t, endp) := strtol secs in
              if (negb (bool_decide (endp = [])) || (t <=? 0))%bool then None else Some (false, t)
            else None
        | _ => None
        end
      else None
  | _ => None
  end.

Definition resume_builtin (fuel : nat) (args : list str) : prog Z :=
  let fail msg := (printf msg ;;; Ret (-1)) in
  match args with
  | _ :: target :: _ :: _ =>
      if negb (bool_decide (hd0 target = "%"%char)) then fail RESUME_SYNTAX else
      let '(job_num, endp) := strtol (tail target) in
      if (negb (bool_decide (endp = [])) || (job_num <=? 0))%bool then fail RESUME_SYNTAX else
      match resume_mode args with
      | None => fail RESUME_SYNTAX
      | Some (bg, timeout) =>
          job_sweep ;;;
          do* r := job_get_by_number (i32 job_num) in
          match r with
          | None => fail (lit "resume: no such job" ++ [LF])
          | Some i => if bg : bool then resume_bg i else resume_fg fuel i timeout
          end
      end
  | _ => fail RESUME_SYNTAX
  end.

(** ** The invariant and the two builtins *)

Lemma tame_signal sig : tame (signal_state sig).
Proof.
  intros j. unfold signal_state. destruct (_ =? _); [apply tame_state|].
  destruct (_ || _)%bool; [apply tame_state|]. unfold tame_to. auto.
Qed.

Lemma tame_pid pid : tame (mark_pid pid).
Proof.
  intros j. unfold mark_pid. destruct (proc_index pid j); [apply tame_exited|]. unfold tame_to. auto.
Qed.

#[export] Hint Resolve tame_signal tame_pid : core.

#[export] Instance keeps_ping_fail msg : keeps_jobs (ping_fail msg).
Proof. unfold ping_fail. apply _. Qed.

#[export] Instance keeps_ping_sent num target : keeps_jobs (ping_sent num target).
Proof. unfold ping_sent. apply _. Qed.

#[export] Instance keeps_kill_proc sig p : keeps_jobs (kill_proc sig p).
Proof. unfold kill_proc. apply _. Qed.

#[export] Instance keeps_ping_job target num sig : keeps_jobs (ping_job target num sig).
Proof.
  unfold ping_job. destruct (_ || _)%bool; [apply _|]. destruct (strtol (tail target)) as [n endp].
  destruct (_ || _)%bool; [apply _|]. unfold job_get_by_number.
  apply (keeps_lookup _ id); [intros g a; apply find_number_lt|apply _|].
  intros i Hi. apply keeps_getj; [done|]. intros j. destruct (negb (active j)); [apply _|].
  apply keeps_bind; [destruct (0 <? pgid j); apply _|]. intros k.
  apply keeps_bind; [apply keeps_when, keeps_pfor; apply _|intros _].
  apply keeps_bind; [by apply keeps_setj|apply _].
Qed.

(** A process found by its pid. *)
Lemma keeps_find_pid {B} pid (k : option (nat * nat) -> prog B) :
  keeps_jobs (k None) ->
  (forall s i p j pr, jobs_ok (s_glob s) -> jobs s !! i = Some j -> procs j !! p = Some pr ->
     sat (k (Some (i, p))) s (fun _ s' => jobs_ok (s_glob s')) (fun _ _ => True)) ->
  keeps_jobs (pbind (job_get_by_pid pid) k).
Proof.
  intros H0 Hk s Hs. apply sat_bind, sat_getg. destruct (find_pid pid _) as [[i p]|] eqn:E; [|by apply H0].
  apply find_pid_spec in E as (j & pr & Hj & _ & Hp & _). by eapply Hk.
Qed.

#[export] Instance keeps_ping_pid target num sig : keeps_jobs (ping_pid target num sig).
Proof.
  unfold ping_pid. destruct (strtol target) as [n endp].
  destruct (_ || _)%bool; [apply _|]. apply keeps_find_pid; [apply _|].
  intros s i p j pr Hs Hj Hp. apply sat_bind. eapply sat_getj; [exact Hj|]. rewrite Hp.
  destruct (_ || _)%bool; [by apply keeps|].
  match goal with |- sat ?m _ _ _ => assert (Hk : keeps_jobs m); [|by apply Hk] end.
  apply keeps_bind; [apply _|]. intros k. destruct (_ && _)%bool; [apply _|].
  apply keeps_bind; [|apply _]. apply keeps_setj; [|done].
  rewrite <- (jobs_len _ Hs). by eapply lookup_lt_Some.
Qed.

#[export] Instance keeps_ping args : keeps_jobs (ping_builtin args).
Proof.
  unfold ping_builtin. destruct args as [|a [|target [|num [|]]]]; try apply _.
  destruct (is_valid_signal_number num); [|apply _].
  apply keeps_bind; [exact keeps_job_sweep|intros _]. destruct (bool_decide _); apply _.
Qed.

Lemma keeps_resume_wait fuel i : (i < MAX_JOBS)%nat -> keeps_jobs (resume_wait fuel i).
Proof.
  intros Hi. induction fuel as [|fuel IH]; cbn [resume_wait]; [apply _|].
  apply keeps_bind; [apply _|]. intros [|]; [apply _|].
  apply keeps_getj; [done|]. intros j. destruct (all_exited j); [apply _|].
  apply keeps_bind; [apply _|]. intros [[pid w] e]. destruct (pid <? 0).
  - destruct (bool_decide _); [|apply _]. apply keeps_bind; [apply _|]. intros [|]; [apply _|done].
  - destruct w; [..|apply _|done]; (apply keeps_bind; [by apply keeps_setj|done]).
Qed.

#[export] Instance keeps_give pg : keeps_jobs (term_give_to_pgid pg).
Proof. unfold term_give_to_pgid. apply _. Qed.

#[export] Instance keeps_reclaim : keeps_jobs term_reclaim.
Proof. unfold term_reclaim. apply _. Qed.

#[export] Instance keeps_block : keeps_jobs term_block_sigchld.
Proof. unfold term_block_sigchld. apply _. Qed.

#[export] Instance keeps_unblock : keeps_jobs term_unblock_sigchld.
Proof. unfold term_unblock_sigchld. apply _. Qed.

Lemma keeps_resume_report i j st : (i < MAX_JOBS)%nat -> keeps_jobs (resume_report i j st).
Proof.
  intros Hi. apply keeps_bind; [apply _|]. intros [|]; [|destruct st].
  - do 2 (apply keeps_bind; [apply _|intros _]). by apply keeps_setj.
  - apply keeps_bind; [by apply keeps_setj|apply _].
  - apply keeps_getj; [done|]. intros j'. by apply keeps_when, keeps_setj.
Qed.

Lemma keeps_resume_fg fuel i t : (i < MAX_JOBS)%nat -> keeps_jobs (resume_fg fuel i t).
Proof.
  intros Hi. unfold resume_fg. apply keeps_getj; [done|]. intros j.
  do 2 (apply keeps_bind; [apply _|intros _]). apply keeps_bind; [by apply keeps_setj|intros _].
  apply keeps_bind; [apply _|intros _].
  apply keeps_bind; [apply keeps_modg; intros g; apply jobs_ok_alarm|intros _].
  do 2 (apply keeps_bind; [apply _|intros _]). apply keeps_bind; [by apply keeps_resume_wait|].
  intros st. apply keeps_bind; [apply _|intros _].
  apply keeps_bind; [by apply keeps_resume_report|apply _].
Qed.

#[export] Instance keeps_resume fuel args : keeps_jobs (resume_builtin fuel args).
Proof.
  unfold resume_builtin. destruct args as [|a [|target [|b rest]]]; try apply _.
  destruct (negb _); [apply _|]. destruct (strtol (tail target)) as [n endp].
  destruct (_ || _)%bool; [apply _|]. destruct (resume_mode _) as [[bg t]|]; [|apply _].
  apply keeps_bind; [exact keeps_job_sweep|intros _]. unfold job_get_by_number.
  apply (keeps_lookup _ id); [intros g x; apply find_number_lt|apply _|].
  intros i Hi. destruct bg; [|by apply keeps_resume_fg].
  unfold resume_bg. apply keeps_getj; [done|]. intros j. apply keeps_bind; [apply _|intros _].
  apply keeps_bind; [by apply keeps_setj|apply _].
Qed.

(** ** Reachable tables *)

(** The operations the shell applies to the table. *)
Inductive job_op : prog unit -> Prop :=
| op_add pg line st : job_op (do* _ := job_add pg line st in Ret tt)
| op_add_proc i pid name : (i < MAX_JOBS)%nat -> job_op (job_add_proc (Some i) pid name)
| op_remove n : job_op (job_remove n)
| op_sigchld fuel : job_op (sigchld_handler fuel)
| op_sweep : job_op job_sweep
| op_hangup : job_op job_kill_all_sighup
| op_ctrl_d : job_op (do* _ := term_handle_ctrl_d in Ret tt)
| op_reset_ctrl_d : job_op term_reset_ctrl_d
| op_activities args : job_op (do* _ := activities_builtin args in Ret tt)
| op_ping args : job_op (do* _ := ping_builtin args in Ret tt)
| op_resume fuel args : job_op (do* _ := resume_builtin fuel args in Ret tt).

(** States the shell can be in: it starts with [g_next_job_num = 1] and
    [term_control_init], and applies operations. *)
Inductive reachable : sysst -> Prop :=
| reach_init s s' : g_next_job_num (s_glob s) = 1 -> may term_control_init s tt s' -> reachable s'
| reach_op s m s' : reachable s -> job_op m -> may m s tt s' -> reachable s'.

Lemma job_op_keeps m : job_op m -> keeps_jobs m.
Proof.
  assert (Hb : forall A (m : prog A), keeps_jobs m -> keeps_jobs (do* _ := m in Ret tt)).
  { intros A m' H. apply keeps_bind; [exact H|]. intros _. apply keeps_ret. }
  intros [pg line st|i pid name Hi|n|fuel| | | | |args|args|fuel args].
  - apply Hb, keeps_job_add.
  - by apply keeps_job_add_proc.
  - apply keeps_job_remove.
  - apply keeps_sigchld_handler.
  - exact keeps_job_sweep.
  - exact keeps_kill_all.
  - apply Hb, keeps_ctrl_d.
  - exact keeps_reset_ctrl_d.
  - apply Hb, keeps_activities.
  - apply Hb, keeps_ping.
  - apply Hb, keeps_resume.
Qed.

