(* ===== verification/JobTheorems.v ===== *)
(** * Theorems about the job operations

    Numbering and lookup, the sweep, Ctrl-D, what [activities] lists, whom
    [ping] signals, and that [resume] comes back. *)

From stdpp Require Import base list gmap sets strings.
From Stdlib Require Import ZArith Lia Ascii.
From S2P Require Import Prelude ShellBase Jobs JobFacts JobBuiltins.

Open Scope Z_scope.

(** ** Adding and finding *)

Lemma find_number_unique n l i j :
  (forall i' j', l !! i' = Some j' -> active j' = true -> job_number j' = n -> i' = i) ->
  l !! i = Some j -> active j = true -> job_number j = n -> find_number n l = Some (i, j).
Proof.
  intros Hu Hi Ha Hn. apply list_find_Some. split_and!; [done|done|done|].
  intros i' j' Hi' Hlt [Ha' Hn']. specialize (Hu i' j' Hi' Ha' Hn'). lia.
Qed.

Lemma find_number_None n l : (forall i j, l !! i = Some j -> active j = true -> job_number j <> n) ->
  find_number n l = None.
Proof.
  intros H. apply list_find_None, Forall_lookup. intros i j Hi [Ha Hn]. by eapply H.
Qed.

(** A new job takes the first free slot and the next number, and is what
    that number finds from then on; no other number finds anything else than
    before. With a full table nothing changes. *)
Theorem job_add_get pg line st s : jobs_ok (s_glob s) ->
  sat (job_add pg line st) s (fun r s' =>
    let n := g_next_job_num (s_glob s) in
    match r with
    | Some i => (forall j, jobs s !! i = Some j -> active j = false) /\
        g_next_job_num (s_glob s') = n + 1 /\
        find_number n (jobs s') = Some (i, new_job n pg line st) /\
        forall m, m <> n -> find_number m (jobs s') = find_number m (jobs s)
    | None => s' = s /\ Forall (fun j => active j = true) (jobs s)
    end) (fun _ _ => False).
Proof.
  intros Hok. unfold job_add. apply sat_bind, sat_call. intros g s' [-> ->].
  destruct (list_find _ _) as [[i j]|] eqn:E.
  2: { split; [done|]. apply list_find_None in E. eapply Forall_impl; [exact E|].
       intros j Hj. simpl in Hj. by destruct (active j). }
  apply list_find_Some in E as (Hi & Ha & _). pose proof (lookup_lt_Some _ _ _ Hi) as Hlt.
  apply sat_bind, sat_call. intros [] t ->. cbn [s_glob set_glob g_jobs set_jobs set_next_job_num g_next_job_num]. split_and!; [by intros j' Hj'; simplify_eq|done| |].
  - apply find_number_unique; [|by apply list_lookup_insert_eq|done|done].
    intros i' j' [(-> & _)|[_ H]]%insert_lookup_cases Ha' Hn; [done|].
    pose proof (jobs_num _ Hok _ _ H Ha'). lia.
  - intros m Hm. destruct (find_number m (jobs s)) as [[k jk]|] eqn:Ek.
    + apply list_find_Some in Ek as (Hk & [Hak Hnk] & _).
      apply find_number_unique; [| |done|done].
      * intros i' j' [(-> & -> & _)|[_ H]]%insert_lookup_cases Ha' Hn; [simpl in Hn; congruence|].
        apply (jobs_distinct _ Hok i' k j' jk); congruence.
      * simpl. rewrite list_lookup_insert_ne; [done|]. intros ->. congruence.
    + apply find_number_None. apply list_find_None in Ek. rewrite Forall_lookup in Ek.
      intros i' j' [(-> & -> & _)|[_ H]]%insert_lookup_cases Ha' Hn; [simpl in Hn; congruence|].
      by apply (Ek _ _ H).
Qed.

(** ** The sweep *)

(** A sweep polls every live process of every active job and returns;
    afterwards no active job is left whose processes have all exited, no
    inactive job has become active, no job has changed its number, group or
    processes other than by marking them exited, and nothing was printed. *)
Theorem job_sweep_removes_dead s : jobs_ok (s_glob s) ->
  sat job_sweep s (fun _ s' =>
    Forall (fun j => active j = true -> all_exited j = false) (jobs s') /\
    Forall2 (fun j j' => job_to j j' /\ (active j' = true -> active j = true)) (jobs s) (jobs s') /\
    s_out s' = s_out s) (fun _ _ => False).
Proof.
  intros Hok. eapply sat_mono; [by apply job_sweep_spec| |done].
  intros _ s' ((_ & _ & Ho & _) & _ & Ha & Hto). done.
Qed.

(** ** Ctrl-D *)

Lemma ctrl_d_spec s : jobs_ok (s_glob s) ->
  sat term_handle_ctrl_d s (fun r s' =>
    jobs_ok (s_glob s') /\
    (r = true -> existsb is_stopped (jobs s') = false \/ g_ctrl_d_warned (s_glob s) = true) /\
    (r = false -> existsb is_stopped (jobs s') = true /\ g_ctrl_d_warned (s_glob s) = false /\
       g_ctrl_d_warned (s_glob s') = true /\ s_out s' = s_out s ++ STOPPED_JOBS)) (fun _ _ => False).
Proof.
  intros Hok. unfold term_handle_ctrl_d, job_has_stopped. apply sat_bind, sat_bind.
  eapply sat_mono; [by apply job_sweep_spec| |done].
  intros _ s1 ((_ & Hw & Ho & _) & Hok1 & _). apply sat_getg.
  destruct (existsb is_stopped (jobs s1)) eqn:E; [|by split_and!; [|left|]].
  apply sat_bind, sat_getg. destruct (g_ctrl_d_warned (s_glob s1)) eqn:Ew.
  - split_and!; [done| |done]. intros _. right. congruence.
  - apply sat_bind, sat_printf, sat_bind, sat_modg. split_and!; [by apply jobs_ok_warned|done|].
    intros _. simpl. split_and!; [done|congruence|done|by rewrite Ho].
Qed.

(** Ctrl-D leaves the shell the first time unless a job is stopped; when
    one is, it prints the warning and the next Ctrl-D leaves, whatever has
    happened to the jobs. *)
Theorem ctrl_d_twice_leaves s : jobs_ok (s_glob s) ->
  sat term_handle_ctrl_d s (fun first s1 =>
    if first then existsb is_stopped (jobs s1) = false \/ g_ctrl_d_warned (s_glob s) = true
    else existsb is_stopped (jobs s1) = true /\ s_out s1 = s_out s ++ STOPPED_JOBS /\
      sat term_handle_ctrl_d s1 (fun second _ => second = true) (fun _ _ => False)) (fun _ _ => False).
Proof.
  intros Hok. eapply sat_mono; [by apply ctrl_d_spec| |done].
  intros [|] s1 (Hok1 & H0 & H1); [by apply H0|]. destruct (H1 eq_refl) as (Hst & _ & Hw & Ho).
  split_and!; [done|done|]. eapply sat_mono; [by apply ctrl_d_spec| |done].
  intros [|] s2 (_ & _ & H2); [done|]. destruct (H2 eq_refl) as (_ & Hw' & _). congruence.
Qed.

(** ** What [activities] lists *)

Definition listing (l : list Job) : str :=
  concat (map (fun i => match find_number (Z.of_nat i + 1) l with
                        | Some (_, j) => activity_lines j | None => [] end) (seq 0 MAX_JOBS)).

Lemma show_activity_spec i s (Q : unit -> sysst -> Prop) E :
  Q tt (set_out (s_out s ++ match find_number (Z.of_nat i + 1) (jobs s) with
                            | Some (_, j) => activity_lines j | None => [] end) s) ->
  sat (show_activity i) s Q E.
Proof.
  intros HQ. unfold show_activity. apply sat_bind, sat_getg.
  destruct (find_number _ (jobs s)) as [[k j]|] eqn:Ef; simpl.
  - apply list_find_Some in Ef as (Hk & [Ha _] & _). apply sat_bind. eapply sat_getj; [exact Hk|].
    rewrite Ha. apply sat_printf. exact HQ.
  - rewrite app_nil_r in HQ. by destruct s.
Qed.

Lemma list_activities_spec (l : list nat) s (Q : unit -> sysst -> Prop) E :
  Q tt (set_out (s_out s ++ concat (map (fun i => match find_number (Z.of_nat i + 1) (jobs s) with
                        | Some (_, j) => activity_lines j | None => [] end) l)) s) ->
  sat (pfor l show_activity) s Q E.
Proof.
  revert s. induction l as [|i l IH]; intros s HQ.
  - simpl in HQ. rewrite app_nil_r in HQ. by destruct s.
  - cbn [pfor]. apply sat_bind, show_activity_spec, IH. simpl in *. by rewrite <- app_assoc.
Qed.

(** [activities] sweeps and then prints the active jobs numbered 1 to
    256 in the order of their numbers, each with its live processes, and
    nothing else. *)
Theorem activities_lists args s : jobs_ok (s_glob s) ->
  sat (activities_builtin args) s (fun r s' => r = 0 /\ s_out s' = s_out s ++ listing (jobs s'))
    (fun _ _ => False).
Proof.
  intros Hok. unfold activities_builtin. apply sat_bind.
  eapply sat_mono; [by apply job_sweep_spec| |done].
  intros _ s1 ((_ & _ & Ho & _) & _ & _ & _). apply sat_bind, list_activities_spec.
  split; [done|]. simpl. by rewrite Ho.
Qed.

(** The numbers given out grow without bound while [activities] asks for
    1 to 256 only: once every active job has a larger number, it prints
    nothing although jobs are running. *)
Theorem activities_misses_late_jobs args s : jobs_ok (s_glob s) ->
  Forall (fun j => active j = true -> 256 < job_number j) (jobs s) ->
  sat (activities_builtin args) s (fun r s' => s_out s' = s_out s) (fun _ _ => False).
Proof.
  intros Hok Hbig. unfold activities_builtin. apply sat_bind.
  eapply sat_mono; [by apply job_sweep_spec| |done].
  intros _ s1 ((_ & _ & Ho & _) & _ & _ & Hto). apply sat_bind, list_activities_spec.
  match goal with |- sat (Ret _) (set_out ?o _) _ _ => change (o = s_out s) end.
  cut (forall l, Forall (fun i => (i < MAX_JOBS)%nat) l ->
    concat (map (fun i => match find_number (Z.of_nat i + 1) (jobs s1) with
                        | Some (_, j) => activity_lines j | None => [] end) l) = []).
  { intros H. rewrite (H (seq 0 MAX_JOBS)); [by rewrite app_nil_r|]. apply Forall_seq. lia. }
  assert (Hbig1 : forall i j, jobs s1 !! i = Some j -> active j = true -> 256 < job_number j).
  { intros i j Hi Ha. destruct (Forall2_lookup_r _ _ _ _ _ Hto Hi) as (j0 & Hi0 & (Hn & _) & Hact).
    rewrite Hn. rewrite Forall_lookup in Hbig. apply (Hbig i j0); [done|by apply Hact]. }
  induction 1 as [|i l Hi Hl IH]; [done|]. simpl. rewrite IH, app_nil_r.
  rewrite find_number_None; [done|]. intros k j Hk Ha.
  specialize (Hbig1 k j Hk Ha). unfold MAX_JOBS in Hi. lia.
Qed.

(** ** Whom [ping] signals *)

(** [ping] on an active job with a process group. *)
Lemma ping_job_sends target num sig m i j s (Q : Z -> sysst -> Prop) E :
  tail target <> [] -> hd0 (tail target) <> "-"%char -> strtol (tail target) = (m, []) -> 0 < m ->
  find_number (i32 m) (jobs s) = Some (i, j) -> 0 < pgid j ->
  (forall extra t, s_kills t = s_kills s ++ (- pgid j, sig) :: extra ->
     (forall k, k ∈ extra -> exists p, p ∈ procs j /\ k = (jp_pid p, sig)) ->
     jobs t = <[i := signal_state sig j]> (jobs s) -> Q 0 t) ->
  sat (ping_job target num sig) s Q E.
Proof.
  intros Hne Hd Hst Hm Hf Hpg HQ. unfold ping_job.
  rewrite (bool_decide_false (tail target = [])), (bool_decide_false (hd0 _ = _)) by done. simpl orb. cbv iota.
  rewrite Hst. rewrite bool_decide_true by done. simpl.
  destruct (m <=? 0) eqn:E1; [bool_to_prop; lia|].
  apply sat_bind, sat_getg. rewrite Hf. simpl.
  apply list_find_Some in Hf as (Hi & [Ha _] & _).
  apply sat_bind. eapply sat_getj; [exact Hi|]. rewrite Ha. simpl.
  rewrite (proj2 (Z.ltb_lt 0 (pgid j))) by done.
  apply sat_bind, sat_bind, sat_call. intros [r e] t [Hr ->].
  set (t := set_kills _ s).
  assert (Hfin : forall extra u, s_kills u = s_kills s ++ (- pgid j, sig) :: extra ->
    (forall k, k ∈ extra -> exists p, p ∈ procs j /\ k = (jp_pid p, sig)) -> s_glob u = s_glob s ->
    sat (setj i (signal_state sig) ;;; ping_sent num target) u Q E).
  { intros extra u Hk Hx Hg. apply sat_bind. eapply sat_setj; [by rewrite Hg|].
    apply sat_bind, sat_printf. apply (HQ extra); simpl; [done|done|by rewrite Hg]. }
  apply sat_bind, sat_when; intros Hk.
  - eapply (sat_pfor (fun _ u => s_glob u = s_glob s /\
      exists extra, s_kills u = s_kills s ++ (- pgid j, sig) :: extra /\
        forall k, k ∈ extra -> exists p, p ∈ procs j /\ k = (jp_pid p, sig))).
    + split; [done|]. exists []. split; [done|]. by intros k ?%not_elem_of_nil.
    + intros n p u Hp (Hg & extra & Hu & Hx). unfold kill_proc. apply sat_when; [|by eauto].
      intros _. apply sat_bind, sat_call. intros [r' e'] v [_ ->]. split; [done|].
      exists (extra ++ [(jp_pid p, sig)]). simpl. rewrite Hu, <- app_assoc. split; [done|].
      intros k [Hk'|Hk']%elem_of_app; [by apply Hx|]. apply list_elem_of_singleton in Hk' as ->.
      exists p. split; [by eapply list_elem_of_lookup_2|done].
    + intros u (Hg & extra & Hu & Hx). by eapply Hfin.
  - by apply (Hfin []); [|intros k ?%not_elem_of_nil|].
Qed.

(** The job number is converted to [int] after it was parsed as a
    [long]: [ping %4294967297 n] signals the process group of job 1. *)
Theorem ping_wraps_job_number num sig i j s : find_number 1 (jobs s) = Some (i, j) -> 0 < pgid j ->
  sat (ping_job (lit "%4294967297") num sig) s
    (fun r s' => r = 0 /\ exists extra, s_kills s' = s_kills s ++ (- pgid j, sig) :: extra)
    (fun _ _ => False).
Proof.
  intros Hf Hpg. apply (ping_job_sends _ _ _ 4294967297 i j); try done. intros extra t Ht _ _. eauto.
Qed.

(** ** [resume] comes back *)

(** Everything but the job table, the children and the alarm is the same. *)
Definition waited (s s' : sysst) : Prop :=
  s_fds s' = s_fds s /\ s_masked s' = s_masked s /\ s_alarm s' = s_alarm s.

(** Every round of the wait loop ends it or reaps a child. *)
Lemma resume_wait_spec fuel i s : jobs_ok (s_glob s) -> (i < MAX_JOBS)%nat ->
  sat (resume_wait fuel i) s (fun stopped s' => jobs_ok (s_glob s') /\ waited s s')
    (fun e _ => e = OutOfFuel /\ (fuel <= size (s_kids s))%nat).
Proof.
  revert s. induction fuel as [|fuel IH]; intros s Hok Hi; [split; [done|lia]|]. cbn [resume_wait].
  apply sat_bind, sat_getg. destruct (g_alarm_fired (s_glob s)); [done|].
  destruct (lookup_lt_is_Some_2 (jobs s) i) as [j Hj]; [by rewrite (jobs_len _ Hok)|].
  apply sat_bind. eapply sat_getj; [exact Hj|]. destruct (all_exited j); [done|].
  apply sat_bind, sat_call. intros [[r w] e] t Ht.
  destruct Ht as [(Hr & Hin & _ & Hs & Hc & ->)|[(_ & Hn & _)|(-> & H1 & H2)]]; [|done|].
  - destruct (r <? 0) eqn:Er; [bool_to_prop; lia|].
    assert (Hsz : (size (s_kids s ∖ {[r]}) < size (s_kids s))%nat).
    { apply subset_size. set_solver. }
    destruct w as [c|c|c|]; simpl in *; [..|done|by specialize (Hc eq_refl)];
      (apply sat_bind; eapply sat_setj; [exact Hj|]; eapply sat_mono;
       [apply IH; [apply (jobs_ok_put i j); [done|done|apply tame_pid]|done]|done|];
       intros e' u [-> Hf]; simpl in Hf; split; [done|lia]).
  - simpl. destruct (decide (e = EINTR)) as [He|He].
    + rewrite bool_decide_true by done. destruct (H1 He) as [_ ->].
      apply sat_bind, sat_getg. simpl. split; [by apply jobs_ok_alarm|done].
    + rewrite bool_decide_false by done. by destruct (H2 He) as [-> _].
Qed.

(** [m] returns, and keeps the table, the children and what [waited] names. *)
Definition frames (m : prog unit) : Prop := forall s, jobs_ok (s_glob s) ->
  sat m s (fun _ s' => jobs_ok (s_glob s') /\ s_kids s' = s_kids s /\ waited s s') (fun _ _ => False).

Lemma frames_bind {B} m (f : unit -> prog B) s Q (E : ending -> sysst -> Prop) :
  frames m -> jobs_ok (s_glob s) ->
  (forall t, jobs_ok (s_glob t) -> s_kids t = s_kids s -> waited s t -> sat (f tt) t Q E) ->
  sat (pbind m f) s Q E.
Proof.
  intros Hm Hs Hf. apply sat_bind. eapply sat_mono; [by apply Hm| |done].
  intros [] t (? & ? & ?). by apply Hf.
Qed.

Lemma frames_give pg : frames (term_give_to_pgid pg).
Proof.
  intros s Hs. apply sat_bind, sat_call. intros b ? ->. apply sat_when; intros _; [|done].
  apply sat_call. by intros [] u [->| ->].
Qed.

Lemma frames_reclaim : frames term_reclaim.
Proof.
  intros s Hs. apply sat_bind, sat_call. intros b ? ->. apply sat_bind, sat_call. intros g ? [-> ->].
  apply sat_when; intros _; [|done]. apply sat_call. by intros [] u [->| ->].
Qed.

Lemma frames_setj i f : (i < MAX_JOBS)%nat -> tame f -> frames (setj i f).
Proof.
  intros Hi Hf s Hs. destruct (lookup_lt_is_Some_2 (jobs s) i) as [j Hj]; [by rewrite (jobs_len _ Hs)|].
  eapply sat_setj; [exact Hj|]. split; [|done]. by apply (jobs_ok_put i j).
Qed.

Lemma frames_printf t : frames (printf t).
Proof. intros s Hs. by apply sat_printf. Qed.

Lemma frames_report i j st : (i < MAX_JOBS)%nat -> frames (resume_report i j st).
Proof.
  intros Hi s Hs. apply sat_bind, sat_getg.
  destruct (lookup_lt_is_Some_2 (jobs s) i) as [jv Hjv]; [by rewrite (jobs_len _ Hs)|].
  destruct (g_alarm_fired (s_glob s)); [|destruct st].
  - apply sat_bind, sat_call. intros [r2 e2] ? [_ ->]. apply sat_bind, sat_printf.
    eapply sat_mono; [by apply (frames_setj i _ Hi tame_inactive)|intros u t H; exact H|done].
  - apply (frames_bind _ _ s); [by apply frames_setj|done|]. intros t Ht Hk (W1 & W2 & W3).
    eapply sat_mono; [by apply frames_printf| |done]. intros [] u (? & ? & U1 & U2 & U3).
    split_and!; [done|congruence|split_and!; congruence].
  - apply sat_bind. eapply sat_getj; [exact Hjv|]. apply sat_when; intros _; [|done].
    by apply (frames_setj i _ Hi tame_inactive).
Qed.

Lemma resume_fg_spec fuel i timeout s : jobs_ok (s_glob s) -> (i < MAX_JOBS)%nat -> s_alarm s = false ->
  sat (resume_fg fuel i timeout) s
    (fun r s' => r = 0 /\ jobs_ok (s_glob s') /\ s_masked s' = false /\ s_alarm s' = false /\
       s_fds s' = s_fds s)
    (fun e _ => e = OutOfFuel /\ (fuel <= size (s_kids s))%nat).
Proof.
  intros Hok Hi Hal. unfold resume_fg.
  destruct (lookup_lt_is_Some_2 (jobs s) i) as [j Hj]; [by rewrite (jobs_len _ Hok)|].
  apply sat_bind. eapply sat_getj; [exact Hj|].
  apply frames_bind; [apply frames_printf|done|]. intros s1 H1 K1 (F1 & _ & A1).
  apply frames_bind; [apply frames_give|done|]. intros s2 H2 K2 (F2 & _ & A2).
  apply frames_bind; [by apply frames_setj|done|]. intros s3 H3 K3 (F3 & _ & A3).
  apply sat_bind, sat_call. intros [r1 e1] ? [_ ->]. apply sat_bind, sat_modg.
  assert (Hgo : forall s4, s_glob s4 = set_alarm_fired false (s_glob s3) -> s_kids s4 = s_kids s ->
    s_fds s4 = s_fds s -> (s_alarm s4 = true -> 0 < timeout) ->
    sat (term_block_sigchld ;;;
         do* stopped := resume_wait fuel i in
         pwhen (0 <? timeout) (call (Alarm 0) ;;; call (Signal SIGALRM SIG_DFL)) ;;;
         resume_report i j stopped ;;; term_reclaim ;;; term_unblock_sigchld ;;; Ret 0) s4
      (fun r s' => r = 0 /\ jobs_ok (s_glob s') /\ s_masked s' = false /\ s_alarm s' = false /\
         s_fds s' = s_fds s)
      (fun e _ => e = OutOfFuel /\ (fuel <= size (s_kids s))%nat)).
  { intros s4 G4 K4 F4 A4. apply sat_bind, sat_call. intros [] ? ->. apply sat_bind.
    eapply sat_mono; [apply resume_wait_spec; [|done]| |].
    { simpl. rewrite G4. by apply jobs_ok_alarm. }
    2: { intros e u [-> Hf]. simpl in Hf. by rewrite K4 in Hf. }
    intros st s5 (H5 & F5 & _ & A5). simpl in F5, A5. apply sat_bind.
    assert (Hrest : forall s6, jobs_ok (s_glob s6) -> s_alarm s6 = false -> s_fds s6 = s_fds s5 ->
      sat (resume_report i j st ;;; term_reclaim ;;; term_unblock_sigchld ;;; Ret 0) s6
      (fun r s' => r = 0 /\ jobs_ok (s_glob s') /\ s_masked s' = false /\ s_alarm s' = false /\
         s_fds s' = s_fds s)
      (fun e _ => e = OutOfFuel /\ (fuel <= size (s_kids s))%nat)).
    { intros s6 H6 A6 F6. apply frames_bind; [by apply frames_report|done|]. intros s7 H7 _ (F7 & _ & A7).
      apply frames_bind; [apply frames_reclaim|done|]. intros s8 H8 _ (F8 & _ & A8).
      apply sat_bind, sat_call. intros [] ? ->. split_and!; try done; simpl; congruence. }
    apply sat_when; intros Et; [|apply Hrest; [done| |done]].
    - apply sat_bind, sat_call. intros [] ? ->. apply sat_call. intros [] ? ->. by apply Hrest.
    - bool_to_prop. rewrite A5. destruct (s_alarm s4); [|done]. specialize (A4 eq_refl). lia. }
  apply sat_bind, sat_when; intros Et; [|apply Hgo; simpl; [done|congruence|congruence|congruence]].
  bool_to_prop. apply sat_bind, sat_call. intros [] ? ->. apply sat_call. intros [] ? ->.
  apply Hgo; simpl; [done|congruence|congruence|done].
Qed.

Lemma resume_spec fuel args s : jobs_ok (s_glob s) -> s_masked s = false -> s_alarm s = false ->
  sat (resume_builtin fuel args) s
    (fun r s' => (r = 0 \/ r = -1) /\ jobs_ok (s_glob s') /\ s_masked s' = false /\
       s_alarm s' = false /\ s_fds s' = s_fds s)
    (fun e _ => e = OutOfFuel /\ (fuel <= size (s_kids s))%nat).
Proof.
  intros Hok Hm Hal.
  assert (Hfail : forall msg t, jobs_ok (s_glob t) -> s_masked t = false -> s_alarm t = false ->
    s_fds t = s_fds s -> sat (printf msg ;;; Ret (-1)) t
    (fun r s' => (r = 0 \/ r = -1) /\ jobs_ok (s_glob s') /\ s_masked s' = false /\
       s_alarm s' = false /\ s_fds s' = s_fds s)
    (fun e _ => e = OutOfFuel /\ (fuel <= size (s_kids s))%nat)).
  { intros msg t Ht Hmt Hat Hft. apply sat_bind, sat_printf. split_and!; try done. by right. }
  unfold resume_builtin. destruct args as [|a [|target [|b rest]]]; try by apply Hfail.
  destruct (negb _); [by apply Hfail|]. destruct (strtol (tail target)) as [n endp].
  destruct (_ || _)%bool; [by apply Hfail|]. destruct (resume_mode _) as [[bg t]|]; [|by apply Hfail].
  apply sat_bind. eapply sat_mono; [by apply job_sweep_spec| |done].
  intros _ s1 ((_ & _ & _ & Hf1 & Hm1 & Ha1 & Hk1 & _) & Hok1 & _).
  apply sat_bind, sat_getg. destruct (find_number _ (jobs s1)) as [[i j]|] eqn:E; simpl.
  2: { apply Hfail; [done|congruence..]. }
  apply list_find_Some in E as (Hi & _). pose proof (lookup_lt_Some _ _ _ Hi) as Hlt.
  rewrite (jobs_len _ Hok1) in Hlt. apply subseteq_size in Hk1. destruct bg.
  - unfold resume_bg. apply sat_bind. eapply sat_getj; [exact Hi|].
    apply sat_bind, sat_call. intros [r1 e1] ? [_ ->]. apply sat_bind. eapply sat_setj; [exact Hi|].
    apply sat_bind, sat_printf. split_and!; [by left| |simpl; congruence..].
    apply (jobs_ok_put i j); [done|done|apply tame_state].
  - eapply sat_mono; [apply (resume_fg_spec fuel i t s1); [done|done|congruence]| |].
    + intros r s' (-> & ? & ? & ? & ?). split_and!; try done; [by left|congruence].
    + intros e u [-> Hf]. split; [done|lia].
Qed.

(** C34.  [resume] comes back: a fuel above the number of unreaped children is
    enough for its wait loop, because each round reaps a child or ends it;
    when it returns, SIGCHLD is not blocked, no timer is armed and no
    descriptor has been opened or closed. *)
Theorem resume_returns fuel args s : jobs_ok (s_glob s) -> s_masked s = false -> s_alarm s = false ->
  (size (s_kids s) < fuel)%nat ->
  sat (resume_builtin fuel args) s
    (fun r s' => (r = 0 \/ r = -1) /\ jobs_ok (s_glob s') /\ s_masked s' = false /\
       s_alarm s' = false /\ s_fds s' = s_fds s) (fun _ _ => False).
Proof.
  intros Hok Hm Hal Hf. eapply sat_mono; [by apply resume_spec|done|]. intros e t [-> H]. lia.
Qed.
