(* ===== verification/Redirect.v ===== *)
(** * Redirection: [redirect.c]

    Opening the files of a command's redirections, and the two helper
    processes: the feeder that concatenates several inputs into a pipe and the
    distributor that copies a pipe to several outputs. *)

From stdpp Require Import base list gmap sets strings.
From Stdlib Require Import ZArith Lia Ascii.
From S2P Require Import Prelude ShellBase.

Open Scope Z_scope.

Definition BUFSIZE : nat := 4096.

(** ** The helper processes *)

(** [while (written < bytes_read) write(...)]; [false] when [stop w] ends it. *)
Fixpoint write_loop (stop : Z -> bool) (fuel : nat) (fd : Z) (data : list ascii) : prog bool :=
  match data with
  | [] => Ret true
  | _ :: _ =>
      match fuel with
      | O => NoFuel
      | S fuel' =>
          do* w := call (Write fd data) in
          if stop w then Ret false else write_loop stop fuel' fd (drop (Z.to_nat w) data)
      end
  end.

(** [goto feeder_cleanup] when [w <= 0]. *)
Definition feed_write (fd : Z) (data : list ascii) : prog bool :=
  write_loop (fun w => w <=? 0) (length data) fd data.

(** One input file; [false] is the [goto]. *)
Fixpoint feed_file (fuel : nat) (write_fd fd : Z) : prog bool :=
  match fuel with
  | O => NoFuel
  | S fuel' =>
      do* r := call (Read fd BUFSIZE) in
      match r with
      | None | Some [] => Ret true
      | Some data =>
          do* ok := feed_write write_fd data in
          if (ok : bool) then feed_file fuel' write_fd fd else Ret false
      end
  end.

(** The answer is the descriptors that are still open. *)
Fixpoint feed_files (fuel : nat) (write_fd : Z) (in_fds : list Z) : prog (list Z) :=
  match in_fds with
  | [] => Ret []
  | fd :: rest =>
      do* ok := feed_file fuel write_fd fd in
      if (ok : bool) then call (Close fd) ;;; feed_files fuel write_fd rest
      else Ret in_fds
  end.

Definition close_fd (fd : Z) : prog unit := pwhen (0 <=? fd) (call (Close fd)).

Definition run_feeder_child (fuel : nat) (write_fd : Z) (in_fds : list Z) : prog unit :=
  call (Signal SIGPIPE SIG_IGN) ;;;
  do* left := feed_files fuel write_fd in_fds in
  pfor left close_fd ;;;
  call (Close write_fd) ;;;
  Stop (Exited 0).

(** Write a buffer to one output; an error only ends this output's turn. *)
Definition dist_write (data : list ascii) (fd : Z) : prog unit :=
  do* _ := write_loop (fun w => w <? 0) (length data) fd data in Ret tt.

Fixpoint dist_loop (fuel : nat) (read_fd : Z) (out_fds : list Z) : prog unit :=
  match fuel with
  | O => NoFuel
  | S fuel' =>
      do* r := call (Read read_fd BUFSIZE) in
      match r with
      | None | Some [] => Ret tt
      | Some data => pfor out_fds (dist_write data) ;;; dist_loop fuel' read_fd out_fds
      end
  end.

Definition run_distributor_child (fuel : nat) (read_fd : Z) (out_fds : list Z) : prog unit :=
  call (Signal SIGPIPE SIG_IGN) ;;;
  dist_loop fuel read_fd out_fds ;;;
  pfor out_fds close_fd ;;;
  call (Close read_fd) ;;;
  Stop (Exited 0).

(** ** Setting up *)

Definition close_all (fds : list Z) : prog unit := pfor fds (fun fd => call (Close fd)).

(** Open the files in order; after a failure close those already open. *)
Fixpoint open_files (msg : str) (files : list (str * oflags)) (fds : list Z) : prog (option (list Z)) :=
  match files with
  | [] => Ret (Some fds)
  | (name, flags) :: rest =>
      do* fd := call (Open name flags) in
      if fd <? 0 then printf msg ;;; close_all fds ;;; Ret None
      else open_files msg rest (fds ++ [fd])
  end.

(** What a setup function leaves: its return value, the descriptor and the pid. *)
Record setup := mksetup { su_ret : Z; su_fd : Z; su_pid : Z }.

Definition setup_failed : setup := mksetup (-1) (-1) (-1).

(** The part both functions share, behind the opening of the files: one file
    is used as it is; for several, [child] runs in a process that holds its end
    of a pipe, and the other end is the descriptor. *)
Definition setup_helper (fds : list Z) (mine theirs : Z * Z -> Z) (child : Z -> prog unit) : prog setup :=
  match fds with
  | [] => Ret (mksetup 0 (-1) (-1))
  | [fd] => Ret (mksetup 0 fd (-1))
  | _ =>
      do* p := call Pipe in
      match p with
      | None => call (Perror (lit "pipe")) ;;; close_all fds ;;; Ret setup_failed
      | Some pp =>
          do* pid := call Fork in
          if pid <? 0 then
            call (Perror (lit "fork")) ;;;
            call (Close (fst pp)) ;;; call (Close (snd pp)) ;;;
            close_all fds ;;; Ret setup_failed
          else
            pwhen (pid =? 0) (call (Close (mine pp)) ;;; child (theirs pp)) ;;;
            close_all fds ;;;
            call (Close (theirs pp)) ;;;
            Ret (mksetup 0 (mine pp) pid)
      end
  end.

Definition NO_FILE : str := lit "cshell: no such file or directory" ++ [LF].

Definition NO_CREATE : str := lit "cshell: unable to create file for writing" ++ [LF].

Definition redirect_setup_input (fuel : nat) (input_files : list str) : prog setup :=
  match input_files with
  | [] => Ret (mksetup 0 (-1) (-1))
  | _ =>
      do* r := open_files NO_FILE (map (fun f => (f, O_RDONLY)) input_files) [] in
      match r with
      | None => Ret setup_failed
      | Some fds => setup_helper fds fst snd (fun w => run_feeder_child fuel w fds)
      end
  end.

Definition redirect_setup_output (fuel : nat) (output_files : list OutputRedir) : prog setup :=
  match output_files with
  | [] => Ret (mksetup 0 (-1) (-1))
  | _ =>
      do* r := open_files NO_CREATE (map (fun o => (filename o, O_WRITE (is_append o))) output_files) [] in
      match r with
      | None => Ret setup_failed
      | Some fds => setup_helper fds snd fst (fun r => run_distributor_child fuel r fds)
      end
  end.

(** ** Descriptors *)

(** Everything but descriptors, their contents and the output is the same. *)
Definition same_proc (s s' : sysst) : Prop :=
  s_glob s' = s_glob s /\ s_kids s' = s_kids s /\ s_masked s' = s_masked s /\ s_alarm s' = s_alarm s.

#[export] Instance same_proc_refl : Reflexive same_proc.
Proof. by intros s. Qed.

#[export] Instance same_proc_trans : Transitive same_proc.
Proof. intros s1 s2 s3 (? & ? & ? & ?) (? & ? & ? & ?). split_and!; congruence. Qed.

Lemma sat_close_all fds s (Q : unit -> sysst -> Prop) E :
  (forall s', same_proc s s' -> s_fds s' = s_fds s ∖ list_to_set fds -> Q tt s') ->
  sat (close_all fds) s Q E.
Proof.
  intros HQ. unfold close_all. apply (sat_pfor (fun n t => same_proc s t /\
    s_fds t = s_fds s ∖ list_to_set (take n fds))).
  - split; [done|]. rewrite take_0. set_solver.
  - intros n fd t Hn [Hs Ht]. apply sat_call. intros [] t' ->. split; [by etrans|]. simpl.
    rewrite Ht, (take_S_r _ _ fd) by done. set_solver.
  - intros t [Hs Ht]. apply HQ; [done|]. by rewrite Ht, firstn_all.
Qed.

(** [fds] are open besides [X]. *)
Definition opened (X : gset Z) (fds : list Z) (s : sysst) : Prop :=
  s_fds s = list_to_set fds ∪ X /\ (forall fd, fd ∈ fds -> (fd ∉ X) /\ 0 <= fd).

Lemma opened_close X fds s : opened X fds s -> s_fds s ∖ list_to_set fds = X.
Proof.
  intros [-> H]. apply set_eq. intros x. rewrite elem_of_difference, elem_of_union, elem_of_list_to_set.
  split; [naive_solver|]. intros Hx. split; [by right|]. intros Hin. by destruct (H x Hin).
Qed.

Lemma open_files_spec msg files fds X s : opened X fds s ->
  sat (open_files msg files fds) s (fun r s' => same_proc s s' /\
    match r with
    | None => s_fds s' = X
    | Some fds' => opened X fds' s' /\ length fds' = (length fds + length files)%nat
    end) (fun _ _ => False).
Proof.
  revert fds s. induction files as [|[name fl] files IH]; intros fds s Ho; cbn [open_files].
  - split; [done|]. split; [done|simpl; lia].
  - apply sat_bind, sat_call. intros fd t [[-> ->]|(Hge & Hni & content & ->)].
    + simpl. apply sat_bind, sat_call. intros [] u ->. apply sat_bind, sat_close_all.
      intros v Hv Hf. simpl in Hf. split; [done|]. rewrite Hf. by apply opened_close.
    + destruct (fd <? 0) eqn:E; [bool_to_prop; lia|].
      eapply sat_mono; [apply IH| |done].
      * destruct Ho as [Hs Hx]. split; simpl.
        -- rewrite Hs, list_to_set_app_L. set_solver.
        -- intros x [Hin| ->%list_elem_of_singleton]%elem_of_app; [by apply Hx|].
           split; [|done]. rewrite Hs in Hni. set_solver.
      * intros r u [Hu Hr]. split; [done|]. destruct r as [fds'|]; [|done].
        destruct Hr as [? Hl]. split; [done|]. rewrite Hl, length_app. simpl. lia.
Qed.

(** What a setup may leave behind in the shell itself. *)
Definition setup_post (n : nat) (s : sysst) (r : setup) (s' : sysst) : Prop :=
  s_glob s' = s_glob s /\ s_masked s' = s_masked s /\ s_alarm s' = s_alarm s /\
  ((r = setup_failed /\ s_fds s' = s_fds s /\ s_kids s' = s_kids s) \/
   (n = 0%nat /\ r = mksetup 0 (-1) (-1) /\ s_fds s' = s_fds s /\ s_kids s' = s_kids s) \/
   (n = 1%nat /\ su_ret r = 0 /\ su_pid r = -1 /\ 0 <= su_fd r /\ su_fd r ∉ s_fds s /\
    s_fds s' = {[su_fd r]} ∪ s_fds s /\ s_kids s' = s_kids s) \/
   ((2 <= n)%nat /\ su_ret r = 0 /\ 0 < su_pid r /\ su_pid r ∉ s_kids s /\ 0 <= su_fd r /\
    su_fd r ∉ s_fds s /\ s_fds s' = {[su_fd r]} ∪ s_fds s /\ s_kids s' = {[su_pid r]} ∪ s_kids s)).

(** A process that ends without returning to the shell's code. *)
Definition ends (m : prog unit) : Prop := forall s,
  sat m s (fun _ _ => False) (fun e _ => e = Exited 0 \/ e = OutOfFuel).

Lemma setup_helper_spec fds mine theirs child X s :
  (forall p, (mine p = fst p /\ theirs p = snd p) \/ (mine p = snd p /\ theirs p = fst p)) ->
  (forall fd, ends (child fd)) -> opened X fds s ->
  sat (setup_helper fds mine theirs child) s
    (fun r s' => setup_post (length fds) (set_fds X s) r s')
    (fun e _ => e = Exited 0 \/ e = OutOfFuel).
Proof.
  intros Hmt Hchild Ho. destruct fds as [|fd1 [|fd2 fds']]; cbn [setup_helper].
  - destruct Ho as [Hs _]. simpl in Hs. split_and!; try done. right; left. split_and!; try done.
    simpl. rewrite Hs. set_solver.
  - destruct Ho as [Hs Hx]. destruct (Hx fd1) as [H1 H2]; [by left|].
    split_and!; try done. right; right; left. split_and!; try done. simpl. rewrite Hs. set_solver.
  - assert (Hlen : (2 <= length (fd1 :: fd2 :: fds'))%nat) by (simpl; lia).
    set (fds := fd1 :: fd2 :: fds') in *. clearbody fds.
    assert (Hdiff : forall Y, s_fds s ⊆ Y -> Y ∖ list_to_set fds = (Y ∖ s_fds s) ∪ X).
    { intros Y HY. destruct Ho as [Hs Hx]. rewrite Hs in *. apply set_eq. intros x.
      specialize (Hx x). rewrite !elem_of_union, !elem_of_difference, !elem_of_union, !elem_of_list_to_set in *.
      assert (Hm : x ∈ X -> x ∈ Y) by set_solver. destruct (decide (x ∈ fds)), (decide (x ∈ X)); naive_solver. }
    apply sat_bind, sat_call. intros p t [[-> ->]|(a & b & -> & Ha & Hb & Hab & Hna & Hnb & ->)].
    + apply sat_bind, sat_call. intros [] u ->. apply sat_bind, sat_close_all. intros v (Hv & Hk & Hm & Hal) Hf.
      split_and!; try done. left. split_and!; try done. rewrite Hf. simpl. by apply opened_close.
    + apply sat_bind, sat_call. intros pid t Ht.
      assert (HX : a ∉ X /\ b ∉ X) by (destruct Ho as [Hs _]; rewrite Hs in Hna, Hnb; set_solver).
      destruct Ht as [[-> ->]|[[-> ->]|(Hpos & Hnk & ->)]].
      * simpl. apply sat_bind, sat_call. intros [] u ->. do 2 (apply sat_bind, sat_call; intros [] ? ->).
        apply sat_bind, sat_close_all. intros v (Hv & Hk & Hm & Hal) Hf. split_and!; try done.
        left. split_and!; try done. rewrite Hf. simpl. rewrite <- (opened_close X fds s Ho). set_solver.
      * simpl. apply sat_bind, sat_bind, sat_call. intros [] u ->.
        eapply sat_mono; [apply Hchild|done|done].
      * rewrite (proj2 (Z.ltb_ge pid 0)), (proj2 (Z.eqb_neq pid 0)) by lia. simpl.
        apply sat_bind. apply sat_bind, sat_close_all. intros v (Hv & Hk & Hm & Hal) Hf. simpl in *.
        apply sat_bind, sat_call. intros [] u ->. split_and!; try done. right; right; right.
        simpl. rewrite Hf, Hk. rewrite Hdiff by set_solver.
        destruct (Hmt (a, b)) as [[-> ->]|[-> ->]]; simpl; split_and!; try done; try lia; try set_solver.
Qed.

(** ** The feeder and the distributor *)

Definition wrote (s : sysst) (fd : Z) : list ascii := default [] (s_written s !! fd).

Definition unread (s : sysst) (fd : Z) : list ascii := default [] (s_in s !! fd).

(** [s'] is [s] after [data] went to [fd], if no call has failed since. *)
Definition wrote_to (fd : Z) (data : list ascii) (s s' : sysst) : Prop :=
  s_in s' = s_in s /\ s_fds s' = s_fds s /\ (s_ioerr s = true -> s_ioerr s' = true) /\
  (forall fd', fd' <> fd -> s_written s' !! fd' = s_written s !! fd') /\
  (s_ioerr s' = false -> wrote s' fd = wrote s fd ++ data).

Lemma write_loop_spec stop fuel fd data s : stop (-1) = true -> (forall w, 0 < w -> stop w = false) ->
  (length data <= fuel)%nat ->
  sat (write_loop stop fuel fd data) s (fun ok s' => wrote_to fd data s s' /\
    (s_ioerr s' = false -> ok = true)) (fun _ _ => False).
Proof.
  intros Hs1 Hs2. revert data s. induction fuel as [|fuel IH]; intros [|c data] s Hf; simpl in Hf; try lia.
  - split; [|done]. split_and!; try done. intros _. by rewrite app_nil_r.
  - split; [|done]. split_and!; try done. intros _. by rewrite app_nil_r.
  - cbn [write_loop]. apply sat_bind, sat_call. intros w t [[-> ->]|(Hw & Hpos & ->)].
    + rewrite Hs1. split; [|done]. by split_and!.
    + specialize (Hpos ltac:(done)). rewrite Hs2 by done.
      eapply sat_mono; [apply IH; rewrite length_drop; simpl; lia| |done].
      intros ok u [(H1 & H2 & H3 & H4 & H5) Hok]. split; [|done]. split_and!; try done.
      * intros fd' Hne. rewrite H4 by done. simpl. by rewrite lookup_insert_ne.
      * intros He. rewrite H5 by done. unfold wrote at 1. simpl. rewrite lookup_insert_eq. simpl.
        rewrite <- app_assoc. by rewrite take_drop.
Qed.

(** The state after [data] was read from [fd] and written to [wfd]. *)
Definition copied (wfd fd : Z) (data : list ascii) (s s' : sysst) : Prop :=
  (s_ioerr s = true -> s_ioerr s' = true) /\
  (forall fd', fd' <> fd -> s_in s' !! fd' = s_in s !! fd') /\
  (forall fd', fd' <> wfd -> s_written s' !! fd' = s_written s !! fd') /\
  (s_ioerr s' = false -> wrote s' wfd = wrote s wfd ++ data).

Lemma feed_file_spec fuel wfd fd s : (length (unread s fd) < fuel)%nat ->
  sat (feed_file fuel wfd fd) s (fun ok s' => s_fds s' = s_fds s /\ copied wfd fd (unread s fd) s s' /\
    (s_ioerr s' = false -> ok = true)) (fun _ _ => False).
Proof.
  revert s. induction fuel as [|fuel IH]; intros s Hf; [lia|]. cbn [feed_file].
  apply sat_bind, sat_call. intros r t [[-> ->]|(k & -> & Hk & Hk0 & ->)]; fold (unread s fd) in *.
  { split; [done|]. split; [|done]. by split_and!. }
  destruct (take k (unread s fd)) as [|c chunk] eqn:Ec.
  { assert (Hnil : unread s fd = []).
    { destruct k; [by apply Hk0|]. by destruct (unread s fd). }
    split; [done|]. split; [|done]. split_and!; try done.
    - intros fd' Hne. simpl. by rewrite lookup_insert_ne.
    - intros _. by rewrite Hnil, app_nil_r. }
  apply sat_bind. eapply sat_mono; [apply write_loop_spec; [done| |done]| |done].
  { intros w Hw. apply Z.leb_gt. lia. }
  intros ok u [(H1 & H2 & H3 & H4 & H5) Hok].
  assert (Hu : unread u fd = drop k (unread s fd)).
  { unfold unread at 1. rewrite H1. simpl. by rewrite lookup_insert_eq. }
  assert (Hl : (length (drop k (unread s fd)) < length (unread s fd))%nat).
  { rewrite <- (take_drop k (unread s fd)) at 2. rewrite Ec, length_app. simpl. lia. }
  destruct ok.
  - eapply sat_mono; [apply IH; rewrite Hu; lia| |done].
    intros ok v (G0 & (G1 & G2 & G3 & G4) & Gok). split; [by rewrite G0, H2|]. split; [|done].
    split_and!; [by auto| | |].
    + intros fd' Hne. rewrite G2, H1 by done. simpl. by rewrite lookup_insert_ne.
    + intros fd' Hne. by rewrite G3, H4.
    + intros He. rewrite G4 by done. rewrite H5 by (destruct (s_ioerr u); [by rewrite G1 in He|done]).
      rewrite Hu, <- app_assoc, <- Ec, take_drop. done.
  - split; [by rewrite H2|]. split; [|by intros He; specialize (Hok He)]. split_and!; [done| |done|].
    + intros fd' Hne. rewrite H1. simpl. by rewrite lookup_insert_ne.
    + intros He. by specialize (Hok He).
Qed.

Lemma feed_files_spec fuel wfd fds s : NoDup fds ->
  (forall fd, fd ∈ fds -> (length (unread s fd) < fuel)%nat) ->
  sat (feed_files fuel wfd fds) s (fun left s' =>
    (exists closed, fds = closed ++ left /\ s_fds s' = s_fds s ∖ list_to_set closed) /\
    (s_ioerr s = true -> s_ioerr s' = true) /\
    (s_ioerr s' = false -> wrote s' wfd = wrote s wfd ++ concat (map (unread s) fds))) (fun _ _ => False).
Proof.
  revert s. induction fds as [|fd fds IH]; intros s Hnd Hf; cbn [feed_files].
  { split_and!; [exists []; split; [done|set_solver]|done|]. intros _. simpl. by rewrite app_nil_r. }
  apply NoDup_cons in Hnd as [Hni Hnd].
  apply sat_bind. eapply sat_mono; [apply feed_file_spec, Hf; by left| |done].
  intros ok t (H0 & (H1 & H2 & H3 & H4) & Hok).
  assert (Hun : map (unread t) fds = map (unread s) fds).
  { apply map_ext_in. intros fd' Hin%list_elem_of_In. unfold unread. rewrite H2; [done|]. by intros ->. }
  destruct ok.
  2: { split_and!; [exists []; split; [done|set_solver]|done|]. intros He. by specialize (Hok He). }
  apply sat_bind, sat_call. intros [] u ->. eapply sat_mono; [apply IH; [done|]| |done].
  { intros fd' Hin. change (unread (set_fds _ t) fd') with (unread t fd').
    replace (unread t fd') with (unread s fd'); [apply Hf; by right|].
    unfold unread. rewrite H2; [done|]. by intros ->. }
  intros left v ((closed & -> & Hc) & Hio & Hv). cbn [s_fds set_fds s_ioerr] in *.
  split_and!; [|by auto|].
  - exists (fd :: closed). split; [done|]. rewrite Hc, H0. set_solver.
  - intros He. rewrite Hv by done. simpl. change (wrote (set_fds _ t) wfd) with (wrote t wfd).
    change (unread (set_fds (s_fds t ∖ {[fd]}) t)) with (unread t).
    rewrite H4 by (destruct (s_ioerr t); [by rewrite Hio in He|done]).
    by rewrite Hun, app_assoc.
Qed.

Lemma sat_close_left left s (Q : unit -> sysst -> Prop) E : (forall fd, fd ∈ left -> 0 <= fd) ->
  (forall s', s_written s' = s_written s -> s_ioerr s' = s_ioerr s ->
     s_fds s' = s_fds s ∖ list_to_set left -> Q tt s') ->
  sat (pfor left close_fd) s Q E.
Proof.
  intros Hge HQ. apply (sat_pfor (fun n t => s_written t = s_written s /\ s_ioerr t = s_ioerr s /\
    s_fds t = s_fds s ∖ list_to_set (take n left))).
  - split_and!; try done. rewrite take_0. set_solver.
  - intros n fd t Hn (Hw & Hi & Ht). unfold close_fd.
    rewrite (proj2 (Z.leb_le 0 fd)) by (apply Hge; by eapply list_elem_of_lookup_2).
    apply sat_call. intros [] t' ->. split_and!; try done. simpl.
    rewrite Ht, (take_S_r _ _ fd) by done. set_solver.
  - intros t (Hw & Hi & Ht). apply HQ; try done. by rewrite Ht, firstn_all.
Qed.

(** The feeder ends with status 0 having closed its descriptors, and if
    no read or write has failed it has written the concatenation of the inputs
    to the pipe, however the system cuts the transfers. *)
Theorem feeder_concatenates fuel wfd in_fds s : NoDup in_fds -> (forall fd, fd ∈ in_fds -> 0 <= fd) ->
  (forall fd, fd ∈ in_fds -> (length (unread s fd) < fuel)%nat) ->
  sat (run_feeder_child fuel wfd in_fds) s (fun _ _ => False) (fun e s' => e = Exited 0 /\
    s_fds s' = s_fds s ∖ list_to_set in_fds ∖ {[wfd]} /\
    (s_ioerr s' = false -> wrote s' wfd = wrote s wfd ++ concat (map (unread s) in_fds))).
Proof.
  intros Hnd Hge Hf. unfold run_feeder_child. apply sat_bind, sat_call. intros [] t ->. apply sat_bind.
  eapply sat_mono; [by apply feed_files_spec| |done].
  intros left t ((closed & -> & Hc) & _ & Hw). apply sat_bind, sat_close_left.
  { intros fd Hin. apply Hge. apply elem_of_app. by right. }
  intros u Hwu Hiu Hfu. apply sat_bind, sat_call. intros [] v ->. split_and!; [done| |].
  - simpl. rewrite Hfu, Hc, list_to_set_app_L. set_solver.
  - simpl. rewrite Hiu. intros He. unfold wrote at 1. simpl. rewrite Hwu. by apply Hw.
Qed.

(** What the distributor has done with [data]. *)
Definition spread (fds : list Z) (data : list ascii) (s s' : sysst) : Prop :=
  s_in s' = s_in s /\ s_fds s' = s_fds s /\ (s_ioerr s = true -> s_ioerr s' = true) /\
  (s_ioerr s' = false -> forall fd, wrote s' fd = wrote s fd ++ if bool_decide (fd ∈ fds) then data else []).

Lemma dist_write_spec data fds s : NoDup fds ->
  sat (pfor fds (dist_write data)) s (fun _ s' => spread fds data s s') (fun _ _ => False).
Proof.
  intros Hnd. apply (sat_pfor (fun n t => spread (take n fds) data s t)).
  - split_and!; try done. intros _ fd. rewrite take_0, bool_decide_false by apply not_elem_of_nil.
    by rewrite app_nil_r.
  - intros n fd t Hn (H1 & H2 & H3 & H4). unfold dist_write. apply sat_bind.
    eapply sat_mono; [apply write_loop_spec; [done| |done]| |done].
    { intros w Hw. apply Z.ltb_ge. lia. }
    intros _ u [(G1 & G2 & G3 & G4 & G5) _]. split_and!; [congruence|congruence|by auto|].
    intros He fd'. assert (Het : s_ioerr t = false) by (destruct (s_ioerr t); [by rewrite G3 in He|done]).
    assert (Hni : fd ∉ take n fds).
    { intros Hin. apply list_elem_of_lookup in Hin as [k Hk]. apply lookup_take_Some in Hk as [Hk Hlt].
      pose proof (NoDup_lookup _ _ _ _ Hnd Hk Hn). lia. }
    rewrite (take_S_r _ _ fd) by done. destruct (decide (fd' = fd)) as [->|Hne].
    + rewrite G5, H4 by done. rewrite bool_decide_false by done.
      rewrite bool_decide_true by (apply elem_of_app; right; by left). by rewrite app_nil_r.
    + unfold wrote at 1. rewrite G4 by done. fold (wrote t fd'). rewrite H4 by done. f_equal.
      rewrite (bool_decide_ext (fd' ∈ take n fds ++ [fd]) (fd' ∈ take n fds)); [done|].
      rewrite elem_of_app, list_elem_of_singleton. naive_solver.
  - intros t. by rewrite firstn_all.
Qed.

Lemma dist_loop_spec fuel rfd fds s : NoDup fds -> (length (unread s rfd) < fuel)%nat ->
  sat (dist_loop fuel rfd fds) s (fun _ s' => s_fds s' = s_fds s /\
    (s_ioerr s = true -> s_ioerr s' = true) /\
    (s_ioerr s' = false -> forall fd, fd ∈ fds -> wrote s' fd = wrote s fd ++ unread s rfd)) (fun _ _ => False).
Proof.
  intros Hnd. revert s. induction fuel as [|fuel IH]; intros s Hf; [lia|]. cbn [dist_loop].
  apply sat_bind, sat_call. intros r t [[-> ->]|(k & -> & Hk & Hk0 & ->)]; fold (unread s rfd) in *.
  { by split_and!. }
  destruct (take k (unread s rfd)) as [|c chunk] eqn:Ec.
  { assert (Hnil : unread s rfd = []).
    { destruct k; [by apply Hk0|]. by destruct (unread s rfd). }
    split_and!; try done. intros _ fd _. by rewrite Hnil, app_nil_r. }
  apply sat_bind. eapply sat_mono; [by apply dist_write_spec| |done].
  intros _ u (H1 & H2 & H3 & H4).
  assert (Hu : unread u rfd = drop k (unread s rfd)).
  { unfold unread at 1. rewrite H1. simpl. by rewrite lookup_insert_eq. }
  assert (Hl : (length (drop k (unread s rfd)) < length (unread s rfd))%nat).
  { rewrite <- (take_drop k (unread s rfd)) at 2. rewrite Ec, length_app. simpl. lia. }
  eapply sat_mono; [apply IH; rewrite Hu; lia| |done].
  intros _ v (G0 & G1 & G2). split_and!; [by rewrite G0, H2|by auto|].
  intros He fd Hin. rewrite G2 by done. rewrite H4 by (destruct (s_ioerr u); [by rewrite G1 in He|done]).
  rewrite bool_decide_true by done. rewrite Hu, <- app_assoc, <- Ec, take_drop. done.
Qed.

(** C39.  The distributor ends with status 0 having closed its descriptors,
    and if no read or write has failed every output has received the whole
    input. *)
Theorem distributor_copies fuel rfd out_fds s : NoDup out_fds -> (forall fd, fd ∈ out_fds -> 0 <= fd) ->
  (length (unread s rfd) < fuel)%nat ->
  sat (run_distributor_child fuel rfd out_fds) s (fun _ _ => False) (fun e s' => e = Exited 0 /\
    s_fds s' = s_fds s ∖ list_to_set out_fds ∖ {[rfd]} /\
    (s_ioerr s' = false -> forall fd, fd ∈ out_fds -> wrote s' fd = wrote s fd ++ unread s rfd)).
Proof.
  intros Hnd Hge Hf. unfold run_distributor_child. apply sat_bind, sat_call. intros [] t ->.
  apply sat_bind. eapply sat_mono; [by apply dist_loop_spec| |done].
  intros _ t (Hft & _ & Hw). apply sat_bind, sat_close_left; [done|].
  intros u Hwu Hiu Hfu. apply sat_bind, sat_call. intros [] v ->. split_and!; [done| |].
  - simpl. by rewrite Hfu, Hft.
  - simpl. rewrite Hiu. intros He fd Hin. unfold wrote at 1. simpl. rewrite Hwu. by apply Hw.
Qed.

(** *** The helpers never return to the shell's code *)

(** [m] returns, or runs out of fuel. *)
Definition harmless {A} (m : prog A) : Prop := forall s,
  sat m s (fun _ _ => True) (fun e _ => e = OutOfFuel).

Lemma harmless_write stop fuel fd data : harmless (write_loop stop fuel fd data).
Proof.
  revert data. induction fuel as [|fuel IH]; intros [|c data] s; cbn [write_loop]; try done.
  apply sat_bind, sat_call. intros w t _. destruct (stop w); [done|apply IH].
Qed.

Lemma harmless_bind {A B} (m : prog A) (f : A -> prog B) :
  harmless m -> (forall a, harmless (f a)) -> harmless (pbind m f).
Proof. intros Hm Hf s. apply sat_bind. eapply sat_mono; [apply Hm|intros a t _; apply Hf|done]. Qed.

Lemma harmless_call {X} (c : sys X) : harmless (call c).
Proof. by intros s x t _. Qed.

Lemma harmless_pfor {A} (l : list A) body : (forall x, harmless (body x)) -> harmless (pfor l body).
Proof. intros H. induction l as [|x l IH]; [by intros s|]. cbn [pfor]. by apply harmless_bind. Qed.

Lemma harmless_close_fd fd : harmless (close_fd fd).
Proof. intros s. apply sat_when; intros _; [apply harmless_call|done]. Qed.

Lemma harmless_feed fuel wfd fds : harmless (feed_files fuel wfd fds).
Proof.
  assert (Hfile : forall fd, harmless (feed_file fuel wfd fd)).
  { intros fd. induction fuel as [|fuel' IH]; [by intros s|]. cbn [feed_file].
    apply harmless_bind; [apply harmless_call|]. intros [[|c data]|]; [by intros s| |by intros s].
    apply harmless_bind; [apply harmless_write|]. intros [|]; [apply IH|by intros s]. }
  induction fds as [|fd fds IH]; [by intros s|]. cbn [feed_files].
  apply harmless_bind; [apply Hfile|]. intros [|]; [|by intros s].
  apply harmless_bind; [apply harmless_call|done].
Qed.

Lemma harmless_dist fuel rfd fds : harmless (dist_loop fuel rfd fds).
Proof.
  induction fuel as [|fuel IH]; [by intros s|]. cbn [dist_loop].
  apply harmless_bind; [apply harmless_call|]. intros [[|c data]|]; [by intros s| |by intros s].
  apply harmless_bind; [|done]. apply harmless_pfor. intros fd.
  apply harmless_bind; [apply harmless_write|by intros ? s].
Qed.

Lemma ends_after {A} (m : prog A) (f : A -> prog unit) : harmless m -> (forall a, ends (f a)) -> ends (pbind m f).
Proof.
  intros Hm Hf s. apply sat_bind. eapply sat_mono; [apply Hm|intros a t _; apply Hf|by intros e t ->; right].
Qed.

Lemma ends_feeder fuel wfd fds : ends (run_feeder_child fuel wfd fds).
Proof.
  apply ends_after; [apply harmless_call|intros _]. apply ends_after; [apply harmless_feed|intros left].
  apply ends_after; [apply harmless_pfor, harmless_close_fd|intros _].
  apply ends_after; [apply harmless_call|]. intros _ s. by left.
Qed.

Lemma ends_distributor fuel rfd fds : ends (run_distributor_child fuel rfd fds).
Proof.
  apply ends_after; [apply harmless_call|intros _]. apply ends_after; [apply harmless_dist|intros _].
  apply ends_after; [apply harmless_pfor, harmless_close_fd|intros _].
  apply ends_after; [apply harmless_call|]. intros _ s. by left.
Qed.

(** ** The two setup functions *)

Lemma opened_none s : opened (s_fds s) [] s.
Proof. split; [set_solver|]. by intros fd ?%not_elem_of_nil. Qed.

Lemma setup_files_spec msg files mine theirs (child : list Z -> Z -> prog unit) s :
  files <> [] ->
  (forall p, (mine p = fst p /\ theirs p = snd p) \/ (mine p = snd p /\ theirs p = fst p)) ->
  (forall fds fd, ends (child fds fd)) ->
  sat (do* r := open_files msg files [] in
       match r with
       | None => Ret setup_failed
       | Some fds => setup_helper fds mine theirs (child fds)
       end) s (fun r s' => setup_post (length files) s r s') (fun e _ => e = Exited 0 \/ e = OutOfFuel).
Proof.
  intros Hne Hmt Hc. apply sat_bind. eapply sat_mono; [apply (open_files_spec _ _ _ _ _ (opened_none s))| |done].
  intros [fds|] t [(Hg & Hk & Hm & Ha) Hr].
  - destruct Hr as [Ho Hl]. simpl in Hl. eapply sat_mono; [by apply setup_helper_spec| |done].
    intros r u (Hg' & Hm' & Ha' & Hu). simpl in *. rewrite Hl in Hu.
    split_and!; [congruence..|]. rewrite Hk in Hu. exact Hu.
  - split_and!; try done. left. by split_and!.
Qed.

Lemma redirect_input_spec fuel files s :
  sat (redirect_setup_input fuel files) s (fun r s' => setup_post (length files) s r s')
    (fun e _ => e = Exited 0 \/ e = OutOfFuel).
Proof.
  destruct files as [|f files]; [split_and!; try done; right; left; by split_and!|].
  unfold redirect_setup_input. rewrite <- (length_map (fun f => (f, O_RDONLY)) (f :: files)).
  apply (setup_files_spec NO_FILE _ fst snd (fun fds w => run_feeder_child fuel w fds)); [done|by left|].
  intros. apply ends_feeder.
Qed.

Lemma redirect_output_spec fuel files s :
  sat (redirect_setup_output fuel files) s (fun r s' => setup_post (length files) s r s')
    (fun e _ => e = Exited 0 \/ e = OutOfFuel).
Proof.
  destruct files as [|f files]; [split_and!; try done; right; left; by split_and!|].
  unfold redirect_setup_output.
  rewrite <- (length_map (fun o => (filename o, O_WRITE (is_append o))) (f :: files)).
  apply (setup_files_spec NO_CREATE _ snd fst (fun fds r => run_distributor_child fuel r fds)); [done|by right|].
  intros. apply ends_distributor.
Qed.

