(* ===== verification/Pipes.v ===== *)
(** * Pipelines: [pipes.c], and the path search of [executor.c]

    Starting the commands of a pipeline, in the shell and in each child, and
    waiting for them or registering them as a job. *)

From stdpp Require Import base list gmap sets strings.
From Stdlib Require Import ZArith Lia Ascii.
From S2P Require Import Prelude ShellBase Jobs JobFacts JobBuiltins JobTheorems Redirect.

Open Scope Z_scope.

(** ** The builtins

    The builtins this development does not go into are operations of this
    class.  What the shell relies on is that a builtin returns, keeps the job
    table, and leaves descriptors, children and the signal mask as they were. *)

Class builtins := {
  hop_builtin : list str -> prog Z;
  reveal_builtin : list str -> prog Z;
  peek_builtin : list str -> prog Z;
  locate_builtin : list str -> prog Z;
  spy_builtin : list str -> prog Z;
  snoop_builtin : list str -> prog Z
}.

(** ** [executor_resolve_path] *)

Definition is_executable (path : str) : prog bool :=
  do* st := call (Stat path) in
  match st with
  | None | Some IsDir => Ret false
  | Some (NotDir _) => call (AccessX path)
  end.

Definition SLASH : ascii := "/".

Definition join_path (dir name : str) : str :=
  if bool_decide (last dir = Some SLASH) then dir ++ name else dir ++ [SLASH] ++ name.

(** [strtok_r(path, ":", ...)]: the non-empty pieces. *)
Fixpoint split_colon (s cur : str) : list str :=
  match s with
  | [] => if bool_decide (cur = []) then [] else [cur]
  | c :: s' =>
      if bool_decide (c = ":"%char) then
        if bool_decide (cur = []) then split_colon s' [] else cur :: split_colon s' []
      else split_colon s' (cur ++ [c])
  end.

(** The first candidate that is executable. *)
Fixpoint first_executable (candidates : list str) : prog (option str) :=
  match candidates with
  | [] => Ret None
  | c :: rest =>
      do* ok := is_executable c in
      if (ok : bool) then Ret (Some c) else first_executable rest
  end.

Definition search_path (name : str) : prog (option str) :=
  do* path := call (Getenv (lit "PATH")) in
  match path with
  | None => Ret None
  | Some p => first_executable (map (fun d => join_path d name) (split_colon p []))
  end.

Definition executor_resolve_path (raw : str) : prog (option str) :=
  let force := bool_decide (hd0 raw = "%"%char) in
  let name := if force then tail raw else raw in
  if (negb force && bool_decide (SLASH ∈ name))%bool then
    do* ok := is_executable name in
    Ret (if (ok : bool) then Some name else None)
  else if negb force then
    do* cwd := call Getcwd in
    match cwd with
    | None => search_path name
    | Some dir =>
        do* ok := is_executable (join_path dir name) in
        if (ok : bool) then Ret (Some (join_path dir name)) else search_path name
    end
  else search_path name.

Section Pipes.

Context {bi : builtins}.

(** The fuel of the loops that depend on the system: the helpers' copying and
    the waiting of [resume]. *)
Variable fuel : nat.

(** [raw_name[0] == '%' ? raw_name + 1 : raw_name] *)
Definition strip_percent (raw : str) : str :=
  if bool_decide (hd0 raw = "%"%char) then tail raw else raw.

Definition builtin_names : list str :=
  map lit ["hop"; "reveal"; "peek"; "locate"; "exit"; "activities"; "resume"; "ping"; "spy"; "snoop"]%string.

Definition is_builtin (name : str) : bool := bool_decide (name ∈ builtin_names).

(** The builtins that can run in a child or in the shell; [None] for [exit]
    and for other names. *)
Definition run_builtin (name : str) (args : list str) : option (prog Z) :=
  if streq name (lit "hop") then Some (hop_builtin args) else
  if streq name (lit "reveal") then Some (reveal_builtin args) else
  if streq name (lit "peek") then Some (peek_builtin args) else
  if streq name (lit "locate") then Some (locate_builtin args) else
  if streq name (lit "activities") then Some (activities_builtin args) else
  if streq name (lit "resume") then Some (resume_builtin fuel args) else
  if streq name (lit "ping") then Some (ping_builtin args) else
  if streq name (lit "spy") then Some (spy_builtin args) else
  if streq name (lit "snoop") then Some (snoop_builtin args) else None.

(** ** The child of one command *)

Definition dup2_or_die (fd target : Z) : prog unit :=
  do* r := call (Dup2 fd target) in
  if r <? 0 then call (Perror (lit "dup2")) ;;; Stop (Exited 1) else Ret tt.

Definition close_pipes (pipe_fds : list (Z * Z)) : prog unit :=
  pfor pipe_fds (fun p => call (Close (fst p)) ;;; call (Close (snd p))).

Definition child_stdin (i : nat) (is_bg : bool) (in_fd : Z) (pipe_fds : list (Z * Z)) : prog unit :=
  pwhen (is_bg && (in_fd <? 0) && (i =? 0)%nat)%bool (
    do* devnull := call (Open (lit "/dev/null") O_RDONLY) in
    pwhen (0 <=? devnull) (call (Dup2 devnull STDIN_FILENO) ;;; call (Close devnull))) ;;;
  if 0 <=? in_fd then dup2_or_die in_fd STDIN_FILENO ;;; call (Close in_fd)
  else if (0 <? i)%nat then
    match pipe_fds !! (i - 1)%nat with
    | Some p => dup2_or_die (fst p) STDIN_FILENO
    | None => Crash
    end
  else Ret tt.

Definition child_stdout (i num_cmds : nat) (out_fd : Z) (pipe_fds : list (Z * Z)) : prog unit :=
  if 0 <=? out_fd then dup2_or_die out_fd STDOUT_FILENO ;;; call (Close out_fd)
  else if (i <? num_cmds - 1)%nat then
    match pipe_fds !! i with
    | Some p => dup2_or_die (snd p) STDOUT_FILENO
    | None => Crash
    end
  else Ret tt.

(** What the child runs in the end. *)
Definition child_exec (name : str) (args : list str) (path : str) : prog unit :=
  match run_builtin name args with
  | Some m => do* status := m in Stop (Exited (if status =? 0 then 0 else 1))
  | None =>
      if streq name (lit "exit") then Stop (Exited 0) else
      do* ok := call (Execv path args) in
      if (ok : bool) then Stop (Execed path args)
      else call (Perror (lit "execv")) ;;; Stop (Exited 1)
  end.

Definition child_main (i num_cmds : nat) (is_bg : bool) (in_fd out_fd pg : Z) (pipe_fds : list (Z * Z))
    (name : str) (args : list str) (path : str) : prog unit :=
  call (Setpgid 0 (if (i =? 0)%nat then 0 else pg)) ;;;
  call (Signal SIGINT SIG_DFL) ;;;
  call (Signal SIGTSTP SIG_DFL) ;;;
  call (Signal SIGTTOU SIG_DFL) ;;;
  call (Signal SIGTTIN SIG_DFL) ;;;
  call (Signal SIGCHLD SIG_DFL) ;;;
  term_unblock_sigchld ;;;
  child_stdin i is_bg in_fd pipe_fds ;;;
  child_stdout i num_cmds out_fd pipe_fds ;;;
  close_pipes pipe_fds ;;;
  child_exec name args path.

(** ** The shell's loop over the commands *)

(** The variables of the loop; [px_cmds] because [argv[0]] is overwritten. *)
Record px := mkpx {
  px_cmds : list SingleCommand;
  px_pids : list Z;
  px_err : bool;
  px_pgid : Z
}.

Definition px_fail (x : px) : px := mkpx (px_cmds x) (px_pids x) true (px_pgid x).

Definition px_pid (pid : Z) (x : px) : px :=
  if 0 <? pid then mkpx (px_cmds x) (px_pids x ++ [pid]) (px_err x) (px_pgid x) else x.

(** [cmds[i].argv[0] = name] *)
Definition rename_cmd (i : nat) (name : str) (x : px) : px :=
  mkpx (alter (fun c => mkSingleCommand (name :: tail (argv c)) (input_files c) (output_files c)) i (px_cmds x))
    (px_pids x) (px_err x) (px_pgid x).

Definition NOT_FOUND (name : str) : str := lit "cshell: command not found (" ++ name ++ lit ")" ++ [LF].

(** Behind the redirections: find the program and fork. *)
Definition start_command (i num_cmds : nat) (is_bg : bool) (pipe_fds : list (Z * Z)) (in_fd out_fd : Z)
    (raw : str) (args : list str) (x : px) : prog px :=
  let name := strip_percent raw in
  do* path := (if is_builtin name then Ret (Some []) else executor_resolve_path raw) in
  match path with
  | None =>
      printf (NOT_FOUND name) ;;;
      close_fd in_fd ;;; close_fd out_fd ;;;
      Ret (px_fail x)
  | Some path =>
      let x := rename_cmd i name x in
      do* cmd_pid := call Fork in
      if cmd_pid <? 0 then
        call (Perror (lit "fork")) ;;;
        close_fd in_fd ;;; close_fd out_fd ;;;
        Ret (px_fail x)
      else if cmd_pid =? 0 then
        child_main i num_cmds is_bg in_fd out_fd (px_pgid x) pipe_fds name (name :: args) path ;;;
        Ret x
      else
        let pg := if (i =? 0)%nat then cmd_pid else px_pgid x in
        call (Setpgid cmd_pid pg) ;;;
        close_fd in_fd ;;; close_fd out_fd ;;;
        Ret (mkpx (px_cmds x) (px_pids x ++ [cmd_pid]) (px_err x) pg)
  end.

Definition run_command (i num_cmds : nat) (is_bg : bool) (pipe_fds : list (Z * Z)) (x : px) : prog px :=
  match px_cmds x !! i with
  | None => Crash
  | Some c =>
      match argv c with
      | [] => Ret x
      | raw :: args =>
          do* inp := redirect_setup_input fuel (input_files c) in
          if su_ret inp <? 0 then Ret (px_fail x) else
          let x := px_pid (su_pid inp) x in
          do* out := redirect_setup_output fuel (output_files c) in
          if su_ret out <? 0 then close_fd (su_fd inp) ;;; Ret (px_fail x) else
          let x := px_pid (su_pid out) x in
          start_command i num_cmds is_bg pipe_fds (su_fd inp) (su_fd out) raw args x
      end
  end.

Fixpoint run_commands (n i num_cmds : nat) (is_bg : bool) (pipe_fds : list (Z * Z)) (x : px) : prog px :=
  match n with
  | O => Ret x
  | S n' => do* x' := run_command i num_cmds is_bg pipe_fds x in
            run_commands n' (S i) num_cmds is_bg pipe_fds x'
  end.

(** ** Before and after the loop *)

(** [n] pipes; after a failure those already made are closed. *)
Fixpoint make_pipes (n : nat) (made : list (Z * Z)) : prog (option (list (Z * Z))) :=
  match n with
  | O => Ret (Some made)
  | S n' =>
      do* p := call Pipe in
      match p with
      | None => call (Perror (lit "pipe")) ;;; close_pipes made ;;; Ret None
      | Some pp => make_pipes n' (made ++ [pp])
      end
  end.

(** The name under which the [k]th pid enters the job. *)
Definition job_proc_name (dflt : string) (cmds : list SingleCommand) (k : nat) : option str :=
  match cmds !! k with Some c => head (argv c) | None => Some (lit dflt) end.

Fixpoint add_procs (dflt : string) (cmds : list SingleCommand) (job : nat) (k : nat) (pids : list Z)
    : prog unit :=
  match pids with
  | [] => Ret tt
  | pid :: rest =>
      job_add_proc (Some job) pid (job_proc_name dflt cmds k) ;;;
      add_procs dflt cmds job (S k) rest
  end.

Definition register_job (dflt : string) (st : JobState) (line : option str) (x : px) : prog (option Job) :=
  do* r := job_add (px_pgid x) line st in
  match r with
  | None => Ret None
  | Some i => add_procs dflt (px_cmds x) i 0 (px_pids x) ;;; do* j := getj i in Ret (Some j)
  end.

(** The variables of the wait loop: [job_stopped] and [has_error]. *)
Fixpoint wait_all (pids : list Z) (stopped err : bool) : prog (bool * bool) :=
  match pids with
  | [] => Ret (stopped, err)
  | pid :: rest =>
      do* r := call (Waitpid pid WUNTRACED) in
      let '(res, w, _) := r in
      let w := if 0 <? res then w else WExited 0 in
      match w with
      | WStopped _ => wait_all rest true err
      | WSignaled _ => wait_all rest stopped true
      | WExited c => wait_all rest stopped (err || negb (c =? 0))%bool
      | WContinued => wait_all rest stopped err
      end
  end.

Definition finish_bg (line : option str) (x : px) : prog Z :=
  do* j := register_job "feeder" JOB_RUNNING line x in
  match j with
  | Some j => printf (lit "[" ++ dec (job_number j) ++ lit "] " ++ dec (px_pgid x) ++ [LF])
  | None => Ret tt
  end ;;;
  term_unblock_sigchld ;;;
  Ret 0.

Definition finish_fg (line : option str) (x : px) : prog Z :=
  term_give_to_pgid (px_pgid x) ;;;
  do* r := wait_all (px_pids x) false (px_err x) in
  pwhen (fst r) (
    do* j := register_job "proc" JOB_STOPPED line x in
    match j with Some j => printf (job_report "Stopped" j) | None => Ret tt end) ;;;
  term_reclaim ;;;
  term_unblock_sigchld ;;;
  Ret (if (snd r : bool) then -1 else 0).

Definition pipes_execute (cmds : list SingleCommand) (is_bg : bool) (line : option str) : prog Z :=
  match cmds with
  | [] => Ret 0
  | _ =>
      do* pipes := make_pipes (length cmds - 1) [] in
      match pipes with
      | None => Ret (-1)
      | Some pipe_fds =>
          term_block_sigchld ;;;
          do* x := run_commands (length cmds) 0 (length cmds) is_bg pipe_fds (mkpx cmds [] false 0) in
          close_pipes pipe_fds ;;;
          if is_bg then finish_bg line x else finish_fg line x
      end
  end.

Definition pipes_execute_pipeline (cmds : list SingleCommand) : prog Z := pipes_execute cmds false None.

End Pipes.
