(* ===== verification/PipesFacts.v ===== *)
(** * What a pipeline leaves behind

    The shell's own part of [pipes_execute]: every descriptor it opens is closed
    again, SIGCHLD is unblocked, and in the foreground every child is reaped
    unless one was stopped. *)

From stdpp Require Import base list gmap sets strings.
From Stdlib Require Import ZArith Lia Ascii.
From S2P Require Import Prelude ShellBase Jobs JobFacts JobBuiltins JobTheorems Redirect Pipes.

Open Scope Z_scope.

(** What the shell promises about the builtins it calls. *)
Class builtins_keep (bi : builtins) : Prop := {
  hop_keeps args : keeps_jobs (hop_builtin args);
  reveal_keeps args : keeps_jobs (reveal_builtin args);
  peek_keeps args : keeps_jobs (peek_builtin args);
  locate_keeps args : keeps_jobs (locate_builtin args);
  spy_keeps args : keeps_jobs (spy_builtin args);
  snoop_keeps args : keeps_jobs (snoop_builtin args)
}.

(** ** Descriptors, one at a time *)

(** The descriptor a setup has left, if any. *)
Definition fd_set (fd : Z) : gset Z := if 0 <=? fd then {[fd]} else ∅.

Lemma sat_close_fd fd s (Q : unit -> sysst -> Prop) E :
  (forall s', same_proc s s' -> s_fds s' = s_fds s ∖ fd_set fd -> Q tt s') -> sat (close_fd fd) s Q E.
Proof.
  intros HQ. unfold close_fd, fd_set in *. destruct (0 <=? fd).
  - apply sat_call. intros [] s' ->. by apply HQ.
  - apply HQ; [done|]. set_solver.
Qed.

(** The children a setup has started. *)
Definition kids_after (pid : Z) (K : gset Z) : gset Z := if 0 <? pid then {[pid]} ∪ K else K.

Lemma setup_post_ok n s r s' : setup_post n s r s' -> (su_ret r <? 0) = false ->
  s_fds s' = fd_set (su_fd r) ∪ s_fds s /\ fd_set (su_fd r) ## s_fds s /\
  s_kids s' = kids_after (su_pid r) (s_kids s) /\ (0 < su_pid r -> su_pid r ∉ s_kids s) /\
  s_glob s' = s_glob s /\ s_masked s' = s_masked s /\ s_alarm s' = s_alarm s.
Proof.
  intros (Hg & Hm & Ha & H) Hr. unfold fd_set, kids_after.
  destruct H as [(-> & _)|[(_ & -> & Hf & Hk)|[(_ & _ & Hp & Hge & Hni & Hf & Hk)
    |(_ & _ & Hp & Hnk & Hge & Hni & Hf & Hk)]]]; [done|..].
  - simpl. split_and!; try done; set_solver.
  - rewrite Hp. rewrite (proj2 (Z.leb_le _ _)) by done. simpl. split_and!; try done; set_solver.
  - rewrite (proj2 (Z.leb_le _ _)), (proj2 (Z.ltb_lt _ _)) by done. split_and!; try done; set_solver.
Qed.

Lemma setup_post_failed n s r s' : setup_post n s r s' -> (su_ret r <? 0) = true ->
  s_fds s' = s_fds s /\ same_proc s s'.
Proof.
  intros (Hg & Hm & Ha & H) Hr.
  destruct H as [(-> & Hf & Hk)|[(_ & -> & _)|[(_ & E & _)|(_ & E & _)]]]; [done|done|..];
    by rewrite E in Hr.
Qed.

(** ** The children *)

Section PipesFacts.

Context {bi : builtins} {bk : builtins_keep bi}.
Variable fuel : nat.

Lemma keeps_run_builtin name args m : run_builtin fuel name args = Some m -> keeps_jobs m.
Proof.
  unfold run_builtin. repeat (destruct (streq _ _); [intros [= <-]|]); [..|done].
  - apply hop_keeps.
  - apply reveal_keeps.
  - apply peek_keeps.
  - apply locate_keeps.
  - apply keeps_activities.
  - apply keeps_resume.
  - apply keeps_ping.
  - apply spy_keeps.
  - apply snoop_keeps.
Qed.

(** [m] does not crash and never returns to the shell's code. *)
Definition leaves (m : prog unit) : Prop := forall s, jobs_ok (s_glob s) ->
  sat m s (fun _ _ => False) (fun _ _ => True).

Lemma leaves_after {A} (m : prog A) (f : A -> prog unit) :
  keeps_jobs m -> (forall a, leaves (f a)) -> leaves (pbind m f).
Proof.
  intros Hm Hf s Hs. apply sat_bind. eapply sat_mono; [by apply Hm|intros a t Ht; by apply Hf|done].
Qed.

#[local] Instance keeps_stop {A} e : keeps_jobs (@Stop A e).
Proof. by intros s Hs. Qed.

#[local] Instance keeps_dup2 fd t : keeps_jobs (dup2_or_die fd t).
Proof. apply keeps_bind; [apply _|]. intros r. destruct (r <? 0); apply _. Qed.

#[local] Instance keeps_close_pipes pipe_fds : keeps_jobs (close_pipes pipe_fds).
Proof. apply keeps_pfor. apply _. Qed.

Lemma keeps_child_stdin i is_bg in_fd pipe_fds : (i <= length pipe_fds)%nat ->
  keeps_jobs (child_stdin i is_bg in_fd pipe_fds).
Proof.
  intros Hi. apply keeps_bind; [apply _|intros _]. destruct (0 <=? in_fd); [apply _|].
  destruct (0 <? i)%nat eqn:E; [|apply _]. bool_to_prop.
  destruct (lookup_lt_is_Some_2 pipe_fds (i - 1)) as [p ->]; [lia|]. apply _.
Qed.

Lemma keeps_child_stdout i n out_fd pipe_fds : length pipe_fds = (n - 1)%nat ->
  keeps_jobs (child_stdout i n out_fd pipe_fds).
Proof.
  intros Hl. unfold child_stdout. destruct (0 <=? out_fd); [apply _|].
  destruct (i <? n - 1)%nat eqn:E; [|apply _]. bool_to_prop.
  destruct (lookup_lt_is_Some_2 pipe_fds i) as [p ->]; [lia|]. apply _.
Qed.

Lemma child_exec_leaves name args path : leaves (child_exec fuel name args path).
Proof.
  unfold child_exec. destruct (run_builtin fuel name args) as [m|] eqn:E.
  - apply leaves_after; [by eapply keeps_run_builtin|]. by intros r s Hs.
  - destruct (streq _ _); [by intros s Hs|]. apply leaves_after; [apply _|].
    intros [|]; [by intros s Hs|]. apply leaves_after; [apply _|]. by intros r s Hs.
Qed.

Lemma child_main_leaves i n is_bg in_fd out_fd pg pipe_fds name args path :
  (i < n)%nat -> length pipe_fds = (n - 1)%nat ->
  leaves (child_main fuel i n is_bg in_fd out_fd pg pipe_fds name args path).
Proof.
  intros Hi Hl. unfold child_main. do 7 (apply leaves_after; [apply _|intros _]).
  apply leaves_after; [apply keeps_child_stdin; lia|intros _].
  apply leaves_after; [by apply keeps_child_stdout|intros _].
  apply leaves_after; [apply _|intros _]. apply child_exec_leaves.
Qed.

(** ** The loop *)

(** The children started so far, besides [K]. *)
Definition started (K : gset Z) (x : px) (s : sysst) : Prop :=
  s_kids s = list_to_set (px_pids x) ∪ K /\ NoDup (px_pids x) /\
  forall pid, pid ∈ px_pids x -> 0 < pid /\ pid ∉ K.

(** [s'] has the descriptors, globals and mask of [s]. *)
Definition tidy (s s' : sysst) : Prop :=
  s_fds s' = s_fds s /\ s_glob s' = s_glob s /\ s_masked s' = s_masked s /\ s_alarm s' = s_alarm s.

Lemma started_same K x s s' : s_kids s' = s_kids s -> started K x s -> started K x s'.
Proof. intros Hk (H1 & H2 & H3). split_and!; [congruence|done|done]. Qed.

Lemma started_pid K x s s' pid : started K x s -> s_kids s' = kids_after pid (s_kids s) ->
  (0 < pid -> pid ∉ s_kids s) -> started K (px_pid pid x) s'.
Proof.
  intros (H1 & H2 & H3) Hk Hn. unfold px_pid, kids_after in *. destruct (0 <? pid) eqn:E.
  - bool_to_prop. specialize (Hn E). rewrite H1 in Hn. split_and!; simpl.
    + rewrite Hk, H1, list_to_set_app_L. set_solver.
    + apply NoDup_app. split_and!; [done| |apply NoDup_singleton].
      intros y Hy ->%list_elem_of_singleton. set_solver.
    + intros p [Hp| ->%list_elem_of_singleton]%elem_of_app; [by apply H3|]. set_solver.
  - split_and!; [congruence|done|done].
Qed.

Lemma resolve_same raw s (Q : option str -> sysst -> Prop) E :
  (forall r, Q r s) -> sat (executor_resolve_path raw) s Q E.
Proof.
  intros HQ.
  assert (Hx : forall p (Q : bool -> sysst -> Prop), (forall b, Q b s) -> sat (is_executable p) s Q E).
  { intros p Q' H. apply sat_bind, sat_call. intros st t ->. destruct st as [[|]|]; try apply H.
    apply sat_call. intros b ? ->. apply H. }
  assert (Hf : forall l, sat (first_executable l) s Q E).
  { intros l. induction l as [|c l IH]; [apply HQ|]. cbn [first_executable].
    apply sat_bind, Hx. intros [|]; [apply HQ|apply IH]. }
  assert (Hp : forall n, sat (search_path n) s Q E).
  { intros n. apply sat_bind, sat_call. intros r t ->. destruct r; [apply Hf|apply HQ]. }
  unfold executor_resolve_path. destruct (_ && _)%bool.
  - apply sat_bind, Hx. intros b. apply HQ.
  - destruct (negb _); [|apply Hp]. apply sat_bind, sat_call. intros r t [_ ->].
    destruct r; [|apply Hp]. apply sat_bind, Hx. intros [|]; [apply HQ|apply Hp].
Qed.

(** Closing both descriptors of a command. *)
Lemma sat_close_two in_fd out_fd X s {A} (a : A) (Q : A -> sysst -> Prop) E :
  s_fds s = fd_set out_fd ∪ (fd_set in_fd ∪ X) -> fd_set in_fd ## X -> fd_set out_fd ## fd_set in_fd ∪ X ->
  (forall s', same_proc s s' -> s_fds s' = X -> Q a s') ->
  sat (close_fd in_fd ;;; close_fd out_fd ;;; Ret a) s Q E.
Proof.
  intros Hf H1 H2 HQ. apply sat_bind, sat_close_fd. intros s1 P1 F1.
  apply sat_bind, sat_close_fd. intros s2 P2 F2. apply HQ; [by etrans|].
  rewrite F2, F1, Hf. set_solver.
Qed.

Lemma start_command_spec i n is_bg pipe_fds in_fd out_fd raw args x X K s :
  (i < n)%nat -> length pipe_fds = (n - 1)%nat -> jobs_ok (s_glob s) -> started K x s ->
  s_fds s = fd_set out_fd ∪ (fd_set in_fd ∪ X) -> fd_set in_fd ## X -> fd_set out_fd ## fd_set in_fd ∪ X ->
  sat (start_command fuel i n is_bg pipe_fds in_fd out_fd raw args x) s
    (fun x' s' => tidy (set_fds X s) s' /\ started K x' s' /\ length (px_cmds x') = length (px_cmds x))
    (fun _ _ => True).
Proof.
  intros Hi Hl Hok Hst Hf H1 H2. unfold start_command. apply sat_bind.
  assert (Hpath : forall (Q : option str -> sysst -> Prop), (forall r, Q r s) ->
    sat (if is_builtin (strip_percent raw) then Ret (Some []) else executor_resolve_path raw) s Q
      (fun _ _ => True)).
  { intros Q HQ. destruct (is_builtin _); [apply HQ|by apply resolve_same]. }
  apply Hpath. intros [path|].
  2: { apply sat_bind, sat_printf. apply (sat_close_two _ _ X); [done..|].
       intros s' (Hg & Hk & Hm & Ha) Hx. split_and!; try done. by apply (started_same K x s). }
  apply sat_bind, sat_call. intros pid t [[-> ->]|[[-> ->]|(Hpos & Hnk & ->)]].
  - simpl. apply sat_bind, sat_call. intros [] ? ->. apply (sat_close_two _ _ X); [done..|].
    intros s' (Hg & Hk & Hm & Ha) Hx. split_and!; try done; [by apply (started_same K x s)|].
    simpl. by rewrite length_alter.
  - simpl. apply sat_bind. eapply sat_mono; [by apply child_main_leaves|done|done].
  - rewrite (proj2 (Z.ltb_ge pid 0)), (proj2 (Z.eqb_neq pid 0)) by lia.
    apply sat_bind, sat_call. intros [] ? ->. apply (sat_close_two _ _ X); [done..|].
    intros s' (Hg & Hk & Hm & Ha) Hx. split_and!; try done; [|simpl; by rewrite length_alter].
    assert (Hs' : started K (px_pid pid x) s').
    { apply (started_pid K x s s' pid Hst); [|done]. unfold kids_after.
      by rewrite (proj2 (Z.ltb_lt 0 pid)) by done. }
    unfold px_pid in Hs'. by rewrite (proj2 (Z.ltb_lt 0 pid)) in Hs' by done.
Qed.

Lemma run_command_spec i n is_bg pipe_fds x K s :
  (i < length (px_cmds x))%nat -> (i < n)%nat -> length pipe_fds = (n - 1)%nat ->
  jobs_ok (s_glob s) -> started K x s ->
  sat (run_command fuel i n is_bg pipe_fds x) s
    (fun x' s' => tidy s s' /\ started K x' s' /\ length (px_cmds x') = length (px_cmds x))
    (fun _ _ => True).
Proof.
  intros Hc Hi Hl Hok Hst. unfold run_command.
  destruct (lookup_lt_is_Some_2 (px_cmds x) i Hc) as [c ->]. destruct (argv c) as [|raw args]; [done|].
  apply sat_bind. eapply sat_mono; [apply redirect_input_spec| |done]. intros inp s1 Hp1.
  destruct (su_ret inp <? 0) eqn:E1.
  { destruct (setup_post_failed _ _ _ _ Hp1 E1) as [Hf (Hg & Hk & Hm & Ha)].
    split_and!; try done. by apply (started_same K x s). }
  destruct (setup_post_ok _ _ _ _ Hp1 E1) as (F1 & D1 & K1 & N1 & G1 & M1 & A1).
  pose proof (started_pid _ _ _ _ _ Hst K1 N1) as Hst1.
  assert (Hlen1 : forall p, length (px_cmds (px_pid p x)) = length (px_cmds x))
    by (intros p; unfold px_pid; by destruct (0 <? p)).
  apply sat_bind. eapply sat_mono; [apply redirect_output_spec| |done]. intros out s2 Hp2.
  destruct (su_ret out <? 0) eqn:E2.
  { destruct (setup_post_failed _ _ _ _ Hp2 E2) as [Hf (Hg & Hk & Hm & Ha)].
    apply sat_bind, sat_close_fd. intros s3 (Hg3 & Hk3 & Hm3 & Ha3) F3. split; [|split].
    - split_and!; [rewrite F3, Hf, F1; set_solver|congruence..].
    - apply (started_same K (px_pid (su_pid inp) x) s1); [congruence|done].
    - apply Hlen1. }
  destruct (setup_post_ok _ _ _ _ Hp2 E2) as (F2 & D2 & K2 & N2 & G2 & M2 & A2).
  pose proof (started_pid _ _ _ _ _ Hst1 K2 N2) as Hst2.
  eapply sat_mono; [apply (start_command_spec i n is_bg pipe_fds _ _ raw args _ (s_fds s) K s2)| |done];
    try done; [by rewrite G2, G1|by rewrite F2, F1|by rewrite <- F1|].
  intros x' s3 ((T1 & T2 & T3 & T4) & T5 & T6). simpl in *. split; [split_and!; congruence|]. split; [done|].
  rewrite T6. unfold px_pid at 1. destruct (0 <? su_pid out); apply Hlen1.
Qed.

Lemma run_commands_spec m i n is_bg pipe_fds x K s :
  (i + m = n)%nat -> length (px_cmds x) = n -> length pipe_fds = (n - 1)%nat ->
  jobs_ok (s_glob s) -> started K x s ->
  sat (run_commands fuel m i n is_bg pipe_fds x) s
    (fun x' s' => tidy s s' /\ started K x' s' /\ length (px_cmds x') = n) (fun _ _ => True).
Proof.
  revert i x s. induction m as [|m IH]; intros i x s Hm Hc Hl Hok Hst; [done|]. cbn [run_commands].
  apply sat_bind. eapply sat_mono; [apply (run_command_spec i n is_bg pipe_fds x K s); [lia|lia|done..]| |done].
  intros x1 s1 ((T1 & T2 & T3 & T4) & T5 & T6).
  eapply sat_mono; [apply (IH (S i) x1 s1); [lia|lia|done|by rewrite T2|done]| |done].
  intros x2 s2 ((U1 & U2 & U3 & U4) & U5 & U6).
  split; [split_and!; congruence|done].
Qed.

(** ** Pipes *)

Definition ends_of (ps : list (Z * Z)) : list Z := concat (map (fun p => [fst p; snd p]) ps).

Lemma ends_of_snoc ps p : ends_of (ps ++ [p]) = ends_of ps ++ [fst p; snd p].
Proof. unfold ends_of. by rewrite map_app, concat_app. Qed.

Lemma sat_close_pipes ps s (Q : unit -> sysst -> Prop) E :
  (forall s', same_proc s s' -> s_fds s' = s_fds s ∖ list_to_set (ends_of ps) -> Q tt s') ->
  sat (close_pipes ps) s Q E.
Proof.
  intros HQ. apply (sat_pfor (fun n t => same_proc s t /\
    s_fds t = s_fds s ∖ list_to_set (ends_of (take n ps)))).
  - split; [done|]. rewrite take_0. set_solver.
  - intros n p t Hn [Hs Ht]. apply sat_bind, sat_call. intros [] ? ->. apply sat_call. intros [] ? ->.
    split; [by etrans|]. simpl. rewrite Ht, (take_S_r _ _ p), ends_of_snoc, list_to_set_app_L by done.
    set_solver.
  - intros t [Hs Ht]. apply HQ; [done|]. by rewrite Ht, firstn_all.
Qed.

Lemma make_pipes_spec n made X s : opened X (ends_of made) s ->
  sat (make_pipes n made) s (fun r s' => same_proc s s' /\
    match r with
    | None => s_fds s' = X
    | Some ps => opened X (ends_of ps) s' /\ length ps = (length made + n)%nat
    end) (fun _ _ => False).
Proof.
  revert made s. induction n as [|n IH]; intros made s Ho; cbn [make_pipes].
  - split; [done|]. split; [done|lia].
  - apply sat_bind, sat_call. intros p t [[-> ->]|(a & b & -> & Ha & Hb & Hab & Hna & Hnb & ->)].
    + apply sat_bind, sat_call. intros [] ? ->. apply sat_bind, sat_close_pipes. intros u Hu Hf.
      split; [done|]. rewrite Hf. by apply opened_close.
    + eapply sat_mono; [apply IH| |done].
      * destruct Ho as [Hs Hx]. rewrite Hs in Hna, Hnb. rewrite ends_of_snoc. split; simpl.
        -- rewrite Hs, list_to_set_app_L. simpl. set_solver.
        -- intros x Hin. rewrite elem_of_app, !elem_of_cons in Hin.
           destruct Hin as [Hin|[->|[->|Hin]]]; [by apply Hx|split; [set_solver|done]..|].
           by apply not_elem_of_nil in Hin.
      * intros r u [Hu Hr]. split; [done|]. destruct r as [ps|]; [|done].
        destruct Hr as [? Hl]. split; [done|]. rewrite Hl, length_app. simpl. lia.
Qed.

(** ** Waiting *)

Lemma wait_all_spec pids stopped err s : s_alarm s = false -> NoDup pids ->
  (forall pid, pid ∈ pids -> 0 < pid /\ pid ∈ s_kids s) ->
  sat (wait_all pids stopped err) s (fun r s' => tidy s s' /\
    (fst r = false -> stopped = false /\ s_kids s' = s_kids s ∖ list_to_set pids)) (fun _ _ => False).
Proof.
  revert stopped err s. induction pids as [|pid pids IH]; intros stopped err s Hal Hnd Hin; cbn [wait_all].
  { split; [done|]. simpl. intros ->. split; [done|]. set_solver. }
  apply NoDup_cons in Hnd as [Hni Hnd]. destruct (Hin pid) as [Hpos Hkid]; [by left|].
  apply sat_bind, sat_call. intros [[res w] e] t Ht. simpl in Ht.
  destruct Ht as [(Hr & _ & Hrp & _ & Hc & ->)|[(_ & Hn & _)|(_ & H1 & H2)]]; [|done|].
  2: { destruct (decide (e = EINTR)) as [He|He]; [by destruct (H1 He); congruence|].
       destruct (H2 He) as [_ H]. by specialize (H Hpos). }
  specialize (Hrp Hpos) as ->. rewrite (proj2 (Z.ltb_lt 0 pid)) by done.
  set (t := if terminated w then _ else _).
  assert (Ht : tidy s t /\ (terminated w = true -> s_kids t = s_kids s ∖ {[pid]}) /\
               (terminated w = false -> s_kids t = s_kids s)).
  { subst t. by destruct (terminated w). }
  destruct Ht as ((T1 & T2 & T3 & T4) & Tk & Tk').
  assert (Hin' : forall p, p ∈ pids -> 0 < p /\ p ∈ s_kids t).
  { intros p Hp. destruct (Hin p) as [? ?]; [by right|]. split; [done|].
    destruct (terminated w); [rewrite Tk by done|by rewrite Tk'].
    apply elem_of_difference. split; [done|]. intros ->%elem_of_singleton. done. }
  assert (Hgo : forall st er, (st = false -> stopped = false /\ terminated w = true) ->
    sat (wait_all pids st er) t (fun r s' => tidy s s' /\
      (fst r = false -> stopped = false /\ s_kids s' = s_kids s ∖ list_to_set (pid :: pids))) (fun _ _ => False)).
  { intros st er Hst. eapply sat_mono; [apply IH; [congruence|done|done]| |done].
    intros r u ((U1 & U2 & U3 & U4) & Hu). split; [split_and!; congruence|]. intros Hr0.
    destruct (Hu Hr0) as [Hs0 Hk]. destruct (Hst Hs0) as [-> Htm]. split; [done|].
    rewrite Hk, Tk by done. set_solver. }
  destruct w; [by apply Hgo..|by specialize (Hc eq_refl)].
Qed.

(** ** Registering the job *)

(** Only the globals differ. *)
Definition same_os (s s' : sysst) : Prop :=
  s_fds s' = s_fds s /\ s_kids s' = s_kids s /\ s_masked s' = s_masked s /\ s_alarm s' = s_alarm s.

Lemma job_add_proc_spec i pid name j s (Q : unit -> sysst -> Prop) E :
  jobs_ok (s_glob s) -> jobs s !! i = Some j ->
  (forall j' s', same_os s s' -> jobs_ok (s_glob s') -> jobs s' !! i = Some j' ->
     active j' = active j -> state j' = state j -> Q tt s') ->
  sat (job_add_proc (Some i) pid name) s Q E.
Proof.
  intros Hok Hj HQ. apply sat_bind. eapply sat_getj; [exact Hj|].
  destruct (MAX_PROCS_PER_JOB <=? length (procs j))%nat eqn:Em; [by apply (HQ j)|]. bool_to_prop.
  eapply sat_setj; [exact Hj|]. eapply (HQ (set_procs _ j)); [done| |simpl|done|done].
  - apply (jobs_ok_put i j); [done|done|]. split_and!; [done|done|]. right. simpl.
    rewrite length_app. simpl. lia.
  - apply list_lookup_insert_eq. by eapply lookup_lt_Some.
Qed.

Lemma add_procs_spec dflt cmds i k pids j s (Q : unit -> sysst -> Prop) E :
  jobs_ok (s_glob s) -> jobs s !! i = Some j ->
  (forall j' s', same_os s s' -> jobs_ok (s_glob s') -> jobs s' !! i = Some j' ->
     active j' = active j -> state j' = state j -> Q tt s') ->
  sat (add_procs dflt cmds i k pids) s Q E.
Proof.
  revert k j s. induction pids as [|pid pids IH]; intros k j s Hok Hj HQ; cbn [add_procs];
    [by apply (HQ j)|].
  apply sat_bind. apply (job_add_proc_spec i pid _ j s); [done|done|].
  intros j1 s1 (O1 & O2 & O3 & O4) Hok1 Hj1 Ha1 Hs1. apply (IH _ j1); [done|done|].
  intros j2 s2 (P1 & P2 & P3 & P4) Hok2 Hj2 Ha2 Hs2.
  apply (HQ j2); [split_and!; congruence|done|done|congruence|congruence].
Qed.

Lemma register_job_spec dflt st line x s (Q : option Job -> sysst -> Prop) E :
  jobs_ok (s_glob s) ->
  (forall i j s', same_os s s' -> jobs_ok (s_glob s') -> jobs s' !! i = Some j ->
     active j = true -> state j = st -> Q (Some j) s') ->
  (Forall (fun j => active j = true) (jobs s) -> Q None s) ->
  sat (register_job dflt st line x) s Q E.
Proof.
  intros Hok HS HN. unfold register_job, job_add. apply sat_bind, sat_bind, sat_call. intros g ? [-> ->].
  destruct (list_find _ _) as [[i j0]|] eqn:Ef.
  2: { apply HN. apply list_find_None in Ef. eapply Forall_impl; [exact Ef|]. intros j Hj. simpl in Hj.
       by destruct (active j). }
  apply list_find_Some in Ef as (Hi & _). apply lookup_lt_Some in Hi.
  apply sat_bind, sat_call. intros [] t ->.
  match goal with |- sat (Ret _) ?t0 _ _ => set (t := t0) end.
  assert (Hokt : jobs_ok (s_glob t)) by by apply jobs_ok_add.
  assert (Hjt : jobs t !! i = Some (new_job (g_next_job_num (s_glob s)) (px_pgid x) line st)).
  { subst t. simpl. by apply list_lookup_insert_eq. }
  assert (Hos : same_os s t) by done. clearbody t. apply sat_bind.
  eapply add_procs_spec; [exact Hokt|exact Hjt|]. intros j s' (P1 & P2 & P3 & P4) Hok' Hj Ha Hst.
  destruct Hos as (O1 & O2 & O3 & O4). apply sat_bind. eapply sat_getj; [exact Hj|].
  apply (HS i); [split_and!; congruence|done..].
Qed.

(** ** The whole pipeline *)

(** What the shell finds when a pipeline that was started in [s] returns. *)
Definition settled (s s' : sysst) : Prop :=
  s_fds s' = s_fds s /\ jobs_ok (s_glob s') /\ s_masked s' = false /\ s_alarm s' = s_alarm s.

Lemma reclaim_spec s {A} (a : A) (Q : A -> sysst -> Prop) E :
  (forall s', s_fds s' = s_fds s -> s_glob s' = s_glob s -> s_kids s' = s_kids s ->
     s_masked s' = false -> s_alarm s' = s_alarm s -> Q a s') ->
  sat (term_reclaim ;;; term_unblock_sigchld ;;; Ret a) s Q E.
Proof.
  intros HQ. apply sat_bind, sat_bind, sat_call. intros b ? ->. apply sat_bind, sat_call.
  intros g ? [-> ->]. apply sat_when; intros _.
  - apply sat_call. intros [] t Ht. apply sat_bind, sat_call. intros [] ? ->.
    by destruct Ht as [->| ->]; apply HQ.
  - apply sat_bind, sat_call. intros [] ? ->. by apply HQ.
Qed.

Lemma finish_fg_spec line x K s : jobs_ok (s_glob s) -> s_alarm s = false -> started K x s ->
  sat (finish_fg line x) s (fun r s' => settled s s' /\
    (s_kids s' = K \/ existsb is_stopped (jobs s') = true \/
     Forall (fun j => active j = true) (jobs s))) (fun _ _ => False).
Proof.
  intros Hok Hal (Hk & Hnd & Hpos). unfold finish_fg. apply sat_bind.
  apply sat_bind, sat_call. intros b ? ->.
  assert (Hgo : forall t, tidy s t -> s_kids t = s_kids s -> sat (
    do* r := wait_all (px_pids x) false (px_err x) in
    pwhen (fst r) (do* j := register_job "proc" JOB_STOPPED line x in
      match j with Some j => printf (job_report "Stopped" j) | None => Ret tt end) ;;;
    term_reclaim ;;; term_unblock_sigchld ;;; Ret (if (snd r : bool) then -1 else 0)) t
    (fun r s' => settled s s' /\
    (s_kids s' = K \/ existsb is_stopped (jobs s') = true \/
     Forall (fun j => active j = true) (jobs s))) (fun _ _ => False)).
  2: { apply sat_when; intros _; [|by apply Hgo].
       apply sat_call. intros [] t Ht. by destruct Ht as [->| ->]; apply Hgo. }
  intros t (T1 & T2 & T3 & T4) Tk. apply sat_bind.
  eapply sat_mono; [apply wait_all_spec; [congruence|done|]| |done].
  { intros pid Hp. split; [by apply Hpos|]. rewrite Tk, Hk. set_solver. }
  intros [stopped err] u ((U1 & U2 & U3 & U4) & Hu). simpl fst in *. simpl snd. apply sat_bind.
  destruct stopped; simpl pwhen.
  - apply sat_bind, register_job_spec; [by rewrite U2, T2| |].
    + intros i j v (O1 & O2 & O3 & O4) Hokv Hj Ha Hst. apply sat_printf, reclaim_spec.
      intros w W1 W2 W3 W4 W5. simpl in *. split; [split_and!; try congruence; by rewrite W2|].
      right; left. rewrite W2. apply existsb_exists. exists j.
      split; [by eapply list_elem_of_In, list_elem_of_lookup_2|]. unfold is_stopped.
      by rewrite Ha, bool_decide_true.
    + intros Hfull. apply reclaim_spec. intros w W1 W2 W3 W4 W5.
      split; [split_and!; try congruence; by rewrite W2, U2, T2|]. right; right. by rewrite <- T2, <- U2.
  - destruct (Hu eq_refl) as [_ Hku]. apply reclaim_spec. intros w W1 W2 W3 W4 W5.
    split; [split_and!; try congruence; by rewrite W2, U2, T2|]. left. rewrite W3, Hku, Tk, Hk.
    apply set_eq. intros y. specialize (Hpos y). rewrite elem_of_difference, elem_of_union, elem_of_list_to_set.
    destruct (decide (y ∈ px_pids x)); naive_solver.
Qed.

Lemma finish_bg_spec line x s : jobs_ok (s_glob s) ->
  sat (finish_bg line x) s (fun r s' => r = 0 /\ settled s s') (fun _ _ => False).
Proof.
  intros Hok. unfold finish_bg. apply sat_bind, register_job_spec; [done| |].
  - intros i j v (O1 & O2 & O3 & O4) Hokv Hj Ha Hst. apply sat_bind, sat_printf.
    apply sat_bind, sat_call. intros [] ? ->. by split_and!.
  - intros _. apply sat_bind. apply sat_bind, sat_call. intros [] ? ->. by split_and!.
Qed.

Lemma pipes_settle cmds is_bg line s :
  jobs_ok (s_glob s) -> s_masked s = false -> s_alarm s = false ->
  sat (pipes_execute fuel cmds is_bg line) s
    (fun r s' => settled s s' /\
       (is_bg = false -> s_kids s' = s_kids s \/ existsb is_stopped (jobs s') = true \/
          Forall (fun j => active j = true) (jobs s)))
    (fun _ _ => True).
Proof.
  intros Hok Hm Hal. unfold pipes_execute. destruct cmds as [|c cmds']; [by split; [split_and!|left]|].
  set (cmds := c :: cmds'). apply sat_bind.
  eapply sat_mono; [apply (make_pipes_spec _ [] (s_fds s)), opened_none| |done].
  intros [ps|] s1 [(G1 & K1 & M1 & A1) Hr].
  2: { split; [split_and!; try congruence; by rewrite G1|]. by left. }
  destruct Hr as [Ho Hl]. apply sat_bind, sat_call. intros [] ? ->. apply sat_bind.
  eapply sat_mono; [apply (run_commands_spec (length cmds) 0 (length cmds) is_bg ps _ (s_kids s1))| |done];
    [done|done|done|simpl; by rewrite G1| |].
  { split_and!; simpl; [set_solver|constructor|]. by intros pid ?%not_elem_of_nil. }
  intros x s2 ((T1 & T2 & T3 & T4) & Hst & _). apply sat_bind, sat_close_pipes.
  intros s3 (G3 & K3 & M3 & A3) F3. simpl in *.
  assert (Hf3 : s_fds s3 = s_fds s) by (rewrite F3, T1; by apply opened_close).
  assert (Hok3 : jobs_ok (s_glob s3)) by by rewrite G3, T2, G1.
  destruct is_bg.
  - eapply sat_mono; [by apply finish_bg_spec| |done].
    intros r s4 (_ & W1 & W2 & W3 & W4). split; [split_and!; congruence|done].
  - eapply sat_mono; [apply (finish_fg_spec line x (s_kids s1) s3)| |done];
      [done|congruence|by apply (started_same _ x s2)|].
    intros r s4 ((W1 & W2 & W3 & W4) & Hk). split; [split_and!; congruence|]. intros _.
    rewrite G3, T2, G1, K1 in Hk. exact Hk.
Qed.


End PipesFacts.
