(* ===== verification/Demo.v ===== *)
(** * A concrete system to run the shell on

    One lawful system: every call succeeds, children exit with status 0, every
    path is an executable file.  Programs of the shell run on it, which shows
    two behaviours of background jobs. *)

From stdpp Require Import base list gmap sets strings.
From Stdlib Require Import ZArith Lia Ascii.
From S2P Require Import Prelude ShellBase Jobs JobFacts JobBuiltins Redirect Pipes.

Open Scope Z_scope.

Definition demo_fd (s : sysst) : Z := 3 + Z.of_nat (size (s_fds s)).

Definition demo_wait (pid : Z) (o : wopts) (s : sysst) : Z * wstatus * errno * sysst :=
  if bool_decide (0 < pid /\ pid ∈ s_kids s) then
    (pid, WExited 0, EOTHER, set_kids (s_kids s ∖ {[pid]}) s)
  else if wnohang o then (0, WExited 0, EOTHER, s)
  else (-1, WExited 0, ECHILD, s).

(** The one file that is not empty. *)
Definition demo_content (path : str) : list ascii :=
  if bool_decide (path = lit "f") then ["a"; LF; LF; "b"; "c"; LF]%char else [].

Definition demo_os : oracle := fun X c s =>
  match c in sys Y return Y * sysst with
  | Get => (s_glob s, s)
  | Put g => (tt, set_glob g s)
  | Open path _ =>
      let fd := demo_fd s in
      let content := demo_content path in
      if bool_decide (fd ∈ s_fds s) then (-1, s)
      else (fd, set_fds ({[fd]} ∪ s_fds s) (set_in (<[fd := content]> (s_in s))
                  (set_written (<[fd := []]> (s_written s)) (set_file (<[fd := content]> (s_file s)) s))))
  | Close fd => (tt, set_fds (s_fds s ∖ {[fd]}) s)
  | Pipe =>
      let a := demo_fd s in
      if bool_decide (a ∈ s_fds s \/ a + 1 ∈ s_fds s) then (None, s)
      else (Some (a, a + 1), set_fds ({[a]} ∪ ({[a + 1]} ∪ s_fds s))
                               (set_written (<[a + 1 := []]> (s_written s)) s))
  | Fork =>
      let pid := 101 + Z.of_nat (size (s_kids s)) in
      if bool_decide (pid ∈ s_kids s) then (-1, s) else (pid, set_kids ({[pid]} ∪ s_kids s) s)
  | Dup _ =>
      let fd := demo_fd s in
      if bool_decide (fd ∈ s_fds s) then (-1, set_ioerr true s) else (fd, set_fds ({[fd]} ∪ s_fds s) s)
  | Dup2 _ fd2 => (fd2, set_fds ({[fd2]} ∪ s_fds s) s)
  | Read fd n =>
      let rest := default [] (s_in s !! fd) in
      if (bool_decide (rest <> []) && (n =? 0)%nat)%bool then (None, set_ioerr true s)
      else (Some (take n rest), set_in (<[fd := drop n rest]> (s_in s))
              (set_short (s_short s || (n <? Nat.min n (length rest))%nat)%bool s))
  | Lseek fd pos =>
      (true, set_in (<[fd := drop (Z.to_nat pos) (default [] (s_file s !! fd))]> (s_in s)) s)
  | Fdopen _ => (true, s)
  | Fgetline fd =>
      let rest := default [] (s_in s !! fd) in
      if bool_decide (rest = []) then (None, s)
      else (Some (fst (first_line rest)), set_in (<[fd := snd (first_line rest)]> (s_in s)) s)
  | Write fd data =>
      (Z.of_nat (length data),
       set_written (<[fd := default [] (s_written s !! fd) ++
                            take (Z.to_nat (Z.of_nat (length data))) data]> (s_written s)) s)
  | Waitpid pid o => demo_wait pid o s
  | Kill pid sig => (0, EOTHER, set_kills (s_kills s ++ [(pid, sig)]) s)
  | Setpgid _ _ => (tt, s)
  | Signal _ _ => (tt, s)
  | BlockSigchld on => (tt, set_masked on s)
  | Isatty _ => (false, s)
  | Tcsetpgrp _ _ => (tt, s)
  | Getpgrp => (100, s)
  | Alarm n => (tt, set_alarm (negb (n =? 0)) s)
  | Printf t => (tt, set_out (s_out s ++ t) s)
  | Perror _ => (tt, s)
  | Execv _ _ => (true, s)
  | Getcwd => (Some (lit "/"), s)
  | Getpwname => (Some (lit "user"), s)
  | Gethostname => (lit "host", s)
  | Stat path => (if bool_decide (path = lit "/nosuch") then None else Some (NotDir 0), s)
  | AccessX _ => (true, s)
  | Getenv _ => (None, s)
  | Getline => (None, s)
  | Chdir _ => (true, s)
  | Time => (1000, s)
  | Fgets fd n =>
      let rest := default [] (s_in s !! fd) in
      if bool_decide (rest = []) then (None, s)
      else let l := take (n - 1) (fst (first_line rest)) in
           (Some l, set_in (<[fd := drop (length l) rest]> (s_in s)) s)
  | Fprintf fd text =>
      (tt, set_written (<[fd := default [] (s_written s !! fd) ++ text]> (s_written s)) s)
  | Opendir _ =>
      let fd := demo_fd s in
      if bool_decide (fd ∈ s_fds s) then (-1, s)
      else (fd, set_fds ({[fd]} ∪ s_fds s) (set_dirs (<[fd := [lit "b"; lit ".c"; lit "a"]]> (s_dirs s)) s))
  | Readdir fd =>
      match default [] (s_dirs s !! fd) with
      | [] => (None, s)
      | name :: rest => (Some name, set_dirs (<[fd := rest]> (s_dirs s)) s)
      end
  | Readlink _ _ => (None, s)
  | Filetype _ => (Some S_REG, s)
  | AccessF _ => (true, s)
  | Getpid => (100, s)
  | Ptrace _ _ => (true, s)
  | Getregs _ => (Some 1, s)
  | Tracewait pid =>
      if bool_decide (0 < pid) then (pid, WExited 0, EOTHER, set_kids (s_kids s ∖ {[pid]}) s)
      else (-1, WExited 0, ECHILD, s)
  | Clock => ((5, 0), s)
  | Raise _ => (tt, s)
  end.

Lemma demo_os_lawful : lawful demo_os.
Proof.
  intros X c s. destruct c; cbn [demo_os step fst snd]; try done.
  - case_bool_decide; simpl; [by left|]. right. split; [unfold demo_fd; lia|]. eauto.
  - case_bool_decide as H; simpl; [by left|]. right. exists (demo_fd s), (demo_fd s + 1).
    unfold demo_fd in *. split_and!; try done; try lia; intros ?; apply H; auto.
  - case_bool_decide; simpl; [by left|]. right; right. split; [lia|done].
  - case_bool_decide; simpl; [by left|]. right. split; [unfold demo_fd; lia|done].
  - by right.
  - destruct (bool_decide _ && _)%bool eqn:E; simpl; [by left|]. right. exists n. split_and!; [done|lia| |done].
    intros ->. destruct (default [] (s_in s !! fd)); [done|]. by rewrite bool_decide_true in E.
  - by right.
  - by right.
  - case_bool_decide; simpl; right; [by left|by right].
  - right. split_and!; [lia|lia| |done]. destruct data; [done|simpl; lia].
  - unfold demo_wait. case_bool_decide as H; simpl; [|destruct (wnohang opts) eqn:Ew; simpl].
    + destruct H. left. by split_and!.
    + right; left. done.
    + right; right. split_and!; try done. intros _. split; [done|]. intros Hp Hin. by apply H.
  - split; [by left|done].
  - by right.
  - case_bool_decide; simpl; right; [by left|right; eauto].
  - by right.
  - case_bool_decide; simpl; [by left|]. right. split; [unfold demo_fd; lia|]. eauto.
  - destruct (default [] _) as [|name rest] eqn:E; simpl; right; [by left|right; eauto].
  - case_bool_decide; simpl; [left|right]; done.
Qed.

(** The shell after its start. *)
Definition demo_start : sysst :=
  mksysst (mkglobals (replicate MAX_JOBS zero_job) 1 100 false false (mkhop_statics [] [] [] [])) ({[0; 1; 2]} : gset Z) ∅ ∅ false ∅ false ∅
    false false 100 [] [] true ∅.

#[export] Instance demo_builtins : builtins := {|
  hop_builtin _ := Ret 0; reveal_builtin _ := Ret 0; peek_builtin _ := Ret 0;
  locate_builtin _ := Ret 0; spy_builtin _ := Ret 0; snoop_builtin _ := Ret 0 |}.

(** The processes of job slot 0 and the printed text after a run. *)
Definition first_job (o : outcome Z) : option (Z * list JobProc * str) :=
  match o with
  | Returned _ s => j ← jobs s !! 0%nat; Some (pgid j, procs j, s_out s)
  | _ => None
  end.

(** The names of a background job's processes are taken from the
    commands by position in the list of pids, in which the helper processes
    come first: for [cat < a < b &] the feeder is listed as [cat] and [cat] as
    [feeder]. *)
Theorem bg_job_names_shifted :
  first_job (run_prog demo_os
    (pipes_execute 10 [mkSingleCommand [lit "cat"] [lit "a"; lit "b"] []] true (Some (lit "cat a b")))
    demo_start) =
  Some (102, [mkJobProc 101 (lit "cat") false; mkJobProc 102 (lit "feeder") false],
        lit "[1] 102" ++ [LF]).
Proof. vm_compute. reflexivity. Qed.

(** A background command that cannot be started is registered all the
    same: [nosuch &] announces job 1 with process group 0 and no process. *)
Theorem bg_job_without_process :
  first_job (run_prog demo_os
    (pipes_execute 10 [mkSingleCommand [lit "nosuch"] [] []] true (Some (lit "nosuch"))) demo_start) =
  Some (0, [], NOT_FOUND (lit "nosuch") ++ lit "[1] 0" ++ [LF]).
Proof. vm_compute. reflexivity. Qed.
