(* ===== verification/Prompt.v ===== *)
(** * The prompt: [prompt.c]

    The prompt shows the user, the host and the current directory, in which the
    directory the shell was started from is written [~]. *)

From stdpp Require Import base list gmap sets strings.
From Stdlib Require Import ZArith Lia Ascii.
From S2P Require Import Prelude ShellBase.

Open Scope Z_scope.

Definition TILDE : ascii := "~".

(** [strncmp(cwd, home, strlen(home)) == 0], then the character behind it. *)
Definition format_prompt_path (cwd home : str) : str :=
  if bool_decide (take (length home) cwd = home) then
    let rest := drop (length home) cwd in
    if bool_decide (rest = []) then [TILDE]
    else if bool_decide (hd0 rest = "/"%char) then TILDE :: rest
    else cwd
  else cwd.

Definition prompt_text (user host path : str) : str :=
  lit "<" ++ user ++ lit "@" ++ host ++ lit ":" ++ path ++ lit "> ".

(** The answer of [getcwd] is not looked at: when it fails, [cwd] is read
    uninitialised.  [home] is [None] for a null pointer, which [strlen] reads. *)
Definition print_prompt (home : option str) : prog unit :=
  do* pw := call Getpwname in
  do* hostname := call Gethostname in
  do* cwd := call Getcwd in
  match cwd, home with
  | Some cwd, Some home =>
      printf (prompt_text (default (lit "unknown") pw) hostname (format_prompt_path cwd home))
  | _, _ => Crash
  end.

(** ** What the prompt shows *)

(** The directory a reader of the prompt takes it for. *)
Definition expand_tilde (home shown : str) : str :=
  match shown with
  | c :: rest => if bool_decide (c = TILDE) then home ++ rest else shown
  | [] => []
  end.

Lemma format_prompt_cases cwd home :
  (exists rest, cwd = home ++ rest /\ (rest = [] \/ hd0 rest = "/"%char) /\
     format_prompt_path cwd home = TILDE :: rest) \/
  format_prompt_path cwd home = cwd.
Proof.
  unfold format_prompt_path. case_bool_decide as Hp; [|by right].
  assert (Hc : cwd = home ++ drop (length home) cwd) by (by rewrite <- Hp at 1; rewrite take_drop).
  case_bool_decide as H1; [left; exists []; rewrite H1 in Hc; by auto|].
  case_bool_decide as H2; [left; eauto|by right].
Qed.

Lemma prompt_path_expands cwd home : hd0 cwd = "/"%char ->
  expand_tilde home (format_prompt_path cwd home) = cwd.
Proof.
  intros Habs. destruct (format_prompt_cases cwd home) as [(rest & -> & _ & ->)| ->]; [done|].
  destruct cwd as [|c cwd]; [done|]. simpl in *. by subst c.
Qed.

(** The prompt is not ambiguous: for every directory and every home, the
    path that is shown, with [~] read as the home, is the current directory;
    two absolute directories that look alike in the prompt are the same one,
    and a directory that only has the home's name as a prefix ([/home/ann] and
    [/home/anna]) is not abbreviated. *)
Theorem prompt_path_roundtrip cwd cwd' home : hd0 cwd = "/"%char -> hd0 cwd' = "/"%char ->
  expand_tilde home (format_prompt_path cwd home) = cwd /\
  (format_prompt_path cwd home = format_prompt_path cwd' home -> cwd = cwd') /\
  (forall c rest, cwd = home ++ c :: rest -> c <> "/"%char -> format_prompt_path cwd home = cwd).
Proof.
  intros H H'. split_and!; [by apply prompt_path_expands| |].
  - intros E. by rewrite <- (prompt_path_expands cwd home), <- (prompt_path_expands cwd' home), E.
  - intros c rest -> Hc. destruct (format_prompt_cases (home ++ c :: rest) home)
      as [(r & E & Hr & _)|E]; [|done]. simplify_list_eq. by destruct Hr.
Qed.

Example prompt_path_witness :
  expand_tilde (lit "/home/ann") (format_prompt_path (lit "/home/ann/src") (lit "/home/ann")) = lit "/home/ann/src" /\
  format_prompt_path (lit "/home/anna") (lit "/home/ann") = lit "/home/anna".
Proof.
  split.
  - by apply (prompt_path_roundtrip (lit "/home/ann/src") (lit "/")).
  - by apply (proj2 (proj2 (prompt_path_roundtrip (lit "/home/anna") (lit "/") (lit "/home/ann") eq_refl eq_refl))
      "a"%char []).
Defined.

(** ** When the prompt is safe *)

(** The prompt is printed, whoever and wherever the shell is, as long as there
    is a current directory. *)
Lemma print_prompt_spec home s (Q : unit -> sysst -> Prop) E : s_cwd s = true ->
  (forall text, Q tt (set_out (s_out s ++ text) s)) -> sat (print_prompt (Some home)) s Q E.
Proof.
  intros Hc HQ. apply sat_bind, sat_call. intros pw t ->. apply sat_bind, sat_call. intros host t ->.
  apply sat_bind, sat_call. intros [cwd|] t [Hd ->]; [|by destruct (Hd Hc)].
  apply sat_call. intros [] t ->. apply HQ.
Qed.

(** Without a current directory the prompt reads memory that was never written. *)
Theorem prompt_needs_cwd home s : s_cwd s = false ->
  ~ sat (print_prompt home) s (fun _ _ => True) (fun _ _ => True).
Proof.
  intros Hc H. specialize (H None s eq_refl). specialize (H [] s eq_refl). specialize (H None s).
  apply H. split; [by rewrite Hc|done].
Qed.
