(* ===== verification/Executor.v ===== *)
(** * Executing a group: [executor.c], and the main loop: [main.c]

    A single builtin in the foreground runs in the shell itself, with its
    redirections put in place of the standard descriptors and undone again;
    everything else is a pipeline. *)

From stdpp Require Import base list gmap sets strings.
From Stdlib Require Import ZArith Lia Ascii.
From S2P Require Import Prelude ShellBase Lexer Parser Command Jobs JobFacts JobBuiltins JobTheorems.
From S2P Require Import Redirect Pipes PipesFacts Prompt.

Open Scope Z_scope.

(** ** The text of a job *)

Definition CMD_LINE_SIZE : nat := 512.

(** One word is appended if it fits, with a blank between. *)
Definition add_word (cur : str) (tok : Token) : str :=
  match value tok with
  | None => cur
  | Some v =>
      if (length cur + length v + 2 <? CMD_LINE_SIZE)%nat
      then (if (0 <? length cur)%nat then cur ++ [" "%char] else cur) ++ v
      else cur
  end.

Definition build_cmd_line (tokens : list Token) : str := foldl add_word [] tokens.

(** ** [executor_execute_group] *)

Section Executor.

Context {bi : builtins}.

Variable fuel : nat.

(** [saved = dup(target); dup2(fd, target); close(fd);] *)
Definition redirect_std (fd target : Z) : prog Z :=
  do* saved := call (Dup target) in
  call (Dup2 fd target) ;;;
  call (Close fd) ;;;
  Ret saved.

Definition restore_std (saved target : Z) : prog unit :=
  pwhen (0 <=? saved) (call (Dup2 saved target) ;;; call (Close saved)).

Definition wait_helper (pid : Z) : prog unit :=
  pwhen (0 <? pid) (do* _ := call (Waitpid pid (mkwopts false false false)) in Ret tt).

Definition no_setup : setup := mksetup 0 (-1) (-1).

(** The builtin of [c] between its redirections; [exit] ends the shell. *)
Definition run_in_shell (name : str) (args : list str) (saved_in saved_out : Z) : prog Z :=
  match run_builtin fuel name args with
  | Some m => m
  | None =>
      job_kill_all_sighup ;;;
      restore_std saved_in STDIN_FILENO ;;;
      restore_std saved_out STDOUT_FILENO ;;;
      Stop (Exited 0)
  end.

Definition execute_builtin (c : SingleCommand) (name : str) : prog Z :=
  do* inp := (if nonempty (input_files c) then redirect_setup_input fuel (input_files c) else Ret no_setup) in
  if su_ret inp <? 0 then Ret (-1) else
  do* saved_in := (if 0 <=? su_fd inp then redirect_std (su_fd inp) STDIN_FILENO else Ret (-1)) in
  do* out := (if nonempty (output_files c) then redirect_setup_output fuel (output_files c) else Ret no_setup) in
  if su_ret out <? 0 then restore_std saved_in STDIN_FILENO ;;; Ret (-1) else
  do* saved_out := (if 0 <=? su_fd out then redirect_std (su_fd out) STDOUT_FILENO else Ret (-1)) in
  do* ret := run_in_shell name (argv c) saved_in saved_out in
  restore_std saved_in STDIN_FILENO ;;;
  restore_std saved_out STDOUT_FILENO ;;;
  wait_helper (su_pid inp) ;;;
  wait_helper (su_pid out) ;;;
  Ret ret.

Definition executor_execute_group (tokens : list Token) (is_bg : bool) : prog Z :=
  match tokens with
  | [] => Ret 0
  | _ =>
      match group_commands tokens with
      | None => Crash
      | Some cmds =>
          let line := build_cmd_line tokens in
          match cmds with
          | [c] =>
              match argv c with
              | name :: _ =>
                  if (negb is_bg && is_builtin name)%bool then execute_builtin c name
                  else pipes_execute fuel cmds is_bg (Some line)
              | [] => pipes_execute fuel cmds is_bg (Some line)
              end
          | _ => pipes_execute fuel cmds is_bg (Some line)
          end
      end
  end.

(** ** [main.c] *)

(** The loading of the frecency database in [hop.c]. *)
Variable hop_init : option str -> prog unit.

Definition INVALID_SYNTAX : str := lit "cshell: invalid syntax" ++ [LF].

(** What is done with one line; [true] ends the loop. *)
Definition handle_line (line : str) : prog bool :=
  term_reset_ctrl_d ;;;
  match lexer_tokenize line with
  | LUndef => Crash
  | LFuel => NoFuel
  | LErr => printf INVALID_SYNTAX ;;; Ret false
  | LOk tokens =>
      if negb (parser_validate tokens) then printf INVALID_SYNTAX ;;; Ret false else
      match tokens with
      | [] => Ret false
      | [tok] =>
          match value tok with
          | None => Crash
          | Some w =>
              if streq w (lit "exit") then job_kill_all_sighup ;;; Ret true
              else do* _ := executor_run executor_execute_group 2 tokens in Ret false
          end
      | _ => do* _ := executor_run executor_execute_group 2 tokens in Ret false
      end
  end.

(** [while (runtime)], [n] rounds of it. *)
Fixpoint main_loop (session_home_dir : option str) (n : nat) : prog unit :=
  match n with
  | O => NoFuel
  | S n' =>
      print_prompt session_home_dir ;;;
      do* line := call Getline in
      match line with
      | None =>
          do* leave := term_handle_ctrl_d in
          if (leave : bool) then job_kill_all_sighup else main_loop session_home_dir n'
      | Some line =>
          do* leave := handle_line line in
          if (leave : bool) then Ret tt else main_loop session_home_dir n'
      end
  end.

Definition main (n : nat) : prog Z :=
  printf (lit "initiate C shell" ++ [LF; LF; LF]) ;;;
  do* session_home_dir := call Getcwd in
  hop_init session_home_dir ;;;
  term_control_init ;;;
  main_loop session_home_dir n ;;;
  job_kill_all_sighup ;;;
  Ret 0.

End Executor.

(** ** The text fits *)

Lemma add_word_bound cur tok : (length cur <= 510)%nat -> (length (add_word cur tok) <= 510)%nat.
Proof.
  intros H. unfold add_word, CMD_LINE_SIZE. destruct (value tok) as [v|]; [|done].
  destruct (_ <? _)%nat eqn:E; [|done]. bool_to_prop. rewrite length_app.
  destruct (0 <? length cur)%nat; rewrite ?length_app; simpl; lia.
Qed.

Lemma cmd_line_bound tokens : (length (build_cmd_line tokens) <= 510)%nat.
Proof.
  unfold build_cmd_line. assert (H : (length ([] : str) <= 510)%nat) by (simpl; lia).
  revert H. generalize ([] : str). induction tokens as [|tok tokens IH]; intros cur H; simpl; [done|].
  apply IH. by apply add_word_bound.
Qed.

(** The text of a job never overflows its 512-byte buffer, whatever the
    words are, and the job table keeps the whole of it. *)
Theorem cmd_line_fits tokens num pg st :
  (length (build_cmd_line tokens) < CMD_LINE_SIZE)%nat /\
  cmd_line (new_job num pg (Some (build_cmd_line tokens)) st) = build_cmd_line tokens.
Proof.
  pose proof (cmd_line_bound tokens) as H. unfold CMD_LINE_SIZE. split; [lia|].
  simpl. unfold copy_str. apply take_ge. lia.
Qed.
