(* ===== verification/ShellSafety.v ===== *)
(** * The shell as a whole does not crash and does not leak

    From the contracts of the components to the main loop: for every input and
    every behaviour of the system. *)

From stdpp Require Import base list gmap sets strings.
From Stdlib Require Import ZArith Lia Ascii.
From S2P Require Import Prelude ShellBase Lexer Parser Command Jobs JobFacts JobBuiltins JobTheorems.
From S2P Require Import Redirect Pipes PipesFacts Prompt Executor.

Open Scope Z_scope.

(** ** Programs that leave descriptors, mask and timer alone *)

Definition neutral {X} (c : sys X) : bool :=
  match c with
  | Open _ _ | Opendir _ | Close _ | Pipe | Dup _ | Dup2 _ _ | BlockSigchld _ | Alarm _ => false
  | _ => true
  end.

Lemma step_neutral {X} (c : sys X) s x s' : neutral c = true -> step c s x s' -> waited s s'.
Proof.
  destruct c; intros Hn Hs; simpl in *; try done; step_cases.
Qed.

(** Nothing the shell calls takes its current directory away. *)
Lemma step_cwd {X} (c : sys X) s x s' : step c s x s' -> s_cwd s' = s_cwd s.
Proof.
  destruct c; intros Hs; simpl in *; try done; step_cases.
Qed.

Lemma sat_cwd {A} (m : prog A) s Q E : sat m s Q E ->
  sat m s (fun a s' => Q a s' /\ s_cwd s' = s_cwd s) E.
Proof.
  revert s. induction m as [a|X c k IH|e|]; intros s H; [done| |done|done].
  intros x t Hx. rewrite <- (step_cwd c s x t Hx). by apply IH, H.
Qed.

(** Every call of [m] is neutral. *)
Class calm {A} (m : prog A) : Prop :=
  calm_frames : forall s Q E, sat m s Q E -> sat m s (fun a s' => Q a s' /\ waited s s') E.

#[export] Instance waited_refl : Reflexive waited.
Proof. by intros s. Qed.

#[export] Instance waited_trans : Transitive waited.
Proof. intros s1 s2 s3 (? & ? & ?) (? & ? & ?). split_and!; congruence. Qed.

#[export] Instance calm_ret {A} (a : A) : calm (Ret a).
Proof. by intros s Q E H. Qed.

#[export] Instance calm_stop {A} e : calm (@Stop A e).
Proof. by intros s Q E H. Qed.

#[export] Instance calm_crash {A} : calm (@Crash A).
Proof. by intros s Q E H. Qed.

#[export] Instance calm_bind {A B} (m : prog A) (f : A -> prog B) :
  calm m -> (forall a, calm (f a)) -> calm (pbind m f).
Proof.
  intros Hm Hf s Q E H. apply sat_bind_iff in H. apply sat_bind.
  apply Hm in H. eapply sat_mono; [exact H| |done]. intros a t [Ha Ht].
  apply Hf in Ha. eapply sat_mono; [exact Ha| |done]. intros b u [Hb Hu]. split; [done|by etrans].
Qed.

Lemma calm_call {X} (c : sys X) : neutral c = true -> calm (call c).
Proof. intros Hn s Q E H x s' Hx. split; [by apply H|by eapply step_neutral]. Qed.

#[export] Hint Extern 1 (calm (call _)) => (apply calm_call; reflexivity) : typeclass_instances.

#[export] Instance calm_when b m : calm m -> calm (pwhen b m).
Proof. intros H. destruct b; [done|apply _]. Qed.

Lemma calm_pfor {A} (l : list A) body : (forall x, calm (body x)) -> calm (pfor l body).
Proof. intros H. induction l as [|x l IH]; cbn [pfor]; [apply _|]. by apply calm_bind. Qed.

#[export] Instance calm_printf t : calm (printf t).
Proof. unfold printf. apply _. Qed.

#[export] Instance calm_getg {A} (f : globals -> A) : calm (getg f).
Proof. unfold getg. apply _. Qed.

#[export] Instance calm_modg f : calm (modg f).
Proof. unfold modg. apply _. Qed.

#[export] Instance calm_getj i : calm (getj i).
Proof. apply calm_bind; [apply _|]. intros g. destruct (g_jobs g !! i); apply _. Qed.

#[export] Instance calm_setj i f : calm (setj i f).
Proof. apply calm_bind; [apply _|]. intros g. destruct (g_jobs g !! i); apply _. Qed.

#[export] Instance calm_sweep_job i : calm (sweep_job i).
Proof.
  assert (Hp : forall p all, calm (sweep_proc i p all)).
  { intros p all. apply calm_bind; [apply _|]. intros j. destruct (procs j !! p) as [pr|]; [|apply _].
    destruct (exited pr); [apply _|]. apply calm_bind; [apply _|]. intros [[r w] e].
    destruct (0 <? r); [destruct w; apply _|]. destruct (r =? 0); apply _. }
  assert (Hps : forall n p all, calm (sweep_procs i n p all)).
  { induction n as [|n IH]; intros p all; cbn [sweep_procs]; [apply _|]. apply calm_bind; [apply Hp|intros; apply IH]. }
  apply calm_bind; [apply _|]. intros j. destruct (negb (active j)); [apply _|].
  apply calm_bind; [apply Hps|apply _].
Qed.

Lemma calm_job_sweep : calm job_sweep.
Proof. apply calm_pfor, _. Qed.

Lemma calm_kill_all : calm job_kill_all_sighup.
Proof. apply calm_pfor. intros i. apply calm_bind; [apply _|]. intros j. apply _. Qed.

Lemma calm_activities args : calm (activities_builtin args).
Proof.
  apply calm_bind; [exact calm_job_sweep|intros _]. apply calm_bind; [|apply _].
  apply calm_pfor. intros i. apply calm_bind; [apply calm_getg|]. intros [k|]; apply _.
Qed.

#[export] Instance calm_ping_fail msg : calm (ping_fail msg).
Proof. unfold ping_fail. apply _. Qed.

Lemma calm_ping args : calm (ping_builtin args).
Proof.
  unfold ping_builtin. destruct args as [|a [|target [|num [|]]]]; try apply _.
  destruct (is_valid_signal_number num); [|apply _].
  apply calm_bind; [exact calm_job_sweep|intros _]. destruct (bool_decide _).
  - unfold ping_job. destruct (_ || _)%bool; [apply _|]. destruct (strtol _) as [n endp].
    destruct (_ || _)%bool; [apply _|]. apply calm_bind; [apply calm_getg|]. intros [i|]; [|apply _].
    apply calm_bind; [apply _|]. intros j. destruct (negb (active j)); [apply _|].
    apply calm_bind; [destruct (0 <? pgid j); apply _|]. intros k.
    apply calm_bind; [apply calm_when, calm_pfor; intros p; unfold kill_proc; apply _|intros _].
    apply calm_bind; [apply _|intros _]. unfold ping_sent. apply _.
  - unfold ping_pid. destruct (strtol _) as [n endp]. destruct (_ || _)%bool; [apply _|].
    apply calm_bind; [apply calm_getg|]. intros [[i p]|]; [|apply _].
    apply calm_bind; [apply _|]. intros j. destruct (procs j !! p); [|apply _].
    destruct (_ || _)%bool; [apply _|]. apply calm_bind; [apply _|]. intros k.
    destruct (_ && _)%bool; [apply _|]. apply calm_bind; [apply _|intros _]. unfold ping_sent. apply _.
Qed.

Lemma calm_ctrl_d : calm term_handle_ctrl_d.
Proof.
  apply calm_bind.
  - apply calm_bind; [exact calm_job_sweep|intros _]. apply calm_getg.
  - intros [|]; [|apply _]. apply calm_bind; [apply calm_getg|]. intros [|]; apply _.
Qed.

(** ** The invariant of the shell *)

(** Between commands: a well-formed job table, SIGCHLD open, no timer armed and
    exactly the descriptors [X], the standard ones among them. *)
Definition shell_ok (X : gset Z) (s : sysst) : Prop :=
  jobs_ok (s_glob s) /\ s_masked s = false /\ s_alarm s = false /\ s_fds s = X /\
  STDIN_FILENO ∈ X /\ STDOUT_FILENO ∈ X.

(** [m] is safe and comes back to the invariant, or the process ends. *)
Definition shell_safe {A} (m : prog A) : Prop := forall X s, shell_ok X s ->
  sat m s (fun _ s' => shell_ok X s') (fun _ _ => True).

Lemma safe_ret {A} (a : A) : shell_safe (Ret a).
Proof. by intros X s H. Qed.

Lemma safe_bind {A B} (m : prog A) (f : A -> prog B) :
  shell_safe m -> (forall a, shell_safe (f a)) -> shell_safe (pbind m f).
Proof.
  intros Hm Hf X s Hs. apply sat_bind. eapply sat_mono; [by apply Hm|intros a t Ht; by apply Hf|done].
Qed.

Lemma safe_calm {A} (m : prog A) : keeps_jobs m -> calm m -> shell_safe m.
Proof.
  intros Hk Hc X s (Hok & Hm & Ha & Hf & H0 & H1). eapply sat_mono; [by apply calm_frames, Hk| |done].
  intros a t [Hokt (W1 & W2 & W3)]. split_and!; congruence.
Qed.

Lemma safe_printf t : shell_safe (printf t).
Proof. apply safe_calm; apply _. Qed.

Lemma safe_when b m : shell_safe m -> shell_safe (pwhen b m).
Proof. intros H. destruct b; [done|apply safe_ret]. Qed.

Lemma safe_pfor {A} (l : list A) body : (forall x, shell_safe (body x)) -> shell_safe (pfor l body).
Proof. intros H. induction l as [|x l IH]; cbn [pfor]; [apply safe_ret|by apply safe_bind]. Qed.

Lemma safe_stop {A} e : shell_safe (@Stop A e).
Proof. by intros X s H. Qed.

(** A call that touches neither descriptors nor the shell's own state. *)
Lemma safe_call {X} (c : sys X) : keeps_jobs (call c) -> calm (call c) -> shell_safe (call c).
Proof. apply safe_calm. Qed.

(** A descriptor that was opened is closed behind [body]. *)
Lemma safe_fd {A B} fd (body : prog A) (g : A -> B) X s : 0 <= fd -> fd ∉ X -> shell_ok ({[fd]} ∪ X) s ->
  STDIN_FILENO ∈ X -> STDOUT_FILENO ∈ X -> shell_safe body ->
  sat (do* r := body in call (Close fd) ;;; Ret (g r)) s (fun _ s' => shell_ok X s') (fun _ _ => True).
Proof.
  intros Hge Hni Hs H0 H1 Hb. apply sat_bind. eapply sat_mono; [by apply Hb| |done].
  intros a t (Hok & Hm & Ha & Hf & _). apply sat_bind, sat_call. intros [] u ->.
  split_and!; try done. simpl. rewrite Hf. set_solver.
Qed.

Lemma shell_ok_open fd X s f : shell_ok X s -> s_glob (f s) = s_glob s -> s_masked (f s) = s_masked s ->
  s_alarm (f s) = s_alarm s -> s_fds (f s) = {[fd]} ∪ s_fds s -> shell_ok ({[fd]} ∪ X) (f s).
Proof.
  intros (Hok & Hm & Ha & Hf & H0 & H1) G1 G2 G3 G4.
  split_and!; [by rewrite G1|congruence|congruence|congruence|set_solver|set_solver].
Qed.

(** [m] closes the descriptor [fd] the shell has opened. *)
Definition closes {A} (fd : Z) (m : prog A) : Prop := forall X s, 0 <= fd -> fd ∉ X ->
  STDIN_FILENO ∈ X -> STDOUT_FILENO ∈ X -> shell_ok ({[fd]} ∪ X) s ->
  sat m s (fun _ s' => shell_ok X s') (fun _ _ => True).

Lemma closes_close fd : closes fd (call (Close fd)).
Proof.
  intros X s Hge Hni H0 H1 (Hok & Hm & Ha & Hf & _). apply sat_call. intros [] u ->.
  split_and!; try done. simpl. rewrite Hf. set_solver.
Qed.

Lemma closes_before {A B} fd (m : prog A) (f : A -> prog B) :
  shell_safe m -> (forall a, closes fd (f a)) -> closes fd (pbind m f).
Proof.
  intros Hm Hf X s Hge Hni H0 H1 Hs. apply sat_bind. eapply sat_mono; [by apply Hm| |done].
  intros a t Ht. by apply Hf.
Qed.

Lemma closes_behind {A B} fd (m : prog A) (f : A -> prog B) :
  closes fd m -> (forall a, shell_safe (f a)) -> closes fd (pbind m f).
Proof.
  intros Hm Hf X s Hge Hni H0 H1 Hs. apply sat_bind. eapply sat_mono; [by apply Hm| |done].
  intros a t Ht. by apply Hf.
Qed.

(** [fopen] or [opendir], and what is done with the stream. *)
Lemma safe_open {A} p fl (m : prog A) (body : Z -> prog A) : shell_safe m -> (forall fd, closes fd (body fd)) ->
  shell_safe (do* fd := call (Open p fl) in if fd <? 0 then m else body fd).
Proof.
  intros Hm Hb X s Hs. pose proof Hs as (_ & _ & _ & Hf & H0 & H1). apply sat_bind, sat_call.
  intros fd t [[-> ->]|(Hge & Hni & content & ->)]; [by apply Hm|].
  rewrite (proj2 (Z.ltb_ge _ _)) by done. rewrite Hf in Hni. apply Hb; try done.
  by apply (shell_ok_open fd X s (fun s => set_fds _ _)).
Qed.

Lemma safe_opendir {A} p (m : prog A) (body : Z -> prog A) : shell_safe m -> (forall fd, closes fd (body fd)) ->
  shell_safe (do* fd := call (Opendir p) in if fd <? 0 then m else body fd).
Proof.
  intros Hm Hb X s Hs. pose proof Hs as (_ & _ & _ & Hf & H0 & H1). apply sat_bind, sat_call.
  intros fd t [[-> ->]|(Hge & Hni & content & ->)]; [by apply Hm|].
  rewrite (proj2 (Z.ltb_ge _ _)) by done. rewrite Hf in Hni. apply Hb; try done.
  by apply (shell_ok_open fd X s (fun s => set_fds _ _)).
Qed.

(** [m] leaves descriptors, mask and timer as they are, and the table in order. *)
Definition quiet {A} (m : prog A) : Prop := forall s, jobs_ok (s_glob s) ->
  sat m s (fun _ s' => jobs_ok (s_glob s') /\ waited s s') (fun _ _ => True).

Lemma quiet_calm {A} (m : prog A) : keeps_jobs m -> calm m -> quiet m.
Proof. intros Hk Hc s Hs. by apply calm_frames, Hk. Qed.

Lemma quiet_bind {A B} (m : prog A) (f : A -> prog B) : quiet m -> (forall a, quiet (f a)) -> quiet (pbind m f).
Proof.
  intros Hm Hf s Hs. apply sat_bind. eapply sat_mono; [by apply Hm| |done]. intros a t [Ht Hw].
  eapply sat_mono; [by apply Hf| |done]. intros b u [Hu Hw']. split; [done|by etrans].
Qed.

Lemma quiet_ret {A} (a : A) : quiet (Ret a).
Proof. by intros s Hs. Qed.

(** A change of the statics of [hop] concerns no job. *)
Lemma jobs_ok_hop g h : jobs_ok g -> jobs_ok (set_hop h g).
Proof. by intros []. Qed.

Lemma keeps_modg_hop f : keeps_jobs (modg (fun g => set_hop (f g) g)).
Proof.
  intros s Hs. apply sat_bind, sat_call. intros g t [-> ->]. apply sat_call. intros [] t ->.
  by apply jobs_ok_hop.
Qed.

(** Goes through a program along its structure and leaves the parts that have
    no general lemma. *)
Ltac shell_auto :=
  repeat match goal with
  | H : ?G |- ?G => exact H
  | |- forall _, _ => intros ?
  | |- keeps_jobs (pbind _ _) => apply keeps_bind
  | |- keeps_jobs (pwhen _ _) => apply keeps_when
  | |- keeps_jobs (pfor _ _) => apply keeps_pfor
  | |- keeps_jobs (Ret _) => apply keeps_ret
  | |- keeps_jobs (call _) => apply _
  | |- keeps_jobs (printf _) => apply _
  | |- keeps_jobs (puts _) => apply keeps_printf
  | |- keeps_jobs (getg _) => apply keeps_getg
  | |- keeps_jobs NoFuel => apply keeps_nofuel
  | |- keeps_jobs (Stop _) => apply keeps_stop
  | |- quiet (pbind _ _) => apply quiet_bind
  | |- quiet (Ret _) => apply quiet_ret
  | |- quiet (call _) => apply quiet_calm; apply _
  | |- quiet (printf _) => apply quiet_calm; apply _
  | |- quiet NoFuel => by intros ? ?
  | |- shell_safe (pbind (call (Open _ _)) _) => apply safe_open
  | |- shell_safe (pbind (call (Opendir _)) _) => apply safe_opendir
  | |- shell_safe (pbind _ _) => apply safe_bind
  | |- shell_safe (pwhen _ _) => apply safe_when
  | |- shell_safe (pfor _ _) => apply safe_pfor
  | |- shell_safe (Ret _) => apply safe_ret
  | |- shell_safe (Stop _) => apply safe_stop
  | |- shell_safe (call _) => apply safe_call; apply _
  | |- shell_safe (printf _) => apply safe_printf
  | |- shell_safe (puts _) => apply safe_printf
  | |- shell_safe (getg _) => apply safe_calm; [apply keeps_getg|apply calm_getg]
  | |- shell_safe NoFuel => apply safe_stop
  | |- _ (match ?x with _ => _ end) => destruct x
  end.

(** What the builtins promise to the executor. *)
Class builtins_safe (bi : builtins) : Prop := {
  safe_keep :: builtins_keep bi;
  hop_safe args : shell_safe (hop_builtin args);
  reveal_safe args : shell_safe (reveal_builtin args);
  peek_safe args : shell_safe (peek_builtin args);
  locate_safe args : shell_safe (locate_builtin args);
  spy_safe args : shell_safe (spy_builtin args);
  snoop_safe args : shell_safe (snoop_builtin args)
}.

Section Safety.

Context {bi : builtins} {bs : builtins_safe bi}.
Variable fuel : nat.

Lemma run_builtin_safe name args m : run_builtin fuel name args = Some m -> shell_safe m.
Proof.
  unfold run_builtin. repeat (destruct (streq _ _); [intros [= <-]|]); [..|done].
  - apply hop_safe.
  - apply reveal_safe.
  - apply peek_safe.
  - apply locate_safe.
  - apply safe_calm; [apply keeps_activities|apply calm_activities].
  - intros X s (Hok & Hm & Ha & Hf & H0 & H1). eapply sat_mono; [by apply resume_spec| |done].
    intros r t (_ & ? & ? & ? & ?). split_and!; congruence.
  - apply safe_calm; [apply keeps_ping|apply calm_ping].
  - apply spy_safe.
  - apply snoop_safe.
Qed.

Lemma pipes_safe cmds is_bg line : shell_safe (pipes_execute fuel cmds is_bg line).
Proof.
  intros X s (Hok & Hm & Ha & Hf & H0 & H1). eapply sat_mono; [by apply pipes_settle| |done].
  intros r t [(W1 & W2 & W3 & W4) _]. split_and!; congruence.
Qed.

(** *** A builtin between its redirections *)

Lemma redirect_std_safe fd target X s : 0 <= fd -> fd ∉ X -> target ∈ X ->
  jobs_ok (s_glob s) -> s_masked s = false -> s_alarm s = false -> s_fds s = {[fd]} ∪ X ->
  sat (redirect_std fd target) s (fun saved s' => tidy (set_fds (fd_set saved ∪ X) s) s' /\
    fd_set saved ## X /\ s_kids s' = s_kids s) (fun _ _ => False).
Proof.
  intros Hge Hni Ht Hok Hm Ha Hf. unfold redirect_std. apply sat_bind, sat_call.
  intros saved t Hd. apply sat_bind, sat_call. intros r u Hu. apply sat_bind, sat_call. intros [] v ->.
  assert (Hd2 : u = t \/ u = set_fds ({[target]} ∪ s_fds t) t) by (destruct Hu as [[_ ->]|[_ ->]]; auto).
  assert (Hfs : fd_set saved ∪ X ∪ {[fd]} = s_fds t /\ fd_set saved ## {[fd]} ∪ X /\ same_proc s t).
  { unfold fd_set. destruct Hd as [[-> ->]|(Hs & Hns & ->)]; simpl.
    - rewrite Hf. split_and!; [set_solver..|done].
    - rewrite (proj2 (Z.leb_le 0 saved)) by done. rewrite Hf in *. split_and!; [set_solver..|done]. }
  destruct Hfs as (H1 & H2 & (P1 & P2 & P3 & P4)).
  assert (H3 : s_fds u ∖ {[fd]} = fd_set saved ∪ X).
  { destruct Hd2 as [->| ->]; simpl; rewrite <- H1; set_solver. }
  split; [|split; [set_solver|by destruct Hd2 as [->| ->]]].
  split; [exact H3|]. destruct Hd2 as [->| ->]; by split_and!.
Qed.

Lemma restore_std_safe saved target X s (Q : unit -> sysst -> Prop) E : target ∈ X -> fd_set saved ## X ->
  s_fds s = fd_set saved ∪ X ->
  (forall s', tidy (set_fds X s) s' -> s_kids s' = s_kids s -> Q tt s') -> sat (restore_std saved target) s Q E.
Proof.
  intros Ht Hd Hf HQ. unfold restore_std, fd_set in *. destruct (0 <=? saved); simpl.
  - apply sat_bind, sat_call. intros r u Hu. apply sat_call. intros [] v ->.
    assert (Hd2 : u = s \/ u = set_fds ({[target]} ∪ s_fds s) s) by (destruct Hu as [[_ ->]|[_ ->]]; auto).
    destruct Hd2 as [->| ->]; apply HQ; try done; split_and!; simpl; try done; rewrite Hf; set_solver.
  - apply HQ; [|done]. split_and!; simpl; try done. rewrite Hf. set_solver.
Qed.

Lemma wait_helper_safe pid : shell_safe (wait_helper pid).
Proof. apply safe_calm; unfold wait_helper; apply _. Qed.

(** One redirection of a builtin: [setup] gives the descriptor that takes the
    place of [target]. *)
Lemma setup_std_safe n target X s r s1 : target ∈ X -> shell_ok X s -> setup_post n s r s1 ->
  (su_ret r <? 0) = false ->
  sat (if 0 <=? su_fd r then redirect_std (su_fd r) target else Ret (-1)) s1
    (fun saved s' => fd_set saved ## X /\ shell_ok (fd_set saved ∪ X) s') (fun _ _ => False).
Proof.
  intros Ht (Hok & Hm & Ha & Hf & H0 & H1) Hp Hr.
  destruct (setup_post_ok _ _ _ _ Hp Hr) as (F1 & D1 & _ & _ & G1 & M1 & A1).
  unfold fd_set in F1, D1. destruct (0 <=? su_fd r) eqn:E; bool_to_prop.
  - eapply sat_mono; [apply (redirect_std_safe (su_fd r) target X s1)| |done];
      [done|rewrite <- Hf; set_solver|done|by rewrite G1|congruence|congruence|by rewrite F1, Hf|].
    intros saved u ((T1 & T2 & T3 & T4) & Hd & _). simpl in *. split; [done|].
    split_and!; [by rewrite T2, G1|congruence|congruence|done|set_solver|set_solver].
  - split; [set_solver|].
    split_and!; [by rewrite G1|congruence|congruence|rewrite F1, Hf; done|set_solver|set_solver].
Qed.

Lemma setup_std_failed n X s r s1 : shell_ok X s -> setup_post n s r s1 -> (su_ret r <? 0) = true -> shell_ok X s1.
Proof.
  intros (Hok & Hm & Ha & Hf & H0 & H1) Hp Hr.
  destruct (setup_post_failed _ _ _ _ Hp Hr) as [F1 (G1 & K1 & M1 & A1)].
  split_and!; congruence.
Qed.

Lemma no_setup_post s : setup_post 0 s no_setup s.
Proof. split_and!; try done. right; left. by split_and!. Qed.

Lemma restore_safe saved target X s (Q : unit -> sysst -> Prop) E : target ∈ X -> fd_set saved ## X ->
  STDIN_FILENO ∈ X -> STDOUT_FILENO ∈ X -> shell_ok (fd_set saved ∪ X) s ->
  (forall s', shell_ok X s' -> Q tt s') -> sat (restore_std saved target) s Q E.
Proof.
  intros Ht Hd H0 H1 (Hok & Hm & Ha & Hf & _) HQ. apply (restore_std_safe saved target X); [done..|].
  intros s' (T1 & T2 & T3 & T4) _. simpl in *. apply HQ. split_and!; congruence.
Qed.

Lemma run_in_shell_safe name args saved_in saved_out : shell_safe (run_in_shell fuel name args saved_in saved_out).
Proof.
  unfold run_in_shell. destruct (run_builtin fuel name args) as [m|] eqn:E; [by eapply run_builtin_safe|].
  apply safe_bind; [apply safe_calm; [apply keeps_kill_all|apply calm_kill_all]|intros _].
  intros X s _. unfold restore_std.
  assert (Hr : forall saved t u, sat (pwhen (0 <=? saved) (call (Dup2 saved t) ;;; call (Close saved))) u
    (fun _ _ => True) (fun _ _ => True)).
  { intros saved t u. apply sat_when; [|done]. intros _. apply sat_bind, sat_call. intros. by apply sat_call. }
  apply sat_bind. eapply sat_mono; [apply Hr| |done]. intros _ t _.
  apply sat_bind. eapply sat_mono; [apply Hr|done|done].
Qed.

Lemma execute_builtin_safe c name : shell_safe (execute_builtin fuel c name).
Proof.
  intros X s Hs. pose proof Hs as (_ & _ & _ & _ & H0 & H1). unfold execute_builtin. apply sat_bind.
  assert (Hin : sat (if nonempty (input_files c) then redirect_setup_input fuel (input_files c) else Ret no_setup) s
    (fun r s' => exists n, setup_post n s r s') (fun _ _ => True)).
  { destruct (nonempty _); [|exists 0%nat; apply no_setup_post].
    eapply sat_mono; [apply redirect_input_spec|by eauto|done]. }
  eapply sat_mono; [exact Hin| |done]. intros inp s1 [n Hp1].
  destruct (su_ret inp <? 0) eqn:E1; [by eapply setup_std_failed|].
  apply sat_bind. eapply sat_mono; [by apply (setup_std_safe n STDIN_FILENO X s)| |done].
  intros saved_in s2 [Hd2 Hs2]. apply sat_bind.
  assert (Hout : sat (if nonempty (output_files c) then redirect_setup_output fuel (output_files c) else Ret no_setup) s2
    (fun r s' => exists n, setup_post n s2 r s') (fun _ _ => True)).
  { destruct (nonempty (output_files c)); [|exists 0%nat; apply no_setup_post].
    eapply sat_mono; [apply redirect_output_spec|by eauto|done]. }
  eapply sat_mono; [exact Hout| |done]. intros out s3 [n3 Hp3].
  destruct (su_ret out <? 0) eqn:E3.
  { apply sat_bind. apply (restore_safe saved_in STDIN_FILENO X); [done..|by eapply setup_std_failed|done]. }
  apply sat_bind. eapply sat_mono; [apply (setup_std_safe n3 STDOUT_FILENO (fd_set saved_in ∪ X) s2)| |done];
    [set_solver|done|done|done|].
  intros saved_out s4 [Hd4 Hs4]. apply sat_bind.
  eapply sat_mono; [by apply run_in_shell_safe| |done]. intros ret s5 Hs5. cbn beta in Hs5.
  apply sat_bind. apply (restore_safe saved_in STDIN_FILENO (fd_set saved_out ∪ X));
    [set_solver|set_solver|set_solver|set_solver| |].
  { by replace (fd_set saved_in ∪ (fd_set saved_out ∪ X)) with (fd_set saved_out ∪ (fd_set saved_in ∪ X)) by set_solver. }
  intros s6 Hs6. apply sat_bind. apply (restore_safe saved_out STDOUT_FILENO X); [set_solver..|done|].
  intros s7 Hs7. apply sat_bind. eapply sat_mono; [by apply wait_helper_safe| |done]. intros [] s8 Hs8.
  apply sat_bind. eapply sat_mono; [by apply wait_helper_safe| |done]. by intros [] s9 Hs9.
Qed.

Lemma execute_group_safe tokens is_bg : Forall token_ok tokens ->
  shell_safe (executor_execute_group fuel tokens is_bg).
Proof.
  intros Hok. unfold executor_execute_group. destruct tokens as [|tok tokens]; [apply safe_ret|].
  rewrite group_commands_eq by done.
  destruct (map command_of _) as [|c [|c' cs]]; [apply pipes_safe| |apply pipes_safe].
  destruct (argv c) as [|name args]; [apply pipes_safe|].
  destruct (_ && _)%bool; [apply execute_builtin_safe|apply pipes_safe].
Qed.

(** *** A line *)

Lemma run_groups_safe (groups : list (list Token * bool)) :
  Forall (fun gb => Forall token_ok (fst gb)) groups ->
  shell_safe (foldr (fun '(g, bg) m => executor_execute_group fuel g bg ;;; m) (Ret 0) groups).
Proof.
  induction 1 as [|[g bg] groups Hg Hgs IH]; simpl; [apply safe_ret|].
  apply safe_bind; [by apply execute_group_safe|done].
Qed.

Lemma run_part_safe part : Forall token_ok part -> shell_safe (run_part (executor_execute_group fuel) part).
Proof.
  intros Hok. unfold run_part. destruct (existsb _ _); [|by apply execute_group_safe].
  by apply run_groups_safe, bg_groups_tokens.
Qed.

Lemma run_parts_safe parts : Forall (Forall token_ok) parts ->
  shell_safe (run_parts (executor_execute_group fuel) parts).
Proof.
  induction 1 as [|p ps Hp Hps IH]; cbn [run_parts]; [apply safe_ret|].
  apply safe_bind; [by apply run_part_safe|]. intros r. destruct (negb _); [apply safe_ret|done].
Qed.

Lemma executor_run_safe tokens : Forall token_ok tokens ->
  shell_safe (executor_run (executor_execute_group fuel) 2 tokens).
Proof.
  intros Hok X s Hs. apply (executor_run_line (executor_execute_group fuel) 0). revert X s Hs.
  change (shell_safe (run_line (executor_execute_group fuel) tokens)). unfold run_line.
  destruct (existsb _ _).
  - apply run_parts_safe. unfold semi_parts.
    pose proof (split_on_tokens token_ok TOK_SEMI tokens Hok) as H. rewrite List.Forall_forall in H.
    apply List.Forall_forall. intros g Hg. apply H. by apply List.filter_In in Hg as [Hg _].
  - destruct tokens; [apply safe_ret|by apply run_part_safe].
Qed.

Lemma lexes_tokens line toks : lexes line toks -> Forall token_ok toks.
Proof.
  induction 1 as [| | |c line toks Hc H1 H IH|src w line toks H1 H2 H3 H IH];
    [constructor|done|by constructor|constructor..]; [|done|..|done].
  - unfold token_ok. simpl. unfold is_operator in Hc. unfold operator_type. by repeat destruct (bool_decide _).
  - split; [done|]. by eapply word_no_nul.
Qed.

Lemma lexer_result line : lexer_tokenize line = LErr \/
  exists toks, lexer_tokenize line = LOk toks /\ Forall token_ok toks.
Proof.
  destruct (tokenize_loop_reads (length line + 2) line [] 8) as [He|(toks & He & Ht)]; simpl; [lia..|by left|].
  right. exists toks. split; [done|]. by eapply lexes_tokens.
Qed.

(** An accepted line of one token is a word. *)
Lemma single_word tok : token_ok tok -> parser_validate [tok] = true -> exists w, value tok = Some w.
Proof.
  unfold token_ok. destruct tok as [ty [w|]]; simpl; [by eauto|]. by destruct ty.
Qed.

Lemma handle_line_safe line : shell_safe (handle_line fuel line).
Proof.
  unfold handle_line. apply safe_bind; [apply safe_calm; unfold term_reset_ctrl_d; apply _|intros _].
  destruct (lexer_result line) as [->|(toks & -> & Hok)].
  { apply safe_bind; [apply safe_printf|intros; apply safe_ret]. }
  destruct (parser_validate toks) eqn:Ev; simpl; [|apply safe_bind; [apply safe_printf|intros; apply safe_ret]].
  assert (Hrun : shell_safe (do* _ := executor_run (executor_execute_group fuel) 2 toks in Ret false)).
  { apply safe_bind; [by apply executor_run_safe|intros; apply safe_ret]. }
  destruct toks as [|tok [|tok' toks]]; [apply safe_ret| |done].
  apply Forall_cons in Hok as [Ht _]. destruct (single_word tok Ht Ev) as [w ->].
  destruct (streq w _); [|done].
  apply safe_bind; [apply safe_calm; [apply keeps_kill_all|apply calm_kill_all]|intros; apply safe_ret].
Qed.

(** *** The main loop *)

(** Loading the database of [hop] happens before the job table exists. *)
Variable hop_init : option str -> prog unit.

Hypothesis hop_init_safe : forall home s,
  sat (hop_init home) s (fun _ s' => waited s s' /\ g_next_job_num (s_glob s') = g_next_job_num (s_glob s))
    (fun _ _ => True).

(** The invariant of the loop: the shell is where its directory still exists. *)
Definition shell_here (X : gset Z) (s : sysst) : Prop := shell_ok X s /\ s_cwd s = true.

Lemma safe_here {A} (m : prog A) X s : shell_safe m -> shell_here X s ->
  sat m s (fun _ s' => shell_here X s') (fun _ _ => True).
Proof.
  intros Hm [Hs Hc]. eapply sat_mono; [by apply sat_cwd, Hm| |done].
  intros a t [Ht Hct]. split; [done|congruence].
Qed.

Lemma prompt_here home X s : shell_here X s ->
  sat (print_prompt (Some home)) s (fun _ s' => shell_here X s') (fun _ _ => True).
Proof. intros [Hs Hc]. by apply print_prompt_spec. Qed.

Lemma main_loop_safe home n X s : shell_here X s ->
  sat (main_loop fuel (Some home) n) s (fun _ s' => shell_here X s') (fun _ _ => True).
Proof.
  revert s. induction n as [|n IH]; intros s Hs; cbn [main_loop]; [done|].
  apply sat_bind. eapply sat_mono; [by apply prompt_here| |done]. intros [] t Ht.
  apply sat_bind. eapply sat_mono; [apply safe_here; [apply safe_calm; apply _|exact Ht]| |done].
  intros [line|] u Hu; apply sat_bind.
  - eapply sat_mono; [apply safe_here; [apply handle_line_safe|exact Hu]| |done].
    intros [|] v Hv; [done|by apply IH].
  - eapply sat_mono; [apply safe_here; [apply safe_calm; [apply keeps_ctrl_d|apply calm_ctrl_d]|exact Hu]| |done].
    intros [|] v Hv; [|by apply IH].
    apply safe_here; [apply safe_calm; [apply keeps_kill_all|apply calm_kill_all]|done].
Qed.

(** The shell with any builtins that keep their contract. *)
Lemma main_safe n X s :
  g_next_job_num (s_glob s) = 1 -> s_masked s = false -> s_alarm s = false -> s_fds s = X ->
  STDIN_FILENO ∈ X -> STDOUT_FILENO ∈ X -> s_cwd s = true ->
  sat (main fuel hop_init n) s (fun r s' => r = 0 /\ shell_ok X s') (fun _ _ => True).
Proof.
  intros Hn Hm Ha Hf H0 H1 Hc. unfold main. apply sat_bind, sat_printf.
  apply sat_bind, sat_call. intros [home|] s' [Hd ->]; [|by destruct (Hd Hc)]. apply sat_bind.
  eapply sat_mono; [apply sat_cwd, hop_init_safe| |done]. intros [] t [[(W1 & W2 & W3) Hg] Hct]. simpl in *.
  apply sat_bind, sat_init. intros pg. set (u := set_glob _ t).
  assert (Hu : shell_here X u).
  { subst u. split; [|simpl; congruence].
    split_and!; simpl; try congruence. apply jobs_ok_init; simpl; [done|congruence]. }
  clearbody u. apply sat_bind. eapply sat_mono; [by apply main_loop_safe| |done]. intros [] v [Hv _].
  apply sat_bind. eapply sat_mono; [apply safe_calm; [apply keeps_kill_all|apply calm_kill_all|exact Hv]| |done].
  by intros [] w Hw.
Qed.

End Safety.
