(* ===== verification/Peek.v ===== *)
(** * The builtin [peek]: [peek.c]

    [peek] prints files or its input, [-n] with line numbers, [-r] from the last
    line to the first.  For files the reverse reader goes back through the file
    in chunks and never holds more than a chunk and an incomplete line; here it
    is compared with printing the reversed list of lines. *)

From stdpp Require Import base list gmap sets strings.
From Stdlib Require Import ZArith Lia Ascii.
From S2P Require Import Prelude ShellBase Command Jobs JobFacts JobTheorems Redirect Pipes PipesFacts ShellSafety.

Open Scope Z_scope.

Definition CHUNK_SIZE : nat := 4096.

(** ** Printing *)

(** [printf("%d %.*s\n", num, ...)] or [printf("%.*s\n", ...)] *)
Definition render (flag_n : bool) (num : Z) (w : str) : str :=
  (if flag_n then dec num ++ lit " " else []) ++ until_nul w ++ [LF].

(** ** [count_non_empty_lines_seekable] *)

Definition count_char (st : Z * bool) (c : ascii) : Z * bool :=
  let '(count, line_has_content) := st in
  if bool_decide (c = LF) then
    if line_has_content then (count + 1, false) else (count, line_has_content)
  else if bool_decide (c = CR) then (count, line_has_content)
  else (count, true).

Fixpoint count_loop (fuel : nat) (fd : Z) (st : Z * bool) : prog (Z * bool) :=
  match fuel with
  | O => NoFuel
  | S fuel' =>
      do* r := call (Read fd CHUNK_SIZE) in
      match r with
      | None | Some [] => Ret st
      | Some buffer => count_loop fuel' fd (foldl count_char st buffer)
      end
  end.

Definition count_non_empty_lines_seekable (fuel : nat) (fd : Z) : prog Z :=
  do* ok := call (Lseek fd 0) in
  if negb ok then Ret 0 else
  do* st := count_loop fuel fd (0, false) in
  Ret (if snd st then fst st + 1 else fst st).

(** ** [peek_forward_stream] *)

(** [while (len > 0 && (line[len - 1] == '\n' || line[len - 1] == '\r')) len--;] *)
Fixpoint trim_len (line : str) (len : nat) : nat :=
  match len with
  | O => O
  | S n => match line !! n with
           | Some c => if (bool_decide (c = LF) || bool_decide (c = CR))%bool then trim_len line n else len
           | None => len
           end
  end.

Definition trim (line : str) : str := take (trim_len line (length line)) line.

(** Returns [*line_counter]. *)
Fixpoint forward_loop (fuel : nat) (fd : Z) (flag_n : bool) (line_counter : Z) : prog Z :=
  match fuel with
  | O => NoFuel
  | S fuel' =>
      do* r := call (Fgetline fd) in
      match r with
      | None => Ret line_counter
      | Some line =>
          match trim line with
          | [] => printf [LF] ;;; forward_loop fuel' fd flag_n line_counter
          | w => printf (render flag_n line_counter w) ;;;
                 forward_loop fuel' fd flag_n (if flag_n then line_counter + 1 else line_counter)
          end
      end
  end.

(** [body] reads a stream on a duplicate of [fd]: what the stream gives is what
    is left of [fd].  [None]: the stream could not be opened. *)
Definition with_stream {A} (fd : Z) (body : prog A) : prog (option A) :=
  do* dup_fd := call (Dup fd) in
  if dup_fd <? 0 then Ret None else
  do* fp := call (Fdopen dup_fd) in
  if negb fp then call (Close dup_fd) ;;; Ret None else
  do* r := body in
  call (Close dup_fd) ;;;
  Ret (Some r).

Definition peek_forward_stream (fuel : nat) (fd : Z) (flag_n : bool) (line_counter : Z) : prog Z :=
  do* r := with_stream fd (forward_loop fuel fd flag_n line_counter) in
  Ret (default line_counter r).

(** ** [peek_reverse_stream] *)

Record StreamLine := mkStreamLine { text : str; is_non_empty : bool; line_num : Z }.

(** The lines read, in order, and [*line_counter]. *)
Fixpoint gather_lines (fuel : nat) (fd : Z) (line_counter : Z) (lines : list StreamLine) :
    prog (list StreamLine * Z) :=
  match fuel with
  | O => NoFuel
  | S fuel' =>
      do* r := call (Fgetline fd) in
      match r with
      | None => Ret (lines, line_counter)
      | Some line =>
          match trim line with
          | [] => gather_lines fuel' fd line_counter (lines ++ [mkStreamLine [] false 0])
          | w => gather_lines fuel' fd (line_counter + 1) (lines ++ [mkStreamLine w true line_counter])
          end
      end
  end.

Definition print_stream_line (flag_n : bool) (l : StreamLine) : prog unit :=
  if is_non_empty l then printf (render flag_n (line_num l) (text l)) else printf [LF].

(** The lines are read and the stream closed before anything is printed. *)
Definition peek_reverse_stream (fuel : nat) (fd : Z) (flag_n : bool) (line_counter : Z) : prog Z :=
  do* r := with_stream fd (gather_lines fuel fd line_counter []) in
  match r with
  | None => Ret line_counter
  | Some (lines, line_counter) => pfor (rev lines) (print_stream_line flag_n) ;;; Ret line_counter
  end.

(** ** [peek_reverse_seekable] *)

(** [if (len > 0 && w[len - 1] == '\r') len--;] *)
Definition strip_cr (w : str) : str :=
  match last w with
  | Some c => if bool_decide (c = CR) then removelast w else w
  | None => w
  end.

(** Print one line and return [current_line_num]. *)
Definition print_line (flag_n : bool) (num : Z) (w : str) : prog Z :=
  match strip_cr w with
  | [] => printf [LF] ;;; Ret num
  | w' => printf (render flag_n num w') ;;; Ret (if flag_n then num - 1 else num)
  end.

(** [for (i = end_idx - 1; i >= 0; i--)] with [n = i + 1]; the result is
    [end_idx] and [current_line_num]. *)
Fixpoint scan_back (combined : str) (flag_n : bool) (n end_idx : nat) (num : Z) : prog (nat * Z) :=
  match n with
  | O => Ret (end_idx, num)
  | S i =>
      match combined !! i with
      | None => Crash
      | Some c =>
          if bool_decide (c = LF) then
            do* num' := print_line flag_n num (take (end_idx - S i) (drop (S i) combined)) in
            scan_back combined flag_n i i num'
          else scan_back combined flag_n i end_idx num
      end
  end.

(** [end_idx] before the scan: the newline that ends the file is not a line. *)
Definition first_end (combined : str) (at_end : bool) : nat :=
  match last combined with
  | Some c => if (at_end && bool_decide (c = LF))%bool then (length combined - 1)%nat else length combined
  | None => length combined
  end.

(** [while (pos > 0)]; the result is [pos], [tail] and [current_line_num], an
    empty [tail] being the null pointer. *)
Fixpoint reverse_loop (fuel : nat) (fd file_size : Z) (flag_n : bool) (pos : Z) (tail : str) (num : Z) :
    prog (Z * str * Z) :=
  if negb (0 <? pos) then Ret (pos, tail, num) else
  match fuel with
  | O => NoFuel
  | S fuel' =>
      let read_len := if Z.of_nat CHUNK_SIZE <=? pos then CHUNK_SIZE else Z.to_nat pos in
      let pos := pos - Z.of_nat read_len in
      do* ok := call (Lseek fd pos) in
      if negb ok then Ret (pos, tail, num) else
      do* r := call (Read fd read_len) in
      match r with
      | None | Some [] => Ret (pos, tail, num)
      | Some chunk =>
          let combined := chunk ++ tail in
          let end_idx := first_end combined (pos + Z.of_nat (length chunk) =? file_size) in
          do* r := scan_back combined flag_n end_idx end_idx num in
          reverse_loop fuel' fd file_size flag_n pos (take (fst r) combined) (snd r)
      end
  end.

Definition peek_reverse_seekable (fuel : nat) (fd file_size : Z) (flag_n : bool) (line_counter : Z) : prog Z :=
  if file_size <=? 0 then Ret line_counter else
  do* total_non_empty := (if flag_n then count_non_empty_lines_seekable fuel fd else Ret 0) in
  do* r := reverse_loop fuel fd file_size flag_n file_size []
             (if flag_n then line_counter + total_non_empty - 1 else 0) in
  let '(pos, tail, num) := r in
  (match tail with
   | _ :: _ => do* _ := print_line flag_n num tail in Ret tt
   | [] => pwhen (pos =? 0) (printf [LF])
   end) ;;;
  Ret (if flag_n then line_counter + total_non_empty else line_counter).

(** ** [peek_builtin] *)

(** The characters behind the [-] of an option. *)
Fixpoint parse_flags (cs : str) (flag_n flag_r : bool) : option (bool * bool) :=
  match cs with
  | [] => Some (flag_n, flag_r)
  | c :: cs' => if bool_decide (c = "n"%char) then parse_flags cs' true flag_r
                else if bool_decide (c = "r"%char) then parse_flags cs' flag_n true
                else None
  end.

(** Options and files of the command line; [None] is a syntax error. *)
Fixpoint parse_args (args : list str) (flag_n flag_r : bool) (files : list str) : option (bool * bool * list str) :=
  match args with
  | [] => Some (flag_n, flag_r, files)
  | arg :: args' =>
      match arg with
      | "-"%char :: cs =>
          if streq arg (lit "-") then parse_args args' flag_n flag_r (files ++ [lit "-"])
          else match parse_flags cs flag_n flag_r with
               | Some (n, r) => parse_args args' n r files
               | None => None
               end
      | _ => parse_args args' flag_n flag_r (files ++ [arg])
      end
  end.

(** One file; the result is [global_line_counter] and [exit_status]. *)
Definition peek_file (fuel : nat) (flag_n flag_r : bool) (filename : str) (counter status : Z) : prog (Z * Z) :=
  if streq filename (lit "-") then
    do* c := (if flag_r then peek_reverse_stream fuel STDIN_FILENO flag_n counter
              else peek_forward_stream fuel STDIN_FILENO flag_n counter) in
    Ret (c, status)
  else
    do* st := call (Stat filename) in
    match st with
    | None => puts (lit "peek: no such file or directory") ;;; Ret (counter, 1)
    | Some IsDir => puts (lit "peek: is a directory") ;;; Ret (counter, 1)
    | Some (NotDir st_size) =>
        do* fd := call (Open filename O_RDONLY) in
        if fd <? 0 then puts (lit "peek: no such file or directory") ;;; Ret (counter, 1) else
        do* c := (if flag_r then peek_reverse_seekable fuel fd st_size flag_n counter
                  else peek_forward_stream fuel fd flag_n counter) in
        call (Close fd) ;;;
        Ret (c, status)
    end.

Fixpoint peek_files (fuel : nat) (flag_n flag_r : bool) (files : list str) (counter status : Z) : prog Z :=
  match files with
  | [] => Ret status
  | f :: files' =>
      do* r := peek_file fuel flag_n flag_r f counter status in
      peek_files fuel flag_n flag_r files' (fst r) (snd r)
  end.

Definition peek_builtin (fuel : nat) (args : list str) : prog Z :=
  match parse_args (tail args) false false [] with
  | None => puts (lit "peek: invalid syntax") ;;; Ret 1
  | Some (flag_n, flag_r, files) =>
      let files := match files with [] => [lit "-"] | _ => files end in
      peek_files fuel flag_n flag_r files 1 0
  end.

(** ** Lines *)

(** The lines of a text; a newline ends a line. *)
Fixpoint lines_of (l : str) : list str :=
  match l with
  | [] => []
  | c :: l' => if bool_decide (c = LF) then [] :: lines_of l' else
               match lines_of l' with [] => [[c]] | p :: ps => (c :: p) :: ps end
  end.

(** The pieces between newlines; there is always one. *)
Fixpoint split_lf (l : str) : list str :=
  match l with
  | [] => [[]]
  | c :: l' => if bool_decide (c = LF) then [] :: split_lf l' else
               match split_lf l' with [] => [[c]] | p :: ps => (c :: p) :: ps end
  end.

Lemma split_lf_ne l : split_lf l <> [].
Proof. destruct l as [|c l]; simpl; [done|]. case_bool_decide; [done|]. by destruct (split_lf l). Qed.

Lemma split_lf_none l : LF ∉ l -> split_lf l = [l].
Proof.
  induction l as [|c l IH]; intros H; [done|]. apply not_elem_of_cons in H as [Hc H]. simpl.
  rewrite bool_decide_false by congruence. by rewrite IH.
Qed.

Lemma split_lf_head l p ps : split_lf l = p :: ps -> LF ∉ p /\ take (length p) l = p.
Proof.
  revert p ps. induction l as [|c l IH]; intros p ps H; simpl in H.
  - injection H as <- _. split; [apply not_elem_of_nil|done].
  - case_bool_decide as Ec; [injection H as <- _; split; [apply not_elem_of_nil|done]|].
    destruct (split_lf l) as [|q qs]; [injection H as <- _|].
    + split; [|done]. intros Hc%list_elem_of_singleton. congruence.
    + injection H as <- _. destruct (IH q qs eq_refl) as [Hq Ht].
      split; [|simpl; by rewrite Ht]. apply not_elem_of_cons. split; [congruence|done].
Qed.

Lemma split_lf_head_take l e p ps : split_lf (take e l) = p :: ps -> LF ∉ p /\ take (length p) l = p.
Proof.
  intros H. destruct (split_lf_head _ _ _ H) as [Hp Ht]. split; [done|]. rewrite take_take in Ht.
  destruct (Nat.min_spec (length p) e) as [[_ Hm]|[Hm1 Hm]]; rewrite Hm in Ht; [done|].
  pose proof (f_equal length Ht) as Hlen. rewrite length_take in Hlen. by replace (length p) with e by lia.
Qed.

Lemma split_lf_app x y p ps : split_lf y = p :: ps -> split_lf (x ++ y) = split_lf (x ++ p) ++ ps.
Proof.
  revert p ps. induction x as [|c x IH]; intros p ps Hy; simpl.
  - destruct (split_lf_head y p ps Hy) as [Hp _]. by rewrite Hy, (split_lf_none p Hp).
  - rewrite (IH p ps Hy). case_bool_decide; [done|].
    destruct (split_lf (x ++ p)) as [|q qs] eqn:E; [by apply split_lf_ne in E|done].
Qed.

Lemma split_lf_snoc x w : LF ∉ w -> split_lf (x ++ LF :: w) = split_lf x ++ [w].
Proof.
  intros Hw. rewrite (split_lf_app x (LF :: w) [] [w]), app_nil_r; [done|]. simpl.
  by rewrite split_lf_none.
Qed.

Lemma lines_of_ended l : lines_of (l ++ [LF]) = split_lf l.
Proof.
  induction l as [|c l IH]; [done|]. simpl. rewrite IH. case_bool_decide; [done|].
  destruct (split_lf l) eqn:E; [by apply split_lf_ne in E|done].
Qed.

Lemma lines_of_open l c : c <> LF -> lines_of (l ++ [c]) = split_lf (l ++ [c]).
Proof.
  intros Hc. induction l as [|d l IH]; simpl; [by rewrite bool_decide_false|].
  rewrite IH. case_bool_decide; [done|]. by destruct (split_lf (l ++ [c])) eqn:E.
Qed.

Lemma lines_of_first l a b : l <> [] -> first_line l = (a, b) ->
  exists p, LF ∉ p /\ (a = p ++ [LF] \/ a = p) /\ a <> [] /\ (forall c, c ∈ p -> c ∈ l) /\
    (forall c, c ∈ b -> c ∈ l) /\ (length b < length l)%nat /\ lines_of l = p :: lines_of b.
Proof.
  revert a b. induction l as [|c l IH]; intros a b Hne H; [done|]. simpl in H.
  case_bool_decide as Ec.
  - injection H as <- <-. subst c. exists []. split_and!; [apply not_elem_of_nil|by left|done| | |simpl; lia|done].
    + by intros c ?%not_elem_of_nil.
    + intros c Hc. by right.
  - destruct (first_line l) as [a' b'] eqn:E. injection H as <- <-. simpl. rewrite bool_decide_false by done.
    destruct l as [|d l'].
    + injection E as <- <-. exists [c]. split_and!; [|by right|done|done|by intros ? ?%not_elem_of_nil|simpl; lia|done].
      intros Hc%list_elem_of_singleton. congruence.
    + destruct (IH a' b' ltac:(done) eq_refl) as (p & Hp & Ha & Hna & Hin & Hb & Hlen & Hl). exists (c :: p).
      rewrite Hl. split_and!; try done.
      * apply not_elem_of_cons. split; [congruence|done].
      * destruct Ha as [->| ->]; [by left|by right].
      * intros x [->|Hx]%elem_of_cons; [by left|right; by apply Hin].
      * intros x Hx. right. by apply Hb.
      * simpl in *. lia.
Qed.

(** ** What is printed *)

(** The lines with numbers from [c] on, as they are printed. *)
Fixpoint numbered (flag_n : bool) (c : Z) (ws : list str) : list str :=
  match ws with
  | [] => []
  | [] :: ws' => [LF] :: numbered flag_n c ws'
  | w :: ws' => render flag_n c w :: numbered flag_n (c + 1) ws'
  end.

Definition non_empty (ws : list str) : Z := Z.of_nat (length (List.filter nonempty ws)).

Lemma non_empty_app ws vs : non_empty (ws ++ vs) = non_empty ws + non_empty vs.
Proof. unfold non_empty. rewrite List.filter_app, length_app. lia. Qed.

Lemma numbered_app flag_n c ws vs :
  numbered flag_n c (ws ++ vs) = numbered flag_n c ws ++ numbered flag_n (c + non_empty ws) vs.
Proof.
  revert c. induction ws as [|w ws IH]; intros c; simpl; [by rewrite Z.add_0_r|].
  change (w :: ws) with ([w] ++ ws). rewrite non_empty_app.
  destruct w; simpl; rewrite IH; do 3 f_equal; unfold non_empty at 2; simpl; lia.
Qed.

(** Without numbers the counter does not matter. *)
Lemma numbered_any c c' ws : numbered false c ws = numbered false c' ws.
Proof.
  revert c c'. induction ws as [|[|a w] ws IH]; intros c c'; simpl; [done|by f_equal|]. f_equal. apply IH.
Qed.

(** What [print_line] prints for [ws], in this order, counting down. *)
Fixpoint counted_down (flag_n : bool) (num : Z) (ws : list str) : str :=
  match ws with
  | [] => []
  | w :: ws' => match strip_cr w with
                | [] => LF :: counted_down flag_n num ws'
                | w' => render flag_n num w' ++ counted_down flag_n (if flag_n then num - 1 else num) ws'
                end
  end.

Definition number_after (flag_n : bool) (num : Z) (ws : list str) : Z :=
  if flag_n then num - non_empty (map strip_cr ws) else num.

Lemma counted_down_app flag_n num ws vs :
  counted_down flag_n num (ws ++ vs) =
  counted_down flag_n num ws ++ counted_down flag_n (number_after flag_n num ws) vs.
Proof.
  revert num. induction ws as [|w ws IH]; intros num; simpl.
  - unfold number_after, non_empty. simpl. by destruct flag_n; rewrite ?Z.sub_0_r.
  - rewrite !IH. unfold number_after, non_empty. simpl.
    destruct (strip_cr w), flag_n; simpl; rewrite <- ?app_assoc; do 3 f_equal; lia.
Qed.

Lemma number_after_app flag_n num ws vs :
  number_after flag_n num (ws ++ vs) = number_after flag_n (number_after flag_n num ws) vs.
Proof. unfold number_after. destruct flag_n; [|done]. rewrite map_app, non_empty_app. lia. Qed.

Lemma strip_cr_none w : CR ∉ w -> strip_cr w = w.
Proof.
  intros H. unfold strip_cr. destruct (last w) as [c|] eqn:E; [|done].
  rewrite bool_decide_false; [done|]. intros ->. by apply last_Some_elem_of in E.
Qed.

(** Counting down over the reversed lines gives the reversed numbered lines. *)
Lemma counted_down_rev flag_n c ws : Forall (fun w => CR ∉ w) ws ->
  counted_down flag_n (if flag_n then c + non_empty ws - 1 else 0) (rev ws) = concat (rev (numbered flag_n c ws)).
Proof.
  induction ws as [|w ws IH] using rev_ind; intros H; [done|].
  apply Forall_app in H as [H Hw]. apply Forall_cons in Hw as [Hw _]. specialize (IH H).
  rewrite rev_app_distr, numbered_app, rev_app_distr, non_empty_app. simpl. rewrite strip_cr_none by done.
  destruct w as [|a w]; simpl.
  - f_equal. rewrite <- IH. f_equal. destruct flag_n; [|done]. unfold non_empty at 2. simpl. lia.
  - destruct flag_n; simpl; rewrite <- IH.
    + change (non_empty [a :: w]) with 1. by replace (c + (non_empty ws + 1) - 1) with (c + non_empty ws) by lia.
    + done.
Qed.

Lemma print_line_spec flag_n num w s (Q : Z -> sysst -> Prop) E :
  Q (number_after flag_n num [w]) (set_out (s_out s ++ counted_down flag_n num [w]) s) ->
  sat (print_line flag_n num w) s Q E.
Proof.
  intros HQ. unfold print_line. unfold number_after, non_empty in HQ. simpl in HQ.
  destruct (strip_cr w) as [|a w'].
  - apply sat_bind, sat_printf. simpl in HQ. destruct flag_n; rewrite ?Z.sub_0_r in HQ; exact HQ.
  - apply sat_bind, sat_printf. rewrite app_nil_r in HQ. destruct flag_n; exact HQ.
Qed.

(** ** Calls that fail *)

(** A call on a file has failed, or a read has returned less than there was. *)
Definition bad (s : sysst) : bool := s_ioerr s || s_short s.

Lemma step_bad {X} (c : sys X) s x s' : step c s x s' -> bad s = true -> bad s' = true.
Proof.
  unfold bad. intros Hs Hb. destruct c; simpl in Hs; step_cases; by destruct (s_ioerr s), (s_short s).
Qed.

Lemma sat_bad {A} (m : prog A) s Q E : sat m s Q E ->
  sat m s (fun a s' => Q a s' /\ (bad s' = false -> bad s = false)) E.
Proof.
  revert s. induction m as [a|X c k IH|e|]; intros s H; cbn [sat] in *; [done| |done|done].
  intros x t Hx. eapply sat_mono; [apply IH, H, Hx| |done]. intros a u [HQ Hu]. split; [done|].
  intros Hb. specialize (Hu Hb). destruct (bad s) eqn:E'; [|done].
  by rewrite (step_bad c s x t Hx E') in Hu.
Qed.

Lemma sat_from_bad {A} (m : prog A) u (P : A -> sysst -> Prop) : bad u = true ->
  sat m u (fun _ _ => True) (fun _ _ => False) ->
  sat m u (fun r s' => bad s' = false -> P r s') (fun _ _ => False).
Proof.
  intros Hb Hm. eapply sat_mono; [by apply sat_bad| |done]. intros a v [_ Hv] Hb'. rewrite (Hv Hb') in Hb. done.
Qed.

(** ** Going back *)

Lemma scan_back_spec combined flag_n n e num p ps s (Q : nat * Z -> sysst -> Prop) E :
  (n <= e <= length combined)%nat -> LF ∉ drop n (take e combined) ->
  split_lf (take e combined) = p :: ps ->
  Q (length p, number_after flag_n num (rev ps)) (printed (counted_down flag_n num (rev ps)) s) ->
  sat (scan_back combined flag_n n e num) s Q E.
Proof.
  revert e num ps s. induction n as [|i IH]; intros e num ps s Hn Hl Hsp HQ; cbn [scan_back].
  - rewrite drop_0 in Hl. rewrite split_lf_none in Hsp by done. injection Hsp as <- <-.
    rewrite length_take_le in HQ by lia. simpl in HQ. unfold printed, number_after, non_empty in HQ.
    rewrite app_nil_r in HQ. simpl in HQ.
    assert (Hs : set_out (s_out s) s = s) by by destruct s. rewrite Hs in HQ.
    destruct flag_n; by rewrite ?Z.sub_0_r in HQ.
  - destruct (lookup_lt_is_Some_2 combined i) as [c Hc]; [lia|]. rewrite Hc.
    assert (Hte : take e combined !! i = Some c) by (rewrite lookup_take_lt by lia; done).
    case_bool_decide as Ec.
    + subst c. set (mid := take (e - S i) (drop (S i) combined)).
      assert (Hmid : mid = drop (S i) (take e combined)) by (subst mid; by rewrite take_drop_commute; do 2 f_equal; lia).
      assert (Hsplit : take e combined = take i combined ++ LF :: mid).
      { rewrite Hmid. rewrite <- (take_drop_middle (take e combined) i LF Hte) at 1.
        rewrite take_take. by rewrite Nat.min_l by lia. }
      rewrite Hmid in *. rewrite Hsplit in Hsp. rewrite split_lf_snoc in Hsp by done.
      destruct (split_lf (take i combined)) as [|p' ps'] eqn:E'; [by apply split_lf_ne in E'|].
      simpl in Hsp. injection Hsp as <- <-. rewrite rev_app_distr in HQ.
      change (rev [drop (S i) (take e combined)]) with [drop (S i) (take e combined)] in HQ.
      rewrite number_after_app, counted_down_app, <- printed_app in HQ.
      apply sat_bind, print_line_spec. eapply (IH i); [lia| |exact E'|].
      { rewrite drop_ge; [apply not_elem_of_nil|]. rewrite length_take. lia. }
      exact HQ.
    + eapply IH; [lia| |exact Hsp|exact HQ].
      rewrite (drop_S _ c) by done. by apply not_elem_of_cons.
Qed.

Lemma scan_back_total combined flag_n n e num s : (n <= length combined)%nat ->
  sat (scan_back combined flag_n n e num) s (fun _ _ => True) (fun _ _ => False).
Proof.
  revert e num s. induction n as [|i IH]; intros e num s Hn; cbn [scan_back]; [done|].
  destruct (lookup_lt_is_Some_2 combined i) as [c ->]; [lia|]. case_bool_decide; [|apply IH; lia].
  apply sat_bind, print_line_spec, IH. lia.
Qed.

Lemma first_end_le combined b : (first_end combined b <= length combined)%nat.
Proof. unfold first_end. destruct (last combined); [|done]. destruct (_ && _)%bool; lia. Qed.

(** How much is read at position [pos]. *)
Definition read_len_at (pos : Z) : nat := if Z.of_nat CHUNK_SIZE <=? pos then CHUNK_SIZE else Z.to_nat pos.

Lemma read_len_bounds pos : 0 < pos -> 0 < Z.of_nat (read_len_at pos) <= pos.
Proof. intros H. unfold read_len_at, CHUNK_SIZE. destruct (_ <=? _) eqn:E; bool_to_prop; lia. Qed.

(** It ends without undefined behaviour whatever is read. *)
Lemma reverse_loop_total fuel fd size flag_n pos tail num s : 0 <= pos -> (Z.to_nat pos <= fuel)%nat ->
  sat (reverse_loop fuel fd size flag_n pos tail num) s (fun _ _ => True) (fun _ _ => False).
Proof.
  revert pos tail num s. induction fuel as [|fuel IH]; intros pos tail num s Hp Hf; cbn [reverse_loop];
    destruct (0 <? pos) eqn:E; simpl negb; cbv iota; bool_to_prop; try done; [lia|].
  fold (read_len_at pos). pose proof (read_len_bounds pos E) as Hr.
  apply sat_bind, sat_call. intros ok t _. destruct ok; [|done]. simpl negb. cbv iota.
  apply sat_bind, sat_call. intros [[|c chunk]|] u _; [done| |done].
  apply sat_bind. eapply sat_mono; [apply scan_back_total, first_end_le| |done].
  intros r v _. apply IH; lia.
Qed.

(** A read that neither fails nor is short. *)
Lemma full_read fd n rest s (Q : option (list ascii) -> sysst -> Prop) E :
  default [] (s_in s !! fd) = rest -> (0 < n <= length rest)%nat ->
  (forall t, bad t = true -> forall r, Q r t) ->
  (forall t, s_file t = s_file s -> s_out t = s_out s -> Q (Some (take n rest)) t) ->
  sat (call (Read fd n)) s Q E.
Proof.
  intros Hin Hn Hbad HQ. apply sat_call. intros r t Ht. simpl in Ht. rewrite Hin in Ht.
  destruct Ht as [[-> ->]|(k & -> & Hk & Hk0 & ->)]; [by apply Hbad|].
  destruct (k <? Nat.min n (length rest))%nat eqn:E'.
  - apply Hbad. unfold bad. simpl. by rewrite !orb_true_r.
  - bool_to_prop. replace k with n by lia. by apply HQ.
Qed.

Lemma take_first_end_app x y : y <> [] ->
  take (first_end (x ++ y) true) (x ++ y) = x ++ take (first_end y true) y.
Proof.
  intros Hy. destruct (last y) as [c|] eqn:E; [|by apply last_None in E].
  assert (Hl : last (x ++ y) = Some c) by by rewrite last_app, E.
  unfold first_end. rewrite Hl, E. assert (length y <> 0%nat) by by destruct y.
  destruct (_ && _)%bool; rewrite length_app.
  - replace (length x + length y - 1)%nat with (length x + (length y - 1))%nat by lia. by rewrite take_app_add.
  - rewrite <- length_app, !firstn_all. done.
Qed.

Lemma first_end_false l : first_end l false = length l.
Proof. unfold first_end. by destruct (last l). Qed.

(** What is left to print at position [pos]: the text in front of it and the
    incomplete line behind it; at first the whole text without its last newline. *)
Definition left_to_print (content : str) (pos : Z) (tail T : str) : Prop :=
  (pos = Z.of_nat (length content) /\ tail = [] /\ T = take (first_end content true) content) \/
  (pos < Z.of_nat (length content) /\ T = take (Z.to_nat pos) content ++ tail).

(** One chunk: [y] is the part of it that ends where printing ends. *)
Lemma chunk_left content pos tail T r : left_to_print content pos tail T -> content <> [] ->
  0 < Z.of_nat r <= pos -> pos <= Z.of_nat (length content) ->
  let pos' := pos - Z.of_nat r in
  let combined := take r (drop (Z.to_nat pos') content) ++ tail in
  let e := first_end combined (pos =? Z.of_nat (length content)) in
  T = take (Z.to_nat pos') content ++ take e combined.
Proof.
  intros HT Hne Hr Hp pos' combined e. subst e. destruct HT as [(Hpos & -> & ->)|(Hlt & ->)].
  - rewrite (proj2 (Z.eqb_eq _ _) Hpos). subst combined. rewrite app_nil_r.
    rewrite (take_ge (drop _ _)) by (rewrite length_drop; lia).
    rewrite <- (take_drop (Z.to_nat pos') content) at 1 2. apply take_first_end_app.
    intros Hd. apply (f_equal length) in Hd. rewrite length_drop in Hd. simpl in Hd. lia.
  - rewrite (proj2 (Z.eqb_neq _ _)) by lia. rewrite first_end_false, firstn_all. subst combined.
    rewrite app_assoc. f_equal. rewrite take_take_drop. f_equal. lia.
Qed.

(** The loop prints the lines of [T] from the back, except the first, which it
    leaves in [tail]. *)
Lemma reverse_loop_spec fuel fd content flag_n pos tail num T s :
  content <> [] -> 0 <= pos <= Z.of_nat (length content) -> (Z.to_nat pos <= fuel)%nat -> LF ∉ tail ->
  s_file s !! fd = Some content -> left_to_print content pos tail T ->
  sat (reverse_loop fuel fd (Z.of_nat (length content)) flag_n pos tail num) s
    (fun r s' => bad s' = false -> r.1.1 = 0 /\ exists ps, split_lf T = r.1.2 :: ps /\
       r.2 = number_after flag_n num (rev ps) /\ s_out s' = s_out s ++ counted_down flag_n num (rev ps))
    (fun _ _ => False).
Proof.
  intros Hne. revert pos tail num T s.
  induction fuel as [|fuel IH]; intros pos tail num T s Hp Hf Hl Hfile HT; cbn [reverse_loop];
    destruct (0 <? pos) eqn:E; simpl negb; cbv iota; bool_to_prop; [lia| | |].
  1, 3: intros _; assert (pos = 0) as -> by lia; split; [done|]; exists []; simpl;
    destruct HT as [(Hz & _)|(_ & ->)]; [by destruct content|]; simpl;
    rewrite split_lf_none, app_nil_r by done; split_and!; [done| |done];
    unfold number_after, non_empty; simpl; destruct flag_n; lia.
  fold (read_len_at pos). pose proof (read_len_bounds pos E) as Hr. set (r := read_len_at pos) in *.
  set (pos' := pos - Z.of_nat r) in *.
  apply sat_bind, sat_call. intros ok t Ht. destruct Ht as [[-> ->]|[-> ->]]; [done|]. simpl negb. cbv iota.
  apply sat_bind. apply (full_read fd r (drop (Z.to_nat pos') content)).
  - simpl. by rewrite lookup_insert_eq, Hfile.
  - rewrite length_drop. lia.
  - intros u Hb res. apply sat_from_bad; [done|].
    destruct res as [[|c chunk]|]; [done| |done].
    apply sat_bind. eapply sat_mono; [apply scan_back_total, first_end_le| |done].
    intros x v _. apply reverse_loop_total; lia.
  - intros u Hfu Hou. pose proof (chunk_left content pos tail T r HT Hne Hr ltac:(lia)) as HTc.
    fold pos' in HTc. set (chunk := take r (drop (Z.to_nat pos') content)) in *.
    assert (Hlc : length chunk = r) by (subst chunk; rewrite length_take, length_drop; lia).
    destruct chunk as [|c0 chunk0] eqn:Ech; [simpl in Hlc; lia|]. rewrite <- Ech in *. clear c0 chunk0 Ech.
    replace (pos' + Z.of_nat (length chunk)) with pos by lia.
    set (combined := chunk ++ tail) in *. set (e := first_end combined (pos =? Z.of_nat (length content))) in *.
    destruct (split_lf (take e combined)) as [|p ps] eqn:Esp; [by apply split_lf_ne in Esp|].
    apply sat_bind. eapply (scan_back_spec combined flag_n e e num p ps);
      [split; [done|apply first_end_le]| |exact Esp|].
    { rewrite drop_ge; [apply not_elem_of_nil|]. rewrite length_take. lia. }
    simpl fst. simpl snd. destruct (split_lf_head_take _ _ _ _ Esp) as [Hpl Htk].
    rewrite Htk. eapply sat_mono; [apply (IH pos' p _ (take (Z.to_nat pos') content ++ p))| |done].
    + lia.
    + lia.
    + done.
    + simpl. rewrite Hfu. exact Hfile.
    + right. split; [lia|done].
    + intros [[pos1 tail1] num1] v Hv Hb. destruct (Hv Hb) as (Hz & qs & Hqs & Hnum & Hout). simpl in *.
      split; [done|]. exists (qs ++ ps). rewrite HTc, (split_lf_app _ _ p ps) by done. rewrite Hqs.
      rewrite rev_app_distr, number_after_app, counted_down_app. split_and!; [done|done|].
      rewrite Hout, Hou. simpl. by rewrite <- app_assoc.
Qed.

(** ** Counting *)

Definition count_total (st : Z * bool) : Z := if snd st then fst st + 1 else fst st.

Lemma count_chars l n b : CR ∉ l ->
  count_total (foldl count_char (n, b) l) =
  if b then n + 1 + match lines_of l with [] => 0 | _ :: ps => non_empty ps end
  else n + non_empty (lines_of l).
Proof.
  revert n b. induction l as [|c l IH]; intros n b H; simpl.
  - unfold count_total, non_empty. destruct b; simpl; lia.
  - apply not_elem_of_cons in H as [Hc H]. case_bool_decide as Ec.
    + destruct b; rewrite IH by done; [lia|]. unfold non_empty. simpl. lia.
    + rewrite bool_decide_false by congruence. rewrite IH by done.
      destruct b; destruct (lines_of l) as [|p ps]; unfold non_empty; simpl; lia.
Qed.

Lemma count_loop_spec fuel fd st s : (length (unread s fd) < fuel)%nat ->
  sat (count_loop fuel fd st) s (fun st' s' => s_file s' = s_file s /\ s_out s' = s_out s /\
    (bad s' = false -> st' = foldl count_char st (unread s fd))) (fun _ _ => False).
Proof.
  revert st s. induction fuel as [|fuel IH]; intros st s Hf; [lia|]. cbn [count_loop].
  apply sat_bind, sat_call. intros r t [[-> ->]|(k & -> & Hk & Hk0 & ->)]; fold (unread s fd) in *; [done|].
  destruct (take k (unread s fd)) as [|c chunk] eqn:Ec.
  - split_and!; [done|done|]. intros _. destruct k as [|k]; [by rewrite Hk0|].
    by destruct (unread s fd).
  - match goal with |- sat _ ?t0 _ _ => set (t := t0) end.
    assert (Hu : unread t fd = drop k (unread s fd)) by (unfold unread at 1; simpl; by rewrite lookup_insert_eq).
    assert (Hl : (length (drop k (unread s fd)) < length (unread s fd))%nat).
    { rewrite <- (take_drop k (unread s fd)) at 2. rewrite Ec, length_app. simpl. lia. }
    eapply sat_mono; [apply IH; rewrite Hu; lia| |done].
    intros st' u (H1 & H2 & H3). split_and!; [done|done|]. intros Hb. rewrite (H3 Hb), Hu, <- foldl_app, <- Ec.
    by rewrite take_drop.
Qed.

Lemma count_spec fuel fd content s : s_file s !! fd = Some content -> CR ∉ content ->
  (length content < fuel)%nat ->
  sat (count_non_empty_lines_seekable fuel fd) s (fun n s' => s_file s' = s_file s /\ s_out s' = s_out s /\
    (bad s' = false -> n = non_empty (lines_of content))) (fun _ _ => False).
Proof.
  intros Hf Hcr Hfuel. apply sat_bind, sat_call. intros ok t [[-> ->]|[-> ->]]; [done|]. simpl negb. cbv iota.
  match goal with |- sat _ ?t0 _ _ => set (t := t0) end.
  assert (Hu : unread t fd = content).
  { unfold unread. simpl. by rewrite lookup_insert_eq, Hf. }
  apply sat_bind. eapply sat_mono; [apply count_loop_spec; by rewrite Hu| |done].
  intros st u (H1 & H2 & H3). split_and!; [done|done|]. intros Hb.
  change (count_total st = non_empty (lines_of content)). rewrite (H3 Hb), Hu, count_chars by done. lia.
Qed.

(** ** Streams *)

Lemma trim_len_id line n : (forall c, line !! (n - 1)%nat = Some c -> c <> LF /\ c <> CR) -> trim_len line n = n.
Proof.
  intros H. destruct n as [|n]; [done|]. simpl. replace (S n - 1)%nat with n in H by lia.
  destruct (line !! n) as [c|]; [|done]. destruct (H c eq_refl). by rewrite !bool_decide_false.
Qed.

Lemma trim_line p a : LF ∉ p -> CR ∉ p -> a = p ++ [LF] \/ a = p -> trim a = p.
Proof.
  intros Hl Hc Ha.
  assert (Hid : forall x, trim_len (p ++ x) (length p) = length p).
  { intros x. destruct (length p) as [|n] eqn:En; [done|]. rewrite <- En. apply trim_len_id. intros c Hc'.
    rewrite lookup_app_l in Hc' by lia. apply list_elem_of_lookup_2 in Hc'.
    split; intros ->; done. }
  unfold trim. destruct Ha as [->| ->].
  - rewrite length_app. simpl. rewrite Nat.add_1_r. simpl. rewrite list_lookup_middle by done.
    rewrite bool_decide_true by done. simpl. rewrite Hid. by rewrite take_app_length.
  - specialize (Hid []). rewrite app_nil_r in Hid. by rewrite Hid, firstn_all.
Qed.

(** One call of [getline]. *)
Lemma fgetline_spec fd content s (Q : option str -> sysst -> Prop) E :
  unread s fd = content -> CR ∉ content ->
  (forall t, bad t = true -> Q None t) -> (content = [] -> Q None s) ->
  (forall line p rest t, trim line = p -> lines_of content = p :: lines_of rest -> CR ∉ rest ->
     (length rest < length content)%nat -> unread t fd = rest -> s_out t = s_out s -> Q (Some line) t) ->
  sat (call (Fgetline fd)) s Q E.
Proof.
  intros Hu Hcr Hb H0 HQ. apply sat_call. intros r t Ht. simpl in Ht. fold (unread s fd) in Ht. rewrite Hu in Ht.
  destruct Ht as [[-> ->]|[(-> & -> & ->)|(Hne & -> & ->)]]; [by apply Hb|by apply H0|].
  destruct (first_line content) as [a b] eqn:Ef.
  destruct (lines_of_first content a b Hne Ef) as (p & Hp & Ha & _ & Hin & Hb' & Hlen & Hl). simpl.
  apply (HQ a p b); [|done| |done| |done].
  - apply trim_line; [done| |done]. intros Hx. by apply Hcr, Hin.
  - intros Hx. by apply Hcr, Hb'.
  - unfold unread. simpl. by rewrite lookup_insert_eq.
Qed.

Lemma forward_loop_spec fuel fd flag_n c content s : unread s fd = content -> CR ∉ content ->
  (length content < fuel)%nat ->
  sat (forward_loop fuel fd flag_n c) s (fun r s' => bad s' = false ->
    s_out s' = s_out s ++ concat (numbered flag_n c (lines_of content)) /\
    (flag_n = true -> r = c + non_empty (lines_of content))) (fun _ _ => False).
Proof.
  revert c content s. induction fuel as [|fuel IH]; intros c content s Hu Hcr Hf; [lia|]. cbn [forward_loop].
  apply sat_bind. apply (fgetline_spec fd content); [done|done| | |].
  - intros t Hb Hb'. by rewrite Hb' in Hb.
  - intros -> _. rewrite app_nil_r. split; [done|]. intros _. unfold non_empty. simpl. lia.
  - intros line p rest t Ht Hl Hcr' Hlen Hut Hot. rewrite Ht, Hl. destruct p as [|a p].
    + apply sat_bind, sat_printf. eapply sat_mono; [apply (IH c rest); [exact Hut|done|lia]| |done].
      intros r u Hr Hb. destruct (Hr Hb) as [H1 H2]. split; [|exact H2].
      rewrite H1. simpl. by rewrite Hot, <- app_assoc.
    + apply sat_bind, sat_printf.
      eapply sat_mono; [apply (IH (if flag_n then c + 1 else c) rest); [exact Hut|done|lia]| |done].
      intros r u Hr Hb. destruct (Hr Hb) as [H1 H2]. split.
      * rewrite H1. simpl. rewrite Hot, <- app_assoc. do 3 f_equal.
        destruct flag_n; [done|]. apply numbered_any.
      * intros ->. rewrite H2 by done. change ((a :: p) :: lines_of rest) with ([a :: p] ++ lines_of rest).
        rewrite non_empty_app. change (non_empty [a :: p]) with 1. lia.
Qed.

(** The lines [gather_lines] keeps, numbered from [c]. *)
Fixpoint stream_lines (c : Z) (ws : list str) : list StreamLine :=
  match ws with
  | [] => []
  | [] :: ws' => mkStreamLine [] false 0 :: stream_lines c ws'
  | w :: ws' => mkStreamLine w true c :: stream_lines (c + 1) ws'
  end.

Lemma gather_lines_spec fuel fd c content acc s : unread s fd = content -> CR ∉ content ->
  (length content < fuel)%nat ->
  sat (gather_lines fuel fd c acc) s (fun r s' => bad s' = false -> s_out s' = s_out s /\
    r = (acc ++ stream_lines c (lines_of content), c + non_empty (lines_of content))) (fun _ _ => False).
Proof.
  revert c content acc s. induction fuel as [|fuel IH]; intros c content acc s Hu Hcr Hf; [lia|].
  cbn [gather_lines]. apply sat_bind. apply (fgetline_spec fd content); [done|done| | |].
  - intros t Hb Hb'. by rewrite Hb' in Hb.
  - intros -> _. split; [done|]. simpl. rewrite app_nil_r. f_equal. unfold non_empty. simpl. lia.
  - intros line p rest t Ht Hl Hcr' Hlen Hut Hot. rewrite Ht, Hl.
    change (p :: lines_of rest) with ([p] ++ lines_of rest). rewrite non_empty_app.
    destruct p as [|a p].
    + eapply sat_mono; [apply (IH c rest); [done|done|lia]| |done].
      intros r u Hr Hb. destruct (Hr Hb) as [H1 ->]. split; [congruence|]. by rewrite <- app_assoc.
    + eapply sat_mono; [apply (IH (c + 1) rest); [done|done|lia]| |done].
      intros r u Hr Hb. destruct (Hr Hb) as [H1 ->]. split; [congruence|]. rewrite <- app_assoc.
      change (non_empty [a :: p]) with 1. simpl. f_equal. lia.
Qed.

Lemma print_stream_lines flag_n c ws s (Q : unit -> sysst -> Prop) E :
  Q tt (printed (concat (rev (numbered flag_n c ws))) s) ->
  sat (pfor (rev (stream_lines c ws)) (print_stream_line flag_n)) s Q E.
Proof.
  assert (Hl : forall l t (Q' : unit -> sysst -> Prop),
    Q' tt (printed (concat (map (fun l => if is_non_empty l then render flag_n (line_num l) (text l) else [LF]) l)) t) ->
    sat (pfor l (print_stream_line flag_n)) t Q' E).
  { induction l as [|x l IH]; intros t Q' H; cbn [pfor].
    - unfold printed in H. rewrite app_nil_r in H. by destruct t.
    - apply sat_bind. unfold print_stream_line. simpl in H. rewrite <- printed_app in H.
      destruct (is_non_empty x); apply sat_printf, IH; exact H. }
  intros HQ. apply Hl. rewrite map_rev. replace (map _ (stream_lines c ws)) with (numbered flag_n c ws); [done|].
  clear. revert c. induction ws as [|[|a w] ws IH]; intros c; simpl; [done|f_equal; apply IH..].
Qed.

(** Without failing calls the stream is opened, read and closed again. *)
Lemma with_stream_spec {A} fd (body : prog A) s (Q : option A -> sysst -> Prop) :
  (forall t, bad t = true -> forall r, Q r t) ->
  (forall t, unread t fd = unread s fd -> s_out t = s_out s ->
     sat body t (fun r t' => forall u, s_out u = s_out t' -> bad u = bad t' -> Q (Some r) u) (fun _ _ => False)) ->
  sat (with_stream fd body) s Q (fun _ _ => False).
Proof.
  intros Hbad HQ. unfold with_stream. apply sat_bind, sat_call.
  intros d t [[-> ->]|(Hd & _ & ->)]; [by apply Hbad|]. rewrite (proj2 (Z.ltb_ge _ _)) by done.
  apply sat_bind, sat_call. intros ok u [[-> ->]|[-> ->]]; simpl negb; cbv iota.
  - apply sat_bind, sat_call. intros [] v ->. by apply Hbad.
  - apply sat_bind. eapply sat_mono; [apply HQ; done| |done].
    intros r v Hv. apply sat_bind, sat_call. intros [] w ->. by apply Hv.
Qed.

Lemma forward_stream_spec fuel fd flag_n c content s : unread s fd = content -> CR ∉ content ->
  (length content < fuel)%nat ->
  sat (peek_forward_stream fuel fd flag_n c) s (fun r s' => bad s' = false ->
    s_out s' = s_out s ++ concat (numbered flag_n c (lines_of content)) /\
    (flag_n = true -> r = c + non_empty (lines_of content))) (fun _ _ => False).
Proof.
  intros Hu Hcr Hf. apply sat_bind, with_stream_spec; [by intros t Hb r Hb'; rewrite Hb' in Hb|].
  intros t Hut Hot. eapply sat_mono; [apply (forward_loop_spec fuel fd flag_n c content); congruence| |done].
  intros r u Hr v Hov Hbv Hb. rewrite Hbv in Hb. destruct (Hr Hb) as [H1 H2]. simpl. split; [congruence|done].
Qed.

Lemma print_stream_bad flag_n lines t (Q : unit -> sysst -> Prop) E : bad t = true ->
  (forall u, bad u = true -> Q tt u) -> sat (pfor lines (print_stream_line flag_n)) t Q E.
Proof.
  intros Hb HQ. apply (sat_pfor (fun _ u => bad u = true)); [done| |exact HQ].
  intros i x u _ Hu. unfold print_stream_line. by destruct (is_non_empty x); apply sat_printf.
Qed.

Lemma reverse_stream_spec fuel fd flag_n c content s : unread s fd = content -> CR ∉ content ->
  (length content < fuel)%nat ->
  sat (peek_reverse_stream fuel fd flag_n c) s (fun r s' => bad s' = false ->
    s_out s' = s_out s ++ concat (rev (numbered flag_n c (lines_of content))) /\
    r = c + non_empty (lines_of content)) (fun _ _ => False).
Proof.
  intros Hu Hcr Hf. apply sat_bind, with_stream_spec.
  - intros t Hb [[lines c']|]; [|by intros Hb'; rewrite Hb' in Hb].
    apply sat_bind, print_stream_bad; [done|]. intros u Hu' Hb'. by rewrite Hb' in Hu'.
  - intros t Hut Hot. eapply sat_mono; [apply (gather_lines_spec fuel fd c content []); congruence| |done].
    intros [lines c'] u Hr v Hov Hbv. destruct (bad v) eqn:Eb.
    + apply sat_bind, print_stream_bad; [done|]. intros w Hw Hb'. by rewrite Hb' in Hw.
    + rewrite <- Hbv in Hr. destruct (Hr eq_refl) as [H1 H2]. injection H2 as -> ->. apply sat_bind, print_stream_lines.
      intros _. simpl. split; [congruence|done].
Qed.

(** ** The file reader *)

Lemma lines_without_newline content : content <> [] ->
  lines_of content = split_lf (take (first_end content true) content).
Proof.
  intros Hne. destruct (last content) as [c|] eqn:E; [|by apply last_None in E].
  pose proof E as E'. apply last_Some in E as [l ->]. unfold first_end. rewrite E'. simpl.
  case_bool_decide as Ec.
  - subst c. rewrite length_app. simpl. rewrite Nat.add_sub, take_app_length. apply lines_of_ended.
  - rewrite firstn_all. by apply lines_of_open.
Qed.

Lemma lines_of_no_cr content : CR ∉ content -> Forall (fun w => CR ∉ w) (lines_of content).
Proof.
  induction content as [|c l IH]; intros H; simpl; [constructor|].
  apply not_elem_of_cons in H as [Hc H]. specialize (IH H). case_bool_decide.
  - constructor; [apply not_elem_of_nil|done].
  - destruct (lines_of l) as [|p ps].
    + constructor; [|constructor]. intros Hx%list_elem_of_singleton. congruence.
    + apply Forall_cons in IH as [Hp Hps]. constructor; [|done]. apply not_elem_of_cons. split; [congruence|done].
Qed.

(** Behind the loop the first line is printed. *)
Lemma print_first_line flag_n num tail s (Q : unit -> sysst -> Prop) E :
  Q tt (printed (counted_down flag_n num [tail]) s) ->
  sat (match tail with
       | _ :: _ => do* _ := print_line flag_n num tail in Ret tt
       | [] => pwhen (0 =? 0) (printf [LF])
       end) s Q E.
Proof.
  intros HQ. destruct tail as [|a tail]; [by apply sat_printf|]. by apply sat_bind, print_line_spec.
Qed.

Lemma print_first_bad flag_n num tail b s (Q : unit -> sysst -> Prop) E :
  (forall t, s_ioerr t = s_ioerr s -> s_short t = s_short s -> Q tt t) ->
  sat (match tail with
       | _ :: _ => do* _ := print_line flag_n num tail in Ret tt
       | [] => pwhen b (printf [LF])
       end) s Q E.
Proof.
  intros HQ. destruct tail as [|a tail]; [destruct b; [apply sat_printf|]; by apply HQ|].
  apply sat_bind, print_line_spec. by apply HQ.
Qed.

Lemma reverse_seekable_spec fuel fd flag_n c content s : s_file s !! fd = Some content -> CR ∉ content ->
  (length content < fuel)%nat ->
  sat (peek_reverse_seekable fuel fd (Z.of_nat (length content)) flag_n c) s (fun r s' => bad s' = false ->
    s_out s' = s_out s ++ concat (rev (numbered flag_n c (lines_of content))) /\
    (flag_n = true -> r = c + non_empty (lines_of content))) (fun _ _ => False).
Proof.
  intros Hfile Hcr Hf. unfold peek_reverse_seekable. destruct (_ <=? 0) eqn:E0; bool_to_prop.
  { destruct content; [|simpl in E0; lia]. intros _. simpl. rewrite app_nil_r. split; [done|]. intros _.
    unfold non_empty. simpl. lia. }
  assert (Hne : content <> []) by (intros ->; simpl in E0; lia). set (total := non_empty (lines_of content)).
  apply sat_bind.
  eapply (sat_mono _ _ (fun n t => s_file t = s_file s /\ s_out t = s_out s /\
    (bad t = false -> flag_n = true -> n = total)) _ (fun _ _ => False)); [| |done].
  { destruct flag_n; [|done]. eapply sat_mono; [by apply (count_spec fuel fd content)| |done].
    intros n t (H1 & H2 & H3). by split_and!; [| |intros Hb _; apply H3]. }
  intros n t (Hft & Hot & Hn). apply sat_bind.
  eapply sat_mono; [apply sat_bad, (reverse_loop_spec fuel fd content flag_n _ [] _
    (take (first_end content true) content))| |done]; [done|lia|lia|apply not_elem_of_nil|by rewrite Hft| |].
  { left. done. }
  intros [[pos tail] num] u [Hu Hbu]. apply sat_bind. destruct (bad u) eqn:Eb.
  { apply print_first_bad. intros v H1 H2 Hb. unfold bad in *. rewrite H1, H2, Eb in Hb. done. }
  destruct (Hu eq_refl) as (Hz & ps & Hsp & Hnum & Hout). simpl in Hz, Hsp, Hnum. subst pos.
  apply print_first_line. intros _. rewrite <- lines_without_newline in Hsp by done.
  specialize (Hn (Hbu eq_refl)). split.
  - unfold printed. cbn [set_out s_out]. rewrite Hout, Hot, Hnum, <- app_assoc, <- counted_down_app. f_equal.
    change (rev ps ++ [tail]) with (rev (tail :: ps)). rewrite <- Hsp, <- counted_down_rev by by apply lines_of_no_cr.
    f_equal. destruct flag_n; [|done]. by rewrite Hn.
  - intros ->. by rewrite Hn.
Qed.


(** ** [peek] in the shell *)

Lemma with_stream_safe {A} fd (body : prog A) : shell_safe body -> shell_safe (with_stream fd body).
Proof.
  intros Hb X s Hs. pose proof Hs as (_ & _ & _ & Hf & H0 & H1). unfold with_stream.
  apply sat_bind, sat_call. intros d t [[-> ->]|(Hd & Hni & ->)]; [done|].
  rewrite (proj2 (Z.ltb_ge _ _)) by done. rewrite Hf in Hni.
  assert (Ht : shell_ok ({[d]} ∪ X) (set_fds ({[d]} ∪ s_fds s) s)) by by apply (shell_ok_open d X s (set_fds _)).
  apply sat_bind, sat_call. intros ok u Hu. destruct ok; simpl negb; cbv iota.
  - assert (Hu' : shell_ok ({[d]} ∪ X) u) by by destruct Hu as [[? ->]|[_ ->]].
    by apply (safe_fd d body Some X u).
  - apply sat_bind, sat_call. intros [] v ->. destruct Hu as [[_ ->]|[? ->]]; [|done].
    destruct Ht as (Hok & Hm & Ha & Hf' & _). split_and!; try done. simpl in *. rewrite Hf'. set_solver.
Qed.

Lemma print_line_safe flag_n num w : shell_safe (print_line flag_n num w).
Proof.
  unfold print_line. destruct (strip_cr w); (apply safe_bind; [apply safe_printf|intros; apply safe_ret]).
Qed.

Lemma forward_loop_safe fuel fd flag_n c : shell_safe (forward_loop fuel fd flag_n c).
Proof.
  revert c. induction fuel as [|fuel IH]; intros c; cbn [forward_loop]; [apply safe_stop|].
  apply safe_bind; [apply safe_call; apply _|]. intros [line|]; [|apply safe_ret].
  destruct (trim line); (apply safe_bind; [apply safe_printf|intros; apply IH]).
Qed.

Lemma gather_lines_safe fuel fd c acc : shell_safe (gather_lines fuel fd c acc).
Proof.
  revert c acc. induction fuel as [|fuel IH]; intros c acc; cbn [gather_lines]; [apply safe_stop|].
  apply safe_bind; [apply safe_call; apply _|]. intros [line|]; [|apply safe_ret]. destruct (trim line); apply IH.
Qed.

Lemma forward_stream_safe fuel fd flag_n c : shell_safe (peek_forward_stream fuel fd flag_n c).
Proof. apply safe_bind; [apply with_stream_safe, forward_loop_safe|intros; apply safe_ret]. Qed.

Lemma reverse_stream_safe fuel fd flag_n c : shell_safe (peek_reverse_stream fuel fd flag_n c).
Proof.
  apply safe_bind; [apply with_stream_safe, gather_lines_safe|]. intros [[lines c']|]; [|apply safe_ret].
  apply safe_bind; [|intros; apply safe_ret]. apply safe_pfor. intros l. unfold print_stream_line.
  destruct (is_non_empty l); apply safe_printf.
Qed.

Lemma count_safe fuel fd : shell_safe (count_non_empty_lines_seekable fuel fd).
Proof.
  assert (Hl : forall st, shell_safe (count_loop fuel fd st)).
  { induction fuel as [|fuel' IH]; intros st; cbn [count_loop]; [apply safe_stop|].
    apply safe_bind; [apply safe_call; apply _|]. intros [[|c buf]|]; [apply safe_ret|apply IH|apply safe_ret]. }
  apply safe_bind; [apply safe_call; apply _|]. intros [|]; [|apply safe_ret].
  apply safe_bind; [apply Hl|intros; apply safe_ret].
Qed.

Lemma scan_back_safe combined flag_n n e num : (n <= length combined)%nat ->
  shell_safe (scan_back combined flag_n n e num).
Proof.
  revert e num. induction n as [|i IH]; intros e num Hn; cbn [scan_back]; [apply safe_ret|].
  destruct (lookup_lt_is_Some_2 combined i) as [c ->]; [lia|]. case_bool_decide; [|apply IH; lia].
  apply safe_bind; [apply print_line_safe|]. intros num'. apply IH. lia.
Qed.

Lemma reverse_loop_safe fuel fd size flag_n pos tail num :
  shell_safe (reverse_loop fuel fd size flag_n pos tail num).
Proof.
  revert pos tail num. induction fuel as [|fuel IH]; intros pos tail num; cbn [reverse_loop];
    (destruct (negb (0 <? pos)); [apply safe_ret|]); [apply safe_stop|].
  apply safe_bind; [apply safe_call; apply _|]. intros [|]; [|apply safe_ret].
  apply safe_bind; [apply safe_call; apply _|]. intros [[|c chunk]|]; [apply safe_ret| |apply safe_ret].
  apply safe_bind; [apply scan_back_safe, first_end_le|]. intros r. apply IH.
Qed.

Lemma reverse_seekable_safe fuel fd size flag_n c : shell_safe (peek_reverse_seekable fuel fd size flag_n c).
Proof.
  unfold peek_reverse_seekable. destruct (_ <=? _); [apply safe_ret|].
  apply safe_bind; [destruct flag_n; [apply count_safe|apply safe_ret]|]. intros n.
  apply safe_bind; [apply reverse_loop_safe|]. intros [[pos tail] num].
  apply safe_bind; [|intros; apply safe_ret]. destruct tail; [apply safe_when, safe_printf|].
  apply safe_bind; [apply print_line_safe|intros; apply safe_ret].
Qed.

Lemma peek_file_safe fuel flag_n flag_r f c st : shell_safe (peek_file fuel flag_n flag_r f c st).
Proof.
  assert (Hput : forall t (r : Z * Z), shell_safe (puts t ;;; Ret r)).
  { intros t r. apply safe_bind; [apply safe_printf|intros; apply safe_ret]. }
  unfold peek_file. destruct (streq _ _).
  - apply safe_bind; [|intros; apply safe_ret].
    destruct flag_r; [apply reverse_stream_safe|apply forward_stream_safe].
  - apply safe_bind; [apply safe_call; apply _|]. intros [[|size]|]; [apply Hput| |apply Hput].
    intros X s Hs. pose proof Hs as (_ & _ & _ & Hf & H0 & H1). apply sat_bind, sat_call.
    intros fd t [[-> ->]|(Hge & Hni & content & ->)]; [by apply Hput|].
    rewrite (proj2 (Z.ltb_ge _ _)) by done. rewrite Hf in Hni.
    apply (safe_fd fd _ (fun c => (c, st)) X); try done.
    + by apply (shell_ok_open fd X s (fun s => set_fds _ _)).
    + destruct flag_r; [apply reverse_seekable_safe|apply forward_stream_safe].
Qed.

(** [peek] keeps the contract the executor expects of a builtin: for all
    arguments, files and behaviours of the system it stays free of undefined
    behaviour and closes every descriptor it has opened. *)
Lemma safe_peek fuel args : shell_safe (peek_builtin fuel args).
Proof.
  unfold peek_builtin. destruct (parse_args _ _ _ _) as [[[n r] files]|].
  - generalize (match files with [] => [lit "-"] | _ => files end) 1 0. clear files.
    induction l as [|f files IH]; intros c st; cbn [peek_files]; [apply safe_ret|].
    apply safe_bind; [apply peek_file_safe|]. intros x. apply IH.
  - apply safe_bind; [apply safe_printf|intros; apply safe_ret].
Qed.

(** *** [peek] in a child *)

Lemma keeps_print_line flag_n num w : keeps_jobs (print_line flag_n num w).
Proof. unfold print_line. cbv zeta. shell_auto. Qed.

Lemma keeps_forward fuel fd flag_n c : keeps_jobs (peek_forward_stream fuel fd flag_n c).
Proof.
  unfold peek_forward_stream, with_stream. shell_auto. revert c.
  induction fuel as [|fuel IH]; intros c; cbn [forward_loop]; shell_auto; apply IH.
Qed.

Lemma keeps_reverse_stream fuel fd flag_n c : keeps_jobs (peek_reverse_stream fuel fd flag_n c).
Proof.
  unfold peek_reverse_stream, with_stream, print_stream_line. shell_auto.
  generalize (@nil StreamLine). revert c.
  induction fuel as [|fuel IH]; intros c l; cbn [gather_lines]; shell_auto; apply IH.
Qed.

Lemma keeps_count fuel fd : keeps_jobs (count_non_empty_lines_seekable fuel fd).
Proof.
  unfold count_non_empty_lines_seekable. shell_auto. generalize (0, false).
  induction fuel as [|fuel IH]; intros st; cbn [count_loop]; shell_auto; apply IH.
Qed.

Lemma keeps_scan_back combined flag_n n e num : (n <= length combined)%nat ->
  keeps_jobs (scan_back combined flag_n n e num).
Proof.
  revert e num. induction n as [|i IH]; intros e num Hn; cbn [scan_back]; [apply _|].
  destruct (lookup_lt_is_Some_2 combined i) as [c ->]; [lia|]. case_bool_decide; [|apply IH; lia].
  apply keeps_bind; [apply keeps_print_line|]. intros num'. apply IH. lia.
Qed.

Lemma keeps_reverse_loop fuel fd size flag_n pos tail num :
  keeps_jobs (reverse_loop fuel fd size flag_n pos tail num).
Proof.
  revert pos tail num. induction fuel as [|fuel IH]; intros pos tail num; cbn [reverse_loop];
    (destruct (negb (0 <? pos)); [apply _|]); [apply _|]. shell_auto; [apply keeps_scan_back, first_end_le|apply IH].
Qed.

Lemma keeps_peek fuel args : keeps_jobs (peek_builtin fuel args).
Proof.
  unfold peek_builtin. destruct (parse_args _ _ _ _) as [[[n r] files]|]; [|shell_auto].
  generalize (match files with [] => [lit "-"] | _ => files end) 1 0. clear files.
  induction l as [|f files IH]; intros c st; cbn [peek_files]; [apply _|].
  apply keeps_bind; [|intros x; apply IH]. unfold peek_file, peek_reverse_seekable.
  shell_auto; first [apply keeps_reverse_stream|apply keeps_forward|apply keeps_count|apply keeps_reverse_loop|apply keeps_print_line].
Qed.
