(* ===== verification/Locate.v ===== *)
(** * The builtin [locate]: [locate.c]

    [locate] prints every executable a name stands for: the one in the current
    directory, then those in the directories of [PATH], in order. *)

From stdpp Require Import base list gmap sets strings.
From Stdlib Require Import ZArith Lia Ascii.
From S2P Require Import Prelude ShellBase Jobs JobFacts JobBuiltins Pipes Executor ShellSafety.

Open Scope Z_scope.

(** What [snprintf] leaves in the buffer of [PATH_MAX * 2] bytes. *)
Definition candidate (text : str) : str := take (PATH_MAX * 2 - 1) text.

Definition dir_candidate (cwd dir name : str) : str :=
  candidate (if bool_decide (hd0 dir = SLASH) then dir ++ [SLASH] ++ name
             else cwd ++ [SLASH] ++ dir ++ [SLASH] ++ name).

Definition print_absolute (path : str) : prog unit := printf (path ++ [LF]).

(** [is_executable] of this file, which is that of the executor once more. *)
Definition locate_is_executable (path : str) : prog bool :=
  do* st := call (Stat path) in
  match st with
  | None => Ret false
  | Some IsDir => Ret false
  | Some (NotDir _) => call (AccessX path)
  end.

Definition try_candidate (path : str) : prog bool :=
  do* ok := locate_is_executable path in
  if (ok : bool) then print_absolute path ;;; Ret true else Ret false.

(** The loop over the directories; [found] is its flag. *)
Fixpoint locate_dirs (cwd name : str) (dirs : list str) (found : bool) : prog bool :=
  match dirs with
  | [] => Ret found
  | dir :: rest =>
      do* ok := try_candidate (dir_candidate cwd dir name) in
      locate_dirs cwd name rest (found || ok)
  end.

Definition LOCATE_NOT_FOUND (name : str) : str := lit "locate: command not found (" ++ name ++ lit ")" ++ [LF].

Definition locate_name (cwd : str) (path_env : option str) (name : str) : prog unit :=
  do* found := try_candidate (candidate (cwd ++ [SLASH] ++ name)) in
  do* found := match path_env with
               | Some p => locate_dirs cwd name (split_colon p []) found
               | None => Ret found
               end in
  pwhen (negb found) (printf (LOCATE_NOT_FOUND name)).

Definition locate_builtin (args : list str) : prog Z :=
  if (length args <? 2)%nat then printf (lit "locate: invalid syntax" ++ [LF]) ;;; Ret 1 else
  do* cwd := call Getcwd in
  match cwd with
  | None => Ret 1
  | Some cwd =>
      do* path_env := call (Getenv (lit "PATH")) in
      pfor (tail args) (locate_name cwd path_env) ;;;
      Ret 0
  end.

(** ** [locate] does not disturb the shell *)

Lemma keeps_try path : keeps_jobs (try_candidate path).
Proof.
  apply keeps_bind; [|intros [|]; [unfold print_absolute|]; apply _].
  apply keeps_bind; [apply _|]. intros [[|]|]; apply _.
Qed.

Lemma calm_try path : calm (try_candidate path).
Proof.
  apply calm_bind; [|intros [|]; [unfold print_absolute|]; apply _].
  apply calm_bind; [apply _|]. intros [[|]|]; apply _.
Qed.

Lemma keeps_locate args : keeps_jobs (locate_builtin args).
Proof.
  unfold locate_builtin. destruct (_ <? _)%nat; [apply _|]. apply keeps_bind; [apply _|].
  intros [cwd|]; [|apply _]. apply keeps_bind; [apply _|]. intros p.
  apply keeps_bind; [|apply _]. apply keeps_pfor. intros name. apply keeps_bind; [apply keeps_try|].
  intros f. apply keeps_bind; [|apply _]. destruct p as [p|]; [|apply _].
  generalize (split_colon p []) f. induction l as [|d l IH]; intros b; cbn [locate_dirs]; [apply _|].
  apply keeps_bind; [apply keeps_try|]. intros ok. apply IH.
Qed.

Lemma calm_locate args : calm (locate_builtin args).
Proof.
  unfold locate_builtin. destruct (_ <? _)%nat; [apply _|]. apply calm_bind; [apply _|].
  intros [cwd|]; [|apply _]. apply calm_bind; [apply _|]. intros p.
  apply calm_bind; [|apply _]. apply calm_pfor. intros name. apply calm_bind; [apply calm_try|].
  intros f. apply calm_bind; [|apply _]. destruct p as [p|]; [|apply _].
  generalize (split_colon p []) f. induction l as [|d l IH]; intros b; cbn [locate_dirs]; [apply _|].
  apply calm_bind; [apply calm_try|]. intros ok. apply IH.
Qed.

(** ** What it prints *)

Section Printed.

(** A file system that does not change while [locate] looks at it. *)
Variable h : oracle.
Variable kind : str -> option filekind.
Variable runnable : str -> bool.
Variable cwd : str.
Variable path_env : option str.

Hypothesis h_stat : forall p s, h _ (Stat p) s = (kind p, s).
Hypothesis h_access : forall p s, h _ (AccessX p) s = (runnable p, s).
Hypothesis h_cwd : forall s, h _ Getcwd s = (Some cwd, s).
Hypothesis h_path : forall s, h _ (Getenv (lit "PATH")) s = (path_env, s).
Hypothesis h_print : forall t s, h _ (Printf t) s = (tt, set_out (s_out s ++ t) s).

(** The files a user can run. *)
Definition executable (p : str) : bool :=
  match kind p with Some (NotDir _) => runnable p | _ => false end.

(** Every place [name] is looked for in. *)
Definition places (name : str) : list str :=
  candidate (cwd ++ [SLASH] ++ name) ::
  match path_env with Some p => map (fun d => dir_candidate cwd d name) (split_colon p []) | None => [] end.

(** The executables among them, one per line, or the complaint. *)
Definition located (name : str) : str :=
  match List.filter executable (places name) with
  | [] => LOCATE_NOT_FOUND name
  | hits => concat (map (fun p => p ++ [LF]) hits)
  end.

Lemma run_printf t s : run_prog h (printf t) s = Returned tt (printed t s).
Proof. unfold printf. by rewrite run_call, h_print. Qed.

(** The lines for some of the places. *)
Definition hits_text (l : list str) : str := concat (map (fun p => p ++ [LF]) (List.filter executable l)).

Lemma hits_cons p l : hits_text (p :: l) = (if executable p then p ++ [LF] else []) ++ hits_text l.
Proof. unfold hits_text. cbn [List.filter]. by destruct (executable p). Qed.

Lemma run_try p s : run_prog h (try_candidate p) s =
  Returned (executable p) (printed (if executable p then p ++ [LF] else []) s).
Proof.
  assert (E : run_prog h (locate_is_executable p) s = Returned (executable p) s).
  { unfold locate_is_executable, executable. rewrite run_bind, run_call, h_stat. cbn [fst snd].
    destruct (kind p) as [[|]|]; [done| |done]. by rewrite run_call, h_access. }
  unfold try_candidate. rewrite run_bind, E. destruct (executable p); [|by rewrite printed_nil].
  by rewrite run_bind; unfold print_absolute; rewrite run_printf.
Qed.

Lemma run_dirs name dirs found s : run_prog h (locate_dirs cwd name dirs found) s =
  let l := map (fun d => dir_candidate cwd d name) dirs in
  Returned (found || existsb executable l) (printed (hits_text l) s).
Proof.
  cbn zeta. revert found s. induction dirs as [|d dirs IH]; intros found s; cbn [locate_dirs map existsb].
  - by rewrite orb_false_r, printed_nil.
  - by rewrite run_bind, run_try, IH, hits_cons, printed_app, orb_assoc.
Qed.

Lemma located_text name : located name =
  hits_text (places name) ++ (if existsb executable (places name) then [] else LOCATE_NOT_FOUND name).
Proof.
  unfold located, hits_text.
  assert (H : existsb executable (places name) = match List.filter executable (places name) with [] => false | _ => true end).
  { induction (places name) as [|p l IH]; cbn [existsb List.filter]; [done|]. by destruct (executable p). }
  rewrite H. destruct (List.filter _ _); [done|]. by rewrite app_nil_r.
Qed.

Lemma run_name name s : run_prog h (locate_name cwd path_env name) s = Returned tt (printed (located name) s).
Proof.
  rewrite located_text. unfold locate_name. rewrite run_bind, run_try, run_bind. unfold places.
  rewrite hits_cons. cbn [existsb]. set (p := candidate _). destruct path_env as [pe|].
  - rewrite run_dirs. cbn zeta. rewrite printed_app. destruct (_ || _)%bool; cbn [negb pwhen].
    + by rewrite app_nil_r.
    + by rewrite run_printf, printed_app.
  - cbn [existsb run_prog]. rewrite orb_false_r, app_nil_r.
    destruct (executable p); cbn [negb pwhen]; rewrite ?run_printf, ?printed_app, ?app_nil_r; done.
Qed.

(** [locate] finds everything and only that: for each name it prints the
    path in the current directory and then, in the order of [PATH], those in
    its directories (a relative one taken from the current directory) exactly
    when they are executable and not directories, or the complaint when there
    is none; it returns 0. *)
Theorem locate_prints_executables args s : (2 <= length args)%nat ->
  run_prog h (locate_builtin args) s = Returned 0 (printed (concat (map located (tail args))) s).
Proof.
  intros Hl. unfold locate_builtin. rewrite (proj2 (Nat.ltb_ge _ _)) by done.
  rewrite run_bind, run_call, h_cwd. cbn [fst snd]. rewrite run_bind, run_call, h_path. cbn [fst snd].
  rewrite run_bind. generalize (tail args) as names. intros names.
  assert (H : forall s, run_prog h (pfor names (locate_name cwd path_env)) s =
    Returned tt (printed (concat (map located names)) s)); [|by rewrite H].
  induction names as [|n names IH]; intros t; cbn [pfor map concat]; [by rewrite printed_nil|].
  by rewrite run_bind, run_name, IH, printed_app.
Qed.

End Printed.
