(* ===== verification/Double.v ===== *)
(** * Double-precision numbers

    [hop.c] and [snoop.c] compute with [double].  The operations are those of
    IEEE 754 binary64, in the executable form the Standard Library gives them. *)

From stdpp Require Import base list strings.
From Stdlib Require Import ZArith Lia Ascii SpecFloat.
From S2P Require Import Prelude ShellBase.

Open Scope Z_scope.

Notation double := spec_float.

(** An integer converted to [double], rounded to the nearest. *)
Definition d_of_Z (z : Z) : double := binary_normalize 53 1024 z 0 false.

Definition d_add : double -> double -> double := SFadd 53 1024.
Definition d_div : double -> double -> double := SFdiv 53 1024.

(** [x < y], false when one is not a number. *)
Definition d_lt (x y : double) : bool := SFltb x y.

(** ** The order *)

(** Strict comparison of the numbers that compare, as an order on
    ranks: the sign and kind first, the exponent and mantissa of finite ones after. *)
Definition d_rank (x : double) : option (Z * Z * Z) :=
  match x with
  | S754_nan => None
  | S754_infinity true => Some (-2, 0, 0)
  | S754_finite true m e => Some (-1, - e, - Zpos m)
  | S754_zero _ => Some (0, 0, 0)
  | S754_finite false m e => Some (1, e, Zpos m)
  | S754_infinity false => Some (2, 0, 0)
  end.

Definition lex_lt (a b : Z * Z * Z) : bool :=
  let '(a1, a2, a3) := a in let '(b1, b2, b3) := b in
  (a1 <? b1) || ((a1 =? b1) && ((a2 <? b2) || ((a2 =? b2) && (a3 <? b3)))).

Lemma lex_lt_spec a1 a2 a3 b1 b2 b3 : lex_lt (a1, a2, a3) (b1, b2, b3) = true <->
  a1 < b1 \/ (a1 = b1 /\ (a2 < b2 \/ (a2 = b2 /\ a3 < b3))).
Proof. unfold lex_lt. rewrite !orb_true_iff, !andb_true_iff, !orb_true_iff, !andb_true_iff. lia. Qed.

Lemma d_lt_rank x y : d_lt x y =
  match d_rank x, d_rank y with Some a, Some b => lex_lt a b | _, _ => false end.
Proof.
  unfold d_lt, SFltb. destruct x as [[]|[]| |[] m e], y as [[]|[]| |[] m' e']; try reflexivity;
    cbn [SFcompare d_rank]; change (Pos.compare_cont Eq m m') with (Pos.compare m m');
    apply eq_true_iff_eq; rewrite lex_lt_spec;
    destruct (Z.compare_spec e e'), (Pos.compare_spec m m'); simpl; split; intros; (discriminate || lia || reflexivity).
Qed.

Lemma d_lt_trans x y z : d_lt x y = true -> d_lt y z = true -> d_lt x z = true.
Proof.
  rewrite !d_lt_rank. destruct (d_rank x) as [[[a1 a2] a3]|], (d_rank y) as [[[b1 b2] b3]|],
    (d_rank z) as [[[c1 c2] c3]|]; try done. rewrite !lex_lt_spec. lia.
Qed.

(** What is not above [b] is below what is; [y] is a number. *)
Lemma d_lt_below b x y z : d_lt z y = true -> d_lt b y = false -> d_lt b x = true -> d_lt y x = true.
Proof.
  rewrite !d_lt_rank. destruct (d_rank x) as [[[a1 a2] a3]|], (d_rank y) as [[[b1 b2] b3]|],
    (d_rank z) as [[[c1 c2] c3]|], (d_rank b) as [[[e1 e2] e3]|]; try done.
  rewrite <- not_true_iff_false, !lex_lt_spec. lia.
Qed.

Lemma d_lt_irrefl x : d_lt x x = false.
Proof.
  apply not_true_is_false. rewrite d_lt_rank. destruct (d_rank x) as [[[a1 a2] a3]|]; [|done].
  rewrite lex_lt_spec. lia.
Qed.

(** ** Signs *)

(** A number, not NaN, of sign [s]. *)
Definition d_signed (s : bool) (x : double) : Prop :=
  match x with
  | S754_zero s' | S754_infinity s' | S754_finite s' _ _ => s' = s
  | S754_nan => False
  end.

Lemma shr_nonneg mrs p : 0 <= shr_m mrs -> 0 <= shr_m (iter_pos shr_1 p mrs).
Proof.
  assert (H1 : forall r, 0 <= shr_m r -> 0 <= shr_m (shr_1 r)).
  { intros [m r s]; simpl. destruct m as [|[]|[]]; simpl; lia. }
  revert mrs. induction p as [p IH|p IH|]; intros mrs H; simpl; auto.
Qed.

Lemma shr_fexp_nonneg m e l : 0 <= m -> 0 <= shr_m (fst (shr_fexp 53 1024 m e l)).
Proof.
  intros H. assert (H' : 0 <= shr_m (shr_record_of_loc m l)) by (by destruct l as [|[]]).
  unfold shr_fexp, shr. destruct (fexp _ _ _ - e); simpl; [done|by apply shr_nonneg|done].
Qed.

(** Rounding keeps the sign. *)
Lemma round_signed s m e l : 0 <= m -> d_signed s (binary_round_aux 53 1024 s m e l).
Proof.
  intros Hm. unfold binary_round_aux.
  pose proof (shr_fexp_nonneg m e l Hm) as H1. destruct (shr_fexp 53 1024 m e l) as [r1 e1]. simpl in H1.
  assert (H2 : 0 <= round_nearest_even (shr_m r1) (loc_of_shr_record r1)).
  { unfold round_nearest_even. destruct (loc_of_shr_record r1) as [|[]]; try destruct (Z.even _); lia. }
  pose proof (shr_fexp_nonneg _ e1 loc_Exact H2) as H3. destruct (shr_fexp 53 1024 _ e1 loc_Exact) as [r2 e2]. simpl in H3.
  destruct (shr_m r2); [done| |lia]. by destruct (_ <=? _).
Qed.

Lemma binary_round_signed s m e : d_signed s (binary_round 53 1024 s m e).
Proof. unfold binary_round. destruct (shl_align _ _ _) as [mz ez]. apply round_signed. lia. Qed.

Lemma d_of_Z_signed z : exists s, d_signed s (d_of_Z z).
Proof.
  destruct z; [by exists false|exists false|exists true]; unfold d_of_Z, binary_normalize; apply binary_round_signed.
Qed.

(** A quotient has the sign its operands give it, unless it is a quotient of
    two zeros or of two infinities. *)
Lemma d_div_signed sx sy x my ey : d_signed sx x -> d_signed (xorb sx sy) (d_div x (S754_finite sy my ey)).
Proof.
  unfold d_div. destruct x as [s|s| |s m e]; simpl; try done; try (by intros ->).
  intros ->. destruct (SFdiv_core_binary _ _ _ _ _ _) as [[q e'] l] eqn:E.
  apply round_signed. unfold SFdiv_core_binary in E. set (m' := match _ with Z0 => _ | Zpos _ => _ | Zneg _ => _ end) in E.
  assert (Hm : 0 <= m').
  { subst m'. destruct (_ - _ - _); [lia| |lia]. apply Z.shiftl_nonneg. lia. }
  pose proof (Z_div_mod m' (Zpos my) ltac:(lia)) as Hq. destruct (Z.div_eucl m' (Zpos my)) as [q' r].
  injection E as -> _ _. nia.
Qed.

Lemma d_div_pos m e y : d_signed false y -> d_signed false (d_div (S754_finite false m e) y).
Proof.
  destruct y as [s|s| |s my ey]; intros Hy; simpl in Hy; try done; try (by subst).
  subst s. by apply (d_div_signed false false).
Qed.

Lemma d_add_pos m e y : d_signed false y -> d_signed false (d_add (S754_finite false m e) y).
Proof.
  destruct y as [s|s| |s my ey]; intros Hy; simpl in Hy; try done. subst s. unfold d_add, SFadd. cbn [cond_Zopp].
  rewrite <- Pos2Z.inj_add. apply binary_round_signed.
Qed.

Lemma not_negative s x : d_signed s x -> d_lt x (d_of_Z 0) = false -> d_signed false x \/ x = S754_zero true.
Proof. destruct x as [[]|[]| |[] m e]; simpl; try done; auto. Qed.

Lemma signed_above_minus_one x : d_signed false x -> d_lt (d_of_Z (-1)) x = true.
Proof. destruct x as [s|s| |s m e]; simpl; try done; intros ->; by rewrite d_lt_rank. Qed.

(** *** Small integers are exact *)

Lemma digits2_pos_iter m k : Zpos (digits2_pos (Pos.iter xO m k)) = Zpos (digits2_pos m) + Zpos k.
Proof.
  induction k as [|k IH] using Pos.peano_ind; [simpl; lia|]. rewrite Pos.iter_succ. cbn [digits2_pos]. lia.
Qed.

Lemma digits2_pos_bound m : 2 ^ (Zpos (digits2_pos m) - 1) <= Zpos m.
Proof.
  induction m as [m IH|m IH|]; cbn [digits2_pos]; [| |done];
    replace (Zpos (Pos.succ (digits2_pos m)) - 1) with (Z.succ (Zpos (digits2_pos m) - 1)) by lia;
    rewrite Z.pow_succ_r by lia; lia.
Qed.

(** Nothing is lost where the mantissa has its 53 digits. *)
Lemma round_full s m e : Zpos (digits2_pos m) = 53 -> -1074 <= e <= 971 ->
  binary_round_aux 53 1024 s (Zpos m) e loc_Exact = S754_finite s m e.
Proof.
  intros Hd He. unfold binary_round_aux.
  assert (E : shr_fexp 53 1024 (Zpos m) e loc_Exact = (Build_shr_record (Zpos m) false false, e)).
  { unfold shr_fexp, shr, fexp, emin. cbn [Zdigits2 shr_record_of_loc]. rewrite Hd.
    replace (Z.max _ _ - e) with 0 by lia. done. }
  rewrite E. cbn [shr_m loc_of_shr_record round_nearest_even]. rewrite E. cbn [shr_m].
  by rewrite (proj2 (Z.leb_le _ _)) by lia.
Qed.

Lemma d_of_Z_small z : 0 < z < 2 ^ 53 -> exists m e, d_of_Z z = S754_finite false m e.
Proof.
  intros Hz. destruct z as [|p|p]; [lia| |lia]. unfold d_of_Z, binary_normalize, binary_round.
  pose proof (digits2_pos_bound p) as Hp. set (d := Zpos (digits2_pos p)) in *.
  assert (Hd : 1 <= d <= 53).
  { split; [lia|]. destruct (Z.le_gt_cases d 53) as [|H]; [done|].
    pose proof (Z.pow_le_mono_r 2 53 (d - 1) ltac:(lia) ltac:(lia)). lia. }
  assert (Hf : fexp 53 1024 (d + 0) = d - 53) by (unfold fexp, emin; lia). fold d. rewrite Hf.
  unfold shl_align. rewrite Z.sub_0_r. destruct (d - 53) as [|k|k] eqn:E; [|lia|].
  - eexists _, _. apply round_full; lia.
  - eexists _, _. apply round_full; [|lia]. rewrite digits2_pos_iter. fold d. lia.
Qed.

(** ** [printf("%.3f")] *)

(** [n] half-even rounded from [num / den]. *)
Definition div_half_even (num den : Z) : Z :=
  let q := num / den in
  let r := num mod den in
  if 2 * r <? den then q else if den <? 2 * r then q + 1 else if Z.even q then q else q + 1.

(** The number in thousandths. *)
Definition thousandths (m e : Z) : Z :=
  if 0 <=? e then m * 1000 * 2 ^ e else div_half_even (m * 1000) (2 ^ (- e)).

Definition pad3 (n : Z) : str := (if n <? 10 then lit "00" else if n <? 100 then lit "0" else []) ++ dec n.

Definition format_3f (x : double) : str :=
  match x with
  | S754_nan => lit "nan"
  | S754_infinity s => (if (s : bool) then lit "-" else []) ++ lit "inf"
  | S754_zero s => (if (s : bool) then lit "-" else []) ++ lit "0.000"
  | S754_finite s m e =>
      let n := thousandths (Zpos m) e in
      (if (s : bool) then lit "-" else []) ++ dec (n / 1000) ++ lit "." ++ pad3 (n mod 1000)
  end.

Example format_quarter : format_3f (d_div (d_of_Z 9) (d_of_Z 4)) = lit "2.250".
Proof. vm_compute. reflexivity. Qed.

Example format_third : format_3f (d_add (d_of_Z 10) (d_div (d_of_Z 2) (d_of_Z 3))) = lit "10.667".
Proof. vm_compute. reflexivity. Qed.
