(* ===== verification/Hop.v ===== *)
(** * The builtin [hop]: [hop.c]

    [hop] changes the directory, knows the home of the session and the previous
    directory, and finds directories by a part of their name in a table of
    visited directories, which it keeps in a file. *)

From stdpp Require Import base list gmap sets strings.
From Stdlib Require Import ZArith Lia Ascii.
From S2P Require Import Prelude ShellBase Jobs JobFacts JobBuiltins Pipes Double.

Open Scope Z_scope.

Definition DB_FILE : str := lit ".cshell_frecency".

Definition MAX_ENTRY : nat := 1024.

Definition get_hop {A} (f : hop_statics -> A) : prog A := getg (fun g => f (g_hop g)).

Definition mod_hop (f : hop_statics -> hop_statics) : prog unit := modg (fun g => set_hop (f (g_hop g)) g).

(** [strncpy(dst, src, PATH_MAX - 1)] with the NUL put behind it. *)
Definition path_copy (s : str) : str := take (PATH_MAX - 1) s.

(** ** Reading and writing the file *)

(** The line up to [strcspn(line, CR LF)]; a NUL ends it as well. *)
Fixpoint cut_line (line : str) : str :=
  match line with
  | [] => []
  | c :: l => if (bool_decide (c = CR) || bool_decide (c = LF) || bool_decide (c = NUL))%bool then []
              else c :: cut_line l
  end.

(** An integer conversion of [sscanf]: sign, magnitude and the rest, or the
    failure to find a digit. *)
Definition scan_int (s : str) : option (bool * Z * str) :=
  let s1 := skip_spaces s in
  let '(neg, s2) := match s1 with
                    | "-"%char :: r => (true, r) | "+"%char :: r => (false, r) | _ => (false, s1)
                    end in
  if c_isdigit (hd0 s2) then let '(v, rest) := scan_digits s2 0 in Some (neg, v, rest) else None.

Definition ULONG_MAX : Z := 2 ^ 64 - 1.

(** The value [%lu] and [%ld] store. *)
Definition as_ulong (neg : bool) (v : Z) : Z := if ULONG_MAX <? v then ULONG_MAX else u64 (if neg then - v else v).

Definition as_long (neg : bool) (v : Z) : Z := clamp_long (if neg then - v else v).

(** [sscanf(line, "%lu %ld %4095[^\n]", ...) == 3] *)
Definition scan_entry (line : str) : option Entry :=
  '(n1, v1, r1) ← scan_int line;
  '(n2, v2, r2) ← scan_int r1;
  let p := take (PATH_MAX - 1) (skip_spaces r2) in
  if bool_decide (p = []) then None
  else Some (mkEntry (path_copy p) (as_ulong n1 v1) (as_long n2 v2)).

Definition LINE_SIZE : nat := PATH_MAX + 128.

Fixpoint load_lines (fuel : nat) (fd : Z) (acc : list Entry) : prog (list Entry) :=
  if (MAX_ENTRY <=? length acc)%nat then Ret acc else
  match fuel with
  | O => NoFuel
  | S fuel' =>
      do* line := call (Fgets fd LINE_SIZE) in
      match line with
      | None => Ret acc
      | Some line =>
          match scan_entry (cut_line line) with
          | Some e => load_lines fuel' fd (acc ++ [e])
          | None => load_lines fuel' fd acc
          end
      end
  end.

Definition load_db (fuel : nat) : prog unit :=
  do* db := get_hop db_path in
  do* fd := call (Open db O_RDONLY) in
  if fd <? 0 then Ret tt else
  do* es := load_lines fuel fd [] in
  mod_hop (set_entries es) ;;;
  call (Close fd).

(** [fprintf(fp, "%lu %ld %s\n", ...)] *)
Definition show_entry (e : Entry) : str :=
  dec (visits e) ++ lit " " ++ dec (last_visit e) ++ lit " " ++ path e ++ [LF].

Definition save_db : prog unit :=
  do* h := get_hop (fun h => h) in
  do* fd := call (Open (db_path h) (O_WRITE false)) in
  if fd <? 0 then Ret tt else
  pfor (entries h) (fun e => call (Fprintf fd (show_entry e))) ;;;
  call (Close fd).

(** ** The table *)

Definition visit_again (now : Z) (e : Entry) : Entry := mkEntry (path e) (u64 (visits e + 1)) now.

Definition update_entry (p : str) : prog unit :=
  do* h := get_hop (fun h => h) in
  match find_key path p (entries h) with
  | Some (i, _) =>
      do* now := call Time in
      mod_hop (set_entries (alter (visit_again now) i (entries h))) ;;;
      save_db
  | None =>
      if (MAX_ENTRY <=? length (entries h))%nat then Ret tt else
      do* now := call Time in
      mod_hop (set_entries (entries h ++ [mkEntry (path_copy p) 1 now])) ;;;
      save_db
  end.

(** Visits divided by one plus the hours since the last one. *)
Definition score_at (now : Z) (e : Entry) : double :=
  let age := d_div (d_of_Z (now - last_visit e)) (d_of_Z 3600) in
  let age := if d_lt age (d_of_Z 0) then d_of_Z 0 else age in
  d_div (d_of_Z (visits e)) (d_add (d_of_Z 1) age).

Definition score (e : Entry) : prog double := do* now := call Time in Ret (score_at now e).

Definition exists_dir (p : str) : prog bool :=
  do* st := call (Stat p) in
  Ret (match st with Some IsDir => true | _ => false end).

(** [strstr(hay, needle) != NULL] *)
Fixpoint strstr (hay needle : str) : bool :=
  (bool_decide (take (length needle) hay = needle) ||
   match hay with [] => false | _ :: hay' => strstr hay' needle end)%bool.

(** The loop of [search_frecency] with [best] and the entry at [best_idx]. *)
Fixpoint search_loop (name : str) (l : list Entry) (best : double) (match_ : option str) : prog (option str) :=
  match l with
  | [] => Ret match_
  | e :: l' =>
      if negb (strstr (path e) name) then search_loop name l' best match_ else
      do* dir := exists_dir (path e) in
      if negb dir then search_loop name l' best match_ else
      do* s := score e in
      if d_lt best s then search_loop name l' s (Some (path e)) else search_loop name l' best match_
  end.

Definition search_frecency (name : str) : prog (option str) :=
  do* l := get_hop entries in
  search_loop name l (d_of_Z (-1)) None.

(** ** Changing the directory *)

(** [true] for a return of 0. *)
Definition perform_cd (target : str) : prog bool :=
  do* cwd := call Getcwd in
  match cwd with
  | None => Ret false
  | Some cwd =>
      do* ok := call (Chdir target) in
      if negb ok then Ret false else
      mod_hop (set_previous_dir (path_copy cwd)) ;;;
      do* new_cwd := call Getcwd in
      match new_cwd with
      | Some p => update_entry p ;;; Ret true
      | None => Ret true
      end
  end.

Definition NO_DIRECTORY : str := lit "hop: no such directory".

Definition cd_or_complain (target : str) : prog unit :=
  do* ok := perform_cd target in
  pwhen (negb ok) (puts NO_DIRECTORY).

(** [hop_init]: the home of the session, and the table from its file. *)
Definition hop_init (fuel : nat) (home : option str) : prog unit :=
  do* h := match home with
           | Some home => Ret (path_copy home)
           | None => do* cwd := call Getcwd in Ret (default (lit "/") cwd)
           end in
  mod_hop (fun st => mkhop_statics h [] (take (PATH_MAX + 63) (h ++ lit "/" ++ DB_FILE)) (entries st)) ;;;
  load_db fuel.

(** [arg] begins with [~/]: go there if it is a directory. *)
Definition hop_below_home (arg : str) : prog bool :=
  if bool_decide (take 2 arg = lit "~/") then
    do* home := get_hop shell_home in
    let expanded := take (PATH_MAX * 2 - 1) (home ++ lit "/" ++ drop 2 arg) in
    do* dir := exists_dir expanded in
    if (dir : bool) then cd_or_complain expanded ;;; Ret true else Ret false
  else Ret false.

Definition hop_arg (arg : str) : prog unit :=
  if streq arg (lit "~") then
    do* home := get_hop shell_home in cd_or_complain home
  else
  do* done := hop_below_home arg in
  if (done : bool) then Ret tt
  else if streq arg (lit ".") then Ret tt
  else if streq arg (lit "..") then cd_or_complain (lit "..")
  else if streq arg (lit "-") then
    do* prev := get_hop previous_dir in
    if bool_decide (prev = []) then Ret tt else cd_or_complain prev
  else
  do* dir := exists_dir arg in
  if (dir : bool) then cd_or_complain arg
  else
  do* found := search_frecency arg in
  match found with
  | Some p => cd_or_complain p
  | None => puts NO_DIRECTORY
  end.

Definition hop_builtin (args : list str) : prog Z :=
  if (length args =? 1)%nat then
    do* home := get_hop shell_home in
    cd_or_complain home ;;;
    Ret 0
  else
    pfor (tail args) hop_arg ;;;
    Ret 0.

(** What [reveal] asks [hop] for. *)
Definition hop_home : prog str := get_hop shell_home.

Definition hop_previous : prog str := get_hop previous_dir.
