(* ===== verification/HopFacts.v ===== *)
(** * The table of [hop], its file, and the search in it *)

From stdpp Require Import base list gmap sets strings pretty.
From Stdlib Require Import ZArith Lia Ascii.
From S2P Require Import Prelude ShellBase Jobs JobFacts JobBuiltins JobTheorems Pipes PipesFacts Executor ShellSafety.
From S2P Require Import Double Hop.

Open Scope Z_scope.

(** ** Numbers in decimal *)

Lemma pretty_char_digit x : (x < 10)%N ->
  c_isdigit (pretty_N_char x) = true /\ digit (pretty_N_char x) = Z.of_N x.
Proof.
  intros H. assert (x = 0 \/ x = 1 \/ x = 2 \/ x = 3 \/ x = 4 \/ x = 5 \/ x = 6 \/ x = 7 \/ x = 8 \/ x = 9)%N
    as Hx by lia.
  repeat (destruct Hx as [->|Hx]; [done|]). by subst.
Qed.

Lemma scan_pretty x s r : scan_digits (lit (pretty_N_go x s) ++ r) 0 = scan_digits (lit s ++ r) (Z.of_N x).
Proof.
  revert s. induction (N.lt_wf_0 x) as [x _ IH]; intros s.
  destruct (decide (x = 0%N)) as [->|Hx]; [by rewrite pretty_N_go_0|].
  rewrite pretty_N_go_step by lia. rewrite IH by (apply N.div_lt; lia).
  destruct (pretty_char_digit (x mod 10)) as [H1 H2]; [apply N.mod_lt; lia|].
  change (lit (String ?c s)) with (c :: lit s). simpl. rewrite H1, H2. f_equal.
  rewrite N2Z.inj_mod, N2Z.inj_div. pose proof (Z.div_mod (Z.of_N x) 10). lia.
Qed.

Lemma pretty_digits x s : Forall (fun c => c_isdigit c = true) (lit s) ->
  Forall (fun c => c_isdigit c = true) (lit (pretty_N_go x s)).
Proof.
  revert s. induction (N.lt_wf_0 x) as [x _ IH]; intros s Hs.
  destruct (decide (x = 0%N)) as [->|Hx]; [by rewrite pretty_N_go_0|].
  rewrite pretty_N_go_step by lia. apply IH; [apply N.div_lt; lia|].
  constructor; [|done]. apply pretty_char_digit, N.mod_lt. lia.
Qed.

Lemma pretty_length x s k : (x < 10 ^ N.of_nat k)%N ->
  (length (lit s) <= length (lit (pretty_N_go x s)) <= k + length (lit s))%nat /\
  (x <> 0%N -> length (lit s) < length (lit (pretty_N_go x s)))%nat.
Proof.
  revert x s. induction k as [|k IH]; intros x s Hx.
  { assert (x = 0%N) as -> by (simpl in Hx; lia). rewrite pretty_N_go_0. split; [lia|done]. }
  destruct (decide (x = 0%N)) as [->|Hn]; [rewrite pretty_N_go_0; split; [lia|done]|].
  rewrite pretty_N_go_step by lia.
  assert (Hd : (x / 10 < 10 ^ N.of_nat k)%N).
  { apply N.Div0.div_lt_upper_bound. rewrite Nat2N.inj_succ, N.pow_succ_r' in Hx. lia. }
  destruct (IH _ (String (pretty_N_char (x mod 10)) s) Hd) as [H1 _].
  change (lit (String ?c s)) with (c :: lit s) in H1. simpl in H1. lia.
Qed.

(** The digits of a natural number. *)
Definition dec_N (x : N) : str := lit (pretty x).

Lemma dec_N_spec x : Forall (fun c => c_isdigit c = true) (dec_N x) /\ dec_N x <> [] /\
  forall r, c_isdigit (hd0 r) = false -> scan_digits (dec_N x ++ r) 0 = (Z.of_N x, r).
Proof.
  unfold dec_N, pretty, pretty_N. destruct (decide (x = 0%N)) as [->|Hx].
  - split_and!; [by repeat constructor|done|]. intros [|c r] H; [done|]. simpl in *. by rewrite H.
  - split_and!.
    + by apply pretty_digits.
    + destruct (pretty_length x EmptyString (N.to_nat x)) as [_ H].
      { rewrite N2Nat.id. by apply N.pow_gt_lin_r. }
      specialize (H Hx). intros E. rewrite E in H. simpl in H. lia.
    + intros r Hr. rewrite scan_pretty. simpl. destruct r as [|c r]; [done|]. simpl in *. by rewrite Hr.
Qed.

Lemma dec_N_length x k : (0 < k)%nat -> (x < 10 ^ N.of_nat k)%N -> (length (dec_N x) <= k)%nat.
Proof.
  intros Hk Hx. unfold dec_N, pretty, pretty_N. destruct (decide (x = 0%N)); [simpl; lia|].
  destruct (pretty_length x EmptyString k Hx) as [H _]. simpl in H. lia.
Qed.

Lemma dec_cases z : dec z = if z <? 0 then "-"%char :: dec_N (Z.to_N (- z)) else dec_N (Z.to_N z).
Proof. by destruct z. Qed.

Lemma digit_not_space c : c_isdigit c = true -> c_isspace c = false /\ c <> "-"%char /\ c <> "+"%char /\
  c <> CR /\ c <> LF /\ c <> NUL.
Proof.
  intros H. split_and!; [|by intros ->..]. unfold c_isdigit, c_isspace in *. bool_to_prop.
  apply orb_false_iff. split; [apply Nat.eqb_neq; lia|]. apply andb_false_iff. right. apply Nat.leb_gt. lia.
Qed.

(** Reading a number that was printed. *)
Lemma scan_int_dec z r : c_isdigit (hd0 r) = false -> scan_int (dec z ++ r) = Some (z <? 0, Z.abs z, r).
Proof.
  intros Hr. rewrite dec_cases. unfold scan_int. destruct (z <? 0) eqn:Ez; bool_to_prop.
  - destruct (dec_N_spec (Z.to_N (- z))) as (Hd & Hne & Hs). cbn [app]. simpl skip_spaces. cbn iota beta.
    destruct (dec_N (Z.to_N (- z))) as [|c l]; [done|]. apply Forall_cons in Hd as [Hc _].
    cbn [app hd0] in *. rewrite Hc, (Hs r Hr). do 3 f_equal. lia.
  - destruct (dec_N_spec (Z.to_N z)) as (Hd & Hne & Hs).
    destruct (dec_N (Z.to_N z)) as [|c l]; [done|]. apply Forall_cons in Hd as [Hc _].
    destruct (digit_not_space c Hc) as (Hsp & Hm & Hp & _). cbn [app]. simpl skip_spaces. rewrite Hsp.
    assert (E : match c :: (l ++ r) with
      | "-"%char :: r => (true, r) | "+"%char :: r => (false, r) | _ => (false, c :: (l ++ r)) end = (false, c :: (l ++ r))).
    { destruct c as [[] [] [] [] [] [] [] []]; try done. }
    rewrite E. cbn [hd0]. rewrite Hc. change (c :: l ++ r) with ((c :: l) ++ r). rewrite (Hs r Hr). do 3 f_equal. lia.
Qed.

(** ** The file *)

(** What an entry made from an absolute path satisfies; the file format cannot
    hold a path with a line break in it. *)
Definition entry_ok (e : Entry) : Prop :=
  0 <= visits e < 2 ^ 64 /\ - 2 ^ 63 <= last_visit e < 2 ^ 63 /\
  hd0 (path e) = SLASH /\ (length (path e) < PATH_MAX)%nat /\ CR ∉ path e /\ LF ∉ path e /\ NUL ∉ path e.

#[export] Instance entry_ok_dec e : Decision (entry_ok e).
Proof. unfold entry_ok. apply _. Defined.

(** The line without its end. *)
Definition entry_line (e : Entry) : str := dec (visits e) ++ lit " " ++ dec (last_visit e) ++ lit " " ++ path e.

Lemma show_entry_line e : show_entry e = entry_line e ++ [LF].
Proof. unfold show_entry, entry_line. by rewrite <- !app_assoc. Qed.

Lemma scan_int_blank s : scan_int (lit " " ++ s) = scan_int s.
Proof. done. Qed.

Lemma scan_entry_line e : entry_ok e -> scan_entry (entry_line e) = Some e.
Proof.
  intros (Hv & Hl & Hp & Hn & _). unfold scan_entry, entry_line.
  rewrite (scan_int_dec (visits e)) by done. cbn [mbind option_bind].
  rewrite scan_int_blank, (scan_int_dec (last_visit e)) by done. cbn [mbind option_bind].
  destruct e as [[|c p] v l]; cbn [path visits last_visit] in *; [done|]. cbn [hd0] in Hp. subst c.
  change (skip_spaces (lit " " ++ SLASH :: p)) with (SLASH :: p). unfold path_copy.
  rewrite take_ge by (unfold PATH_MAX in *; lia). rewrite bool_decide_false by done.
  rewrite take_ge by (unfold PATH_MAX in *; lia). do 2 f_equal; unfold as_ulong, as_long, clamp_long, LONG_MAX, ULONG_MAX.
  - rewrite (proj2 (Z.ltb_ge v 0)) by lia. rewrite (proj2 (Z.ltb_ge _ _)) by lia. rewrite u64_small; lia.
  - destruct (l <? 0) eqn:E; bool_to_prop; lia.
Qed.

(** Characters that end a line. *)
Definition line_end (c : ascii) : Prop := c = CR \/ c = LF \/ c = NUL.

Lemma dec_no_end z : Forall (fun c => ~ line_end c) (dec z).
Proof.
  assert (H : forall x, Forall (fun c => ~ line_end c) (dec_N x)).
  { intros x. destruct (dec_N_spec x) as (Hd & _). eapply Forall_impl; [exact Hd|].
    intros c Hc [->|[->| ->]]; by vm_compute in Hc. }
  rewrite dec_cases. destruct (z <? 0); [|apply H]. constructor; [|apply H].
  by intros [E|[E|E]].
Qed.

Lemma entry_line_no_end e : entry_ok e -> Forall (fun c => ~ line_end c) (entry_line e).
Proof.
  intros (_ & _ & _ & _ & H1 & H2 & H3). unfold entry_line.
  assert (Hb : Forall (fun c => ~ line_end c) (lit " ")) by (constructor; [by intros [E|[E|E]]|constructor]).
  rewrite !Forall_app. split_and!; [apply dec_no_end|done|apply dec_no_end|done|].
  apply Forall_forall. intros c Hc [->|[->| ->]]; done.
Qed.

Lemma cut_line_app l : Forall (fun c => ~ line_end c) l -> cut_line (l ++ [LF]) = l.
Proof.
  induction 1 as [|c l Hc Hl IH]; [done|]. cbn [app cut_line]. unfold line_end in Hc.
  rewrite !bool_decide_false by tauto. simpl. by rewrite IH.
Qed.

Lemma dec_length z : - 2 ^ 63 <= z < 2 ^ 64 -> (length (dec z) <= 21)%nat.
Proof.
  intros Hz. rewrite dec_cases. destruct (z <? 0) eqn:E; bool_to_prop; cbn [length].
  - apply le_n_S, dec_N_length; [lia|]. change (10 ^ N.of_nat 20)%N with 100000000000000000000%N. lia.
  - apply Nat.le_trans with 20%nat; [|lia]. apply dec_N_length; [lia|].
    change (10 ^ N.of_nat 20)%N with 100000000000000000000%N. lia.
Qed.

Lemma show_entry_fits e : entry_ok e -> (length (show_entry e) <= LINE_SIZE - 1)%nat.
Proof.
  intros (Hv & Hl & _ & Hn & _). unfold show_entry. rewrite !length_app.
  pose proof (dec_length (visits e) ltac:(lia)). pose proof (dec_length (last_visit e) ltac:(lia)).
  unfold LINE_SIZE, PATH_MAX in *. simpl. lia.
Qed.

(** The whole file. *)
Definition db_text (es : list Entry) : str := concat (map show_entry es).

(** Reading one line of it. *)
Lemma fgets_entry fd e rest s (Q : option str -> sysst -> Prop) E : entry_ok e ->
  s_in s !! fd = Some (show_entry e ++ rest) ->
  (forall s', s_ioerr s' = true -> Q None s') ->
  (forall s', s_in s' !! fd = Some rest -> Q (Some (show_entry e)) s') ->
  sat (call (Fgets fd LINE_SIZE)) s Q E.
Proof.
  intros He Hin H0 H1. apply sat_call. intros x s' Hs. simpl in Hs. rewrite Hin in Hs. simpl in Hs.
  assert (Hf : first_line (show_entry e ++ rest) = (show_entry e, rest)).
  { rewrite show_entry_line, <- app_assoc. apply first_line_app. intros Hx.
    pose proof (entry_line_no_end e He) as Hn. rewrite Forall_forall in Hn. apply (Hn _ Hx). unfold line_end. auto. }
  destruct Hs as [[-> ->]|[(Hn & _)|(_ & l & Hl & -> & ->)]].
  - by apply H0.
  - rewrite show_entry_line in Hn. by destruct (entry_line e).
  - rewrite Hf in Hl. cbn [fst] in Hl. rewrite take_ge in Hl by (by apply show_entry_fits). subst l.
    apply H1. simpl. rewrite lookup_insert_eq. by rewrite drop_app_length.
Qed.

Lemma load_lines_spec fuel fd es acc s : Forall entry_ok es -> (length acc + length es <= MAX_ENTRY)%nat ->
  (length es < fuel)%nat -> s_in s !! fd = Some (db_text es) ->
  sat (load_lines fuel fd acc) s (fun r s' => s_ioerr s' = false -> r = acc ++ es) (fun _ _ => False).
Proof.
  intros He. revert fuel acc s. induction He as [|e es Hok He IH]; intros fuel acc s Hn Hf Hin;
    (destruct fuel as [|fuel]; [simpl in Hf; lia|]); cbn [load_lines].
  - destruct (_ <=? _)%nat; [intros _; by rewrite app_nil_r|]. apply sat_bind, sat_call.
    intros x s' Hs. simpl in Hs. rewrite Hin in Hs. simpl in Hs.
    destruct Hs as [[-> ->]|[(_ & -> & ->)|(Hx & _)]]; [done| |done]. intros _. by rewrite app_nil_r.
  - simpl in Hn. rewrite (proj2 (Nat.leb_gt _ _)) by lia. apply sat_bind.
    eapply fgets_entry; [done|exact Hin| |].
    { intros s' Hs H. by rewrite H in Hs. }
    intros s' Hin'. rewrite show_entry_line, cut_line_app, scan_entry_line by (try apply entry_line_no_end; done).
    replace (acc ++ e :: es) with ((acc ++ [e]) ++ es) by (by rewrite <- app_assoc).
    apply IH; [rewrite length_app; simpl; lia|simpl in Hf; lia|done].
Qed.

(** Writing all entries to an open file. *)
Lemma write_entries_spec fd es s : 
  sat (pfor es (fun e => call (Fprintf fd (show_entry e)))) s
    (fun _ s' => s_ioerr s' = false -> s_ioerr s = false /\
       default [] (s_written s' !! fd) = default [] (s_written s !! fd) ++ db_text es) (fun _ _ => False).
Proof.
  revert s. induction es as [|e es IH]; intros s; cbn [pfor].
  { intros H. by rewrite app_nil_r. }
  apply sat_bind, sat_call. intros [] t [->| ->]; (eapply sat_mono; [apply IH| |done]);
    intros [] u Hu Hio; destruct (Hu Hio) as [H1 H2]; [done|]. split; [done|].
  rewrite H2. simpl. rewrite lookup_insert_eq. simpl. by rewrite <- app_assoc.
Qed.

(** [save_db] writes the table to a file it opens for that. *)
Lemma save_db_spec s : sat save_db s
  (fun _ s' => s_ioerr s' = true \/ s' = s \/ exists fd, (fd ∉ s_fds s) /\
     default [] (s_written s' !! fd) = db_text (entries (g_hop (s_glob s)))) (fun _ _ => False).
Proof.
  unfold save_db. apply sat_bind, sat_getg. apply sat_bind, sat_call.
  intros fd t [[-> ->]|(Hge & Hni & content & ->)]; [right; by left|].
  rewrite (proj2 (Z.ltb_ge _ _)) by done. apply sat_bind. eapply sat_mono; [apply write_entries_spec| |done].
  intros [] u Hu. apply sat_call. intros [] v Hv. simpl in *. subst v. simpl.
  destruct (s_ioerr u); [by left|]. destruct (Hu eq_refl) as [_ H2]. rewrite lookup_insert_eq in H2. simpl in H2.
  right; right. by exists fd.
Qed.


(** ** The table *)

(** No directory is listed twice, and the array is not exceeded. *)
Definition table_ok (es : list Entry) : Prop :=
  NoDup (map path es) /\ (length es <= MAX_ENTRY)%nat /\ Forall (fun e => (length (path e) < PATH_MAX)%nat) es.

(** The count of a directory, 0 when it is not listed. *)
Definition visits_of (p : str) (es : list Entry) : Z :=
  match find_key path p es with Some (_, e) => visits e | None => 0 end.

(** The table after a visit of [p]. *)
Definition visited (now : Z) (p : str) (es : list Entry) : list Entry :=
  match find_key path p es with
  | Some (i, _) => alter (visit_again now) i es
  | None => if (MAX_ENTRY <=? length es)%nat then es else es ++ [mkEntry (path_copy p) 1 now]
  end.

Lemma path_copy_short p : (length p < PATH_MAX)%nat -> path_copy p = p.
Proof. intros H. unfold path_copy. apply take_ge. unfold PATH_MAX in *. lia. Qed.

Lemma visited_ok now p es : (length p < PATH_MAX)%nat -> table_ok es -> table_ok (visited now p es).
Proof.
  intros Hp (Hd & Hl & Hs). unfold visited. destruct (find_key path p es) as [[i e]|] eqn:E.
  - split_and!; [by rewrite alter_keys|by rewrite length_alter|].
    apply Forall_alter; [done|]. by intros x _ Hx.
  - destruct (_ <=? _)%nat eqn:El; [by split_and!|]. bool_to_prop. rewrite path_copy_short by done. split_and!.
    + by apply nodup_keys_snoc.
    + rewrite length_app. simpl. lia.
    + apply Forall_app. split; [done|]. by constructor.
Qed.

(** Looking a directory up after a visit. *)
Lemma visits_after now p q es : (length p < PATH_MAX)%nat ->
  visits_of q (visited now p es) =
  if decide (p = q) then
    match find_key path p es with
    | Some (_, e) => u64 (visits e + 1)
    | None => if (MAX_ENTRY <=? length es)%nat then 0 else 1
    end
  else visits_of q es.
Proof.
  intros Hp. unfold visited, visits_of. destruct (find_key path p es) as [[i e]|] eqn:E.
  - rewrite find_key_alter by done. destruct (decide (p = q)) as [<-|Hne].
    + rewrite E. by rewrite decide_True by done.
    + destruct (find_key path q es) as [[j x]|] eqn:Eq; [|done]. rewrite decide_False; [done|].
      intros ->. apply find_key_Some in E as [H1 H2]. apply find_key_Some in Eq as [H3 H4]. congruence.
  - destruct (_ <=? _)%nat; [by destruct (decide (p = q)) as [<-|]; [rewrite E|]|].
    rewrite path_copy_short by done. rewrite find_key_snoc. simpl. destruct (decide (p = q)) as [<-|Hne]; [by rewrite E|].
    by destruct (find_key path q es).
Qed.

(** Saving does not change the statics. *)
Lemma save_db_keeps s (Q : unit -> sysst -> Prop) E :
  (forall s', s_glob s' = s_glob s -> Q tt s') -> sat save_db s Q E.
Proof.
  intros HQ. unfold save_db. apply sat_bind, sat_getg. apply sat_bind, sat_call.
  intros fd t Ht. assert (Hg : s_glob t = s_glob s) by (by destruct Ht as [[_ ->]|(_ & _ & c & ->)]).
  destruct (fd <? 0); [by apply HQ|]. apply sat_bind.
  apply (sat_pfor (fun _ u => s_glob u = s_glob s)); [done| |].
  - intros i e u _ Hu. apply sat_call. intros [] v [->| ->]; done.
  - intros u Hu. apply sat_call. intros [] v ->. by apply HQ.
Qed.

Abbreviation table s := (entries (g_hop (s_glob s))).

Lemma update_entry_spec p s :
  sat (update_entry p) s (fun _ s' => exists now,
    s_glob s' = set_hop (set_entries (visited now p (table s)) (g_hop (s_glob s))) (s_glob s)) (fun _ _ => False).
Proof.
  unfold update_entry. apply sat_bind, sat_getg. unfold visited.
  destruct (find_key _ _ _) as [[i e]|].
  - apply sat_bind, sat_call. intros now t [_ ->].
    apply sat_bind, sat_modg, save_db_keeps. intros s' ->. by exists now.
  - destruct (_ <=? _)%nat.
    + exists 0. by destruct (s_glob s) as [? ? ? ? ? []].
    + apply sat_bind, sat_call. intros now t [_ ->].
      apply sat_bind, sat_modg, save_db_keeps. intros s' ->. by exists now.
Qed.

(** Visiting a directory counts: its number of visits goes up by one (it
    is entered with one visit if it was not listed), those of the others stay,
    no directory is ever listed twice, and the table stays within its 1024
    entries: a directory that finds it full is not recorded. *)
Theorem hop_counts_visits p s : table_ok (table s) -> (length p < PATH_MAX)%nat ->
  sat (update_entry p) s (fun _ s' => table_ok (table s') /\
    (forall q, q <> p -> visits_of q (table s') = visits_of q (table s)) /\
    (visits_of p (table s') = u64 (visits_of p (table s) + 1) \/
     (length (table s) = MAX_ENTRY /\ table s' = table s)) /\
    g_jobs (s_glob s') = g_jobs (s_glob s)) (fun _ _ => False).
Proof.
  intros Ht Hp. eapply sat_mono; [apply update_entry_spec| |done]. intros [] s' [now ->]. simpl.
  split; [by apply visited_ok|]. split; [|split; [|done]].
  - intros q Hq. rewrite visits_after, decide_False; congruence.
  - rewrite visits_after, decide_True by done. destruct (find_key _ _ _) as [[i e]|] eqn:E.
    + left. unfold visits_of. by rewrite E.
    + destruct (_ <=? _)%nat eqn:El; bool_to_prop.
      * right. destruct Ht as (_ & Hl & _). split; [lia|]. unfold visited. rewrite E.
        by rewrite (proj2 (Nat.leb_le _ _)) by lia.
      * left. unfold visits_of. by rewrite E.
Qed.

(** ** The search *)

Lemma score_above now e : 0 < visits e < 2 ^ 53 -> d_lt (d_of_Z (-1)) (score_at now e) = true.
Proof.
  intros Hv. destruct (d_of_Z_small (visits e) Hv) as (m & x & Hm). unfold score_at. rewrite Hm.
  apply signed_above_minus_one, d_div_pos.
  destruct (d_of_Z_signed (now - last_visit e)) as [sg Hsg].
  destruct (d_of_Z_small 3600 ltac:(lia)) as (mh & xh & ->). destruct (d_of_Z_small 1 ltac:(lia)) as (m1 & x1 & ->).
  pose proof (d_div_signed sg false _ mh xh Hsg) as Hage. set (age := d_div _ _) in *.
  destruct (d_lt age (d_of_Z 0)) eqn:E; [by apply d_add_pos|].
  destruct (not_negative _ _ Hage E) as [H| ->]; [by apply d_add_pos|done].
Qed.

Section Search.

(** A system whose directories and clock stand still during the search. *)
Variable h : oracle.
Variable kind : str -> option filekind.
Variable now : Z.

Hypothesis h_get : forall s, h _ Get s = (s_glob s, s).
Hypothesis h_stat : forall p s, h _ (Stat p) s = (kind p, s).
Hypothesis h_time : forall s, h _ Time s = (now, s).

(** The directories a name can stand for. *)
Definition candidate_for (name : str) (e : Entry) : bool :=
  (strstr (path e) name && match kind (path e) with Some IsDir => true | _ => false end)%bool.

(** [e] is the first of the best candidates of [es]. *)
Definition first_best (name : str) (es : list Entry) (e : Entry) : Prop :=
  exists before behind, es = before ++ e :: behind /\ candidate_for name e = true /\
  (forall e', e' ∈ before -> candidate_for name e' = true -> d_lt (score_at now e') (score_at now e) = true) /\
  (forall e', e' ∈ behind -> candidate_for name e' = true -> d_lt (score_at now e) (score_at now e') = false).

(** The loop as a function. *)
Fixpoint search_pure (name : str) (l : list Entry) (best : double) (m : option str) : option str :=
  match l with
  | [] => m
  | e :: l' =>
      if (candidate_for name e && d_lt best (score_at now e))%bool
      then search_pure name l' (score_at now e) (Some (path e)) else search_pure name l' best m
  end.

Lemma run_search_loop name l best m s : run_prog h (search_loop name l best m) s = Returned (search_pure name l best m) s.
Proof.
  revert best m. induction l as [|e l IH]; intros best m; [done|]. cbn [search_loop search_pure].
  unfold candidate_for. destruct (strstr (path e) name); cbn [negb andb]; [|apply IH].
  unfold exists_dir. rewrite !run_bind, run_call, h_stat. cbn [fst snd run_prog].
  destruct (kind (path e)) as [[|]|]; cbn [negb]; try apply IH.
  unfold score. rewrite !run_bind, run_call, h_time. cbn [fst snd run_prog]. cbn [andb].
  destruct (d_lt best _); apply IH.
Qed.

(** Either nothing is better than what the search came with, or it ends with
    the first of the best. *)
Lemma search_pure_spec name l best m : Forall (fun e => 0 < visits e < 2 ^ 53) l ->
  (search_pure name l best m = m /\
   forall e, e ∈ l -> candidate_for name e = true -> d_lt best (score_at now e) = false) \/
  (exists e, search_pure name l best m = Some (path e) /\ first_best name l e /\ d_lt best (score_at now e) = true).
Proof.
  intros Hv. revert best m. induction Hv as [|x l Hx Hv IH]; intros best m.
  { left. split; [done|]. by intros e ?%elem_of_nil. }
  cbn [search_pure]. destruct (candidate_for name x) eqn:Ec; cbn [andb].
  1: destruct (d_lt best (score_at now x)) eqn:El.
  - right. destruct (IH (score_at now x) (Some (path x))) as [[-> Hn]|(e & -> & Hb & Hlt)].
    + exists x. split; [done|]. split; [|done]. exists [], l. split_and!; [done..| |done]. by intros e ?%elem_of_nil.
    + exists e. split; [done|]. split; [|by eapply d_lt_trans]. destruct Hb as (l1 & l2 & -> & H1 & H2 & H3).
      exists (x :: l1), l2. split_and!; [done..| |done]. intros e' [->|He']%elem_of_cons ?; [done|by apply H2].
  - destruct (IH best m) as [[-> Hn]|(e & -> & Hb & Hlt)].
    + left. split; [done|]. intros e [->|He]%elem_of_cons ?; [done|by apply Hn].
    + right. exists e. split; [done|]. split; [|done]. destruct Hb as (l1 & l2 & -> & H1 & H2 & H3).
      exists (x :: l1), l2. split_and!; [done..| |done]. intros e' [->|He']%elem_of_cons ?; [|by apply H2].
      eapply d_lt_below; [by apply (score_above now)|done|done].
  - destruct (IH best m) as [[-> Hn]|(e & -> & Hb & Hlt)].
    + left. split; [done|]. intros e [->|He]%elem_of_cons ?; [congruence|by apply Hn].
    + right. exists e. split; [done|]. split; [|done]. destruct Hb as (l1 & l2 & -> & H1 & H2 & H3).
      exists (x :: l1), l2. split_and!; [done..| |done]. intros e' [->|He']%elem_of_cons ?; [congruence|by apply H2].
Qed.

(** C26.  The search by a part of a name finds the best directory: it answers
    with the first entry of the highest score among the listed directories
    that contain the name and still exist, scores being compared in double
    precision as the code computes them, and with nothing exactly when there
    is no such directory. *)
Theorem search_finds_best name s : Forall (fun e => 0 < visits e < 2 ^ 53) (table s) ->
  exists r, run_prog h (search_frecency name) s = Returned r s /\
  match r with
  | Some p => exists e, p = path e /\ first_best name (table s) e
  | None => forall e, e ∈ table s -> candidate_for name e = false
  end.
Proof.
  intros Hv. exists (search_pure name (table s) (d_of_Z (-1)) None). split.
  - unfold search_frecency, get_hop, getg. rewrite !run_bind, run_call, h_get. apply run_search_loop.
  - destruct (search_pure_spec name (table s) (d_of_Z (-1)) None Hv) as [[-> Hn]|(e & -> & Hb & _)]; [|by eauto].
    intros e He. destruct (candidate_for name e) eqn:Ec; [|done].
    rewrite Forall_forall in Hv. specialize (Hn e He Ec). by rewrite (score_above now e) in Hn by (by apply Hv).
Qed.

End Search.

(** ** [hop] in the shell *)

Lemma keeps_load fuel fd acc : keeps_jobs (load_lines fuel fd acc).
Proof.
  revert acc. induction fuel as [|fuel IH]; intros acc; cbn [load_lines]; shell_auto; apply IH.
Qed.

Lemma keeps_mod_hop f : keeps_jobs (mod_hop f).
Proof. apply keeps_modg_hop. Qed.

Lemma keeps_load_db fuel : keeps_jobs (load_db fuel).
Proof. unfold load_db, get_hop. shell_auto; [apply keeps_load|apply keeps_mod_hop]. Qed.

Lemma keeps_save_db : keeps_jobs save_db.
Proof. unfold save_db, get_hop. shell_auto. Qed.

Lemma keeps_update p : keeps_jobs (update_entry p).
Proof. unfold update_entry, get_hop. shell_auto; first [apply keeps_save_db|apply keeps_mod_hop]. Qed.

Lemma keeps_cd p : keeps_jobs (cd_or_complain p).
Proof. unfold cd_or_complain, perform_cd. shell_auto; first [apply keeps_update|apply keeps_mod_hop]. Qed.

Lemma keeps_search name : keeps_jobs (search_frecency name).
Proof.
  unfold search_frecency, get_hop. shell_auto. generalize (d_of_Z (-1)) (@None str).
  induction a as [|e l IH]; intros best m; cbn [search_loop]; unfold exists_dir, score; shell_auto; apply IH.
Qed.

Lemma keeps_hop args : keeps_jobs (hop_builtin args).
Proof.
  unfold hop_builtin, get_hop. shell_auto; [apply keeps_cd|]. unfold hop_arg, hop_below_home, exists_dir, get_hop.
  shell_auto; first [apply keeps_cd|apply keeps_search].
Qed.

Lemma safe_mod_hop f : shell_safe (mod_hop f).
Proof. apply safe_calm; [apply keeps_modg_hop|apply calm_modg]. Qed.

Lemma safe_load fuel fd acc : shell_safe (load_lines fuel fd acc).
Proof.
  revert acc. induction fuel as [|fuel IH]; intros acc; cbn [load_lines]; shell_auto; apply IH.
Qed.

Lemma safe_save_db : shell_safe save_db.
Proof.
  unfold save_db, get_hop. apply safe_bind; [shell_auto|]. intros h. apply safe_open; [shell_auto|].
  intros fd. apply closes_before; [shell_auto|]. intros _. apply closes_close.
Qed.

Lemma safe_update p : shell_safe (update_entry p).
Proof. unfold update_entry, get_hop. shell_auto; first [apply safe_save_db|apply safe_mod_hop]. Qed.

Lemma safe_cd p : shell_safe (cd_or_complain p).
Proof. unfold cd_or_complain, perform_cd. shell_auto; first [apply safe_update|apply safe_mod_hop]. Qed.

Lemma safe_search name : shell_safe (search_frecency name).
Proof.
  unfold search_frecency, get_hop. shell_auto. generalize (d_of_Z (-1)) (@None str).
  induction a as [|e l IH]; intros best m; cbn [search_loop]; unfold exists_dir, score; shell_auto; apply IH.
Qed.

Lemma safe_hop args : shell_safe (hop_builtin args).
Proof.
  unfold hop_builtin, get_hop. shell_auto; [apply safe_cd|]. unfold hop_arg, hop_below_home, exists_dir, get_hop.
  shell_auto; first [apply safe_cd|apply safe_search].
Qed.

(** Loading the table, before there are jobs. *)
Lemma load_lines_frame fuel fd acc s : sat (load_lines fuel fd acc) s
  (fun _ s' => waited s s' /\ s_glob s' = s_glob s) (fun _ _ => True).
Proof.
  revert acc s. induction fuel as [|fuel IH]; intros acc s; cbn [load_lines]; (destruct (_ <=? _)%nat; [done|]); [done|].
  apply sat_bind, sat_call. intros line t Ht.
  assert (Hw : waited s t) by (by eapply step_neutral; [|exact Ht]).
  assert (Hg : s_glob t = s_glob s) by (by eapply step_outside; [|exact Ht]).
  assert (Hr : forall acc', sat (load_lines fuel fd acc') t (fun _ s' => waited s s' /\ s_glob s' = s_glob s) (fun _ _ => True)).
  { intros acc'. eapply sat_mono; [apply IH| |done]. intros es u [Hu Hgu]. split; [by etrans|congruence]. }
  destruct line as [line|]; [|done]. destruct (scan_entry _); apply Hr.
Qed.

Lemma hop_init_frame fuel home s : sat (hop_init fuel home) s
  (fun _ s' => waited s s' /\ g_next_job_num (s_glob s') = g_next_job_num (s_glob s)) (fun _ _ => True).
Proof.
  unfold hop_init. apply sat_bind.
  assert (Hh : forall (Q : str -> sysst -> Prop), (forall x, Q x s) -> sat match home with
    | Some home => Ret (path_copy home)
    | None => do* cwd := call Getcwd in Ret (default (lit "/") cwd) end s Q (fun _ _ => True)).
  { intros Q HQ. destruct home; [apply HQ|]. apply sat_bind, sat_call. intros cwd t [_ ->]. apply HQ. }
  apply Hh. intros hm. apply sat_bind, sat_modg. unfold load_db. apply sat_bind, sat_getg.
  apply sat_bind, sat_call. intros fd t Ht.
  destruct Ht as [[-> ->]|(Hge & Hni & content & ->)]; [done|].
  rewrite (proj2 (Z.ltb_ge _ _)) by done. apply sat_bind. eapply sat_mono; [apply load_lines_frame| |done].
  intros es u [(W1 & W2 & W3) Hg]. simpl in *. apply sat_bind, sat_modg. apply sat_call. intros [] v Hv. simpl in Hv. subst v.
  unfold waited. simpl. rewrite W1, Hg. split; [|done]. split_and!; [set_solver|done|done].
Qed.
