(* ===== verification/Reveal.v ===== *)
(** * The builtin [reveal]: [reveal.c]

    [reveal] lists a directory in the order of [strcmp], [-a] with the hidden
    entries, [-t] with everything below it.  The recursive listing is compared
    with the set of paths that can be reached in the file system. *)

From stdpp Require Import base list gmap sets strings sorting.
From Stdlib Require Import ZArith Lia Ascii.
From S2P Require Import Prelude ShellBase Jobs JobFacts JobBuiltins JobTheorems Pipes PipesFacts Executor ShellSafety.
From S2P Require Import Double Hop HopFacts.

Open Scope Z_scope.

(** ** Names *)

(** [strcmp(a, b) <= 0], on unsigned characters. *)
Fixpoint strcmp_le (a b : str) : bool :=
  match a, b with
  | [], _ => true
  | _ :: _, [] => false
  | c :: a', d :: b' =>
      if (nat_of_ascii c =? nat_of_ascii d)%nat then strcmp_le a' b' else (nat_of_ascii c <? nat_of_ascii d)%nat
  end.

Definition name_le (a b : str) : Prop := strcmp_le a b = true.

#[export] Instance name_le_dec a b : Decision (name_le a b).
Proof. unfold name_le. apply _. Defined.

(** What [qsort] with [cmp_names] makes of the names: as no two of them are
    equal there is one sorted list only. *)
Definition sort_names : list str -> list str := merge_sort name_le.

Definition is_hidden (name : str) : bool := bool_decide (hd0 name = "."%char).

(** ** [print_directory] *)

Fixpoint read_names (fuel : nat) (dir : Z) (show_all : bool) (names : list str) : prog (list str) :=
  match fuel with
  | O => NoFuel
  | S fuel' =>
      do* ent := call (Readdir dir) in
      match ent with
      | None => Ret names
      | Some name =>
          if (negb show_all && is_hidden name)%bool then read_names fuel' dir show_all names
          else read_names fuel' dir show_all (names ++ [name])
      end
  end.

(** [snprintf] into a buffer of [PATH_MAX * 2] bytes. *)
Definition path_text (text : str) : str := take (PATH_MAX * 2 - 1) text.

Definition dot_name (name : str) : bool := (streq name (lit ".") || streq name (lit ".."))%bool.

Fixpoint print_directory (rd depth : nat) (dirpath : str) (show_all recursive : bool) (prefix : str) : prog unit :=
  match depth with
  | O => NoFuel
  | S depth' =>
      do* dir := call (Opendir dirpath) in
      if dir <? 0 then Ret tt else
      do* names := read_names rd dir show_all [] in
      call (Close dir) ;;;
      pfor (sort_names names) (fun name =>
        let full := path_text (dirpath ++ lit "/" ++ name) in
        do* is_dir := exists_dir full in
        if negb recursive then printf (prefix ++ name ++ [LF])
        else if (is_dir : bool) then
          if dot_name name then pwhen show_all (printf (prefix ++ name ++ [LF]))
          else
            printf (prefix ++ name ++ lit "/" ++ [LF]) ;;;
            print_directory rd depth' full show_all true (path_text (prefix ++ name ++ lit "/"))
        else printf (prefix ++ name ++ [LF]))
  end.

(** ** [reveal_builtin] *)

(** The letters behind a dash; [None] for another letter. *)
Fixpoint reveal_flags (letters : str) (show_all recursive : bool) : option (bool * bool) :=
  match letters with
  | [] => Some (show_all, recursive)
  | c :: rest =>
      if bool_decide (c = "a"%char) then reveal_flags rest true recursive
      else if bool_decide (c = "t"%char) then reveal_flags rest show_all true
      else None
  end.

(** The arguments from [i] on; [None] for a syntax error. *)
Fixpoint reveal_args (args : list str) (show_all recursive : bool) (raw : option str) :
    option (bool * bool * option str) :=
  match args with
  | [] => Some (show_all, recursive, raw)
  | arg :: rest =>
      if bool_decide (hd0 arg = "-"%char) then
        if streq arg (lit "-") then
          match raw with Some _ => None | None => reveal_args rest show_all recursive (Some (lit "-")) end
        else
          '(a, t) ← reveal_flags (tail arg) show_all recursive;
          reveal_args rest a t raw
      else
        match raw with Some _ => None | None => reveal_args rest show_all recursive (Some arg) end
  end.

(** The directory to list; [None] when there is none, with the complaint. *)
Definition reveal_target (raw : option str) : prog (option str) :=
  match raw with
  | None => call Getcwd
  | Some raw =>
      if streq raw (lit ".") then call Getcwd
      else if streq raw (lit "~") then do* home := hop_home in Ret (Some (path_text home))
      else if bool_decide (take 2 raw = lit "~/") then
        do* home := hop_home in Ret (Some (path_text (home ++ lit "/" ++ drop 2 raw)))
      else if streq raw (lit "-") then
        do* prev := hop_previous in
        if bool_decide (prev = []) then puts (lit "reveal: no such directory") ;;; Ret None
        else Ret (Some (path_text prev))
      else Ret (Some (path_text raw))
  end.

Definition reveal_builtin (rd depth : nat) (args : list str) : prog Z :=
  match reveal_args (tail args) false false None with
  | None => puts (lit "reveal: invalid syntax") ;;; Ret 1
  | Some (show_all, recursive, raw) =>
      do* target := reveal_target raw in
      match target with
      | None => Ret 1
      | Some target =>
          do* dir := exists_dir target in
          if negb dir then puts (lit "reveal: no such directory") ;;; Ret 1 else
          print_directory rd depth target show_all recursive [] ;;;
          Ret 0
      end
  end.

(** ** The order of names *)

Lemma strcmp_le_refl a : strcmp_le a a = true.
Proof. induction a as [|c a IH]; [done|]. simpl. by rewrite Nat.eqb_refl. Qed.

#[export] Instance strcmp_le_trans : Transitive name_le.
Proof.
  unfold name_le. intros a. induction a as [|c a IH]; intros [|d b] [|e x]; simpl; try done.
  destruct (nat_of_ascii c =? nat_of_ascii d)%nat eqn:E1, (nat_of_ascii d =? nat_of_ascii e)%nat eqn:E2,
    (nat_of_ascii c =? nat_of_ascii e)%nat eqn:E3; rewrite ?Nat.ltb_lt; bool_to_prop; intros; try lia.
  by eapply IH.
Qed.

#[export] Instance strcmp_le_total : Total name_le.
Proof.
  unfold name_le. intros a. induction a as [|c a IH]; intros [|d b]; simpl; auto. rewrite (Nat.eqb_sym (nat_of_ascii d)).
  destruct (nat_of_ascii c =? nat_of_ascii d)%nat eqn:E; [apply IH|]. rewrite !Nat.ltb_lt. bool_to_prop. lia.
Qed.

#[export] Instance strcmp_le_antisymm : AntiSymm (=) name_le.
Proof.
  unfold name_le. intros a. induction a as [|c a IH]; intros [|d b]; simpl; try done.
  rewrite (Nat.eqb_sym (nat_of_ascii d)). destruct (nat_of_ascii c =? nat_of_ascii d)%nat eqn:E.
  - intros H1 H2. bool_to_prop. f_equal; [|by apply IH].
    by rewrite <- (ascii_nat_embedding c), <- (ascii_nat_embedding d), E.
  - rewrite !Nat.ltb_lt. lia.
Qed.

Lemma sort_names_perm l : sort_names l ≡ₚ l.
Proof. apply merge_sort_Permutation. Qed.

Lemma sort_names_sorted l : StronglySorted name_le (sort_names l).
Proof. apply StronglySorted_merge_sort; apply _. Qed.

(** ** What the listing shows *)

Section Listing.

(** A file system that stands still while it is listed: the kind of each path,
    and the entries of each directory that can be read. *)
Variable h : oracle.
Variable kind : str -> option filekind.
Variable listing : str -> option (list str).
Variable fresh : sysst -> Z.

Hypothesis fresh_fd : forall s, 0 <= fresh s.
Hypothesis h_stat : forall p s, h _ (Stat p) s = (kind p, s).
Hypothesis h_print : forall t s, h _ (Printf t) s = (tt, printed t s).
Hypothesis h_close : forall fd s, h _ (Close fd) s = (tt, set_fds (s_fds s ∖ {[fd]}) s).
Hypothesis h_opendir : forall p s, h _ (Opendir p) s =
  match listing p with
  | None => (-1, s)
  | Some names => (fresh s, set_fds ({[fresh s]} ∪ s_fds s) (set_dirs (<[fresh s := names]> (s_dirs s)) s))
  end.
Hypothesis h_readdir : forall fd s, h _ (Readdir fd) s =
  match default [] (s_dirs s !! fd) with
  | [] => (None, s)
  | name :: rest => (Some name, set_dirs (<[fd := rest]> (s_dirs s)) s)
  end.

Variable show_all : bool.

Definition seen (name : str) : bool := (show_all || negb (is_hidden name))%bool.

Definition visible (names : list str) : list str := sort_names (List.filter seen names).

Definition full_path (d name : str) : str := path_text (d ++ lit "/" ++ name).

(** A directory the listing goes down into. *)
Definition subdir (d name : str) : bool :=
  (match kind (full_path d name) with Some IsDir => true | _ => false end && negb (dot_name name))%bool.

(** The lines below [d], relative to it. *)
Inductive shows : str -> str -> Prop :=
| shows_entry d names n : listing d = Some names -> n ∈ names -> seen n = true -> subdir d n = false -> shows d n
| shows_dir d names n : listing d = Some names -> n ∈ names -> seen n = true -> subdir d n = true ->
    shows d (n ++ lit "/")
| shows_below d names n rel : listing d = Some names -> n ∈ names -> seen n = true -> subdir d n = true ->
    shows (full_path d n) rel -> shows d (n ++ lit "/" ++ rel).

(** The directories nest at most [n] deep below [d]. *)
Inductive depth_le : nat -> str -> Prop :=
| depth_le_S n d : (forall names m, listing d = Some names -> m ∈ names -> seen m = true -> subdir d m = true ->
    depth_le n (full_path d m)) -> depth_le (S n) d.

(** [m] returns and prints [text]. *)
Definition prints {A} (m : prog A) (s : sysst) (a : A) (text : str) : Prop :=
  exists s', run_prog h m s = Returned a s' /\ s_out s' = s_out s ++ text.

Lemma prints_bind {A B} (m : prog A) (f : A -> prog B) s a b t1 t2 :
  prints m s a t1 -> (forall s', prints (f a) s' b t2) -> prints (pbind m f) s b (t1 ++ t2).
Proof.
  intros (s1 & Hm & H1) Hf. destruct (Hf s1) as (s2 & Hr & H2). exists s2.
  rewrite run_bind, Hm. split; [done|]. rewrite H2, H1. by rewrite <- app_assoc.
Qed.

Lemma prints_silent {A B} (m : prog A) (f : A -> prog B) s a b t :
  prints m s a [] -> (forall s', prints (f a) s' b t) -> prints (pbind m f) s b t.
Proof. apply (prints_bind m f s a b [] t). Qed.

Lemma prints_ret {A} (a : A) s : prints (Ret a) s a [].
Proof. exists s. split; [done|]. by rewrite app_nil_r. Qed.

Lemma prints_printf t s : prints (printf t) s tt t.
Proof. exists (printed t s). unfold printf. by rewrite run_call, h_print. Qed.

Lemma prints_exists_dir p s : prints (exists_dir p) s (match kind p with Some IsDir => true | _ => false end) [].
Proof. exists s. unfold exists_dir. rewrite run_bind, run_call, h_stat, app_nil_r. done. Qed.

(** Reading the names. *)
Lemma read_names_run rd fd names acc s : (length names < rd)%nat -> s_dirs s !! fd = Some names ->
  exists s', run_prog h (read_names rd fd show_all acc) s = Returned (acc ++ List.filter seen names) s' /\
    s_out s' = s_out s.
Proof.
  revert rd acc s. induction names as [|n names IH]; intros [|rd] acc s Hl Hd; simpl in Hl; try lia;
    cbn [read_names]; rewrite run_bind, run_call, h_readdir, Hd; cbn [from_option id fst snd].
  - exists s. by rewrite app_nil_r.
  - set (s1 := set_dirs _ s). assert (H1 : s_dirs s1 !! fd = Some names) by (subst s1; simpl; by rewrite lookup_insert_eq).
    assert (E : (negb show_all && is_hidden n)%bool = negb (seen n)) by (unfold seen; by destruct show_all, (is_hidden n)).
    rewrite E. cbn [List.filter]. destruct (seen n); cbn [negb].
    + destruct (IH rd (acc ++ [n]) s1 ltac:(lia) H1) as (s' & Hr & Ho). exists s'. by rewrite Hr, <- app_assoc.
    + destruct (IH rd acc s1 ltac:(lia) H1) as (s' & Hr & Ho). exists s'. by rewrite Hr.
Qed.

(** Opening, reading and closing a directory, and what is done with the names. *)
Lemma prints_listing rd d names (f : list str -> prog unit) s text : (length names < rd)%nat ->
  listing d = Some names -> (forall s', prints (f (List.filter seen names)) s' tt text) ->
  prints (do* dir := call (Opendir d) in
          if dir <? 0 then Ret tt else
          do* names := read_names rd dir show_all [] in
          call (Close dir) ;;; f names) s tt text.
Proof.
  intros Hl Hd Hf. set (s1 := set_fds ({[fresh s]} ∪ s_fds s) (set_dirs (<[fresh s := names]> (s_dirs s)) s)).
  destruct (read_names_run rd (fresh s) names [] s1 Hl) as (s2 & Hr & Ho).
  { subst s1. simpl. by rewrite lookup_insert_eq. }
  destruct (Hf (set_fds (s_fds s2 ∖ {[fresh s]}) s2)) as (s3 & H3 & Ho3). exists s3.
  rewrite run_bind, run_call, h_opendir, Hd. cbn [fst snd]. rewrite (proj2 (Z.ltb_ge _ _)) by done.
  fold s1. rewrite run_bind, Hr. cbn [app]. rewrite run_bind, run_call, h_close. cbn [fst snd]. split; [done|].
  rewrite Ho3. simpl. by rewrite Ho.
Qed.

(** *** One directory *)

(** Each name gives its own text. *)
Lemma prints_pfor {A} (l : list A) (body : A -> prog unit) (text : A -> str) s :
  (forall x s', x ∈ l -> prints (body x) s' tt (text x)) -> prints (pfor l body) s tt (concat (map text l)).
Proof.
  revert s. induction l as [|x l IH]; intros s Hb; cbn [pfor map concat]; [apply prints_ret|].
  apply (prints_bind _ _ s tt tt); [apply Hb; left|]. intros s'. apply IH. intros y t Hy. apply Hb. by right.
Qed.

(** The lines of the recursive listing, and their text behind a prefix. *)
Fixpoint tree_lines (n : nat) (d : str) : list str :=
  match n, listing d with
  | S n', Some names =>
      concat (map (fun m => if subdir d m
                            then (m ++ lit "/") :: map (fun r => m ++ lit "/" ++ r) (tree_lines n' (full_path d m))
                            else [m]) (visible names))
  | _, _ => []
  end.

Definition lines_text (prefix : str) (ls : list str) : str := concat (map (fun x => prefix ++ x ++ [LF]) ls).

Lemma lines_text_app p l1 l2 : lines_text p (l1 ++ l2) = lines_text p l1 ++ lines_text p l2.
Proof. unfold lines_text. by rewrite map_app, concat_app. Qed.

Lemma lines_text_concat p ls : lines_text p (concat ls) = concat (map (lines_text p) ls).
Proof. induction ls as [|l ls IH]; [done|]. cbn [concat map]. by rewrite lines_text_app, IH. Qed.

Lemma lines_text_prefix p q ls : lines_text p (map (fun r => q ++ r) ls) = lines_text (p ++ q) ls.
Proof.
  unfold lines_text. rewrite map_map. f_equal. apply map_ext. intros r. by rewrite <- !app_assoc.
Qed.

(** Names are at most 255 bytes long, so the prefix is not cut off. *)
Hypothesis short_names : forall d names m, listing d = Some names -> m ∈ names -> (length m <= 255)%nat.

Variable rd : nat.
Hypothesis rd_enough : forall d names, listing d = Some names -> (length names < rd)%nat.

Lemma visible_spec names m : m ∈ visible names <-> m ∈ names /\ seen m = true.
Proof.
  unfold visible. rewrite sort_names_perm, !list_elem_of_In, List.filter_In. done.
Qed.

(** [.] and [..] are only seen when everything is. *)
Lemma dot_seen m : dot_name m = true -> seen m = true -> show_all = true.
Proof.
  unfold dot_name, seen, streq. intros [H|H]%orb_true_iff; apply bool_decide_eq_true in H; subst m;
    simpl; by rewrite orb_false_r.
Qed.

Lemma prints_tree n d prefix s : depth_le n d -> (length prefix + 256 * n < PATH_MAX * 2)%nat ->
  prints (print_directory rd n d show_all true prefix) s tt (lines_text prefix (tree_lines n d)).
Proof.
  revert d prefix s. induction n as [|n IH]; intros d prefix s Hd Hp; [by inversion Hd|].
  inversion Hd as [? ? Hsub]; subst. cbn [print_directory tree_lines].
  destruct (listing d) as [names|] eqn:El.
  - apply (prints_listing rd d names); [by eapply rd_enough|done|]. intros s1. fold (visible names).
    rewrite lines_text_concat, map_map. apply prints_pfor. intros m s2 [Hm Hs]%visible_spec.
    fold (full_path d m). eapply prints_silent; [apply prints_exists_dir|]. intros s3. cbn [negb].
    pose proof (short_names d names m El Hm) as Hlm. specialize (Hsub names m eq_refl Hm Hs).
    unfold subdir in *. destruct (kind (full_path d m)) as [[|]|]; cbn [andb negb] in *;
      try (unfold lines_text; cbn [map concat]; rewrite app_nil_r; apply prints_printf).
    destruct (dot_name m) eqn:Ed; cbn [negb] in *.
    + rewrite (dot_seen m Ed Hs). cbn [pwhen]. unfold lines_text. cbn [map concat]. rewrite app_nil_r. apply prints_printf.
    + change ((m ++ lit "/") :: ?l) with ([m ++ lit "/"] ++ l). rewrite lines_text_app.
      apply (prints_bind _ _ s3 tt tt).
      * unfold lines_text. cbn [map concat]. rewrite app_nil_r, <- !app_assoc. apply prints_printf.
      * intros s4. assert (Ep : path_text (prefix ++ m ++ lit "/") = prefix ++ m ++ lit "/").
        { unfold path_text. apply take_ge. rewrite !length_app. unfold PATH_MAX in *. simpl length. lia. }
        rewrite Ep.
        replace (map (fun r => m ++ lit "/" ++ r) (tree_lines n (full_path d m)))
          with (map (fun r => (m ++ lit "/") ++ r) (tree_lines n (full_path d m)))
          by (apply map_ext; intros; by rewrite <- app_assoc).
        rewrite lines_text_prefix. apply IH; [by apply Hsub|]. rewrite !length_app. simpl length. lia.
  - exists s. rewrite run_bind, run_call, h_opendir, El. cbn [fst snd]. by rewrite app_nil_r.
Qed.

(** The lines are the paths that can be reached. *)
Lemma tree_lines_shows n d x : depth_le n d -> x ∈ tree_lines n d <-> shows d x.
Proof.
  intros Hd. revert x. induction Hd as [n d Hsub IH]. intros x. cbn [tree_lines]. split.
  - destruct (listing d) as [names|] eqn:El; [|by intros ?%elem_of_nil].
    rewrite list_elem_of_In, in_concat. intros (l & Hl & Hx). apply in_map_iff in Hl as (m & <- & Hm).
    apply list_elem_of_In, visible_spec in Hm as [Hm Hs]. apply list_elem_of_In in Hx.
    destruct (subdir d m) eqn:Es.
    + apply elem_of_cons in Hx as [->|Hx]; [by eapply shows_dir|].
      apply list_elem_of_fmap in Hx as (r & -> & Hr). eapply shows_below; [done..|]. by apply (IH names m).
    + apply list_elem_of_singleton in Hx as ->. by eapply shows_entry.
  - assert (Hin : forall names m l, listing d = Some names -> m ∈ names -> seen m = true -> x ∈ l ->
      l = (if subdir d m then (m ++ lit "/") :: map (fun r => m ++ lit "/" ++ r) (tree_lines n (full_path d m)) else [m]) ->
      x ∈ match listing d with
          | Some names => concat (map (fun m => if subdir d m
              then (m ++ lit "/") :: map (fun r => m ++ lit "/" ++ r) (tree_lines n (full_path d m)) else [m]) (visible names))
          | None => [] end).
    { intros names m l -> Hm Hs Hx ->. rewrite list_elem_of_In, in_concat. eexists. split; [|by apply list_elem_of_In].
      apply in_map_iff. exists m. split; [done|]. apply list_elem_of_In, visible_spec. done. }
    intros Hx. inversion Hx as [? names m El Hm Hs Es|? names m El Hm Hs Es|? names m rel El Hm Hs Es Hr]; subst;
      (eapply Hin; [exact El|exact Hm|exact Hs| |reflexivity]); rewrite Es.
    + by apply list_elem_of_singleton.
    + by left.
    + right. apply list_elem_of_fmap. exists rel. split; [done|]. by apply (IH names m).
Qed.

(** C25.  [reveal -t] shows the whole tree: it returns, and prints exactly the
    paths that can be reached from the directory through entries that are not
    hidden (all of them with [-a]) and directories that can be read, relative
    to it and one per line, a directory with a slash behind it; plain [reveal]
    prints the entries that are not hidden, each once and in the order of
    [strcmp]. The directories nest at most [n] deep, with which no path is cut
    off. *)
Theorem reveal_shows_tree n d s : depth_le n d -> (256 * n < PATH_MAX * 2)%nat ->
  (exists lines, prints (print_directory rd n d show_all true []) s tt (lines_text [] lines) /\
     forall line, line ∈ lines <-> shows d line) /\
  (forall names, listing d = Some names -> exists lines,
     prints (print_directory rd n d show_all false []) s tt (lines_text [] lines) /\
     StronglySorted name_le lines /\ lines ≡ₚ List.filter seen names).
Proof.
  intros Hd Hn. split.
  - exists (tree_lines n d). split; [by apply prints_tree|]. intros line. by apply tree_lines_shows.
  - intros names El. exists (visible names). split_and!; [|apply sort_names_sorted|apply sort_names_perm].
    destruct Hd as [n d _]. cbn [print_directory]. apply (prints_listing rd d names); [by eapply rd_enough|done|].
    intros s1. apply prints_pfor. intros m s2 _. eapply prints_silent; [apply prints_exists_dir|]. intros s3.
    apply prints_printf.
Qed.

End Listing.

(** ** [reveal] in the shell *)

Lemma keeps_read_names fuel fd a acc : keeps_jobs (read_names fuel fd a acc).
Proof. revert acc. induction fuel as [|fuel IH]; intros acc; cbn [read_names]; shell_auto; apply IH. Qed.

Lemma keeps_print_directory rd depth d a r p : keeps_jobs (print_directory rd depth d a r p).
Proof.
  revert d r p. induction depth as [|n IH]; intros d r p; cbn [print_directory]; [shell_auto|].
  apply keeps_bind; [apply _|]. intros dir. destruct (dir <? 0); [shell_auto|].
  apply keeps_bind; [apply keeps_read_names|]. intros names. apply keeps_bind; [apply _|]. intros _.
  apply keeps_pfor. intros name. unfold exists_dir. cbv zeta. shell_auto. apply IH.
Qed.

Lemma keeps_reveal rd depth args : keeps_jobs (reveal_builtin rd depth args).
Proof.
  unfold reveal_builtin, reveal_target, hop_home, hop_previous, get_hop, exists_dir. shell_auto.
  apply keeps_print_directory.
Qed.

Lemma safe_read_names fuel fd a acc : shell_safe (read_names fuel fd a acc).
Proof. revert acc. induction fuel as [|fuel IH]; intros acc; cbn [read_names]; shell_auto; apply IH. Qed.

Lemma safe_print_directory rd depth d a r p : shell_safe (print_directory rd depth d a r p).
Proof.
  revert d r p. induction depth as [|n IH]; intros d r p; cbn [print_directory]; [shell_auto|].
  apply safe_opendir; [shell_auto|]. intros fd. apply closes_before; [apply safe_read_names|]. intros names.
  apply closes_behind; [apply closes_close|]. intros _.
  apply safe_pfor. intros name. unfold exists_dir. cbv zeta. shell_auto. apply IH.
Qed.

Lemma safe_reveal rd depth args : shell_safe (reveal_builtin rd depth args).
Proof.
  unfold reveal_builtin, reveal_target, hop_home, hop_previous, get_hop, exists_dir. shell_auto.
  apply safe_print_directory.
Qed.
