(* ===== verification/Spy.v ===== *)
(** * The builtin [spy]: [spy.c]

    [spy] lists what a process has open: its directory, its program, the files
    mapped into its memory and its descriptors, as [/proc] shows them. *)

From stdpp Require Import base list gmap sets strings sorting.
From Stdlib Require Import ZArith Lia Ascii.
From S2P Require Import Prelude ShellBase Jobs JobFacts JobBuiltins JobTheorems Pipes PipesFacts Executor ShellSafety.

Open Scope Z_scope.

Definition MAX_MEM_TRACKED : nat := 2048.

(** ** Names of types, and rows *)

Definition starts_with (p s : str) : bool := bool_decide (take (length p) s = p).

Definition get_file_type (target : str) (mode : filetype) : str :=
  match mode with
  | S_REG => lit "REG"
  | S_DIR => lit "DIR"
  | S_CHR => lit "CHR"
  | S_BLK => lit "BLK"
  | S_FIFO => lit "FIFO"
  | S_SOCK => lit "SOCK"
  | S_LNK => lit "LNK"
  | S_NONE =>
      if starts_with (lit "pipe:") target then lit "FIFO"
      else if starts_with (lit "socket:") target then lit "SOCK"
      else if starts_with (lit "anon_inode:") target then lit "REG"
      else lit "UNKNOWN"
  end.

(** [%-ns] *)
Definition pad_right (n : nat) (s : str) : str := s ++ replicate (n - length s) " "%char.

(** [printf("%-6ld %-7s %-7s %s\n", ...)] *)
Definition spy_row (pid_val : Z) (fd_text type_text target : str) : str :=
  pad_right 6 (dec pid_val) ++ lit " " ++ pad_right 7 fd_text ++ lit " " ++ pad_right 7 type_text ++ lit " " ++
  target ++ [LF].

Definition proc_path (pid_val : Z) (rest : str) : str := lit "/proc/" ++ dec pid_val ++ rest.

(** The type of [p] by [stat], or [other] when that fails. *)
Definition type_or (p target : str) (other : str) : prog str :=
  do* st := call (Filetype p) in
  Ret (match st with Some mode => get_file_type target mode | None => other end).

(** ** The links [cwd] and [exe] *)

(** The target, and [[]] when it cannot be read. *)
Definition spy_link (pid_val : Z) (link what type_text : str) : prog str :=
  let link_path := proc_path pid_val (lit "/" ++ link) in
  do* target := call (Readlink link_path 4095) in
  match target with
  | Some (c :: rest) =>
      let t := until_nul (c :: rest) in
      do* ty := type_or link_path t type_text in
      printf (spy_row pid_val what ty t) ;;;
      Ret t
  | _ => Ret []
  end.

(** ** Mapped files *)

(** [strchr(line, '/')] and what follows. *)
Fixpoint from_slash (line : str) : option str :=
  match line with
  | [] => None
  | c :: rest => if bool_decide (c = SLASH) then Some line else from_slash rest
  end.

Definition is_blank_end (c : ascii) : bool :=
  (bool_decide (c = LF) || bool_decide (c = CR) || bool_decide (c = " "%char) || bool_decide (c = TAB))%bool.

(** The blanks at the end removed. *)
Fixpoint trim_end (s : str) : str :=
  match s with
  | [] => []
  | c :: rest => match trim_end rest with
                 | [] => if is_blank_end c then [] else [c]
                 | rest' => c :: rest'
                 end
  end.

(** The path a line of [maps] names. *)
Definition maps_path (line : str) : option str := option_map trim_end (from_slash (until_nul line)).

Fixpoint mem_loop (fuel : nat) (fd pid_val : Z) (txt_path : str) (seen_paths : list str) : prog unit :=
  match fuel with
  | O => NoFuel
  | S fuel' =>
      do* line := call (Fgets fd 4096) in
      match line with
      | None => Ret tt
      | Some line =>
          match maps_path line with
          | None => mem_loop fuel' fd pid_val txt_path seen_paths
          | Some p =>
              if bool_decide (p = []) then mem_loop fuel' fd pid_val txt_path seen_paths
              else if (negb (bool_decide (txt_path = [])) && streq p txt_path)%bool
              then mem_loop fuel' fd pid_val txt_path seen_paths
              else if bool_decide (p ∈ seen_paths) then mem_loop fuel' fd pid_val txt_path seen_paths
              else
                do* ty := type_or p p (lit "REG") in
                printf (spy_row pid_val (lit "mem") ty p) ;;;
                mem_loop fuel' fd pid_val txt_path
                  (if (length seen_paths <? MAX_MEM_TRACKED)%nat then seen_paths ++ [p] else seen_paths)
          end
      end
  end.

Definition spy_mem (fuel : nat) (pid_val : Z) (txt_path : str) : prog unit :=
  do* fd := call (Open (proc_path pid_val (lit "/maps")) O_RDONLY) in
  if fd <? 0 then Ret tt else
  mem_loop fuel fd pid_val txt_path [] ;;;
  call (Close fd).

(** ** Descriptors *)

Definition MAX_FDS : nat := 1024.

Fixpoint read_fds (fuel : nat) (dir : Z) (fd_list : list Z) : prog (list Z) :=
  match fuel with
  | O => NoFuel
  | S fuel' =>
      do* entry := call (Readdir dir) in
      match entry with
      | None => Ret fd_list
      | Some name =>
          let '(val, endp) := strtol name in
          if (bool_decide (endp = []) && (0 <=? val) && (length fd_list <? MAX_FDS)%nat)%bool
          then read_fds fuel' dir (fd_list ++ [i32 val])
          else read_fds fuel' dir fd_list
      end
  end.

Definition spy_fd (pid_val fd : Z) : prog unit :=
  let link_path := proc_path pid_val (lit "/fd/" ++ dec fd) in
  do* target := call (Readlink link_path 4095) in
  match target with
  | Some (c :: rest) =>
      let t := until_nul (c :: rest) in
      do* ty := type_or link_path t (get_file_type t S_NONE) in
      printf (spy_row pid_val (dec fd) ty t)
  | _ => Ret tt
  end.

Definition spy_fds (fuel : nat) (pid_val : Z) : prog unit :=
  do* dir := call (Opendir (proc_path pid_val (lit "/fd"))) in
  if dir <? 0 then Ret tt else
  do* fd_list := read_fds fuel dir [] in
  call (Close dir) ;;;
  pfor (merge_sort Z.le fd_list) (spy_fd pid_val).

(** ** [spy_builtin] *)

Definition NO_PROCESS : str := lit "spy: no such process" ++ [LF].

(** The process to look at; [None] when the argument is not a pid. *)
Definition spy_pid (args : list str) : prog (option Z) :=
  match args with
  | [_; arg] =>
      let '(val, endp) := strtol arg in
      Ret (if (negb (bool_decide (endp = [])) || (val <=? 0) || bool_decide (hd0 arg = "-"%char))%bool
           then None else Some val)
  | _ => do* pid := call Getpid in Ret (Some pid)
  end.

Definition spy_builtin (fuel : nat) (args : list str) : prog Z :=
  if (2 <? length args)%nat then printf (lit "spy: invalid syntax" ++ [LF]) ;;; Ret (-1) else
  do* pid := spy_pid args in
  match pid with
  | None => printf NO_PROCESS ;;; Ret (-1)
  | Some pid_val =>
      do* there := call (AccessF (proc_path pid_val [])) in
      if negb there then printf NO_PROCESS ;;; Ret (-1) else
      printf (lit "PID    FD    TYPE   PATH" ++ [LF]) ;;;
      do* _ := spy_link pid_val (lit "cwd") (lit "cwd") (lit "DIR") in
      do* txt_path := spy_link pid_val (lit "exe") (lit "txt") (lit "REG") in
      spy_mem fuel pid_val txt_path ;;;
      spy_fds fuel pid_val ;;;
      Ret 0
  end.

(** ** [spy] in the shell *)

Lemma keeps_mem_loop fuel fd pid txt l : keeps_jobs (mem_loop fuel fd pid txt l).
Proof.
  revert l. induction fuel as [|fuel IH]; intros l; cbn [mem_loop]; unfold type_or; shell_auto; apply IH.
Qed.

Lemma keeps_read_fds fuel fd l : keeps_jobs (read_fds fuel fd l).
Proof. revert l. induction fuel as [|fuel IH]; intros l; cbn [read_fds]; shell_auto; apply IH. Qed.

Lemma keeps_spy fuel args : keeps_jobs (spy_builtin fuel args).
Proof.
  unfold spy_builtin, spy_pid, spy_link, spy_mem, spy_fds, spy_fd, type_or. cbv zeta.
  shell_auto; first [apply keeps_mem_loop|apply keeps_read_fds].
Qed.

Lemma safe_mem_loop fuel fd pid txt l : shell_safe (mem_loop fuel fd pid txt l).
Proof.
  revert l. induction fuel as [|fuel IH]; intros l; cbn [mem_loop]; unfold type_or; shell_auto; apply IH.
Qed.

Lemma safe_read_fds fuel fd l : shell_safe (read_fds fuel fd l).
Proof. revert l. induction fuel as [|fuel IH]; intros l; cbn [read_fds]; shell_auto; apply IH. Qed.

Lemma safe_spy fuel args : shell_safe (spy_builtin fuel args).
Proof.
  unfold spy_builtin, spy_pid, spy_link, type_or. cbv zeta. shell_auto.
  - apply safe_open; [shell_auto|]. intros fd. apply closes_before; [apply safe_mem_loop|]. intros _. apply closes_close.
  - apply safe_opendir; [shell_auto|]. intros fd. apply closes_before; [apply safe_read_fds|]. intros l.
    apply closes_behind; [apply closes_close|]. unfold spy_fd, type_or. cbv zeta. shell_auto.
Qed.

(** ** The mapped files that are listed *)

(** A path of [maps] begins with its slash. *)
Lemma maps_path_slash line p : maps_path line = Some p -> hd0 p = SLASH.
Proof.
  unfold maps_path. induction (until_nul line) as [|c l IH]; [done|]. simpl. case_bool_decide as Hc; [|done].
  simpl. intros [= <-]. subst c. by destruct (trim_end l).
Qed.

(** The two tests that skip a file, as one. *)
Lemma list_test {A} (p txt : str) (l : list str) (x y : A) : p <> [] ->
  (if (negb (bool_decide (txt = [])) && streq p txt)%bool then x else if bool_decide (p ∈ l) then x else y) =
  (if bool_decide (p <> txt /\ p ∉ l) then y else x).
Proof.
  intros Hp. unfold streq. destruct (decide (txt = [])) as [->|Ht].
  - rewrite (bool_decide_true ([] = [])) by done. simpl.
    destruct (decide (p ∈ l)); rewrite ?(bool_decide_true (p ∈ l)), ?(bool_decide_false (p ∈ l)) by done;
      case_bool_decide; tauto.
  - rewrite (bool_decide_false (txt = [])) by done. simpl. destruct (decide (p = txt)) as [->|Hne].
    + rewrite (bool_decide_true (txt = txt)) by done. rewrite bool_decide_false by tauto. done.
    + rewrite (bool_decide_false (p = txt)) by done.
      destruct (decide (p ∈ l)); rewrite ?(bool_decide_true (p ∈ l)), ?(bool_decide_false (p ∈ l)) by done;
        case_bool_decide; tauto.
Qed.

Section Mapped.

Variable h : oracle.
Variable ftype : str -> option filetype.

Hypothesis h_type : forall p s, h _ (Filetype p) s = (ftype p, s).
Hypothesis h_print : forall t s, h _ (Printf t) s = (tt, printed t s).
Hypothesis h_fgets : forall fd n s, h _ (Fgets fd n) s =
  let rest := default [] (s_in s !! fd) in
  if bool_decide (rest = []) then (None, s)
  else let l := take (n - 1) (fst (first_line rest)) in
       (Some l, set_in (<[fd := drop (length l) rest]> (s_in s)) s).

Variables (fd pid_val : Z) (txt_path : str).

Definition mem_row (p : str) : str :=
  spy_row pid_val (lit "mem") (match ftype p with Some m => get_file_type p m | None => lit "REG" end) p.

Lemma run_mem_line fuel l rest seen s : LF ∉ l -> (length l < 4095)%nat ->
  s_in s !! fd = Some (l ++ LF :: rest) ->
  exists s1, s_in s1 !! fd = Some rest /\ s_out s1 = s_out s /\
  run_prog h (mem_loop (S fuel) fd pid_val txt_path seen) s =
  match maps_path (l ++ [LF]) with
  | Some p =>
      if bool_decide (p <> txt_path /\ p ∉ seen) then
        run_prog h (mem_loop fuel fd pid_val txt_path
          (if (length seen <? MAX_MEM_TRACKED)%nat then seen ++ [p] else seen)) (printed (mem_row p) s1)
      else run_prog h (mem_loop fuel fd pid_val txt_path seen) s1
  | None => run_prog h (mem_loop fuel fd pid_val txt_path seen) s1
  end.
Proof.
  intros Hl Hlen Hin. exists (set_in (<[fd := rest]> (s_in s)) s). cbn [set_in s_in s_out].
  rewrite lookup_insert_eq. split; [done|]. split; [done|].
  cbn [mem_loop]. rewrite run_bind, run_call, h_fgets, Hin. cbn [from_option id]. cbv zeta.
  rewrite bool_decide_false by (by destruct l). rewrite first_line_app by done. cbn [fst snd].
  rewrite take_ge by (rewrite length_app; simpl; lia).
  replace (drop (length (l ++ [LF])) (l ++ LF :: rest)) with rest
    by (change (l ++ LF :: rest) with (l ++ [LF] ++ rest); by rewrite app_assoc, drop_app_length).
  destruct (maps_path (l ++ [LF])) as [p|] eqn:Ep; [|done]. apply maps_path_slash in Ep.
  rewrite (bool_decide_false (p = [])) by (by intros ->). rewrite list_test by (by intros ->).
  case_bool_decide; [|done]. unfold type_or. rewrite !run_bind, run_call, h_type. cbn [fst snd run_prog].
  rewrite run_bind. unfold printf. by rewrite run_call, h_print.
Qed.

(** The files that are listed when those in [seen] have been. *)
Lemma run_mem_loop fuel lines seen s : (length lines < fuel)%nat ->
  (length seen + length lines <= MAX_MEM_TRACKED)%nat ->
  Forall (fun l => LF ∉ l /\ (length l < 4095)%nat) lines ->
  s_in s !! fd = Some (concat (map (fun l => l ++ [LF]) lines)) ->
  exists ps s', run_prog h (mem_loop fuel fd pid_val txt_path seen) s = Returned tt s' /\
    s_out s' = s_out s ++ concat (map mem_row ps) /\ NoDup ps /\
    forall p, p ∈ ps <-> (exists l, l ∈ lines /\ maps_path (l ++ [LF]) = Some p) /\ p <> txt_path /\ p ∉ seen.
Proof.
  revert fuel seen s. induction lines as [|l lines IH]; intros [|fuel] seen s Hf Hn Hl Hin; simpl in Hf; try lia.
  { exists [], s. split_and!; [|by rewrite app_nil_r|constructor|].
    - cbn [mem_loop]. rewrite run_bind, run_call, h_fgets, Hin. done.
    - intros p. split; [by intros ?%elem_of_nil|]. by intros [(l & ?%elem_of_nil & _) _]. }
  apply Forall_cons in Hl as [[Hl1 Hl2] Hl]. simpl in Hn.
  assert (Hin' : s_in s !! fd = Some (l ++ LF :: concat (map (fun l => l ++ [LF]) lines))).
  { rewrite Hin. cbn [map concat]. by rewrite <- app_assoc. }
  destruct (run_mem_line fuel l _ seen s Hl1 Hl2 Hin') as (s1 & H1 & Ho & ->).
  assert (Hskip : (forall p, maps_path (l ++ [LF]) = Some p -> p = txt_path \/ p ∈ seen) ->
    exists ps s', run_prog h (mem_loop fuel fd pid_val txt_path seen) s1 = Returned tt s' /\
      s_out s' = s_out s ++ concat (map mem_row ps) /\ NoDup ps /\
      forall p, p ∈ ps <-> (exists l', l' ∈ l :: lines /\ maps_path (l' ++ [LF]) = Some p) /\ p <> txt_path /\ p ∉ seen).
  { intros Hno. destruct (IH fuel seen s1) as (ps & s' & Hr & Hos & Hnd & Hps); [lia|lia|done..|].
    exists ps, s'. split_and!; [done|by rewrite Hos, Ho|done|]. intros p. rewrite Hps. split.
    - intros [(l' & Hl' & Hp) Hx]. split; [|done]. exists l'. split; [by right|done].
    - intros [(l' & [->|Hl']%elem_of_cons & Hp) [Hx Hy]]; [by destruct (Hno p Hp)|]. eauto. }
  destruct (maps_path (l ++ [LF])) as [q|] eqn:Eq; [|by apply Hskip].
  case_bool_decide as Hq.
  2: { apply Hskip. intros p [= <-]. destruct (decide (q = txt_path)), (decide (q ∈ seen)); tauto. }
  rewrite (proj2 (Nat.ltb_lt _ _)) by lia.
  destruct (IH fuel (seen ++ [q]) (printed (mem_row q) s1)) as (ps & s' & Hr & Hos & Hnd & Hps);
    [lia|rewrite length_app; simpl; lia|done..|].
  exists (q :: ps), s'. split_and!; [done|rewrite Hos; simpl; by rewrite Ho, <- app_assoc| |].
  - constructor; [|done]. rewrite Hps. intros (_ & _ & Hx). apply Hx. apply elem_of_app. right. by left.
  - intros p. rewrite elem_of_cons, Hps, elem_of_app, list_elem_of_singleton. split.
    + intros [->|[(l' & Hl' & Hp) [Hx Hy]]].
      * split; [|tauto]. exists l. split; [by left|done].
      * split; [|tauto]. exists l'. split; [by right|done].
    + intros [(l' & [->|Hl']%elem_of_cons & Hp) [Hx Hy]]; [left; congruence|].
      destruct (decide (p = q)) as [->|Hne]; [by left|]. right. split; [by eauto|]. tauto.
Qed.

(** The mapped files: from a [maps] file of at most 2048 lines [spy]
    lists every file that is mapped, however often and in whatever order it
    occurs, exactly once, with its type, and leaves out the program itself,
    which it has listed as [txt]. *)
Theorem spy_lists_mapped_files fuel lines s : (length lines < fuel)%nat -> (length lines <= MAX_MEM_TRACKED)%nat ->
  Forall (fun l => LF ∉ l /\ (length l < 4095)%nat) lines ->
  s_in s !! fd = Some (concat (map (fun l => l ++ [LF]) lines)) ->
  exists ps s', run_prog h (mem_loop fuel fd pid_val txt_path []) s = Returned tt s' /\
    s_out s' = s_out s ++ concat (map mem_row ps) /\ NoDup ps /\
    forall p, p ∈ ps <-> (exists l, l ∈ lines /\ maps_path (l ++ [LF]) = Some p) /\ p <> txt_path.
Proof.
  intros Hf Hn Hl Hin. destruct (run_mem_loop fuel lines [] s Hf Hn Hl Hin) as (ps & s' & Hr & Ho & Hd & Hps).
  exists ps, s'. split_and!; [done..|]. intros p. rewrite Hps. pose proof (not_elem_of_nil p). tauto.
Qed.

End Mapped.
