(* ===== verification/Snoop.v ===== *)
(** * The builtin [snoop]: [snoop.c]

    [snoop] traces a process with [ptrace] and prints how often it made each
    system call and how long that took. *)

From stdpp Require Import base list gmap sets strings sorting.
From Stdlib Require Import ZArith Lia Ascii.
From S2P Require Import Prelude ShellBase Jobs JobFacts JobBuiltins JobTheorems Pipes PipesFacts Executor ShellSafety.
From S2P Require Import Double Spy.

Open Scope Z_scope.

(** ** The statistics *)

Definition g_syscall_table : list (Z * str) :=
  [(0, lit "read"); (1, lit "write"); (35, lit "nanosleep"); (230, lit "clock_nanosleep"); (231, lit "exit_group")].

Record SyscallStat := mkSyscallStat {
  nr : Z;
  name : str;
  calls : Z;
  total_time : double;
  first_seen_order : nat
}.

(** Into a buffer of 64 bytes. *)
Definition get_syscall_name (n : Z) : str :=
  take 63 (match list_find (fun e => fst e = n) g_syscall_table with
           | Some (_, (_, s)) => s
           | None => lit "syscall_" ++ dec n
           end).

Definition MAX_STATS : nat := 1024.

Definition count_again (elapsed : double) (st : SyscallStat) : SyscallStat :=
  mkSyscallStat (nr st) (name st) (u64 (calls st + 1)) (d_add (total_time st) elapsed) (first_seen_order st).

Definition record_syscall (stats : list SyscallStat) (n : Z) (elapsed : double) : list SyscallStat :=
  match find_key nr n stats with
  | Some (i, _) => alter (count_again elapsed) i stats
  | None =>
      if (length stats <? MAX_STATS)%nat
      then stats ++ [mkSyscallStat n (get_syscall_name n) 1 elapsed (length stats)]
      else stats
  end.

(** [compare_stats(a, b) < 0], or the same entry: more calls, or as many and
    seen first. *)
Definition stat_le (a b : SyscallStat) : Prop :=
  calls b < calls a \/ (calls a = calls b /\ (first_seen_order a <= first_seen_order b)%nat).

#[export] Instance stat_le_dec a b : Decision (stat_le a b).
Proof. unfold stat_le. apply _. Defined.

(** ** Tracing *)

(** [(exit - entry)] in seconds, not below zero. *)
Definition elapsed_time (entry exit : Z * Z) : double :=
  let t := d_add (d_of_Z (fst exit - fst entry)) (d_div (d_of_Z (snd exit - snd entry)) (d_of_Z 1000000000)) in
  if d_lt t (d_of_Z 0) then d_of_Z 0 else t.

(** The variables of the loop. *)
Record tracer := mktracer {
  t_stats : list SyscallStat;
  in_syscall : bool;
  cur_syscall_nr : Z;
  entry_time : Z * Z
}.

Definition tracer0 : tracer := mktracer [] false (-1) (0, 0).

(** A call begins. *)
Definition on_entry (t : tracer) (n : Z) (now : Z * Z) : tracer := mktracer (t_stats t) true n now.

(** The call that was begun ends. *)
Definition on_exit (t : tracer) (now : Z * Z) : tracer :=
  mktracer (record_syscall (t_stats t) (cur_syscall_nr t) (elapsed_time (entry_time t) now)) false
    (cur_syscall_nr t) (entry_time t).

Definition SIGTRAP : Z := 5.

Definition SYSCALL_STOP : Z := Z.lor SIGTRAP 128.

(** A stop at a system call. *)
Definition on_stop (pid : Z) (t : tracer) : prog tracer :=
  do* regs := call (Getregs pid) in
  match regs with
  | None => Ret t
  | Some n =>
      do* now := call Clock in
      Ret (if in_syscall t then on_exit t now else on_entry t n now)
  end.

Fixpoint trace_loop (fuel : nat) (pid : Z) (t : tracer) : prog (list SyscallStat) :=
  match fuel with
  | O => NoFuel
  | S fuel' =>
      do* w := call (Tracewait pid) in
      let '(r, status, e) := w in
      if r <? 0 then if bool_decide (e = EINTR) then trace_loop fuel' pid t else Ret (t_stats t)
      else
        match status with
        | WExited _ | WSignaled _ =>
            if in_syscall t then do* now := call Clock in Ret (t_stats (on_exit t now)) else Ret (t_stats t)
        | WStopped sig =>
            if sig =? SYSCALL_STOP then
              do* t' := on_stop pid t in
              call (Ptrace (PTRACE_SYSCALL 0) pid) ;;;
              trace_loop fuel' pid t'
            else if sig =? SIGTRAP then
              call (Ptrace (PTRACE_SYSCALL 0) pid) ;;;
              trace_loop fuel' pid t
            else
              call (Ptrace (PTRACE_SYSCALL sig) pid) ;;;
              trace_loop fuel' pid t
        | WContinued => trace_loop fuel' pid t
        end
  end.

(** ** Starting *)

Definition SNOOP_NO_PROCESS : str := lit "snoop: no such process" ++ [LF].

(** Attaching to a process; [None] for the returns of -1. *)
Definition attach_target (pid : Z) : prog (option Z) :=
  do* ok := call (Ptrace PTRACE_ATTACH pid) in
  if negb ok then printf SNOOP_NO_PROCESS ;;; Ret None else
  do* w := call (Tracewait pid) in
  let '(r, _, _) := w in
  if r <? 0 then do* _ := call (Ptrace PTRACE_DETACH pid) in Ret None else
  call (Ptrace PTRACE_SETOPTIONS pid) ;;;
  call (Ptrace (PTRACE_SYSCALL 0) pid) ;;;
  Ret (Some pid).

(** The child that is traced. *)
Definition traced_child {A} (path : str) (args : list str) : prog A :=
  term_unblock_sigchld ;;;
  call (Signal SIGINT SIG_DFL) ;;;
  call (Signal SIGTSTP SIG_DFL) ;;;
  call (Signal SIGTTOU SIG_DFL) ;;;
  call (Signal SIGTTIN SIG_DFL) ;;;
  call (Signal SIGCHLD SIG_DFL) ;;;
  do* ok := call (Ptrace PTRACE_TRACEME 0) in
  if negb ok then call (Perror (lit "ptrace")) ;;; Stop (Exited 1) else
  call (Raise SIGSTOP) ;;;
  do* run := call (Execv path args) in
  if (run : bool) then Stop (Execed path args)
  else call (Perror (lit "execv")) ;;; Stop (Exited 1).

Definition spawn_target (path : str) (args : list str) : prog (option Z) :=
  do* child := call Fork in
  if child <? 0 then call (Perror (lit "fork")) ;;; Ret None
  else if child =? 0 then traced_child path args
  else
    call (Tracewait child) ;;;
    call (Ptrace PTRACE_SETOPTIONS child) ;;;
    call (Ptrace (PTRACE_SYSCALL 0) child) ;;;
    Ret (Some child).

(** ** Printing *)

Definition stat_row (st : SyscallStat) : str :=
  if (14 <=? length (name st))%nat
  then name st ++ lit " " ++ pad_right 7 (dec (calls st)) ++ format_3f (total_time st) ++ lit "s" ++ [LF]
  else pad_right 14 (name st) ++ pad_right 8 (dec (calls st)) ++ format_3f (total_time st) ++ lit "s" ++ [LF].

Definition print_stats (stats : list SyscallStat) : prog unit :=
  printf (lit "syscall       calls   time" ++ [LF]) ;;;
  pfor (merge_sort stat_le stats) (fun st => printf (stat_row st)).

(** ** [snoop_builtin] *)

Inductive snoop_how := Attach (pid : Z) | Spawn (path : str) (args : list str).

(** What to trace; [None] after a complaint. *)
Definition snoop_target (args : list str) : prog (option snoop_how) :=
  match args with
  | _ :: a1 :: rest =>
      if streq a1 (lit "-p") then
        match rest with
        | [a2] =>
            let '(val, endp) := strtol a2 in
            if (negb (bool_decide (endp = [])) || (val <=? 0) || bool_decide (hd0 a2 = "-"%char))%bool
            then printf SNOOP_NO_PROCESS ;;; Ret None
            else
              do* there := call (AccessF (proc_path (i32 val) [])) in
              if negb there then printf SNOOP_NO_PROCESS ;;; Ret None else Ret (Some (Attach (i32 val)))
        | _ => printf (lit "snoop: invalid syntax" ++ [LF]) ;;; Ret None
        end
      else
        do* path := executor_resolve_path a1 in
        match path with
        | None => printf (lit "snoop: command not found" ++ [LF]) ;;; Ret None
        | Some p => Ret (Some (Spawn p (a1 :: rest)))
        end
  | _ => printf (lit "snoop: invalid syntax" ++ [LF]) ;;; Ret None
  end.

Definition snoop_builtin (fuel : nat) (args : list str) : prog Z :=
  do* how := snoop_target args in
  match how with
  | None => Ret (-1)
  | Some how =>
      term_block_sigchld ;;;
      do* started := match how with Attach pid => attach_target pid | Spawn p a => spawn_target p a end in
      match started with
      | None => term_unblock_sigchld ;;; Ret (-1)
      | Some pid =>
          do* stats := trace_loop fuel pid tracer0 in
          term_unblock_sigchld ;;;
          print_stats stats ;;;
          Ret 0
      end
  end.

(** ** [snoop] in the shell *)

Lemma keeps_resolve raw : keeps_jobs (executor_resolve_path raw).
Proof. intros s Hs. by apply resolve_same. Qed.

Lemma keeps_trace fuel pid t : keeps_jobs (trace_loop fuel pid t).
Proof. revert t. induction fuel as [|fuel IH]; intros t; cbn [trace_loop]; unfold on_stop; shell_auto; apply IH. Qed.

Lemma keeps_snoop fuel args : keeps_jobs (snoop_builtin fuel args).
Proof.
  unfold snoop_builtin, snoop_target, attach_target, spawn_target, traced_child, print_stats, term_block_sigchld,
    term_unblock_sigchld. shell_auto; first [apply keeps_resolve|apply keeps_trace].
Qed.

Lemma quiet_trace fuel pid t : quiet (trace_loop fuel pid t).
Proof. revert t. induction fuel as [|fuel IH]; intros t; cbn [trace_loop]; unfold on_stop; shell_auto; apply IH. Qed.

Lemma traced_child_ends {A} path args s (Q : A -> sysst -> Prop) : sat (traced_child path args) s Q (fun _ _ => True).
Proof.
  unfold traced_child. do 6 (apply sat_bind, sat_call; intros ? ? _). apply sat_bind, sat_call. intros [] t _; simpl negb; cbv iota.
  - apply sat_bind, sat_call. intros _ u _. apply sat_bind, sat_call. intros [] v _; [done|].
    apply sat_bind, sat_call. by intros.
  - apply sat_bind, sat_call. by intros.
Qed.

Lemma quiet_start how : quiet (match how with Attach pid => attach_target pid | Spawn p a => spawn_target p a end).
Proof.
  unfold attach_target, spawn_target. shell_auto. intros s Hs. by apply traced_child_ends.
Qed.

Lemma safe_snoop fuel args : shell_safe (snoop_builtin fuel args).
Proof.
  unfold snoop_builtin. apply safe_bind.
  { unfold snoop_target. shell_auto. intros X s Hs. by apply resolve_same. }
  intros [how|]; [|apply safe_ret].
  intros X s (Hok & Hm & Ha & Hf & H0 & H1). apply sat_bind, sat_call. intros [] t ->.
  assert (Hback : forall u {B} (m : prog B), shell_safe m -> jobs_ok (s_glob u) -> waited (set_masked true s) u ->
    sat (term_unblock_sigchld ;;; m) u (fun _ s' => shell_ok X s') (fun _ _ => True)).
  { intros u B m Hsafe Hu (W1 & W2 & W3). apply sat_bind, sat_call. intros [] v ->. apply Hsafe.
    simpl in *. split_and!; simpl; congruence. }
  apply sat_bind. eapply sat_mono; [by apply quiet_start| |done]. intros started u [Hu Wu].
  destruct started as [pid|]; [|apply Hback; [shell_auto|done|done]].
  apply sat_bind. eapply sat_mono; [by apply quiet_trace| |done]. intros stats v [Hv Wv].
  apply Hback; [unfold print_stats; shell_auto|done|by etrans].
Qed.

(** ** The order of the table *)

#[export] Instance stat_le_trans : Transitive stat_le.
Proof. intros a b c. unfold stat_le. lia. Qed.

#[export] Instance stat_le_total : Total stat_le.
Proof. intros a b. unfold stat_le. lia. Qed.

(** ** What is counted *)

Definition calls_of (n : Z) (stats : list SyscallStat) : Z :=
  match find_key nr n stats with Some (_, st) => calls st | None => 0 end.

Definition occurrences (n : Z) (l : list Z) : Z := Z.of_nat (count_occ Z.eq_dec l n).

(** The table counts the calls [l], and numbers the entries in the order in
    which they were made. *)
Record counts (l : list Z) (stats : list SyscallStat) : Prop := {
  counts_keys : NoDup (map nr stats);
  counts_same n : n ∈ map nr stats <-> n ∈ l;
  counts_calls n : calls_of n stats = occurrences n l;
  counts_order i st : stats !! i = Some st -> first_seen_order st = i
}.

(** At most 1024 different calls. *)
Definition few (l : list Z) : Prop := (length (remove_dups l) <= MAX_STATS)%nat.

Lemma occurrences_snoc n m l : occurrences n (l ++ [m]) = occurrences n l + if decide (m = n) then 1 else 0.
Proof.
  unfold occurrences. rewrite count_occ_app. simpl. destruct (Z.eq_dec m n), (decide (m = n)); try done; lia.
Qed.

Lemma counts_few l m stats : counts l stats -> m ∉ l -> few (l ++ [m]) -> (length stats < MAX_STATS)%nat.
Proof.
  intros Hc Hm Hf. assert (H : (length (m :: map nr stats) <= length (remove_dups (l ++ [m])))%nat).
  { apply submseteq_length, NoDup_submseteq.
    - constructor; [by rewrite (counts_same _ _ Hc)|apply (counts_keys _ _ Hc)].
    - intros x. rewrite elem_of_remove_dups, elem_of_cons, elem_of_app, list_elem_of_singleton, (counts_same _ _ Hc). tauto. }
  simpl in H. rewrite length_map in H. unfold few in Hf. lia.
Qed.

Lemma record_counts l stats m el : counts l stats -> few (l ++ [m]) -> Z.of_nat (length l) < 2 ^ 64 - 1 ->
  counts (l ++ [m]) (record_syscall stats m el).
Proof.
  intros Hc Hf Hl. unfold record_syscall. destruct (find_key nr m stats) as [[i st]|] eqn:E.
  - assert (Hm : m ∈ l).
    { apply (counts_same _ _ Hc). destruct (find_key_Some _ _ _ _ _ E) as [Hi <-].
      apply list_elem_of_fmap. exists st. split; [done|]. by eapply list_elem_of_lookup_2. }
    split.
    + rewrite alter_keys by done. apply Hc.
    + intros n. rewrite alter_keys, (counts_same _ _ Hc), elem_of_app, list_elem_of_singleton by done. naive_solver.
    + intros n. unfold calls_of. rewrite find_key_alter by done. rewrite occurrences_snoc, <- (counts_calls _ _ Hc).
      unfold calls_of. destruct (decide (m = n)) as [<-|Hne].
      * rewrite E, decide_True by done. simpl. apply u64_small.
        pose proof (counts_calls _ _ Hc m) as Hm'. unfold calls_of in Hm'. rewrite E in Hm'.
        pose proof (count_occ_bound Z.eq_dec m l). unfold occurrences in Hm'. lia.
      * destruct (find_key nr n stats) as [[j x]|] eqn:En; [|lia]. rewrite decide_False; [lia|].
        intros ->. apply find_key_Some in E as [H1 H2]. apply find_key_Some in En as [H3 H4]. congruence.
    + intros j x Hj. destruct (decide (i = j)) as [<-|Hne].
      * rewrite list_lookup_alter_eq in Hj. destruct (stats !! i) as [y|] eqn:Ey; [|done].
        injection Hj as <-. simpl. by apply (counts_order _ _ Hc).
      * rewrite list_lookup_alter_ne in Hj by done. by apply (counts_order _ _ Hc).
  - pose proof (proj1 (find_key_None _ _ _) E) as Hn. rewrite (counts_same _ _ Hc) in Hn.
    rewrite (proj2 (Nat.ltb_lt _ _)) by (by eapply counts_few). split.
    + apply nodup_keys_snoc; [apply Hc|done].
    + intros n. rewrite map_app, !elem_of_app, (counts_same _ _ Hc). simpl. done.
    + intros n. unfold calls_of. rewrite find_key_snoc. rewrite occurrences_snoc, <- (counts_calls _ _ Hc). simpl.
      unfold calls_of. destruct (decide (m = n)) as [<-|Hne]; [by rewrite E|].
      destruct (find_key nr n stats) as [[j x]|]; lia.
    + intros j x [Hj|[Hj Hx]]%lookup_app_Some; [by apply (counts_order _ _ Hc)|].
      destruct (j - length stats)%nat eqn:Ej; [|done]. injection Hx as <-. simpl. lia.
Qed.

Lemma few_app l k : few (l ++ k) -> few l.
Proof.
  unfold few. intros H. etrans; [|exact H]. apply submseteq_length, NoDup_submseteq; [apply NoDup_remove_dups|].
  intros x. rewrite !elem_of_remove_dups, elem_of_app. auto.
Qed.

(** ** The trace of a process *)

(** A stop of the traced process: at a system call, with its number and the
    time, or because of a signal. *)
Inductive tstop := AtSyscall (n : Z) (now : Z * Z) | AtSignal (sig : Z).

(** The calls a trace begins, a stop at the beginning of a call and one at its
    end; [inside] when it begins inside of one. *)
Fixpoint begun (inside : bool) (l : list tstop) : list Z :=
  match l with
  | [] => []
  | AtSignal _ :: l' => begun inside l'
  | AtSyscall n _ :: l' => if inside then begun false l' else n :: begun true l'
  end.

Section Trace.

(** A system in which the process makes the stops [script] and exits; it goes
    from one to the next when it is told to. *)
Variable h : oracle.
Variable pid : Z.
Variable script : sysst -> list tstop.
Variable code : Z.

Hypothesis pid_pos : 0 < pid.
Hypothesis h_wait : forall s, h _ (Tracewait pid) s =
  (match script s with
   | [] => (pid, WExited code, EOTHER)
   | AtSyscall _ _ :: _ => (pid, WStopped SYSCALL_STOP, EOTHER)
   | AtSignal sig :: _ => (pid, WStopped sig, EOTHER)
   end, s).
Hypothesis h_regs : forall s n now rest, script s = AtSyscall n now :: rest -> h _ (Getregs pid) s = (Some n, s).
Hypothesis h_clock : forall s n now rest, script s = AtSyscall n now :: rest -> h _ Clock s = (now, s).
Hypothesis h_continue : forall sig s, script (snd (h _ (Ptrace (PTRACE_SYSCALL sig) pid) s)) = tail (script s).

(** The signals are not mistaken for system calls. *)
Definition signals_ok (l : list tstop) : Prop := Forall (fun st => forall sig, st = AtSignal sig -> sig <> SYSCALL_STOP) l.

(** The calls counted and, inside a call, the one that has been begun. *)
Lemma trace_loop_counts fuel t done_ s : (length (script s) < fuel)%nat -> signals_ok (script s) ->
  counts done_ (t_stats t) ->
  (let all := done_ ++ (if in_syscall t then [cur_syscall_nr t] else []) ++ begun (in_syscall t) (script s) in
   few all /\ Z.of_nat (length all) < 2 ^ 64) ->
  exists stats s', run_prog h (trace_loop fuel pid t) s = Returned stats s' /\
    counts (done_ ++ (if in_syscall t then [cur_syscall_nr t] else []) ++ begun (in_syscall t) (script s)) stats.
Proof.
  revert t done_ s. induction fuel as [|fuel IH]; intros t done_ s Hf Hsig Hc [Hfew Hlen]; [lia|].
  cbn [trace_loop]. rewrite run_bind, run_call, h_wait. cbn [fst snd]. destruct (script s) as [|st rest] eqn:Es.
  - rewrite (proj2 (Z.ltb_ge _ _)) by lia. cbn [begun] in *. rewrite app_nil_r in *. destruct (in_syscall t) eqn:Ei.
    + rewrite run_bind, run_call. eexists _, _. split; [done|]. simpl t_stats. rewrite length_app in Hlen. simpl in Hlen.
      apply record_counts; [done|done|lia].
    + rewrite app_nil_r. eauto.
  - apply Forall_cons in Hsig as [Hst Hrest]. simpl in Hf.
    destruct st as [n now|sig]; (rewrite (proj2 (Z.ltb_ge _ _)) by lia).
    + rewrite Z.eqb_refl. unfold on_stop. rewrite !run_bind, run_call, (h_regs _ _ _ _ Es). cbn [fst snd].
      rewrite run_bind, run_call, (h_clock _ _ _ _ Es). cbn [fst snd run_prog]. rewrite run_bind, run_call.
      set (s1 := snd _). assert (E1 : script s1 = rest) by (subst s1; by rewrite h_continue, Es).
      cbn [begun] in *. destruct (in_syscall t) eqn:Ei.
      * specialize (IH (on_exit t now) (done_ ++ [cur_syscall_nr t]) s1). cbn [on_exit in_syscall t_stats] in IH.
        rewrite E1, <- !app_assoc in IH. cbn [app] in IH. apply IH; [lia|done| |done].
        rewrite !length_app in Hlen. simpl in Hlen.
        apply record_counts; [done| |lia]. rewrite app_assoc in Hfew. by eapply few_app.
      * specialize (IH (on_entry t n now) done_ s1). cbn [on_entry in_syscall t_stats cur_syscall_nr] in IH.
        rewrite E1 in IH. apply IH; [lia|done..].
    + specialize (Hst sig eq_refl). rewrite (proj2 (Z.eqb_neq _ _)) by done. cbn [begun] in *.
      destruct (sig =? SIGTRAP); rewrite run_bind, run_call; set (s1 := snd _);
        (assert (E1 : script s1 = rest) by (subst s1; by rewrite h_continue, Es));
        specialize (IH t done_ s1); rewrite E1 in IH; apply IH; (done || lia).
Qed.


End Trace.
