(* ===== verification/Irish.v ===== *)
(** * The whole shell

    The builtins of the shell are those of [hop.c], [reveal.c], [peek.c],
    [locate.c], [spy.c] and [snoop.c]; each keeps the contract the executor
    relies on. *)

From stdpp Require Import base list gmap sets strings.
From Stdlib Require Import ZArith Lia Ascii.
From S2P Require Import Prelude ShellBase Jobs JobFacts JobTheorems Pipes PipesFacts Executor ShellSafety.
From S2P Require Import Peek Locate Hop HopFacts Reveal Spy Snoop.

Open Scope Z_scope.

(** [fuel] bounds the loops whose length depends on the system. *)
Definition irish_builtins (fuel : nat) : builtins := {|
  Pipes.hop_builtin := Hop.hop_builtin;
  Pipes.reveal_builtin := Reveal.reveal_builtin fuel fuel;
  Pipes.peek_builtin := Peek.peek_builtin fuel;
  Pipes.locate_builtin := Locate.locate_builtin;
  Pipes.spy_builtin := Spy.spy_builtin fuel;
  Pipes.snoop_builtin := Snoop.snoop_builtin fuel |}.

Lemma irish_builtins_keep fuel : builtins_keep (irish_builtins fuel).
Proof.
  split; intros args; [apply keeps_hop|apply keeps_reveal|apply keeps_peek|apply keeps_locate|apply keeps_spy|apply keeps_snoop].
Qed.

#[export] Instance irish_builtins_safe fuel : builtins_safe (irish_builtins fuel).
Proof.
  split; [apply irish_builtins_keep|..]; intros args.
  - apply safe_hop.
  - apply safe_reveal.
  - apply safe_peek.
  - apply safe_calm; [apply keeps_locate|apply calm_locate].
  - apply safe_spy.
  - apply safe_snoop.
Qed.

