(* ===== verification/ShellDemo.v ===== *)
(** * The theorems about the shell at concrete states

    Each theorem that makes assumptions about the state is applied to one in
    which they hold. *)

From stdpp Require Import base list gmap sets strings.
From Stdlib Require Import ZArith Lia Ascii.
From S2P Require Import Prelude ShellBase Lexer Parser Command Jobs JobFacts JobBuiltins JobTheorems.
From S2P Require Import Redirect Pipes PipesFacts Demo Prompt Executor ShellSafety Peek Locate.
From S2P Require Import Double Hop HopFacts Reveal Spy Snoop Irish.

Open Scope Z_scope.

(** ** Lines *)

(** [echo 'a b' | wc > out] *)
Definition demo_line : list Token :=
  [word (lit "echo"); word (lit "a b"); op TOK_PIPE; word (lit "wc"); op TOK_GT; word (lit "out")].

Lemma demo_line_ok : Forall token_ok demo_line.
Proof.
  assert (Hw : forall w, bool_decide (NUL ∉ w) = true -> token_ok (word w)).
  { intros w Hw%bool_decide_eq_true. done. }
  repeat (apply Forall_cons; split; [first [apply Hw; reflexivity|done]|]). constructor.
Qed.

Example lexer_roundtrip_witness : lexer_tokenize (show_tokens demo_line) = LOk demo_line.
Proof. apply lexer_roundtrip, demo_line_ok. Defined.

Example executor_runs_line_witness :
  peq (executor_run (fun g bg => Ret (if (bg : bool) then 1 else 0)) 2 demo_line)
      (run_line (fun g bg => Ret (if (bg : bool) then 1 else 0)) demo_line).
Proof. apply executor_runs_line. lia. Defined.

Example group_commands_witness : group_commands demo_line =
  Some [mkSingleCommand [lit "echo"; lit "a b"] [] []; mkSingleCommand [lit "wc"] [] [mkOutputRedir (lit "out") false]].
Proof. rewrite (group_commands_split demo_line demo_line_ok). reflexivity. Defined.

Example accepted_groups_witness : pipeline (map type demo_line) /\
  exists cmds, group_commands demo_line = Some cmds /\ cmds <> [] /\ Forall (fun c => argv c <> []) cmds.
Proof.
  apply (accepted_groups_are_commands demo_line demo_line false); [apply demo_line_ok|reflexivity|].
  simpl. left.
Defined.

(** ** Jobs *)

(** The shell with one job, number [n], in state [st]. *)
Definition demo_job (n : Z) (st : JobState) : Job :=
  set_procs [mkJobProc 500 (lit "sleep") false] (new_job n 500 (Some (lit "sleep 9")) st).

Definition demo_busy (n : Z) (st : JobState) : sysst :=
  set_kids {[500]} (set_glob (set_next_job_num (n + 1)
    (set_jobs (<[0%nat := demo_job n st]> (jobs demo_start)) (s_glob demo_start))) demo_start).

Lemma demo_start_ok : jobs_ok (s_glob demo_start).
Proof. by apply jobs_ok_init. Qed.

Lemma demo_busy_job n st i j : jobs (demo_busy n st) !! i = Some j -> active j = true ->
  i = 0%nat /\ j = demo_job n st.
Proof.
  cbn [demo_busy set_kids set_glob s_glob set_next_job_num set_jobs g_jobs demo_start].
  intros H Ha. destruct i as [|i]; [rewrite list_lookup_insert_eq in H|rewrite list_lookup_insert_ne in H].
  - by injection H as <-.
  - rewrite length_replicate. unfold MAX_JOBS. lia.
  - apply lookup_replicate in H as [-> _]. done.
  - done.
Qed.

Lemma demo_busy_ok n st : 1 <= n -> jobs_ok (s_glob (demo_busy n st)).
Proof.
  intros Hn. split.
  - cbn [demo_busy set_kids set_glob s_glob set_next_job_num set_jobs g_jobs demo_start].
    by rewrite length_insert, length_replicate.
  - intros i j Hj Ha. destruct (demo_busy_job n st i j Hj Ha) as [_ ->]. simpl. lia.
  - intros i i' j j' Hj Hj' Ha Ha' _. destruct (demo_busy_job n st i j Hj Ha) as [-> _].
    by destruct (demo_busy_job n st i' j' Hj' Ha') as [-> _].
  - intros i j Hj. destruct i as [|i].
    + cbn [demo_busy set_kids set_glob s_glob set_next_job_num set_jobs g_jobs demo_start] in Hj.
      rewrite list_lookup_insert_eq in Hj by (rewrite length_replicate; unfold MAX_JOBS; lia).
      injection Hj as <-. simpl. unfold MAX_PROCS_PER_JOB. lia.
    + cbn [demo_busy set_kids set_glob s_glob set_next_job_num set_jobs g_jobs demo_start] in Hj.
      rewrite list_lookup_insert_ne in Hj by lia. apply lookup_replicate in Hj as [-> _]. apply Nat.le_0_l.
  - simpl. lia.
Qed.


Example job_add_witness : sat (job_add 7 (Some (lit "cat")) JOB_RUNNING) demo_start
  (fun r s' => match r with
               | Some i => find_number 1 (jobs s') = Some (i, new_job 1 7 (Some (lit "cat")) JOB_RUNNING)
               | None => Forall (fun j => active j = true) (jobs demo_start)
               end) (fun _ _ => False).
Proof.
  eapply sat_mono; [apply (job_add_get 7 (Some (lit "cat")) JOB_RUNNING demo_start demo_start_ok)| |done].
  intros [i|] s' H; [by destruct H as (_ & _ & H & _)|by destruct H as [_ H]].
Defined.

Example job_sweep_witness : sat job_sweep (demo_busy 1 JOB_RUNNING)
  (fun _ s' => Forall (fun j => active j = true -> all_exited j = false) (jobs s')) (fun _ _ => False).
Proof.
  eapply sat_mono; [apply (job_sweep_removes_dead (demo_busy 1 JOB_RUNNING)); by apply demo_busy_ok| |done].
  by intros _ s' [H _].
Defined.

Example ctrl_d_witness : sat term_handle_ctrl_d (demo_busy 1 JOB_STOPPED) (fun first s1 =>
    if first then existsb is_stopped (jobs s1) = false \/ False
    else s_out s1 = STOPPED_JOBS /\
      sat term_handle_ctrl_d s1 (fun second _ => second = true) (fun _ _ => False)) (fun _ _ => False).
Proof.
  eapply sat_mono; [apply (ctrl_d_twice_leaves (demo_busy 1 JOB_STOPPED)); by apply demo_busy_ok| |done].
  intros [|] s1 H; cbn iota in *.
  - destruct H as [H|H]; [by left|discriminate H].
  - destruct H as (_ & H & H'). by split.
Defined.

Example activities_witness : sat (activities_builtin [lit "activities"]) (demo_busy 1 JOB_RUNNING)
  (fun r s' => r = 0 /\ s_out s' = listing (jobs s')) (fun _ _ => False).
Proof. apply (activities_lists [lit "activities"] (demo_busy 1 JOB_RUNNING)). by apply demo_busy_ok. Defined.

Example late_jobs_witness : is_Some (find_number 300 (jobs (demo_busy 300 JOB_RUNNING))) /\
  sat (activities_builtin [lit "activities"]) (demo_busy 300 JOB_RUNNING)
    (fun r s' => s_out s' = []) (fun _ _ => False).
Proof.
  split; [exists (0%nat, demo_job 300 JOB_RUNNING); vm_compute; reflexivity|].
  apply (activities_misses_late_jobs [lit "activities"] (demo_busy 300 JOB_RUNNING)); [by apply demo_busy_ok|].
  apply Forall_lookup. intros i j Hj Ha.
  destruct (demo_busy_job 300 JOB_RUNNING i j Hj Ha) as [_ ->]. done.
Defined.

Example ping_wraps_witness : sat (ping_job (lit "%4294967297") (lit "9") 9) (demo_busy 1 JOB_RUNNING)
  (fun r s' => exists extra, s_kills s' = (-500, 9) :: extra) (fun _ _ => False).
Proof.
  eapply sat_mono; [apply (ping_wraps_job_number (lit "9") 9 0 (demo_job 1 JOB_RUNNING) (demo_busy 1 JOB_RUNNING));
    [vm_compute; reflexivity|simpl; lia]| |done].
  by intros r s' [_ H].
Defined.

Example resume_returns_witness : sat (resume_builtin 2 [lit "resume"; lit "%1"; lit "fg"]) (demo_busy 1 JOB_STOPPED)
  (fun r s' => (r = 0 \/ r = -1) /\ s_masked s' = false) (fun _ _ => False).
Proof.
  eapply sat_mono; [apply (resume_returns 2 [lit "resume"; lit "%1"; lit "fg"] (demo_busy 1 JOB_STOPPED));
    [by apply demo_busy_ok|done|done|]| |done].
  - change (s_kids (demo_busy 1 JOB_STOPPED)) with ({[500]} : gset Z). rewrite size_singleton. lia.
  - by intros r s' (Hr & _ & Hm & _).
Defined.

(** ** Redirections and pipelines *)

(** Descriptors 3 and 4 hold [ab] and [c]; 5 is the pipe. *)
Definition demo_files : sysst :=
  set_in (<[3 := [ "a"; "b" ]%char]> (<[4 := [ "c" ]%char]> ∅)) (set_fds {[0; 1; 2; 3; 4; 5]} demo_start).

Example feeder_witness : sat (run_feeder_child 5 5 [3; 4]) demo_files (fun _ _ => False)
  (fun e s' => e = Exited 0 /\ (s_ioerr s' = false -> wrote s' 5 = [ "a"; "b"; "c" ]%char)).
Proof.
  eapply sat_mono; [apply (feeder_concatenates 5 5 [3; 4] demo_files)|done|].
  - repeat constructor; set_solver.
  - intros fd Hfd. set_unfold. lia.
  - intros fd Hfd. set_unfold. destruct Hfd as [->|[->|[]]]; vm_compute; lia.
  - intros e s' (-> & _ & H). split; [done|]. intros Hio. rewrite H by done. reflexivity.
Defined.

Example distributor_witness : sat (run_distributor_child 5 3 [4; 5]) demo_files (fun _ _ => False)
  (fun e s' => e = Exited 0 /\ (s_ioerr s' = false -> wrote s' 4 = [ "a"; "b" ]%char)).
Proof.
  eapply sat_mono; [apply (distributor_copies 5 3 [4; 5] demo_files)|done|].
  - repeat constructor; set_solver.
  - intros fd Hfd. set_unfold. lia.
  - vm_compute. lia.
  - intros e s' (-> & _ & H). split; [done|]. intros Hio. rewrite H by (done || set_solver). reflexivity.
Defined.

#[local] Instance demo_builtins_keep : builtins_keep demo_builtins.
Proof. split; intros args; apply keeps_ret. Qed.

#[local] Instance demo_builtins_safe : builtins_safe demo_builtins.
Proof. split; [apply demo_builtins_keep|intros args; apply safe_ret..]. Qed.



(** *** [locate] *)

(** The same system with a search path of two directories. *)
Definition demo_path_os : oracle := fun X c s =>
  match c in sys Y return Y * sysst with
  | Getenv _ => (Some (lit "/bin::tools"), s)
  | Stat path => (if bool_decide (path = lit "//ls") then None else Some (NotDir 0), s)
  | c => demo_os _ c s
  end.

Example locate_witness :
  run_prog demo_path_os (Locate.locate_builtin [lit "locate"; lit "ls"]) demo_start =
  Returned 0 (set_out (lit "/bin/ls" ++ [LF] ++ lit "//tools/ls" ++ [LF]) demo_start).
Proof.
  rewrite (locate_prints_executables demo_path_os
    (fun path => if bool_decide (path = lit "//ls") then None else Some (NotDir 0)) (fun _ => true)
    (lit "/") (Some (lit "/bin::tools"))); [reflexivity|reflexivity..|simpl; lia].
Defined.

(** ** [peek] *)

(** Descriptor 3 is a file with the given content. *)
Definition demo_file (content : str) : sysst :=
  set_in (<[3 := content]> ∅) (set_file (<[3 := content]> ∅) (set_fds {[0; 1; 2; 3]} demo_start)).


(** What a run prints. *)
Definition output_of {A} (o : outcome A) : option str :=
  match o with Returned _ s | Ended _ s => Some (s_out s) | Stuck => None end.

(** The two readers of [peek] disagree on carriage returns: forwards all
    of them are stripped at the end of a line, backwards one. For a file whose
    only line is two carriage returns [peek -n] prints an empty line, while
    [peek -n -r] prints a carriage return as line number 0. *)
Theorem peek_reverse_carriage_returns :
  output_of (run_prog demo_os (peek_forward_stream 10 3 true 1) (demo_file [CR; CR; LF])) = Some [LF] /\
  output_of (run_prog demo_os (peek_reverse_seekable 10 3 3 true 1) (demo_file [CR; CR; LF])) =
    Some (lit "0 " ++ [CR; LF]).
Proof. split; vm_compute; reflexivity. Qed.
