(* ===== verification/BuiltinDemo.v ===== *)
(** * The theorems about the builtins at concrete states *)

From stdpp Require Import base list gmap sets strings sorting.
From Stdlib Require Import ZArith Lia Ascii.
From S2P Require Import Prelude ShellBase Jobs JobFacts JobBuiltins JobTheorems Pipes PipesFacts Demo Executor ShellSafety.
From S2P Require Import Double Hop HopFacts Reveal Spy Snoop.

Open Scope Z_scope.

(** ** [hop] *)

Definition demo_table : list Entry :=
  [mkEntry (lit "/a/proj") 2 1000; mkEntry (lit "/b/proj") 9 1000; mkEntry (lit "/c/project") 100 1000].

(** The shell with that table. *)
Definition demo_hop : sysst :=
  set_glob (set_hop (mkhop_statics (lit "/home") [] (lit "/home/db") demo_table) (s_glob demo_start)) demo_start.

Lemma demo_entries_ok : Forall entry_ok demo_table.
Proof. apply (bool_decide_unpack _). vm_compute. exact I. Qed.


Example hop_visits_witness : sat (update_entry (lit "/a/proj")) demo_hop
  (fun _ s' => visits_of (lit "/b/proj") (entries (g_hop (s_glob s'))) = 9) (fun _ _ => False).
Proof.
  eapply sat_mono; [apply (hop_counts_visits (lit "/a/proj") demo_hop)| |done].
  - split_and!; [|unfold MAX_ENTRY; simpl; lia|]; apply (bool_decide_unpack _); vm_compute; exact I.
  - unfold PATH_MAX. simpl. lia.
  - intros [] s' (_ & H & _). rewrite H by (intros E; discriminate E). reflexivity.
Defined.

(** [/c/project] is no longer a directory. *)
Definition demo_kind (p : str) : option filekind :=
  if bool_decide (p = lit "/c/project") then None else Some IsDir.

Definition demo_hop_os : oracle := fun X c s =>
  match c in sys Y return Y * sysst with
  | Stat p => (demo_kind p, s)
  | c => demo_os _ c s
  end.

Example search_witness : exists r, run_prog demo_hop_os (search_frecency (lit "proj")) demo_hop = Returned r demo_hop /\
  match r with
  | Some p => exists e, p = path e /\ first_best demo_kind 1000 (lit "proj") demo_table e
  | None => forall e, e ∈ demo_table -> candidate_for demo_kind (lit "proj") e = false
  end.
Proof.
  apply (search_finds_best demo_hop_os demo_kind 1000); [reflexivity..|].
  apply (bool_decide_unpack _). vm_compute. exact I.
Defined.

(** The directory with more visits wins over the one that is listed first. *)
Example search_result : run_prog demo_hop_os (search_frecency (lit "proj")) demo_hop = Returned (Some (lit "/b/proj")) demo_hop.
Proof. vm_compute. reflexivity. Qed.

(** A line break in the name of a directory does not survive the file. *)
Example carriage_return_lost :
  let e := mkEntry (lit "/a" ++ CR :: lit "b") 1 1000 in
  scan_entry (cut_line (show_entry e)) = Some (mkEntry (lit "/a") 1 1000).
Proof. vm_compute. reflexivity. Qed.

(** ** [reveal] *)

(** [/d] holds the directory [x] with the file [y], and the file [b]. *)
Definition demo_listing (p : str) : option (list str) :=
  if bool_decide (p = lit "/d") then Some [lit "."; lit ".."; lit "x"; lit "b"]
  else if bool_decide (p = lit "/d/x") then Some [lit "y"; lit "."; lit ".."]
  else None.

Definition demo_tree_kind (p : str) : option filekind :=
  if bool_decide (p ∈ [lit "/d/x"; lit "/d/."; lit "/d/.."; lit "/d/x/."; lit "/d/x/.."]) then Some IsDir else Some (NotDir 0).

Definition demo_tree_os : oracle := fun X c s =>
  match c in sys Y return Y * sysst with
  | Stat p => (demo_tree_kind p, s)
  | Opendir p =>
      match demo_listing p with
      | None => (-1, s)
      | Some names =>
          (demo_fd s, set_fds ({[demo_fd s]} ∪ s_fds s) (set_dirs (<[demo_fd s := names]> (s_dirs s)) s))
      end
  | c => demo_os _ c s
  end.

Lemma demo_depth : depth_le demo_tree_kind demo_listing false 2 (lit "/d").
Proof.
  assert (H1 : forall names m, demo_listing (lit "/d") = Some names -> m ∈ names -> seen false m = true ->
    subdir demo_tree_kind (lit "/d") m = true -> m = lit "x").
  { intros names m [= <-] Hm Hs Hd. repeat (apply elem_of_cons in Hm as [->|Hm]; [by vm_compute in Hs, Hd|]).
    by apply elem_of_nil in Hm. }
  assert (H2 : forall names m, demo_listing (lit "/d/x") = Some names -> m ∈ names -> seen false m = true ->
    subdir demo_tree_kind (lit "/d/x") m = true -> False).
  { intros names m [= <-] Hm Hs Hd. repeat (apply elem_of_cons in Hm as [->|Hm]; [by vm_compute in Hs, Hd|]).
    by apply elem_of_nil in Hm. }
  constructor. intros names m Hl Hm Hs Hd. rewrite (H1 names m Hl Hm Hs Hd).
  change (full_path (lit "/d") (lit "x")) with (lit "/d/x"). constructor. intros names' m' Hl' Hm' Hs' Hd'.
  by destruct (H2 names' m' Hl' Hm' Hs' Hd').
Qed.

Lemma demo_listing_cases p names : demo_listing p = Some names ->
  (length names < 5)%nat /\ forall m, m ∈ names -> (length m <= 255)%nat.
Proof.
  unfold demo_listing. repeat case_bool_decide; intros [= <-]; (split; [simpl; lia|]); intros m Hm;
    repeat (apply elem_of_cons in Hm as [->|Hm]; [simpl; lia|]); by apply elem_of_nil in Hm.
Qed.

Example reveal_witness : exists lines,
  prints demo_tree_os (print_directory 5 2 (lit "/d") false true []) demo_start tt (lines_text [] lines) /\
  forall line, line ∈ lines <-> shows demo_tree_kind demo_listing false (lit "/d") line.
Proof.
  apply (proj1 (reveal_shows_tree demo_tree_os demo_tree_kind demo_listing demo_fd
    ltac:(intros s; unfold demo_fd; lia) ltac:(reflexivity) ltac:(reflexivity) ltac:(reflexivity) ltac:(reflexivity)
    ltac:(reflexivity) false (fun d names m Hl Hm => proj2 (demo_listing_cases d names Hl) m Hm) 5
    (fun d names Hl => proj1 (demo_listing_cases d names Hl)) 2 (lit "/d") demo_start demo_depth
    ltac:(unfold PATH_MAX; lia))).
Defined.

Example reveal_result : match run_prog demo_tree_os (print_directory 5 2 (lit "/d") false true []) demo_start with
  | Returned _ s => s_out s = lit "b" ++ [LF] ++ lit "x/" ++ [LF] ++ lit "x/y" ++ [LF]
  | _ => False
  end.
Proof. vm_compute. reflexivity. Qed.

(** ** [spy] *)

Definition demo_maps : list str := [lit "00400 r-x /bin/x"; lit "7f r-- /lib/c"; lit "80 r-x /lib/c"; lit "90 rw-"].

Example spy_witness : exists ps s',
  run_prog demo_os (mem_loop 6 3 7 (lit "/bin/x") [])
    (set_in (<[3 := concat (map (fun l => l ++ [LF]) demo_maps)]> ∅) demo_start) = Returned tt s' /\
  s_out s' = concat (map (mem_row (fun _ => Some S_REG) 7) ps) /\ NoDup ps /\
  forall p, p ∈ ps <-> (exists l, l ∈ demo_maps /\ maps_path (l ++ [LF]) = Some p) /\ p <> lit "/bin/x".
Proof.
  apply (spy_lists_mapped_files demo_os (fun _ => Some S_REG) ltac:(reflexivity) ltac:(reflexivity) ltac:(reflexivity)
    3 7 (lit "/bin/x") 6 demo_maps); [simpl; lia|unfold MAX_MEM_TRACKED; simpl; lia| |].
  - apply (bool_decide_unpack _). vm_compute. exact I.
  - reflexivity.
Defined.

(** ** [snoop] *)

(** A process whose stops are kept where [kill] keeps its record: a call and
    the time in seconds, or -1 and a signal. *)
Definition demo_script (s : sysst) : list tstop :=
  map (fun '(n, t) => if n =? -1 then AtSignal t else AtSyscall n (t, 0)) (s_kills s).

Definition demo_trace_os : oracle := fun X c s =>
  match c in sys Y return Y * sysst with
  | Tracewait pid =>
      (match demo_script s with
       | [] => (pid, WExited 0, EOTHER)
       | AtSyscall _ _ :: _ => (pid, WStopped SYSCALL_STOP, EOTHER)
       | AtSignal sig :: _ => (pid, WStopped sig, EOTHER)
       end, s)
  | Getregs _ => (match demo_script s with AtSyscall n _ :: _ => Some n | _ => None end, s)
  | Clock => (match demo_script s with AtSyscall _ now :: _ => now | _ => (0, 0) end, s)
  | Ptrace (PTRACE_SYSCALL _) _ => (true, set_kills (tail (s_kills s)) s)
  | c => demo_os _ c s
  end.

(** Two writes, a signal, a read and the last call. *)
Definition demo_traced : sysst :=
  set_kills [(1, 1); (1, 2); (1, 2); (-1, 17); (1, 4); (0, 4); (0, 5); (231, 6)] demo_start.

Lemma demo_trace_continue sig s : demo_script (snd (demo_trace_os _ (Ptrace (PTRACE_SYSCALL sig) 500) s)) = tail (demo_script s).
Proof. unfold demo_script. simpl. by destruct (s_kills s). Qed.


(** What is printed for it. *)
Example snoop_result : match run_prog demo_trace_os (do* stats := trace_loop 9 500 tracer0 in print_stats stats) demo_traced with
  | Returned _ s => s_out s = lit "syscall       calls   time" ++ [LF] ++ lit "write         2       3.000s" ++ [LF] ++
      lit "read          1       1.000s" ++ [LF] ++ lit "exit_group    1       0.000s" ++ [LF]
  | _ => False
  end.
Proof. vm_compute. reflexivity. Qed.
